(* ===== verification/_CoqProject ===== *)
-Q . S2P
Prelude.v
GoHeap.v
DeepCopy.v
GoStrings.v
GoFlag.v
GoPath.v
GoNet.v
GoURL.v
GoRegexp.v
Sha1.v
Base64.v
Config.v
ConfigFacts.v
ConfigParse.v
Prog.v
World.v
Volume.v
VolumeFacts.v
Params.v
ThreadSafe.v
Sim.v
Mounts.v
MountsFacts.v
BeegfsCtl.v
BeegfsCtlFacts.v
ClientFiles.v
ClientFilesFacts.v
Csi.v
Footprint.v
ControllerServer.v
ControllerFacts.v
Concurrency.v
ControllerHistory.v
NodeServer.v
Totality.v
NodeFacts.v
Tracking.v
Server.v
Driver.v
DriverFacts.v
CommandLine.v
Chwrap.v
FilterJunit.v
Kube.v
Operator.v
OperatorFacts.v
OperatorTemplate.v
OperatorServer.v
OperatorConverge.v
OperatorExample.v
OperatorMain.v
