(* ===== verification/Prelude.v ===== *)
(** * The BeeGFS CSI driver: a verification development

    The repository holds a Container Storage Interface driver for the BeeGFS
    parallel file system and a Kubernetes operator that deploys it. This library
    models both, from the Go source under src/, and proves what they promise.

    ** The program

    A volume is a directory of a BeeGFS file system; its ID is a URL with the
    management host and the path (beegfs_util.go, beegfs.go). The controller
    service (controllerserver.go) creates and deletes these directories with the
    BeeGFS command line tools (beegfs_ctl.go), the node service (nodeserver.go)
    mounts the file system and bind mounts the directory into pods; both write
    the client configuration of a mount from a template and from the plugin
    configuration (beegfs_util.go, config.go). server.go serves the RPCs,
    beegfs.go and cmd/beegfs-csi-driver start the process, cmd/chwrap runs the
    host's binaries from inside the container. The operator
    (operator/controllers, started by operator/main.go) turns a BeegfsDriver
    resource (operator/api/v1) and the embedded manifests (deploy/k8s) into the
    objects that run the driver. release-tools/filter-junit.go merges the reports
    of test runs.

    ** Files

    Go's standard library, as far as the code uses it:
    - GoStrings: strings, strconv, fmt. GoPath: path. GoNet: net and net/netip.
      GoURL: net/url. GoRegexp: regexp (derivatives). Sha1: crypto/sha1.
      Base64: encoding/base64. GoFlag: flag. GoHeap: memory, for code whose
      purpose is what it shares and what it copies.

    Programs with effects:
    - Prog: a tree of events with responses; [exec] (all its runs), [wlp],
      [always] (the events that may occur), [total] (it returns), [run]
      (evaluation). World: the events of the driver. ThreadSafe: thread_safe.go.
      Sim: a small host to evaluate programs in.

    The driver:
    - Config, ConfigFacts, ConfigParse: config.go and the configuration types, on
      a heap of shared maps, and the pure layering they compute.
    - Volume, VolumeFacts: volume IDs, volumes and their directories. The
      constructors squash the configuration, as programs that could panic, and are
      shown to compute pure functions ([volume_of] and the like).
    - Params: the parameters of CreateVolume.
    - Mounts, MountsFacts: mounting, unmounting, cleaning up, waiting for nodes.
    - BeegfsCtl, BeegfsCtlFacts: the executors, their arguments and errors.
    - ClientFiles, ClientFilesFacts: writeClientFiles.
    - Csi: messages, status codes, capability checks.
    - Footprint: what an RPC may touch on behalf of a volume, down to the
      arguments of its commands and the options of its mounts.
    - ControllerServer, ControllerFacts, Concurrency: the controller service, one
      request at a time and any interleaving of requests. ControllerHistory: the
      same pool of requests with the log of all they did.
    - NodeServer, NodeFacts: the node service.
    - Tracking: the directory through which the controller and the nodes tell each
      other who uses a volume, across the RPCs of both services.
    - Totality: the RPCs return, and which one panics on which request.
    - Server: serving, its goroutines and wait group, request IDs, what is logged
      about a call, the identity service.
    - Driver, DriverFacts: starting the driver. CommandLine: its flags and main.
    - Chwrap: cmd/chwrap.
    - FilterJunit: release-tools/filter-junit.go.

    The operator:
    - Kube: Kubernetes objects, the API server's events, the libraries as a class.
    - Operator: deploy.go and the reconciler. OperatorFacts: what a round may
      write, and in which order. OperatorTemplate: the pod templates.
      OperatorServer: an API server as an interface with laws, which admits writes
      or refuses them.
      OperatorConverge: repeated rounds. OperatorExample: an instance of the
      interfaces, a short form of the shipped manifests, and runs on them. OperatorMain: the
      operator's main and what its controller watches.
    - DeepCopy: the API types with their references and the generated methods
      that copy them (zz_generated.deepcopy.go).

    Definitions keep the source's names. A name that the source does not have
    stands for a part of a function (a loop, the body between a lock and its
    release) that is a definition of its own to reason about it.

    ** How the code is modelled

    - Go strings are byte strings. Unsigned and signed integers are [Z] with
      their width written out where it matters ([ParseUint], [wrap_int64],
      the counter of request IDs modulo 2^32, mode bits).
    - [(T, error)] is [result T]; an error keeps its chain of wrapped errors, so
      errors.As and os.IsNotExist are computed. A run-time panic is a value
      ([Panics], [Panic], or [None] where a definition says so).
    - Go maps that are shared are references into a heap (Config); the generated
      deep copies run on a heap of arrays, maps and pointer targets (GoHeap), where
      each type says which value its references stand for; other maps are
      [gmap]s, and a range over one is any permutation of its entries: a
      [RangeOrder] instance or the response of a [RangeMap] event.
    - Files, mounts, commands, sockets, the clock and the tables that requests
      share are events. A theorem over [exec] holds for every response, so for
      every behaviour of the operating system and of the libraries.
    - Deferred calls run after the body, in reverse order.
    - Requests that run at the same time interleave at their events; the tables
      are stepped atomically, as their mutexes make them. The goroutines of the
      gRPC server and its wait group are a step relation (Server).
    - What an interceptor logs about a call is a list of lines, with the request
      ID and the redacted message, and what [stripConfig] warns about is a list of
      options; other log lines are left out.

    ** What the theorems show

    - Configuration: the settings of a file system on a node are the layers of the
      file, computed without aliasing accidents, in an order that differs from the
      documented one where a node's defaults and a file system's entries disagree;
      which files are accepted; the volumes of a started driver have these settings
      and the secrets of their host.
    - Volumes: IDs round trip, directories lie where they should and are distinct;
      request parameters satisfy a declarative specification, which is wider than
      the documented one.
    - Controller: what success and failure of CreateVolume and DeleteVolume mean,
      that no RPC touches anything but its volume, that two requests never work
      on one volume at once and that no lock is left behind, that deletion waits
      for the nodes, and that the RPCs return, whatever is answered, except for a
      ControllerExpandVolume without a capacity range. What the status map remembers of a
      volume is work that some request did, in any interleaving.
    - Node: staging and publishing do what they report, in the order that makes it
      safe; a file system in use is not unmounted; the directory that CreateVolume
      makes to track a volume's nodes is the one that nodes write to and that
      DeleteVolume waits for.
    - Tools and files: the exact commands that make a directory, the contents and
      places of the client configuration files, the mount options.
    - The process: a command line that spells out settings gives the driver these
      settings; request IDs repeat after exactly 65536 calls; chwrap runs the first
      valid host binary in the host's root and nothing else; the report filter
      keeps one test case per matching name.
    - Operator: rounds converge against any server that satisfies the interface,
      or stop at the write that the server refuses; the finalizer is stored before
      anything is created and removed after everything is deleted; a round writes
      only objects of the deployment that the resource asks for, and of the
      resource only status and finalizers; a pod template gets exactly the overrides; a started operator watches
      the kinds it owns in the namespaces it was given. A deep copy has the value
      of the original, shares no memory with it and leaves it as it was.

    Some theorems state behaviour the code has and should not have: a
    configuration file that makes the driver panic, IDs of IPv6 hosts that cannot
    be read back, an ID that reaches any directory, a CreateVolume that reports
    success for a directory that is gone, an unstage that is refused after the
    node was dropped from the tracking directory, an empty parameter map in the
    answer of ValidateVolumeCapabilities, a timeout that overflows, updates
    that the operator has no permission for and that end its rounds, an expansion
    request that makes the controller panic, a Wait that outlasts the server it
    waits for, and a report on the standard input that is not read.

    ** Fuel and bounds

    - The loop over a path's parents gets the path's length plus two; it is enough
      for every rooted path ([dirs_to_make_rooted]), which all volumes that
      CreateVolume makes have.
    - DeleteVolume's wait takes fuel as an argument. With a clock that advances by
      the time slept, one unit for each two seconds of the timeout and one more are
      enough (MountsFacts); a run that is out of fuel has slept once per unit
      (Totality).
    - [Split], [FormatUint], the digits of a number and the base conversions get the length of their text
      or value. The regular expression matcher and the parsers are structural.

    ** Parameters and hypotheses

    The YAML decoder and encoder, the ini library ([Ini]: keys that are set are
    read back), SELinux contexts ([Selinux]), the Kubernetes libraries ([Kube],
    with [KubeLaws]: conditions that are set are found, equal values compare
    equal, finalizers and owners are added) and the API server ([ApiServer], with
    [ApiServerLaws]: what it admits is stored, what it refuses changes nothing), the deep copies of the Kubernetes types
    that the API embeds (they satisfy the same law as the generated ones), and
    the flags that klog and zap add to a command line. Each has an instance, and
    each theorem that uses one is applied to it. In FilterJunit the text of XML
    elements and the syntax of regular expressions are parameters without
    hypotheses.

    ** Not modelled

    - Log lines other than those of the interceptors and stripConfig's warnings,
      which theorems are about; the text of
      errors where nothing depends on it is kept as the code writes it.
    - The gRPC and CSI libraries themselves: a server registers its services and
      serves; the generated getters of messages are those the code calls.
    - The manager of controller-runtime (queues, caches, leader election): what
      the operator asks of it is modelled, and a round is a call of Reconcile.
    - The manifests' YAML text: the operator's theorems are about any decoded
      manifests that satisfy [manifests_wf]; OperatorExample has a short form of the
      shipped ones.
    - Tests and end-to-end test drivers, shell scripts and generated manifests. *)
From Stdlib Require Export Ascii ZArith Lia.
From stdpp Require Export base option list gmap sets strings sorting.

(** ** Results of fallible Go functions

    A Go function that returns [(T, error)] is modelled by [result T]. *)

Declare Scope go_scope.
Delimit Scope go_scope with go.

(** What the code can observe of an [error] value: the three error types that
    beegfs_ctl.go declares, an error on which [os.IsNotExist] holds, any other
    error with its text, and errors that wrap one or two others between texts
    (github.com/pkg/errors' [Wrap], [WithMessage] and [WithStack],
    [fmt.Errorf] with %w). *)
Inductive ctl_kind := CtlNotExist | CtlExist | CtlConnAuth.

Inductive goerr :=
  | ErrMsg (msg : string)
  | ErrNotExist (msg : string)
  | ErrCtl (k : ctl_kind) (stdOut stdErr : string)
  | ErrWrap (pre : string) (cause : goerr) (post : string)
  | ErrWrap2 (pre : string) (cause1 : goerr) (mid : string) (cause2 : goerr) (post : string).

#[export] Instance ctl_kind_eq_dec : EqDecision ctl_kind.
Proof. solve_decision. Defined.

#[export] Instance goerr_eq_dec : EqDecision goerr.
Proof. solve_decision. Defined.

(** [errors.Wrap], [errors.WithMessage] (the same text and chain) and [errors.WithStack]. *)
Definition Wrap (e : goerr) (msg : string) : goerr := ErrWrap (msg +:+ ": ") e EmptyString.
Definition WithStack (e : goerr) : goerr := ErrWrap EmptyString e EmptyString.

(** [err.Error()] *)
Fixpoint error_text (e : goerr) : string :=
  match e with
  | ErrMsg m | ErrNotExist m => m
  | ErrCtl _ o e' => "beegfs-ctl failed with stdOut: " +:+ o +:+ " and stdErr: " +:+ e'
  | ErrWrap pre c post => pre +:+ error_text c +:+ post
  | ErrWrap2 pre c1 mid c2 post => pre +:+ error_text c1 +:+ mid +:+ error_text c2 +:+ post
  end.

Inductive result (A : Type) :=
  | Ok (a : A)
  | Err (e : goerr).
Arguments Ok {A} a.
Arguments Err {A} e.

#[export] Instance result_eq_dec `{EqDecision A} : EqDecision (result A).
Proof. solve_decision. Defined.

#[export] Instance result_ret : MRet result := fun A a => Ok a.
#[export] Instance result_bind : MBind result :=
  fun A B f m => match m with Ok a => f a | Err e => Err e end.

Definition is_ok {A} (r : result A) : bool :=
  match r with Ok _ => true | Err _ => false end.

(** [errors.As(err, &ctlXError{})]: the chain of wrapped errors holds one of
    the given type. *)
Fixpoint errors_as (k : ctl_kind) (e : goerr) : bool :=
  match e with
  | ErrCtl k' _ _ => bool_decide (k = k')
  | ErrWrap _ e' _ => errors_as k e'
  | ErrWrap2 _ e1 _ e2 _ => errors_as k e1 || errors_as k e2
  | _ => false
  end.

(** [os.IsNotExist] looks at the error itself, never at what it wraps. *)
Definition os_IsNotExist (e : goerr) : bool :=
  match e with ErrNotExist _ => true | _ => false end.

(** ** Tactics *)

(** Case analysis on the scrutinee of a [match] of the goal or of a hypothesis. *)
Ltac case_scrut :=
  match goal with
  | |- context [match ?x with _ => _ end] => destruct x eqn:?
  | H : context [match ?x with _ => _ end] |- _ => destruct x eqn:?
  end.

(** Turn the boolean tests of the code into the propositions they decide. *)
Ltac bools :=
  repeat match goal with
  | H : _ && _ = true |- _ => apply andb_true_iff in H as [? ?]
  | H : _ || _ = false |- _ => apply orb_false_iff in H as [? ?]
  | H : negb _ = true |- _ => apply negb_true_iff in H
  | H : negb _ = false |- _ => apply negb_false_iff in H
  | H : bool_decide _ = true |- _ => apply bool_decide_eq_true in H
  | H : bool_decide _ = false |- _ => apply bool_decide_eq_false in H
  end.

(** ** Generic lemmas *)

Lemma result_bind_ok {A B} (f : A → result B) (m : result A) (b : B) :
  m ≫= f = Ok b ↔ ∃ a, m = Ok a ∧ f a = Ok b.
Proof.
  split; [|by intros (a & -> & ?)].
  destruct m as [a|e]; cbn; [by exists a|done].
Qed.

(** An induction that ranges over all permutations of a list needs only one
    order when the step function commutes. *)
Lemma foldl_permutation {A S} (f : S → A → S) (l1 l2 : list A) :
  (∀ s x y, f (f s x) y = f (f s y) x) →
  l1 ≡ₚ l2 → ∀ s, foldl f s l1 = foldl f s l2.
Proof.
  intros Hcomm Hp. induction Hp as [|x l1 l2 _ IH|x y l|l1 l2 l3 _ IH1 _ IH2]; intros s; cbn.
  - done.
  - apply IH.
  - by rewrite Hcomm.
  - by rewrite IH1.
Qed.

(** ** Go maps

    [for k, v := range m] visits the entries in an order the runtime chooses.
    A [RangeOrder] is such a choice; what is proved for every instance holds
    for every order. *)
Class RangeOrder := {
  range_order : gmap string string → list (string * string);
  range_perm m : range_order m ≡ₚ map_to_list m
}.

(** The order of stdpp's enumeration, for evaluation, and its reverse. *)
Definition list_order : RangeOrder :=
  {| range_order := map_to_list; range_perm := λ m, reflexivity _ |}.
Definition reverse_order : RangeOrder :=
  {| range_order := λ m, reverse (map_to_list m); range_perm := λ m, reverse_Permutation _ |}.

Section Range.
Context {RO : RangeOrder}.

Lemma range_order_NoDup (m : gmap string string) : NoDup (range_order m).*1.
Proof. rewrite range_perm. apply NoDup_fst_map_to_list. Qed.

Lemma elem_of_range_order (m : gmap string string) k v :
  (k, v) ∈ range_order m ↔ m !! k = Some v.
Proof. rewrite range_perm. apply elem_of_map_to_list. Qed.

Lemma list_to_map_range_order (m : gmap string string) : list_to_map (range_order m) = m.
Proof.
  rewrite <- (list_to_map_to_list m) at 2. apply list_to_map_proper.
  - apply range_order_NoDup.
  - apply range_perm.
Qed.

(** A loop over a map that assigns every entry to an empty one copies it. *)
Lemma foldl_insert_range_order (m : gmap string string) :
  foldl (λ m e, <[e.1 := e.2]> m) ∅ (range_order m) = m.
Proof.
  assert (∀ l (n : gmap string string), NoDup l.*1 → (∀ k, k ∈ l.*1 → n !! k = None) →
            foldl (λ m e, <[e.1 := e.2]> m) n l = n ∪ list_to_map l) as H.
  { induction l as [|[k v] l IH]; intros n Hl Hn; cbn; [by rewrite (right_id_L ∅ (∪))|].
    cbn in Hl, Hn. apply NoDup_cons in Hl as [Hk Hl].
    rewrite IH; [|done|]; [|intros k' Hk'; rewrite lookup_insert_ne by set_solver; apply Hn; set_solver].
    by rewrite <- insert_union_l, insert_union_r by (apply Hn; left). }
  rewrite H by (apply range_order_NoDup || set_solver). rewrite list_to_map_range_order. apply (left_id_L ∅ (∪)).
Qed.
End Range.
