(* ===== verification/GoHeap.v ===== *)
(** * GoHeap: Go's memory for code that copies objects

    A heap maps addresses to cells: the backing array of a slice, the entries of
    a map, the target of a pointer. Its cell type [C] is a parameter, and a Go
    type that has cells of its own is an instance of [Storable]. A value of a Go
    type may hold references; [value] follows them all, and is defined when
    every one of them is live and refers to a cell of its type. [copies] is the
    specification of code that makes copies: it leaves the heap as it is, and
    what it returns lies in the part of the heap that it adds. *)
From S2P Require Import Prelude.

Abbreviation addr := positive.

Section Heap.
Context {C : Type}.
Abbreviation heap := (gmap addr C).

(** ** Programs on the heap: [None] is a run-time panic *)

Definition hp (A : Type) : Type := heap → option (A * heap).
#[export] Instance hp_ret : MRet hp := λ A a h, Some (a, h).
#[export] Instance hp_bind : MBind hp := λ A B f m h, '(a, h') ← m h; f a h'.

Class Storable (A : Type) := {
  put : A → C;
  get : C → option A;
  get_put a : get (put a) = Some a
}.
(** The zero value of a Go type. *)
Class Zero (A : Type) := zero : A.

Definition new `{Storable A} (a : A) : hp addr := λ h,
  let l := fresh (dom h) in Some (l, <[l := put a]> h).
Definition peek `{Storable A} (h : heap) (l : addr) : option A := h !! l ≫= get.
Definition load `{Storable A} (l : addr) : hp A := λ h, a ← peek h l; Some (a, h).
Definition store `{Storable A} (l : addr) (a : A) : hp unit := λ h,
  _ ← peek (A := A) h l; Some (tt, <[l := put a]> h).

Fixpoint each {A} (f : A → hp unit) (l : list A) : hp unit :=
  match l with [] => mret tt | x :: r => _ ← f x; each f r end.

(** ** Slices

    A slice is a window of an array. Its capacity matters to append only. *)

Record slice := mkSlice { s_array : addr; s_off : nat; s_len : nat }.

Definition elems `{Storable (list A)} (h : heap) (s : slice) : option (list A) :=
  arr ← peek (A := list A) h (s_array s);
  if decide (s_off s + s_len s ≤ length arr) then Some (take (s_len s) (drop (s_off s) arr)) else None.
(** [make([]A, n)] *)
Definition make_slice A `{Storable (list A), Zero A} (n : nat) : hp slice :=
  l ← new (replicate n (zero : A)); mret (mkSlice l 0 n).
(** [s[i]] and [s[i] = a] *)
Definition index `{Storable (list A)} (s : slice) (i : nat) : hp A := λ h,
  l ← elems h s; a ← l !! i; Some (a, h).
Definition set_index `{Storable (list A)} (s : slice) (i : nat) (a : A) : hp unit :=
  arr ← load (s_array s);
  if decide (i < s_len s) then store (s_array s) (<[s_off s + i := a]> arr) else λ _, None.
(** [copy(dst, src)] *)
Definition copy_slice A `{Storable (list A)} (dst src : slice) : hp unit :=
  l ← (λ h, l ← elems h src; Some (l : list A, h));
  arr ← load (s_array dst);
  let n := s_len dst `min` s_len src in
  store (s_array dst) (take (s_off dst) arr ++ take n l ++ drop (s_off dst + n) arr).

(** ** The blocks of generated copying code

    [if in.F != nil { in, out := &in.F, &out.F; ... }] for a slice of a type
    without references, a slice of structs, a map and a pointer; and the body of
    [DeepCopy]. [into] is the [DeepCopyInto] of the elements. *)

Definition copy_flat_slice A `{Storable (list A), Zero A} (s : option slice) : hp (option slice) :=
  match s with
  | None => mret None
  | Some s => out ← make_slice A (s_len s); _ ← copy_slice A out s; mret (Some out)
  end.
Definition copy_element `{Storable (list A)} (into : A → hp A) (s out : slice) (i : nat) : hp unit :=
  x ← index s i; y ← into x; set_index out i y.
Definition copy_slice_of `{Storable (list A), Zero A} (into : A → hp A) (s : option slice) : hp (option slice) :=
  match s with
  | None => mret None
  | Some s => out ← make_slice A (s_len s); _ ← each (copy_element into s out) (seq 0 (s_len s)); mret (Some out)
  end.
Definition assign_entry `{Storable (gmap string string)} (l : addr) (e : string * string) : hp unit :=
  m ← load l; store l (<[e.1 := e.2]> (m : gmap string string)).
Definition copy_map {RO : RangeOrder} `{Storable (gmap string string)} (m : option addr) : hp (option addr) :=
  match m with
  | None => mret None
  | Some l =>
      out ← new (∅ : gmap string string); entries ← load (A := gmap string string) l;
      _ ← each (assign_entry out) (range_order entries); mret (Some out)
  end.
Definition deep_copy `{Storable A, Zero A} (into : A → hp A) (p : option addr) : hp (option addr) :=
  match p with
  | None => mret None
  | Some l => out ← new (zero : A); x ← load l; y ← into x; _ ← store out y; mret (Some out)
  end.
(** [*out = new(A); **out = **in] *)
Definition copy_ptr A `{Storable A, Zero A} : option addr → hp (option addr) := deep_copy (A := A) mret.

(** ** The values that references stand for *)

Class HasValue (A V : Type) := {
  value : heap → A → option V;
  value_mono h h' a v : h ⊆ h' → value h a = Some v → value h' a = Some v
}.

(** A slice is nil or has elements, a pointer is nil or has a target. *)
Definition slice_value `{Storable (list A), HasValue A V} (h : heap) (s : option slice) : option (option (list V)) :=
  match s with
  | None => Some None
  | Some s => l ← elems h s; vs ← mapM (value h) l; Some (Some vs)
  end.
Definition ptr_value `{Storable A, HasValue A V} (h : heap) (p : option addr) : option (option V) :=
  match p with
  | None => Some None
  | Some l => a ← peek h l; v ← value h a; Some (Some v)
  end.

(** Types without references are their own values. *)
Definition flat (A : Type) : HasValue A A := {| value _ a := Some a; value_mono _ _ _ _ _ H := H |}.

(** ** Facts *)

Lemma peek_mono `{Storable A} (h h' : heap) l (a : A) : h ⊆ h' → peek h l = Some a → peek h' l = Some a.
Proof.
  intros Hh [c [Hl Hc]]%bind_Some. unfold peek. by rewrite (lookup_weaken _ _ _ _ Hl Hh).
Qed.

Lemma elems_mono `{Storable (list A)} (h h' : heap) s (l : list A) : h ⊆ h' → elems h s = Some l → elems h' s = Some l.
Proof.
  intros Hh [arr [Ha Hl]]%bind_Some. unfold elems. by rewrite (peek_mono _ _ _ _ Hh Ha).
Qed.

Lemma values_mono `{HasValue A V} (h h' : heap) (l : list A) (vs : list V) :
  h ⊆ h' → mapM (value h) l = Some vs → mapM (value h') l = Some vs.
Proof.
  intros Hh. rewrite !mapM_Some. intros HF. induction HF; constructor; [by eapply value_mono|done].
Qed.

Lemma slice_value_mono `{Storable (list A), HasValue A V} (h h' : heap) s (vs : option (list V)) :
  h ⊆ h' → slice_value h s = Some vs → slice_value h' s = Some vs.
Proof.
  intros Hh. destruct s as [s|]; [|done]. intros (l & Hl & (ws & Hvs & Heq)%bind_Some)%bind_Some.
  cbn. rewrite (elems_mono _ _ _ _ Hh Hl). cbn. by rewrite (values_mono _ _ _ _ Hh Hvs).
Qed.

Lemma ptr_value_mono `{Storable A, HasValue A V} (h h' : heap) p (v : option V) :
  h ⊆ h' → ptr_value h p = Some v → ptr_value h' p = Some v.
Proof.
  intros Hh. destruct p as [l|]; [|done]. intros (a & Ha & (w & Hw & Heq)%bind_Some)%bind_Some.
  cbn. rewrite (peek_mono _ _ _ _ Hh Ha). cbn. by rewrite (value_mono _ _ _ _ Hh Hw).
Qed.

Lemma peek_insert `{Storable A} (h : heap) l (a : A) : peek (<[l := put a]> h) l = Some a.
Proof. unfold peek. rewrite lookup_insert_eq. cbn. apply get_put. Qed.

Lemma elems_insert `{Storable (list A)} (h : heap) l (xs : list A) :
  elems (<[l := put xs]> h) (mkSlice l 0 (length xs)) = Some xs.
Proof.
  unfold elems. cbn [s_array s_off s_len]. rewrite peek_insert. cbn.
  rewrite decide_True by done. by rewrite firstn_all.
Qed.

Lemma elems_length `{Storable (list A)} (h : heap) s (l : list A) : elems h s = Some l → length l = s_len s.
Proof.
  intros (arr & _ & Hl)%bind_Some. case_decide; [|done]. injection Hl as <-.
  rewrite length_take, length_drop. lia.
Qed.

(** ** Well-typed heaps *)

Class HeapType := {
  cell_ok : heap → C → Prop;
  cell_ok_mono h h' c : h ⊆ h' → cell_ok h c → cell_ok h' c
}.
(** What is reachable from a cell is live and has the type it is used at. *)
Definition heap_ok `{HeapType} (h : heap) : Prop := map_Forall (λ _, cell_ok h) h.
(** An [A] that is well typed may be stored. *)
Class TypedCell A V `{HeapType, Storable A, HasValue A V} :=
  cell_ok_put h a : is_Some (value h a) → cell_ok h (put a).
Class TypedArray A V `{HeapType, Storable (list A), HasValue A V} :=
  cell_ok_array h (l : list A) : Forall (λ a, is_Some (value h a)) l → cell_ok h (put l).

(** ** Copying *)

Section Copies.
Context `{HeapType}.

Definition copies {A} (m : hp A) (P : heap → A → Prop) (h : heap) : Prop :=
  ∃ a hn, m h = Some (a, hn ∪ h) ∧ hn ##ₘ h ∧ heap_ok hn ∧ P hn a.

(** [DeepCopyInto] of a type: the copy has the original's value, and has it in
    the part of the heap that was added alone. *)
Class DeepCopyable A V `{HasValue A V} := {
  DeepCopyInto : A → hp A;
  DeepCopyInto_copies h a v :
    value h a = Some v → copies (DeepCopyInto a) (λ hn a', value hn a' = Some v) h
}.

Lemma heap_ok_empty : heap_ok ∅.
Proof. apply map_Forall_empty. Qed.

Lemma heap_ok_union h1 h2 : h1 ##ₘ h2 → heap_ok h1 → heap_ok h2 → heap_ok (h1 ∪ h2).
Proof.
  intros Hd H1 H2 l c Hl. apply lookup_union_Some in Hl as [Hl|Hl]; [| |done].
  - exact (cell_ok_mono _ _ _ (map_union_subseteq_l h1 h2) (H1 l c Hl)).
  - exact (cell_ok_mono _ _ _ (map_union_subseteq_r h1 h2 Hd) (H2 l c Hl)).
Qed.

Lemma heap_ok_insert h l c : h !! l = None → cell_ok (<[l := c]> h) c → heap_ok h → heap_ok (<[l := c]> h).
Proof.
  intros Hl Hc Hok l' c' [[<- <-]|[_ Hl']]%lookup_insert_Some; [done|].
  exact (cell_ok_mono _ _ _ (insert_subseteq h l c Hl) (Hok l' c' Hl')).
Qed.

Lemma copies_ret {A} (a : A) (P : heap → A → Prop) h : P ∅ a → copies (mret a) P h.
Proof.
  intros HP. exists a, ∅. rewrite (left_id_L ∅ (∪)).
  split_and!; [done|apply map_disjoint_empty_l|apply heap_ok_empty|done].
Qed.

(** One copy after another: the later ones see a larger heap [h'], and the
    result holds what was copied before in every heap [hN] that has both. *)
Lemma copies_bind {A B} (m : hp A) (f : A → hp B) (P : heap → A → Prop) (Q : heap → B → Prop) h :
  copies m P h →
  (∀ a hn h', h ⊆ h' → P hn a → copies (f a) (λ hn' b, ∀ hN, hn ⊆ hN → hn' ⊆ hN → Q hN b) h') →
  copies (m ≫= f) Q h.
Proof.
  intros (a & hn & Hm & Hd & Hok & HP) Hf.
  destruct (Hf a hn (hn ∪ h) (map_union_subseteq_r hn h Hd) HP) as (b & hn' & Hb & Hd' & Hok' & HQ).
  apply map_disjoint_union_r in Hd' as [Hd1 Hd2].
  exists b, (hn' ∪ hn). rewrite <- (assoc_L (∪)). split_and!.
  - unfold mbind, hp_bind. rewrite Hm. exact Hb.
  - by apply map_disjoint_union_l.
  - by apply heap_ok_union.
  - apply HQ; [by apply map_union_subseteq_r|apply map_union_subseteq_l].
Qed.

(** The cell that [new] allocates is not in use. *)
Lemma fresh_lookup (h : heap) : h !! fresh (dom h) = None.
Proof. apply not_elem_of_dom, is_fresh. Qed.

Lemma new_union (h hn : heap) l c : hn ##ₘ <[l := c]> h → hn ∪ <[l := c]> h = <[l := c]> (hn ∪ h).
Proof.
  intros [Hl _]%map_disjoint_insert_r. by rewrite insert_union_r.
Qed.
(** A program that adds one cell [l] of its own to copies [hn]. *)
Lemma copies_cell {A} (m : hp A) (P : heap → A → Prop) h hn l c a :
  m h = Some (a, <[l := c]> (hn ∪ h)) → h !! l = None → hn !! l = None → hn ##ₘ h → heap_ok hn →
  cell_ok (<[l := c]> hn) c → P (<[l := c]> hn) a → copies m P h.
Proof.
  intros Hm Hh Hn Hd Hok Hc HP. exists a, (<[l := c]> hn). rewrite <- insert_union_l.
  split_and!; [done|by apply map_disjoint_insert_l|by apply heap_ok_insert|done].
Qed.

Lemma hp_step {A B} (m : hp A) (f : A → hp B) h h' a : m h = Some (a, h') → (m ≫= f) h = f a h'.
Proof. unfold mbind, hp_bind. by intros ->. Qed.
Lemma new_step `{Storable A} (a : A) h : new a h = Some (fresh (dom h), <[fresh (dom h) := put a]> h).
Proof. done. Qed.
Lemma load_step `{Storable A} l (a : A) h : peek h l = Some a → load l h = Some (a, h).
Proof. unfold load. by intros ->. Qed.
Lemma store_step `{Storable A} l (a b : A) h : peek h l = Some b → store l a h = Some (tt, <[l := put a]> h).
Proof. unfold store. by intros ->. Qed.
Lemma new_subseteq (h : heap) c : h ⊆ <[fresh (dom h) := c]> h.
Proof. apply insert_subseteq, fresh_lookup. Qed.

Lemma copy_flat_slice_spec A `{Storable (list A), Zero A} {T : TypedArray A A (H1 := flat A)} h s v :
  slice_value (H0 := flat A) h s = Some v →
  copies (copy_flat_slice A s) (λ hn s', slice_value (H0 := flat A) hn s' = Some v) h.
Proof.
  destruct s as [s|]; [|intros [= <-]; by apply copies_ret].
  intros (l & Hl & (ws & Hvs & [= <-])%bind_Some)%bind_Some.
  assert (ws = l) as ->.
  { apply mapM_Some in Hvs. clear Hl. induction Hvs as [|? ? ? ? Hx]; [done|]. injection Hx as <-. by f_equal. }
  pose proof (elems_length _ _ _ Hl) as Hlen. set (l0 := fresh (dom h)).
  apply (copies_cell _ _ h ∅ l0 (put l) (Some (mkSlice l0 0 (length l)))).
  - unfold copy_flat_slice, make_slice, copy_slice. rewrite (left_id_L ∅ (∪)).
    erewrite hp_step; [|erewrite hp_step by apply new_step; reflexivity]. fold l0.
    erewrite hp_step; [cbn; rewrite Hlen; reflexivity|].
    erewrite hp_step; [|rewrite (elems_mono _ _ _ _ (new_subseteq h _) Hl); reflexivity].
    erewrite hp_step by apply load_step, peek_insert. cbn.
    erewrite store_step by apply peek_insert. rewrite insert_insert_eq, Nat.min_id, <- Hlen, firstn_all.
    rewrite drop_ge by (by rewrite length_replicate). by rewrite app_nil_r.
  - apply fresh_lookup.
  - apply lookup_empty.
  - apply map_disjoint_empty_l.
  - apply heap_ok_empty.
  - apply T, Forall_forall. intros x _. by exists x.
  - cbn. rewrite elems_insert. cbn. change (mapM _ l) with (mapM (value (HasValue := flat A) h) l). by rewrite Hvs.
Qed.
Section StructSlices.
Context `{Storable (list A), Zero A, DeepCopyable A V} {T : TypedArray A V}.

(** After the first [i] rounds of the loop the first [i] elements of the new
    array are copies; [k] rounds remain. *)
Lemma copy_elements_spec h s (l : list A) (vs : list V) l0 :
  elems h s = Some l → mapM (value h) l = Some vs → h !! l0 = None →
  ∀ k i arr hn, i + k = length l → length arr = length l → hn !! l0 = None → hn ##ₘ h → heap_ok hn →
  Forall2 (λ x v, value hn x = Some v) (take i arr) (take i vs) →
  ∃ arr' hn', each (copy_element DeepCopyInto s (mkSlice l0 0 (length l))) (seq i k) (<[l0 := put arr]> (hn ∪ h))
      = Some (tt, <[l0 := put arr']> (hn' ∪ h))
    ∧ length arr' = length l ∧ hn' !! l0 = None ∧ hn' ##ₘ h ∧ heap_ok hn'
    ∧ Forall2 (λ x v, value hn' x = Some v) arr' vs.
Proof.
  intros Hl Hvs Hl0. apply mapM_Some in Hvs. pose proof (Forall2_length _ _ _ Hvs) as Hlen.
  induction k as [|k IH]; intros i arr hn Hik Harr Hn Hd Hok Hdone.
  { exists arr, hn. rewrite !take_ge in Hdone by lia. done. }
  destruct (lookup_lt_is_Some_2 l i ltac:(lia)) as [x Hx].
  destruct (Forall2_lookup_l _ _ _ _ _ Hvs Hx) as (v & Hv & Hxv).
  set (H' := <[l0 := put arr]> (hn ∪ h)).
  assert (h ⊆ H') as Hsub.
  { transitivity (hn ∪ h); [by apply map_union_subseteq_r|]. apply insert_subseteq, lookup_union_None; done. }
  destruct (DeepCopyInto_copies H' x v (value_mono _ _ _ _ Hsub Hxv)) as (y & hc & Hy & Hdc & Hokc & Hyv).
  apply map_disjoint_insert_r in Hdc as [Hc0 [Hcn Hch]%map_disjoint_union_r].
  destruct (IH (S i) (<[i := y]> arr) (hc ∪ hn)) as (arr' & hn' & Hrun & ?); [lia| | | | | |].
  - by rewrite length_insert.
  - by apply lookup_union_None.
  - by apply map_disjoint_union_l.
  - by apply heap_ok_union.
  - rewrite (take_S_r _ _ y) by (apply list_lookup_insert_eq; lia). rewrite (take_S_r _ _ v Hv).
    rewrite take_insert_ge by done. apply Forall2_app; [|by constructor; [apply (value_mono hc); [apply map_union_subseteq_l|]|]].
    eapply Forall2_impl; [exact Hdone|]. intros a w. apply value_mono. by apply map_union_subseteq_r.
  - exists arr', hn'. split; [|done]. rewrite <- Hrun. cbn [seq each]. refine (hp_step _ (λ _, each _ _) _ _ tt _).
    unfold copy_element. erewrite hp_step.
    2:{ unfold index. rewrite (elems_mono _ _ _ _ Hsub Hl). cbn. rewrite Hx. reflexivity. }
    erewrite hp_step by exact Hy. unfold H', set_index. cbn [s_array s_off s_len].
    rewrite new_union by (by apply map_disjoint_insert_r; rewrite map_disjoint_union_r).
    erewrite hp_step by apply load_step, peek_insert. rewrite decide_True by lia.
    erewrite store_step by apply peek_insert. by rewrite insert_insert_eq, (assoc_L (∪)).
Qed.

Lemma copy_slice_of_spec h s v :
  slice_value h s = Some v →
  copies (copy_slice_of DeepCopyInto s) (λ hn s', slice_value hn s' = Some v) h.
Proof.
  destruct s as [s|]; [|intros [= <-]; by apply copies_ret].
  intros (l & Hl & (vs & Hvs & [= <-])%bind_Some)%bind_Some.
  pose proof (elems_length _ _ _ Hl) as Hlen. set (l0 := fresh (dom h)).
  destruct (copy_elements_spec h s l vs l0 Hl Hvs (fresh_lookup h) (length l) 0 (replicate (length l) zero) ∅)
    as (arr & hn & Hrun & Harr & Hn & Hd & Hok & HF);
    [done|apply length_replicate|apply lookup_empty|apply map_disjoint_empty_l|apply heap_ok_empty|constructor|].
  assert (mapM (value (<[l0 := put arr]> hn)) arr = Some vs) as Hm.
  { apply (values_mono hn); [by apply insert_subseteq|by apply mapM_Some]. }
  apply (copies_cell _ _ h hn l0 (put arr) (Some (mkSlice l0 0 (length arr)))); try done.
  - unfold copy_slice_of, make_slice. rewrite (left_id_L ∅ (∪)) in Hrun.
    erewrite hp_step; [|erewrite hp_step by apply new_step; reflexivity]. fold l0.
    rewrite <- Hlen, Harr. by erewrite hp_step by exact Hrun.
  - apply fresh_lookup.
  - apply T, Forall_forall. intros x Hx. apply mapM_Some in Hm. apply list_elem_of_lookup in Hx as [i Hx].
    destruct (Forall2_lookup_l _ _ _ _ _ Hm Hx) as (w & _ & Hw). by exists w.
  - cbn. rewrite elems_insert. cbn. by rewrite Hm.
Qed.
End StructSlices.
(** ** Maps and pointers *)

Lemma assign_entries_step `{Storable (gmap string string)} l h kvs : ∀ m : gmap string string,
  each (assign_entry l) kvs (<[l := put m]> h)
  = Some (tt, <[l := put (foldl (λ m e, <[e.1 := e.2]> m) m kvs)]> h).
Proof.
  induction kvs as [|e kvs IH]; intros m; [done|]. cbn [each foldl]. rewrite <- IH.
  refine (hp_step _ (λ _, each _ _) _ _ tt _). unfold assign_entry.
  erewrite hp_step by apply load_step, peek_insert. erewrite store_step by apply peek_insert.
  by rewrite insert_insert_eq.
Qed.

Lemma copy_map_spec {RO : RangeOrder} `{Storable (gmap string string)}
    {T : TypedCell (gmap string string) (gmap string string) (H1 := flat _)} h m v :
  ptr_value (H0 := flat (gmap string string)) h m = Some v →
  copies (copy_map m) (λ hn m', ptr_value (H0 := flat (gmap string string)) hn m' = Some v) h.
Proof.
  destruct m as [l|]; [|intros [= <-]; by apply copies_ret].
  intros (e & Hl & [= <-])%bind_Some. set (l0 := fresh (dom h)).
  apply (copies_cell _ _ h ∅ l0 (put e) (Some l0)).
  - unfold copy_map. rewrite (left_id_L ∅ (∪)). erewrite hp_step by apply new_step. fold l0.
    erewrite hp_step by apply load_step, (peek_mono _ _ _ _ (new_subseteq h _) Hl).
    erewrite hp_step by apply assign_entries_step. by rewrite foldl_insert_range_order.
  - apply fresh_lookup.
  - apply lookup_empty.
  - apply map_disjoint_empty_l.
  - apply heap_ok_empty.
  - apply T. by exists e.
  - cbn. by rewrite peek_insert.
Qed.

Lemma deep_copy_spec `{Storable A, Zero A, DeepCopyable A V} {T : TypedCell A V} h p v :
  ptr_value h p = Some v →
  copies (deep_copy DeepCopyInto p) (λ hn p', ptr_value hn p' = Some v) h.
Proof.
  destruct p as [l|]; [|intros [= <-]; by apply copies_ret].
  intros (x & Hl & (w & Hw & [= <-])%bind_Some)%bind_Some. set (l0 := fresh (dom h)).
  set (H' := <[l0 := put zero]> h). pose proof (new_subseteq h (put zero)) as Hsub.
  destruct (DeepCopyInto_copies H' x w (value_mono _ _ _ _ Hsub Hw)) as (y & hn & Hy & Hd & Hok & Hyw).
  pose proof (new_union _ _ _ _ Hd) as Hu. apply map_disjoint_insert_r in Hd as [Hn0 Hd].
  assert (value (<[l0 := put y]> hn) y = Some w) as Hv by (by eapply value_mono; [apply insert_subseteq|]).
  apply (copies_cell _ _ h hn l0 (put y) (Some l0)); try done.
  - unfold deep_copy. erewrite hp_step by apply new_step. fold l0 H'.
    erewrite hp_step by apply load_step, (peek_mono _ _ _ _ Hsub Hl). erewrite hp_step by exact Hy.
    unfold H'. rewrite Hu. erewrite hp_step by (eapply store_step, peek_insert). by rewrite insert_insert_eq.
  - apply fresh_lookup.
  - apply T. by exists w.
  - cbn. rewrite peek_insert. cbn. by rewrite Hv.
Qed.

(** A type without references is copied by assignment. *)
#[export] Instance flat_copy A : DeepCopyable A A (H0 := flat A).
Proof.
  refine {| DeepCopyInto := mret |}. intros h a v Hv. by apply copies_ret.
Defined.

Lemma copy_ptr_spec A `{Storable A, Zero A} {T : TypedCell A A (H1 := flat A)} h p v :
  ptr_value (H0 := flat A) h p = Some v →
  copies (copy_ptr A p) (λ hn p', ptr_value (H0 := flat A) hn p' = Some v) h.
Proof. apply (deep_copy_spec (H2 := flat A) (H3 := flat_copy A)). Qed.
End Copies.
End Heap.
Arguments hp : clear implicits.
Arguments Storable : clear implicits.
Arguments HeapType : clear implicits.
Arguments HasValue : clear implicits.
Arguments flat : clear implicits.
