(* ===== verification/DeepCopy.v ===== *)
(** * DeepCopy: the generated deep copies (zz_generated.deepcopy.go)

    The API types as Go holds them, with slices, maps and pointers that refer to
    the heap of GoHeap, and the generated [DeepCopyInto], [DeepCopy] and
    [DeepCopyObject] methods. A type is declared once over a representation of
    references: at [mem] they are addresses, at [val] what the addresses stand
    for. [DeepCopyInto(in, out)] takes the struct that [in] points to and returns
    the one it leaves in [out]; [out] never overlaps [in] in a call of the
    generated code. The types of the Kubernetes libraries that the API embeds,
    with their own [DeepCopyInto], are parameters. *)
From S2P Require Import Prelude GoHeap.
Local Open Scope Z_scope.

(** ** Representations *)

Inductive tp_type := ObjectMeta | ListMeta | ResourceRequirements | NodeAffinity | Condition.

Record repr := mkRepr {
  Slice : Type → Type;
  Map : Type;
  Ptr : Type → Type;
  Tp : tp_type → Type
}.

(** ** The types (beegfsdriver_types.go) *)

Section Types.
Context (R : repr).

Record BeegfsConfig := mkBeegfsConfig {
  GrpcPort : string;
  ConnInterfaces : Slice R string;
  ConnNetFilter : Slice R string;
  ConnTcpOnlyFilter : Slice R string;
  BeegfsClientConf : Map R;
  ConnAuth : string;
  TLSCert : string;
  ConnRDMAInterfaces : Slice R string
}.
Record FileSystemSpecificConfig := mkFileSystem { SysMgmtdHost : string; Config : BeegfsConfig }.
Record PluginConfig := mkPluginConfig {
  DefaultConfig : BeegfsConfig;
  FileSystemSpecificConfigs : Slice R FileSystemSpecificConfig
}.
Record NodeSpecificConfig := mkNode {
  NodeList : Slice R string;
  node_DefaultConfig : BeegfsConfig;
  node_FileSystemSpecificConfigs : Slice R FileSystemSpecificConfig
}.
Record PluginConfigFromFile := mkFromFile {
  embedded_PluginConfig : PluginConfig;
  NodeSpecificConfigs : Slice R NodeSpecificConfig
}.

Record ContainerResourceOverrides := mkResourceOverrides {
  ControllerBeegfsResources : Tp R ResourceRequirements;
  ControllerCsiProvisionerResources : Tp R ResourceRequirements;
  NodeBeegfsResources : Tp R ResourceRequirements;
  NodeDriverRegistrarResources : Tp R ResourceRequirements;
  NodeLivenessProbeResources : Tp R ResourceRequirements
}.
End Types.

(** Types without references. *)
Record ConnAuthConfig := mkConnAuthConfig { ca_SysMgmtdHost : string; ca_ConnAuth : string; Encoding : string }.
Record TLSCertConfig := mkTLSCertConfig { tls_SysMgmtdHost : string; tls_TLSCert : string }.
Record ContainerImageOverride := mkImage { Image : string; Tag : string }.
Record ContainerImageOverrides := mkImages {
  BeegfsCsiDriver : ContainerImageOverride;
  CsiNodeDriverRegistrar : ContainerImageOverride;
  CsiProvisioner : ContainerImageOverride;
  CsiResizer : ContainerImageOverride;
  LivenessProbe : ContainerImageOverride
}.
Record TypeMeta := mkTypeMeta { Kind : string; APIVersion : string }.

Section DriverTypes.
Context (R : repr).

Record BeegfsDriverSpec := mkSpec {
  spec_ContainerImageOverrides : ContainerImageOverrides;
  spec_ContainerResourceOverrides : ContainerResourceOverrides R;
  LogLevel : Ptr R Z;
  NodeAffinityControllerService : Tp R NodeAffinity;
  NodeAffinityNodeService : Tp R NodeAffinity;
  spec_PluginConfigFromFile : PluginConfigFromFile R
}.
Record BeegfsDriverStatus := mkStatus { Conditions : Slice R (Tp R Condition) }.
Record BeegfsDriver := mkDriver {
  d_TypeMeta : TypeMeta;
  d_ObjectMeta : Tp R ObjectMeta;
  Spec : BeegfsDriverSpec;
  Status : BeegfsDriverStatus
}.
Record BeegfsDriverList := mkDriverList {
  l_TypeMeta : TypeMeta;
  l_ListMeta : Tp R ListMeta;
  Items : Slice R BeegfsDriver
}.
End DriverTypes.

(** ** Memory *)

(** The library types in memory and as values, and their own cells. *)
Record third_party := mkThirdParty {
  tp_cell : Type;
  tp_mem : tp_type → Type;
  tp_val : tp_type → Type
}.
Definition mem (X : third_party) : repr :=
  {| Slice _ := option slice; Map := option addr; Ptr _ := option addr; Tp := tp_mem X |}.
Definition val (X : third_party) : repr :=
  {| Slice A := option (list A); Map := option (gmap string string); Ptr A := option A; Tp := tp_val X |}.

Inductive cell (X : third_party) :=
  | CStrings (l : list string)
  | CMap (m : gmap string string)
  | CInt (n : Z)
  | CFileSystems (l : list (FileSystemSpecificConfig (mem X)))
  | CNodes (l : list (NodeSpecificConfig (mem X)))
  | CConditions (l : list (tp_mem X Condition))
  | CDrivers (l : list (BeegfsDriver (mem X)))
  | CBeegfsConfig (a : BeegfsConfig (mem X))
  | CFileSystem (a : FileSystemSpecificConfig (mem X))
  | CPluginConfig (a : PluginConfig (mem X))
  | CNode (a : NodeSpecificConfig (mem X))
  | CFromFile (a : PluginConfigFromFile (mem X))
  | CResourceOverrides (a : ContainerResourceOverrides (mem X))
  | CConnAuth (a : ConnAuthConfig)
  | CTLSCert (a : TLSCertConfig)
  | CImage (a : ContainerImageOverride)
  | CImages (a : ContainerImageOverrides)
  | CSpec (a : BeegfsDriverSpec (mem X))
  | CStatus (a : BeegfsDriverStatus (mem X))
  | CDriver (a : BeegfsDriver (mem X))
  | CDriverList (a : BeegfsDriverList (mem X))
  | CThirdParty (c : tp_cell X).

Section Copy.
Context {X : third_party} {RO : RangeOrder}.
Abbreviation C := (cell X).
Abbreviation heap := (gmap addr C).

(** Each type has cells of its own. *)
#[export] Instance put_strings : Storable C (list string) :=
  {| put := CStrings X; get c := match c with CStrings _ a => Some a | _ => None end; get_put _ := eq_refl |}.
#[export] Instance put_map : Storable C (gmap string string) :=
  {| put := CMap X; get c := match c with CMap _ a => Some a | _ => None end; get_put _ := eq_refl |}.
#[export] Instance put_int : Storable C (Z) :=
  {| put := CInt X; get c := match c with CInt _ a => Some a | _ => None end; get_put _ := eq_refl |}.
#[export] Instance put_file_systems : Storable C (list (FileSystemSpecificConfig (mem X))) :=
  {| put := CFileSystems X; get c := match c with CFileSystems _ a => Some a | _ => None end; get_put _ := eq_refl |}.
#[export] Instance put_nodes : Storable C (list (NodeSpecificConfig (mem X))) :=
  {| put := CNodes X; get c := match c with CNodes _ a => Some a | _ => None end; get_put _ := eq_refl |}.
#[export] Instance put_conditions : Storable C (list (tp_mem X Condition)) :=
  {| put := CConditions X; get c := match c with CConditions _ a => Some a | _ => None end; get_put _ := eq_refl |}.
#[export] Instance put_drivers : Storable C (list (BeegfsDriver (mem X))) :=
  {| put := CDrivers X; get c := match c with CDrivers _ a => Some a | _ => None end; get_put _ := eq_refl |}.
#[export] Instance put_BeegfsConfig : Storable C (BeegfsConfig (mem X)) :=
  {| put := CBeegfsConfig X; get c := match c with CBeegfsConfig _ a => Some a | _ => None end; get_put _ := eq_refl |}.
#[export] Instance put_FileSystem : Storable C (FileSystemSpecificConfig (mem X)) :=
  {| put := CFileSystem X; get c := match c with CFileSystem _ a => Some a | _ => None end; get_put _ := eq_refl |}.
#[export] Instance put_PluginConfig : Storable C (PluginConfig (mem X)) :=
  {| put := CPluginConfig X; get c := match c with CPluginConfig _ a => Some a | _ => None end; get_put _ := eq_refl |}.
#[export] Instance put_Node : Storable C (NodeSpecificConfig (mem X)) :=
  {| put := CNode X; get c := match c with CNode _ a => Some a | _ => None end; get_put _ := eq_refl |}.
#[export] Instance put_FromFile : Storable C (PluginConfigFromFile (mem X)) :=
  {| put := CFromFile X; get c := match c with CFromFile _ a => Some a | _ => None end; get_put _ := eq_refl |}.
#[export] Instance put_ResourceOverrides : Storable C (ContainerResourceOverrides (mem X)) :=
  {| put := CResourceOverrides X; get c := match c with CResourceOverrides _ a => Some a | _ => None end; get_put _ := eq_refl |}.
#[export] Instance put_ConnAuth : Storable C (ConnAuthConfig) :=
  {| put := CConnAuth X; get c := match c with CConnAuth _ a => Some a | _ => None end; get_put _ := eq_refl |}.
#[export] Instance put_TLSCert : Storable C (TLSCertConfig) :=
  {| put := CTLSCert X; get c := match c with CTLSCert _ a => Some a | _ => None end; get_put _ := eq_refl |}.
#[export] Instance put_Image : Storable C (ContainerImageOverride) :=
  {| put := CImage X; get c := match c with CImage _ a => Some a | _ => None end; get_put _ := eq_refl |}.
#[export] Instance put_Images : Storable C (ContainerImageOverrides) :=
  {| put := CImages X; get c := match c with CImages _ a => Some a | _ => None end; get_put _ := eq_refl |}.
#[export] Instance put_Spec : Storable C (BeegfsDriverSpec (mem X)) :=
  {| put := CSpec X; get c := match c with CSpec _ a => Some a | _ => None end; get_put _ := eq_refl |}.
#[export] Instance put_Status : Storable C (BeegfsDriverStatus (mem X)) :=
  {| put := CStatus X; get c := match c with CStatus _ a => Some a | _ => None end; get_put _ := eq_refl |}.
#[export] Instance put_Driver : Storable C (BeegfsDriver (mem X)) :=
  {| put := CDriver X; get c := match c with CDriver _ a => Some a | _ => None end; get_put _ := eq_refl |}.
#[export] Instance put_DriverList : Storable C (BeegfsDriverList (mem X)) :=
  {| put := CDriverList X; get c := match c with CDriverList _ a => Some a | _ => None end; get_put _ := eq_refl |}.

(** Zero values. *)
Context {tp_zero : ∀ t, Zero (tp_mem X t)}.
#[export] Instance zero_string : Zero string := EmptyString.
#[export] Instance zero_int : Zero Z := 0.
#[export] Instance zero_BeegfsConfig : Zero (BeegfsConfig (mem X)) :=
  mkBeegfsConfig (mem X) zero None None None None zero zero None.
#[export] Instance zero_FileSystem : Zero (FileSystemSpecificConfig (mem X)) := mkFileSystem (mem X) zero zero.
#[export] Instance zero_PluginConfig : Zero (PluginConfig (mem X)) := mkPluginConfig (mem X) zero None.
#[export] Instance zero_Node : Zero (NodeSpecificConfig (mem X)) := mkNode (mem X) None zero None.
#[export] Instance zero_FromFile : Zero (PluginConfigFromFile (mem X)) := mkFromFile (mem X) zero None.
#[export] Instance zero_ResourceOverrides : Zero (ContainerResourceOverrides (mem X)) :=
  let r := tp_zero ResourceRequirements in mkResourceOverrides (mem X) r r r r r.
#[export] Instance zero_ConnAuth : Zero ConnAuthConfig := mkConnAuthConfig zero zero zero.
#[export] Instance zero_TLSCert : Zero TLSCertConfig := mkTLSCertConfig zero zero.
#[export] Instance zero_Image : Zero ContainerImageOverride := mkImage zero zero.
#[export] Instance zero_Images : Zero ContainerImageOverrides := mkImages zero zero zero zero zero.
#[export] Instance zero_TypeMeta : Zero TypeMeta := mkTypeMeta zero zero.
#[export] Instance zero_Spec : Zero (BeegfsDriverSpec (mem X)) :=
  mkSpec (mem X) zero zero None (tp_zero NodeAffinity) (tp_zero NodeAffinity) zero.
#[export] Instance zero_Status : Zero (BeegfsDriverStatus (mem X)) := mkStatus (mem X) None.
#[export] Instance zero_Driver : Zero (BeegfsDriver (mem X)) := mkDriver (mem X) zero (tp_zero ObjectMeta) zero zero.
#[export] Instance zero_DriverList : Zero (BeegfsDriverList (mem X)) := mkDriverList (mem X) zero (tp_zero ListMeta) None.

(** ** DeepCopyInto *)

Definition BeegfsConfig_DeepCopyInto (in_ : BeegfsConfig (mem X)) : hp C (BeegfsConfig (mem X)) :=
  interfaces ← copy_flat_slice string (ConnInterfaces _ in_);
  netFilter ← copy_flat_slice string (ConnNetFilter _ in_);
  tcpOnlyFilter ← copy_flat_slice string (ConnTcpOnlyFilter _ in_);
  clientConf ← copy_map (BeegfsClientConf _ in_);
  rdmaInterfaces ← copy_flat_slice string (ConnRDMAInterfaces _ in_);
  mret (mkBeegfsConfig (mem X) (GrpcPort _ in_) interfaces netFilter tcpOnlyFilter clientConf
          (ConnAuth _ in_) (TLSCert _ in_) rdmaInterfaces).

Definition FileSystemSpecificConfig_DeepCopyInto (in_ : FileSystemSpecificConfig (mem X))
    : hp C (FileSystemSpecificConfig (mem X)) :=
  config ← BeegfsConfig_DeepCopyInto (Config _ in_);
  mret (mkFileSystem (mem X) (SysMgmtdHost _ in_) config).

Definition PluginConfig_DeepCopyInto (in_ : PluginConfig (mem X)) : hp C (PluginConfig (mem X)) :=
  defaultConfig ← BeegfsConfig_DeepCopyInto (DefaultConfig _ in_);
  configs ← copy_slice_of FileSystemSpecificConfig_DeepCopyInto (FileSystemSpecificConfigs _ in_);
  mret (mkPluginConfig (mem X) defaultConfig configs).

Definition NodeSpecificConfig_DeepCopyInto (in_ : NodeSpecificConfig (mem X)) : hp C (NodeSpecificConfig (mem X)) :=
  nodeList ← copy_flat_slice string (NodeList _ in_);
  defaultConfig ← BeegfsConfig_DeepCopyInto (node_DefaultConfig _ in_);
  configs ← copy_slice_of FileSystemSpecificConfig_DeepCopyInto (node_FileSystemSpecificConfigs _ in_);
  mret (mkNode (mem X) nodeList defaultConfig configs).

Definition PluginConfigFromFile_DeepCopyInto (in_ : PluginConfigFromFile (mem X)) : hp C (PluginConfigFromFile (mem X)) :=
  pluginConfig ← PluginConfig_DeepCopyInto (embedded_PluginConfig _ in_);
  configs ← copy_slice_of NodeSpecificConfig_DeepCopyInto (NodeSpecificConfigs _ in_);
  mret (mkFromFile (mem X) pluginConfig configs).

Definition ConnAuthConfig_DeepCopyInto (in_ : ConnAuthConfig) : hp C ConnAuthConfig := mret in_.
Definition TLSCertConfig_DeepCopyInto (in_ : TLSCertConfig) : hp C TLSCertConfig := mret in_.
Definition ContainerImageOverride_DeepCopyInto (in_ : ContainerImageOverride) : hp C ContainerImageOverride := mret in_.
Definition ContainerImageOverrides_DeepCopyInto (in_ : ContainerImageOverrides) : hp C ContainerImageOverrides :=
  mret (mkImages (BeegfsCsiDriver in_) (CsiNodeDriverRegistrar in_) (CsiProvisioner in_) (CsiResizer in_) (LivenessProbe in_)).

(** ** Values *)

#[export] Instance value_string : HasValue C string string := flat C string.
#[export] Instance value_int : HasValue C Z Z := flat C Z.
#[export] Instance value_map : HasValue C (gmap string string) (gmap string string) := flat C _.

Definition BeegfsConfig_value (h : heap) (c : BeegfsConfig (mem X)) : option (BeegfsConfig (val X)) :=
  interfaces ← slice_value h (ConnInterfaces _ c);
  netFilter ← slice_value h (ConnNetFilter _ c);
  tcpOnlyFilter ← slice_value h (ConnTcpOnlyFilter _ c);
  clientConf ← ptr_value h (BeegfsClientConf _ c);
  rdmaInterfaces ← slice_value h (ConnRDMAInterfaces _ c);
  Some (mkBeegfsConfig (val X) (GrpcPort _ c) interfaces netFilter tcpOnlyFilter clientConf
          (ConnAuth _ c) (TLSCert _ c) rdmaInterfaces).

(** A chain of lookups that succeeds in a heap succeeds in a larger one. *)
Lemma bind_mono {A B} (x x' : option A) (f f' : A → option B) b :
  x ≫= f = Some b → (∀ a, x = Some a → x' = Some a) → (∀ a, f a = Some b → f' a = Some b) → x' ≫= f' = Some b.
Proof. intros (a & Hx & Hf)%bind_Some Hxx Hff. rewrite (Hxx a Hx). exact (Hff a Hf). Qed.

Ltac values_grow Hh H :=
  repeat (apply (bind_mono _ _ _ _ _ H); clear H;
    [intros ?; first [apply (slice_value_mono _ _ _ _ Hh)|apply (ptr_value_mono _ _ _ _ Hh)|apply (value_mono _ _ _ _ Hh)]
    |intros ? H]);
  exact H.

#[export] Instance value_BeegfsConfig : HasValue C (BeegfsConfig (mem X)) (BeegfsConfig (val X)).
Proof.
  refine {| value := BeegfsConfig_value |}. intros h h' c v Hh H. unfold BeegfsConfig_value in *. values_grow Hh H.
Defined.

Definition FileSystemSpecificConfig_value (h : heap) (c : FileSystemSpecificConfig (mem X))
    : option (FileSystemSpecificConfig (val X)) :=
  config ← value h (Config _ c); Some (mkFileSystem (val X) (SysMgmtdHost _ c) config).
#[export] Instance value_FileSystem : HasValue C (FileSystemSpecificConfig (mem X)) (FileSystemSpecificConfig (val X)).
Proof.
  refine {| value := FileSystemSpecificConfig_value |}. intros h h' c v Hh H.
  unfold FileSystemSpecificConfig_value in *. values_grow Hh H.
Defined.

Definition PluginConfig_value (h : heap) (c : PluginConfig (mem X)) : option (PluginConfig (val X)) :=
  defaultConfig ← value h (DefaultConfig _ c); configs ← slice_value h (FileSystemSpecificConfigs _ c);
  Some (mkPluginConfig (val X) defaultConfig configs).
#[export] Instance value_PluginConfig : HasValue C (PluginConfig (mem X)) (PluginConfig (val X)).
Proof.
  refine {| value := PluginConfig_value |}. intros h h' c v Hh H. unfold PluginConfig_value in *. values_grow Hh H.
Defined.

Definition NodeSpecificConfig_value (h : heap) (c : NodeSpecificConfig (mem X)) : option (NodeSpecificConfig (val X)) :=
  nodeList ← slice_value h (NodeList _ c); defaultConfig ← value h (node_DefaultConfig _ c);
  configs ← slice_value h (node_FileSystemSpecificConfigs _ c);
  Some (mkNode (val X) nodeList defaultConfig configs).
#[export] Instance value_Node : HasValue C (NodeSpecificConfig (mem X)) (NodeSpecificConfig (val X)).
Proof.
  refine {| value := NodeSpecificConfig_value |}. intros h h' c v Hh H. unfold NodeSpecificConfig_value in *. values_grow Hh H.
Defined.

Definition PluginConfigFromFile_value (h : heap) (c : PluginConfigFromFile (mem X)) : option (PluginConfigFromFile (val X)) :=
  pluginConfig ← value h (embedded_PluginConfig _ c); configs ← slice_value h (NodeSpecificConfigs _ c);
  Some (mkFromFile (val X) pluginConfig configs).
#[export] Instance value_FromFile : HasValue C (PluginConfigFromFile (mem X)) (PluginConfigFromFile (val X)).
Proof.
  refine {| value := PluginConfigFromFile_value |}. intros h h' c v Hh H.
  unfold PluginConfigFromFile_value in *. values_grow Hh H.
Defined.

#[export] Instance value_ConnAuth : HasValue C ConnAuthConfig ConnAuthConfig := flat C _.
#[export] Instance value_TLSCert : HasValue C TLSCertConfig TLSCertConfig := flat C _.
#[export] Instance value_Image : HasValue C ContainerImageOverride ContainerImageOverride := flat C _.
#[export] Instance value_Images : HasValue C ContainerImageOverrides ContainerImageOverrides := flat C _.

(** The library types: their values, and which of their cells are well typed. *)
Class TpTypes := {
  tp_value :: ∀ t, HasValue C (tp_mem X t) (tp_val X t);
  tp_ok : heap → tp_cell X → Prop;
  tp_ok_mono h h' c : h ⊆ h' → tp_ok h c → tp_ok h' c
}.
Context {TT : TpTypes}.

Definition ContainerResourceOverrides_value (h : heap) (c : ContainerResourceOverrides (mem X))
    : option (ContainerResourceOverrides (val X)) :=
  r1 ← value (V := tp_val X ResourceRequirements) h (ControllerBeegfsResources _ c);
  r2 ← value (V := tp_val X ResourceRequirements) h (ControllerCsiProvisionerResources _ c);
  r3 ← value (V := tp_val X ResourceRequirements) h (NodeBeegfsResources _ c);
  r4 ← value (V := tp_val X ResourceRequirements) h (NodeDriverRegistrarResources _ c);
  r5 ← value (V := tp_val X ResourceRequirements) h (NodeLivenessProbeResources _ c);
  Some (mkResourceOverrides (val X) r1 r2 r3 r4 r5).
#[export] Instance value_ResourceOverrides : HasValue C (ContainerResourceOverrides (mem X)) (ContainerResourceOverrides (val X)).
Proof.
  refine {| value := ContainerResourceOverrides_value |}. intros h h' c v Hh H.
  unfold ContainerResourceOverrides_value in *. values_grow Hh H.
Defined.

Definition BeegfsDriverSpec_value (h : heap) (s : BeegfsDriverSpec (mem X)) : option (BeegfsDriverSpec (val X)) :=
  overrides ← value h (spec_ContainerResourceOverrides _ s);
  logLevel ← ptr_value (A := Z) h (LogLevel _ s);
  controller ← value (V := tp_val X NodeAffinity) h (NodeAffinityControllerService _ s);
  node ← value (V := tp_val X NodeAffinity) h (NodeAffinityNodeService _ s);
  config ← value h (spec_PluginConfigFromFile _ s);
  Some (mkSpec (val X) (spec_ContainerImageOverrides _ s) overrides logLevel controller node config).
#[export] Instance value_Spec : HasValue C (BeegfsDriverSpec (mem X)) (BeegfsDriverSpec (val X)).
Proof.
  refine {| value := BeegfsDriverSpec_value |}. intros h h' c v Hh H. unfold BeegfsDriverSpec_value in *. values_grow Hh H.
Defined.

Definition BeegfsDriverStatus_value (h : heap) (s : BeegfsDriverStatus (mem X)) : option (BeegfsDriverStatus (val X)) :=
  conditions ← slice_value (A := tp_mem X Condition) (V := tp_val X Condition) h (Conditions _ s);
  Some (mkStatus (val X) conditions).
#[export] Instance value_Status : HasValue C (BeegfsDriverStatus (mem X)) (BeegfsDriverStatus (val X)).
Proof.
  refine {| value := BeegfsDriverStatus_value |}. intros h h' c v Hh H. unfold BeegfsDriverStatus_value in *. values_grow Hh H.
Defined.

Definition BeegfsDriver_value (h : heap) (d : BeegfsDriver (mem X)) : option (BeegfsDriver (val X)) :=
  meta ← value (V := tp_val X ObjectMeta) h (d_ObjectMeta _ d); spec ← value h (Spec _ d); status ← value h (Status _ d);
  Some (mkDriver (val X) (d_TypeMeta _ d) meta spec status).
#[export] Instance value_Driver : HasValue C (BeegfsDriver (mem X)) (BeegfsDriver (val X)).
Proof.
  refine {| value := BeegfsDriver_value |}. intros h h' c v Hh H. unfold BeegfsDriver_value in *. values_grow Hh H.
Defined.

Definition BeegfsDriverList_value (h : heap) (d : BeegfsDriverList (mem X)) : option (BeegfsDriverList (val X)) :=
  meta ← value (V := tp_val X ListMeta) h (l_ListMeta _ d); items ← slice_value h (Items _ d);
  Some (mkDriverList (val X) (l_TypeMeta _ d) meta items).
#[export] Instance value_DriverList : HasValue C (BeegfsDriverList (mem X)) (BeegfsDriverList (val X)).
Proof.
  refine {| value := BeegfsDriverList_value |}. intros h h' c v Hh H. unfold BeegfsDriverList_value in *. values_grow Hh H.
Defined.

(** A cell is well typed when everything it refers to is. *)
Definition live {A V} `{HasValue C A V} (h : heap) (a : A) : Prop := is_Some (value h a).
Lemma live_mono `{HasValue C A V} (h h' : heap) (a : A) : h ⊆ h' → live h a → live h' a.
Proof. intros Hh [v Hv]. exists v. by eapply value_mono. Qed.

Definition driver_cell_ok (h : heap) (c : C) : Prop :=
  match c with
  | CStrings _ _ | CMap _ _ | CInt _ _ | CConnAuth _ _ | CTLSCert _ _ | CImage _ _ | CImages _ _ => True
  | CFileSystems _ l => Forall (live h) l
  | CNodes _ l => Forall (live h) l
  | CConditions _ l => Forall (live h) l
  | CDrivers _ l => Forall (live h) l
  | CBeegfsConfig _ a => live h a
  | CFileSystem _ a => live h a
  | CPluginConfig _ a => live h a
  | CNode _ a => live h a
  | CFromFile _ a => live h a
  | CResourceOverrides _ a => live h a
  | CSpec _ a => live h a
  | CStatus _ a => live h a
  | CDriver _ a => live h a
  | CDriverList _ a => live h a
  | CThirdParty _ c => tp_ok h c
  end.
#[export] Instance driver_heap : HeapType C.
Proof.
  refine {| cell_ok := driver_cell_ok |}. intros h h' c Hh.
  destruct c; cbn; first [done | by apply live_mono | by apply tp_ok_mono
    | intros HF; eapply Forall_impl; [exact HF|]; intros ?; by apply live_mono].
Defined.

(** The libraries' [DeepCopyInto]. *)
Context {tp_copy : ∀ t, DeepCopyable (tp_mem X t) (tp_val X t)}.

Definition ContainerResourceOverrides_DeepCopyInto (in_ : ContainerResourceOverrides (mem X))
    : hp C (ContainerResourceOverrides (mem X)) :=
  r1 ← DeepCopyInto (DeepCopyable := tp_copy ResourceRequirements) (ControllerBeegfsResources _ in_);
  r2 ← DeepCopyInto (DeepCopyable := tp_copy ResourceRequirements) (ControllerCsiProvisionerResources _ in_);
  r3 ← DeepCopyInto (DeepCopyable := tp_copy ResourceRequirements) (NodeBeegfsResources _ in_);
  r4 ← DeepCopyInto (DeepCopyable := tp_copy ResourceRequirements) (NodeDriverRegistrarResources _ in_);
  r5 ← DeepCopyInto (DeepCopyable := tp_copy ResourceRequirements) (NodeLivenessProbeResources _ in_);
  mret (mkResourceOverrides (mem X) r1 r2 r3 r4 r5).

Definition BeegfsDriverSpec_DeepCopyInto (in_ : BeegfsDriverSpec (mem X)) : hp C (BeegfsDriverSpec (mem X)) :=
  overrides ← ContainerResourceOverrides_DeepCopyInto (spec_ContainerResourceOverrides _ in_);
  logLevel ← copy_ptr Z (LogLevel _ in_);
  controller ← DeepCopyInto (DeepCopyable := tp_copy NodeAffinity) (NodeAffinityControllerService _ in_);
  node ← DeepCopyInto (DeepCopyable := tp_copy NodeAffinity) (NodeAffinityNodeService _ in_);
  config ← PluginConfigFromFile_DeepCopyInto (spec_PluginConfigFromFile _ in_);
  mret (mkSpec (mem X) (spec_ContainerImageOverrides _ in_) overrides logLevel controller node config).

Definition BeegfsDriverStatus_DeepCopyInto (in_ : BeegfsDriverStatus (mem X)) : hp C (BeegfsDriverStatus (mem X)) :=
  conditions ← copy_slice_of (DeepCopyInto (DeepCopyable := tp_copy Condition)) (Conditions _ in_);
  mret (mkStatus (mem X) conditions).

Definition BeegfsDriver_DeepCopyInto (in_ : BeegfsDriver (mem X)) : hp C (BeegfsDriver (mem X)) :=
  meta ← DeepCopyInto (DeepCopyable := tp_copy ObjectMeta) (d_ObjectMeta _ in_);
  spec ← BeegfsDriverSpec_DeepCopyInto (Spec _ in_);
  status ← BeegfsDriverStatus_DeepCopyInto (Status _ in_);
  mret (mkDriver (mem X) (d_TypeMeta _ in_) meta spec status).

Definition BeegfsDriverList_DeepCopyInto (in_ : BeegfsDriverList (mem X)) : hp C (BeegfsDriverList (mem X)) :=
  meta ← DeepCopyInto (DeepCopyable := tp_copy ListMeta) (l_ListMeta _ in_);
  items ← copy_slice_of BeegfsDriver_DeepCopyInto (Items _ in_);
  mret (mkDriverList (mem X) (l_TypeMeta _ in_) meta items).

(** ** DeepCopy and DeepCopyObject, on pointers that may be nil *)

Definition BeegfsConfig_DeepCopy : option addr → hp C (option addr) := deep_copy BeegfsConfig_DeepCopyInto.
Definition FileSystemSpecificConfig_DeepCopy : option addr → hp C (option addr) := deep_copy FileSystemSpecificConfig_DeepCopyInto.
Definition PluginConfig_DeepCopy : option addr → hp C (option addr) := deep_copy PluginConfig_DeepCopyInto.
Definition NodeSpecificConfig_DeepCopy : option addr → hp C (option addr) := deep_copy NodeSpecificConfig_DeepCopyInto.
Definition PluginConfigFromFile_DeepCopy : option addr → hp C (option addr) := deep_copy PluginConfigFromFile_DeepCopyInto.
Definition ConnAuthConfig_DeepCopy : option addr → hp C (option addr) := deep_copy ConnAuthConfig_DeepCopyInto.
Definition TLSCertConfig_DeepCopy : option addr → hp C (option addr) := deep_copy TLSCertConfig_DeepCopyInto.
Definition ContainerImageOverride_DeepCopy : option addr → hp C (option addr) := deep_copy ContainerImageOverride_DeepCopyInto.
Definition ContainerImageOverrides_DeepCopy : option addr → hp C (option addr) := deep_copy ContainerImageOverrides_DeepCopyInto.
Definition ContainerResourceOverrides_DeepCopy : option addr → hp C (option addr) := deep_copy ContainerResourceOverrides_DeepCopyInto.
Definition BeegfsDriverSpec_DeepCopy : option addr → hp C (option addr) := deep_copy BeegfsDriverSpec_DeepCopyInto.
Definition BeegfsDriverStatus_DeepCopy : option addr → hp C (option addr) := deep_copy BeegfsDriverStatus_DeepCopyInto.
Definition BeegfsDriver_DeepCopy : option addr → hp C (option addr) := deep_copy BeegfsDriver_DeepCopyInto.
Definition BeegfsDriverList_DeepCopy : option addr → hp C (option addr) := deep_copy BeegfsDriverList_DeepCopyInto.

(** A [runtime.Object] that is not nil holds the type of its pointer. *)
Inductive runtime_Object := ObjectDriver (p : addr) | ObjectDriverList (p : addr).
Definition BeegfsDriver_DeepCopyObject (in_ : option addr) : hp C (option runtime_Object) :=
  c ← BeegfsDriver_DeepCopy in_;
  match c with Some c => mret (Some (ObjectDriver c)) | None => mret None end.
Definition BeegfsDriverList_DeepCopyObject (in_ : option addr) : hp C (option runtime_Object) :=
  c ← BeegfsDriverList_DeepCopy in_;
  match c with Some c => mret (Some (ObjectDriverList c)) | None => mret None end.

(** ** Every type satisfies the specification of a deep copy *)

#[export] Instance array_strings : TypedArray string string (H1 := flat C string).
Proof. done. Qed.
#[export] Instance cell_map : TypedCell (gmap string string) (gmap string string) (H1 := flat C _).
Proof. done. Qed.
#[export] Instance cell_int : TypedCell Z Z (H1 := flat C Z).
Proof. done. Qed.
#[export] Instance array_file_systems : TypedArray (FileSystemSpecificConfig (mem X)) (FileSystemSpecificConfig (val X)).
Proof. by intros h l. Qed.
#[export] Instance array_nodes : TypedArray (NodeSpecificConfig (mem X)) (NodeSpecificConfig (val X)).
Proof. by intros h l. Qed.
#[export] Instance array_drivers : TypedArray (BeegfsDriver (mem X)) (BeegfsDriver (val X)).
Proof. by intros h l. Qed.
#[export] Instance array_conditions : TypedArray (tp_mem X Condition) (tp_val X Condition).
Proof. by intros h l. Qed.

Ltac grows := match goal with
  | |- ?a ⊆ ?a => reflexivity
  | H : ?a ⊆ ?b |- ?a ⊆ ?c => transitivity b; [exact H|grows]
  end.
Ltac same_value := match goal with
  | |- slice_value _ _ = Some _ => eapply slice_value_mono; [|eassumption]; grows
  | |- ptr_value _ _ = Some _ => eapply ptr_value_mono; [|eassumption]; grows
  | |- value _ _ = Some _ => eapply value_mono; [|eassumption]; grows
  end.
(** A field: copied, and later found in the result. *)
Ltac copy_field :=
  eapply copies_bind;
  [first [eapply copy_flat_slice_spec|eapply copy_map_spec|eapply copy_slice_of_spec
         |eapply copy_ptr_spec|eapply DeepCopyInto_copies]; first [exact _|same_value]
  |cbn beta; intros].
(** [into] copies the fields that [val_of] reads; [as_class] shows the copies of
    its fields as instances. *)
Ltac copy_fields into val_of as_class :=
  let h := fresh "h" in let c := fresh "c" in let v := fresh "v" in let Hv := fresh "Hv" in
  intros h c v Hv; change (val_of h c = Some v) in Hv; unfold val_of in Hv;
  repeat (apply bind_Some in Hv as (? & ? & Hv)); injection Hv as <-;
  unfold into; as_class; repeat copy_field; apply copies_ret; intros;
  match goal with |- value ?h ?a = ?r => change (val_of h a = r) end; unfold val_of;
  repeat (apply bind_Some; eexists; split; [same_value|]); reflexivity.

#[export] Instance copy_BeegfsConfig : DeepCopyable (BeegfsConfig (mem X)) (BeegfsConfig (val X)).
Proof.
  refine {| DeepCopyInto := BeegfsConfig_DeepCopyInto |}.
  copy_fields BeegfsConfig_DeepCopyInto BeegfsConfig_value ltac:(idtac).
Defined.
#[export] Instance copy_FileSystem : DeepCopyable (FileSystemSpecificConfig (mem X)) (FileSystemSpecificConfig (val X)).
Proof.
  refine {| DeepCopyInto := FileSystemSpecificConfig_DeepCopyInto |}.
  copy_fields FileSystemSpecificConfig_DeepCopyInto FileSystemSpecificConfig_value ltac:(change BeegfsConfig_DeepCopyInto with (DeepCopyInto (DeepCopyable := copy_BeegfsConfig))).
Defined.
#[export] Instance copy_PluginConfig : DeepCopyable (PluginConfig (mem X)) (PluginConfig (val X)).
Proof.
  refine {| DeepCopyInto := PluginConfig_DeepCopyInto |}.
  copy_fields PluginConfig_DeepCopyInto PluginConfig_value ltac:(change BeegfsConfig_DeepCopyInto with (DeepCopyInto (DeepCopyable := copy_BeegfsConfig)); change FileSystemSpecificConfig_DeepCopyInto with (DeepCopyInto (DeepCopyable := copy_FileSystem))).
Defined.
#[export] Instance copy_Node : DeepCopyable (NodeSpecificConfig (mem X)) (NodeSpecificConfig (val X)).
Proof.
  refine {| DeepCopyInto := NodeSpecificConfig_DeepCopyInto |}.
  copy_fields NodeSpecificConfig_DeepCopyInto NodeSpecificConfig_value ltac:(change BeegfsConfig_DeepCopyInto with (DeepCopyInto (DeepCopyable := copy_BeegfsConfig)); change FileSystemSpecificConfig_DeepCopyInto with (DeepCopyInto (DeepCopyable := copy_FileSystem))).
Defined.
#[export] Instance copy_FromFile : DeepCopyable (PluginConfigFromFile (mem X)) (PluginConfigFromFile (val X)).
Proof.
  refine {| DeepCopyInto := PluginConfigFromFile_DeepCopyInto |}.
  copy_fields PluginConfigFromFile_DeepCopyInto PluginConfigFromFile_value ltac:(change PluginConfig_DeepCopyInto with (DeepCopyInto (DeepCopyable := copy_PluginConfig)); change NodeSpecificConfig_DeepCopyInto with (DeepCopyInto (DeepCopyable := copy_Node))).
Defined.
#[export] Instance copy_ResourceOverrides : DeepCopyable (ContainerResourceOverrides (mem X)) (ContainerResourceOverrides (val X)).
Proof.
  refine {| DeepCopyInto := ContainerResourceOverrides_DeepCopyInto |}.
  copy_fields ContainerResourceOverrides_DeepCopyInto ContainerResourceOverrides_value ltac:(idtac).
Defined.
#[export] Instance copy_Spec : DeepCopyable (BeegfsDriverSpec (mem X)) (BeegfsDriverSpec (val X)).
Proof.
  refine {| DeepCopyInto := BeegfsDriverSpec_DeepCopyInto |}.
  copy_fields BeegfsDriverSpec_DeepCopyInto BeegfsDriverSpec_value ltac:(change ContainerResourceOverrides_DeepCopyInto with (DeepCopyInto (DeepCopyable := copy_ResourceOverrides)); change PluginConfigFromFile_DeepCopyInto with (DeepCopyInto (DeepCopyable := copy_FromFile))).
Defined.
#[export] Instance copy_Status : DeepCopyable (BeegfsDriverStatus (mem X)) (BeegfsDriverStatus (val X)).
Proof.
  refine {| DeepCopyInto := BeegfsDriverStatus_DeepCopyInto |}.
  copy_fields BeegfsDriverStatus_DeepCopyInto BeegfsDriverStatus_value ltac:(idtac).
Defined.
#[export] Instance copy_Driver : DeepCopyable (BeegfsDriver (mem X)) (BeegfsDriver (val X)).
Proof.
  refine {| DeepCopyInto := BeegfsDriver_DeepCopyInto |}.
  copy_fields BeegfsDriver_DeepCopyInto BeegfsDriver_value ltac:(change BeegfsDriverSpec_DeepCopyInto with (DeepCopyInto (DeepCopyable := copy_Spec)); change BeegfsDriverStatus_DeepCopyInto with (DeepCopyInto (DeepCopyable := copy_Status))).
Defined.
#[export] Instance copy_DriverList : DeepCopyable (BeegfsDriverList (mem X)) (BeegfsDriverList (val X)).
Proof.
  refine {| DeepCopyInto := BeegfsDriverList_DeepCopyInto |}.
  copy_fields BeegfsDriverList_DeepCopyInto BeegfsDriverList_value ltac:(change BeegfsDriver_DeepCopyInto with (DeepCopyInto (DeepCopyable := copy_Driver))).
Defined.

#[export] Instance copy_Images : DeepCopyable ContainerImageOverrides ContainerImageOverrides (H0 := flat C _).
Proof.
  refine {| DeepCopyInto := ContainerImageOverrides_DeepCopyInto |}. intros h [] v Hv. by apply copies_ret.
Defined.

#[export] Instance cell_BeegfsConfig : TypedCell (BeegfsConfig (mem X)) (BeegfsConfig (val X)).
Proof. by intros h a. Qed.
#[export] Instance cell_FileSystem : TypedCell (FileSystemSpecificConfig (mem X)) (FileSystemSpecificConfig (val X)).
Proof. by intros h a. Qed.
#[export] Instance cell_PluginConfig : TypedCell (PluginConfig (mem X)) (PluginConfig (val X)).
Proof. by intros h a. Qed.
#[export] Instance cell_Node : TypedCell (NodeSpecificConfig (mem X)) (NodeSpecificConfig (val X)).
Proof. by intros h a. Qed.
#[export] Instance cell_FromFile : TypedCell (PluginConfigFromFile (mem X)) (PluginConfigFromFile (val X)).
Proof. by intros h a. Qed.
#[export] Instance cell_ResourceOverrides : TypedCell (ContainerResourceOverrides (mem X)) (ContainerResourceOverrides (val X)).
Proof. by intros h a. Qed.
#[export] Instance cell_Spec : TypedCell (BeegfsDriverSpec (mem X)) (BeegfsDriverSpec (val X)).
Proof. by intros h a. Qed.
#[export] Instance cell_Status : TypedCell (BeegfsDriverStatus (mem X)) (BeegfsDriverStatus (val X)).
Proof. by intros h a. Qed.
#[export] Instance cell_Driver : TypedCell (BeegfsDriver (mem X)) (BeegfsDriver (val X)).
Proof. by intros h a. Qed.
#[export] Instance cell_DriverList : TypedCell (BeegfsDriverList (mem X)) (BeegfsDriverList (val X)).
Proof. by intros h a. Qed.
#[export] Instance cell_ConnAuth : TypedCell ConnAuthConfig ConnAuthConfig (H1 := flat C ConnAuthConfig).
Proof. by intros h a. Qed.
#[export] Instance cell_TLSCert : TypedCell TLSCertConfig TLSCertConfig (H1 := flat C TLSCertConfig).
Proof. by intros h a. Qed.
#[export] Instance cell_Image : TypedCell ContainerImageOverride ContainerImageOverride (H1 := flat C ContainerImageOverride).
Proof. by intros h a. Qed.
#[export] Instance cell_Images : TypedCell ContainerImageOverrides ContainerImageOverrides (H1 := flat C ContainerImageOverrides).
Proof. by intros h a. Qed.

(** ** What a deep copy promises *)

(** [f] returns, adds cells to the heap and changes none; the copy has the
    original's value, and keeps it whatever becomes of the rest of the heap, as
    the original keeps its value whatever becomes of the copy. *)
Definition copies_apart {A V} `{Storable C A, HasValue C A V} (f : option addr → hp C (option addr)) : Prop :=
  ∀ h p (v : option V), ptr_value (A := A) h p = Some v →
  ∃ p' hn, f p h = Some (p', hn ∪ h) ∧ hn ##ₘ h
    ∧ (∀ h1, hn ##ₘ h1 → ptr_value (A := A) (hn ∪ h1) p' = Some v)
    ∧ (∀ hn', hn' ##ₘ h → ptr_value (A := A) (hn' ∪ h) p = Some v).

Lemma deep_copy_apart `{Storable C A, Zero A, HasValue C A V} {DC : DeepCopyable A V} {TC : TypedCell A V} :
  copies_apart (A := A) (V := V) (deep_copy DeepCopyInto).
Proof.
  intros h p v Hv. destruct (deep_copy_spec h p v Hv) as (p' & hn & Hrun & Hd & _ & Hv').
  exists p', hn. split_and!; [done|done| |].
  - intros h1 _. eapply ptr_value_mono; [apply map_union_subseteq_l|done].
  - intros hn' Hd'. eapply ptr_value_mono; [by apply map_union_subseteq_r|done].
Qed.

(** A well-typed heap stays well typed. *)
Lemma deep_copy_ok `{Storable C A, Zero A, HasValue C A V} {DC : DeepCopyable A V} {TC : TypedCell A V} h p v :
  heap_ok h → ptr_value (A := A) (V := V) h p = Some v →
  ∃ p' h', deep_copy DeepCopyInto p h = Some (p', h') ∧ heap_ok h' ∧ ptr_value (A := A) h' p' = Some v.
Proof.
  intros Hok Hv. destruct (deep_copy_spec h p v Hv) as (p' & hn & Hrun & Hd & Hokn & Hv').
  exists p', (hn ∪ h). split_and!; [done|by apply heap_ok_union|].
  eapply ptr_value_mono; [apply map_union_subseteq_l|done].
Qed.

(** C16: every generated DeepCopy returns an independent copy: nothing of the heap is
    changed, the copy has the original's value (nil slices, maps and pointers
    stay nil), and it lies in cells of its own, so that no later write to the
    original's slices, maps or pointers shows in the copy and none to the copy
    in the original. *)
Theorem DeepCopy_apart :
  copies_apart (A := BeegfsConfig (mem X)) (V := BeegfsConfig (val X)) BeegfsConfig_DeepCopy
  ∧ copies_apart (A := FileSystemSpecificConfig (mem X)) (V := FileSystemSpecificConfig (val X)) FileSystemSpecificConfig_DeepCopy
  ∧ copies_apart (A := PluginConfig (mem X)) (V := PluginConfig (val X)) PluginConfig_DeepCopy
  ∧ copies_apart (A := NodeSpecificConfig (mem X)) (V := NodeSpecificConfig (val X)) NodeSpecificConfig_DeepCopy
  ∧ copies_apart (A := PluginConfigFromFile (mem X)) (V := PluginConfigFromFile (val X)) PluginConfigFromFile_DeepCopy
  ∧ copies_apart (A := ContainerResourceOverrides (mem X)) (V := ContainerResourceOverrides (val X)) ContainerResourceOverrides_DeepCopy
  ∧ copies_apart (A := BeegfsDriverSpec (mem X)) (V := BeegfsDriverSpec (val X)) BeegfsDriverSpec_DeepCopy
  ∧ copies_apart (A := BeegfsDriverStatus (mem X)) (V := BeegfsDriverStatus (val X)) BeegfsDriverStatus_DeepCopy
  ∧ copies_apart (A := BeegfsDriver (mem X)) (V := BeegfsDriver (val X)) BeegfsDriver_DeepCopy
  ∧ copies_apart (A := BeegfsDriverList (mem X)) (V := BeegfsDriverList (val X)) BeegfsDriverList_DeepCopy
  ∧ copies_apart (A := ConnAuthConfig) (V := ConnAuthConfig) ConnAuthConfig_DeepCopy
  ∧ copies_apart (A := TLSCertConfig) (V := TLSCertConfig) TLSCertConfig_DeepCopy
  ∧ copies_apart (A := ContainerImageOverride) (V := ContainerImageOverride) ContainerImageOverride_DeepCopy
  ∧ copies_apart (A := ContainerImageOverrides) (V := ContainerImageOverrides) ContainerImageOverrides_DeepCopy.
Proof.
  split_and!.
  - exact (deep_copy_apart (DC := copy_BeegfsConfig)).
  - exact (deep_copy_apart (DC := copy_FileSystem)).
  - exact (deep_copy_apart (DC := copy_PluginConfig)).
  - exact (deep_copy_apart (DC := copy_Node)).
  - exact (deep_copy_apart (DC := copy_FromFile)).
  - exact (deep_copy_apart (DC := copy_ResourceOverrides)).
  - exact (deep_copy_apart (DC := copy_Spec)).
  - exact (deep_copy_apart (DC := copy_Status)).
  - exact (deep_copy_apart (DC := copy_Driver)).
  - exact (deep_copy_apart (DC := copy_DriverList)).
  - exact (deep_copy_apart (DC := flat_copy ConnAuthConfig)).
  - exact (deep_copy_apart (DC := flat_copy TLSCertConfig)).
  - exact (deep_copy_apart (DC := flat_copy ContainerImageOverride)).
  - exact (deep_copy_apart (DC := copy_Images)).
Qed.

(** What an object value holds: a pointer to a well-typed object of its own type,
    or nothing, and then it was made from nil. *)
Definition object_typed (h : heap) (vd : option (BeegfsDriver (val X))) (vl : option (BeegfsDriverList (val X)))
    (o : option runtime_Object) : Prop :=
  match o with
  | None => vd = None ∧ vl = None
  | Some (ObjectDriver p) => ptr_value (A := BeegfsDriver (mem X)) h (Some p) = Some vd ∧ is_Some vd
  | Some (ObjectDriverList p) => ptr_value (A := BeegfsDriverList (mem X)) h (Some p) = Some vl ∧ is_Some vl
  end.

Lemma ptr_value_some `{Storable C A, HasValue C A V} h l (v : option V) :
  ptr_value (A := A) h (Some l) = Some v → is_Some v.
Proof. intros (a & _ & (w & _ & [= <-])%bind_Some)%bind_Some. by exists w. Qed.

Lemma driver_object_typed h p v :
  heap_ok h → ptr_value (A := BeegfsDriver (mem X)) h p = Some v →
  ∃ o h', BeegfsDriver_DeepCopyObject p h = Some (o, h') ∧ heap_ok h' ∧ object_typed h' v None o.
Proof.
  intros Hok Hv. destruct (deep_copy_ok (DC := copy_Driver) h p v Hok Hv) as (p' & h' & Hrun & Hok' & Hv').
  unfold BeegfsDriver_DeepCopyObject. erewrite hp_step by exact Hrun. destruct p' as [l|].
  - exists (Some (ObjectDriver l)), h'. split_and!; [done|done|]. split; [done|by eapply ptr_value_some].
  - injection Hv' as <-. by exists None, h'.
Qed.

Lemma driver_list_object_typed h p v :
  heap_ok h → ptr_value (A := BeegfsDriverList (mem X)) h p = Some v →
  ∃ o h', BeegfsDriverList_DeepCopyObject p h = Some (o, h') ∧ heap_ok h' ∧ object_typed h' None v o.
Proof.
  intros Hok Hv. destruct (deep_copy_ok (DC := copy_DriverList) h p v Hok Hv) as (p' & h' & Hrun & Hok' & Hv').
  unfold BeegfsDriverList_DeepCopyObject. erewrite hp_step by exact Hrun. destruct p' as [l|].
  - exists (Some (ObjectDriverList l)), h'. split_and!; [done|done|]. split; [done|by eapply ptr_value_some].
  - injection Hv' as <-. by exists None, h'.
Qed.

(** C17: DeepCopyObject, which the Kubernetes client machinery calls on any API
    object, is type safe: in a well-typed heap (every reference is live and
    refers to a cell of its type) it does not panic and leaves the heap well
    typed; from nil it makes a nil interface, and otherwise an interface that
    holds a well-typed object of the receiver's type with the receiver's value. *)
Theorem DeepCopyObject_typed h pd vd pl vl :
  heap_ok h → ptr_value (A := BeegfsDriver (mem X)) h pd = Some vd →
  ptr_value (A := BeegfsDriverList (mem X)) h pl = Some vl →
  (∃ o h', BeegfsDriver_DeepCopyObject pd h = Some (o, h') ∧ heap_ok h' ∧ object_typed h' vd None o)
  ∧ (∃ o h', BeegfsDriverList_DeepCopyObject pl h = Some (o, h') ∧ heap_ok h' ∧ object_typed h' None vl o).
Proof.
  intros Hok Hd Hl. split; [by apply driver_object_typed|by apply driver_list_object_typed].
Qed.
End Copy.

(** ** An example

    Library types that hold a map, and conditions without references. *)
Module Example.
Definition X : third_party := {|
  tp_cell := Empty_set;
  tp_mem t := match t with Condition => string | _ => option addr end;
  tp_val t := match t with Condition => string | _ => option (gmap string string) end
|}.
#[export] Instance zeros t : Zero (tp_mem X t) := match t with Condition => EmptyString | _ => None end.
Definition map_value : HasValue (cell X) (option addr) (option (gmap string string)) :=
  {| value := ptr_value (A := gmap string string); value_mono := ptr_value_mono (A := gmap string string) |}.
Definition library_value t : HasValue (cell X) (tp_mem X t) (tp_val X t) :=
  match t with Condition => flat (cell X) string | _ => map_value end.
#[export] Instance types : TpTypes (X := X) :=
  {| tp_value := library_value; tp_ok _ _ := False; tp_ok_mono _ _ _ _ H := H |}.
#[export] Instance copy t : DeepCopyable (tp_mem X t) (tp_val X t).
Proof.
  destruct t; try exact (flat_copy string); refine {| DeepCopyInto := copy_map (RO := list_order) |};
    exact (copy_map_spec (T := cell_map)).
Defined.

(** A driver with a status, a log level, a node and its settings, at address 1;
    two of its parts share the map at address 3. *)
Definition labels : gmap string string := {["app" := "csi"]}.
Definition config : BeegfsConfig (mem X) :=
  mkBeegfsConfig (mem X) "8010" (Some (mkSlice 2 1 1)) None None (Some 3%positive) EmptyString EmptyString None.
Definition driver : BeegfsDriver (mem X) :=
  mkDriver (mem X) (mkTypeMeta "BeegfsDriver" "v1") (Some 3%positive)
    (mkSpec (mem X) zero (mkResourceOverrides (mem X) None None None None None) (Some 4%positive) None None
      (mkFromFile (mem X) (mkPluginConfig (mem X) config None) (Some (mkSlice 5 0 1))))
    (mkStatus (mem X) (Some (mkSlice 6 0 2))).
Definition h : gmap addr (cell X) := list_to_map
  [(1%positive, CDriver X driver); (2%positive, CStrings X ["ib0"; "ib1"]); (3%positive, CMap X labels);
   (4%positive, CInt X 3); (5%positive, CNodes X [mkNode (mem X) (Some (mkSlice 2 0 2)) config None]);
   (6%positive, CConditions X ["Ready"; "Progressing"]);
   (7%positive, CDriverList X (mkDriverList (mem X) zero None (Some (mkSlice 8 0 1)))); (8%positive, CDrivers X [driver])].

Lemma evaluates {A} (x : option A) : match x with Some _ => true | None => false end = true → is_Some x.
Proof. by destruct x. Qed.
Lemma h_ok : heap_ok h.
Proof.
  apply map_Forall_to_list. vm_compute map_to_list.
  repeat constructor; cbn; try done; apply evaluates; vm_compute; reflexivity.
Qed.
Lemma driver_live : is_Some (ptr_value (A := BeegfsDriver (mem X)) (V := BeegfsDriver (val X)) h (Some 1%positive)).
Proof. apply evaluates. vm_compute. reflexivity. Qed.
Lemma list_live : is_Some (ptr_value (A := BeegfsDriverList (mem X)) (V := BeegfsDriverList (val X)) h (Some 7%positive)).
Proof. apply evaluates. vm_compute. reflexivity. Qed.

Lemma DeepCopyObject_typed_witness :
  ∃ o h', BeegfsDriver_DeepCopyObject (RO := list_order) (Some 1%positive) h = Some (o, h') ∧ heap_ok h'.
Proof.
  destruct driver_live as [vd Hd], list_live as [vl Hl].
  destruct (DeepCopyObject_typed (RO := list_order) (X := X) h (Some 1%positive) vd (Some 7%positive) vl h_ok Hd Hl)
    as [(o & h' & Hrun & Hok & _) _].
  exists o, h'. split; [exact Hrun|exact Hok].
Defined.

(** After the copy, the status' array, the shared map and the interfaces of the
    original are overwritten; the copy has the values it was made from. *)
Lemma DeepCopy_apart_witness :
  ∃ p' hn v, BeegfsDriver_DeepCopy (RO := list_order) (Some 1%positive) h = Some (p', hn ∪ h)
    ∧ ptr_value (A := BeegfsDriver (mem X)) h (Some 1%positive) = Some v
    ∧ ptr_value (A := BeegfsDriver (mem X))
        (hn ∪ <[2%positive := CStrings X []]> (<[3%positive := CMap X ∅]> (<[6%positive := CConditions X ["x"; "y"]]> h))) p'
      = Some v.
Proof.
  destruct (DeepCopy_apart (RO := list_order) (X := X)) as (_ & _ & _ & _ & _ & _ & _ & _ & Hd & _).
  destruct driver_live as [v Hv].
  destruct (Hd h _ v Hv) as (p' & hn & Hrun & Hdisj & Hcopy & _).
  exists p', hn, v. split; [exact Hrun|]. split; [exact Hv|]. apply Hcopy.
  assert (dom (<[2%positive := CStrings X []]> (<[3%positive := CMap X ∅]> (<[6%positive := CConditions X ["x"; "y"]]> h)))
          = dom h) as Hdom by (vm_compute; reflexivity).
  apply map_disjoint_dom. rewrite Hdom. by apply map_disjoint_dom.
Defined.
End Example.
