(* ===== verification/GoStrings.v ===== *)
(** * GoStrings: the parts of Go's strings, strconv and fmt packages the driver uses

    Go strings are byte strings, modelled by Rocq's [string] (a sequence of
    8-bit [ascii] values). Unsigned integers are [Z]; the width of each
    conversion is an argument, as in strconv. *)
From S2P Require Import Prelude.
Local Open Scope Z_scope.

(** ** Bytes *)

Definition byte_val (c : ascii) : Z := Z.of_N (N_of_ascii c).
Definition byte_of (z : Z) : ascii := ascii_of_N (Z.to_N z).

Definition str1 (c : ascii) : string := String c EmptyString.

Fixpoint str_all (P : ascii → bool) (s : string) : bool :=
  match s with
  | EmptyString => true
  | String c t => P c && str_all P t
  end.

Fixpoint str_flat_map (f : ascii → string) (s : string) : string :=
  match s with
  | EmptyString => EmptyString
  | String c t => f c +:+ str_flat_map f t
  end.

Definition in_range (lo hi : Z) (c : ascii) : bool :=
  (lo <=? byte_val c) && (byte_val c <=? hi).

Definition is_digit : ascii → bool := in_range 48 57.
Definition is_lower : ascii → bool := in_range 97 122.
Definition is_upper : ascii → bool := in_range 65 90.
Definition is_alpha (c : ascii) : bool := is_lower c || is_upper c.

(** Every byte, so that a decidable fact about bytes is checked by evaluation. *)
Definition all_bytes : list ascii := map ascii_of_nat (seq 0 256).

Lemma ascii_forall (P : ascii → bool) : forallb P all_bytes = true → ∀ c, P c = true.
Proof.
  intros H c. rewrite forallb_forall in H. apply H. apply in_map_iff.
  exists (nat_of_ascii c). split; [apply ascii_nat_embedding|].
  apply in_seq. pose proof (nat_ascii_bounded c). lia.
Qed.

(** ** strings *)

Definition HasPrefix (s p : string) : bool := String.prefix p s.
Arguments HasPrefix : simpl never.

Fixpoint Contains (s sub : string) : bool :=
  HasPrefix s sub ||
  match s with
  | EmptyString => false
  | String _ t => Contains t sub
  end.

(** [strings.ToLower] works on runes. Besides A-Z, exactly two runes have a
    lower case in ASCII: U+0130 (bytes C4 B0, to i) and U+212A (bytes E2 84
    AA, to k). The other non-ASCII runes map to non-ASCII runes; they are left
    as they are, which no search for an ASCII text can see. *)
Definition lower_byte (c : ascii) : ascii :=
  if is_upper c then byte_of (byte_val c + 32) else c.
Fixpoint ToLower (s : string) : string :=
  match s with
  | EmptyString => EmptyString
  | String c0 (String c1 t1 as t0) =>
      if (byte_val c0 =? 196) && (byte_val c1 =? 176) then String "i"%char (ToLower t1)
      else match t1 with
           | String c2 t2 =>
               if (byte_val c0 =? 226) && (byte_val c1 =? 132) && (byte_val c2 =? 170)
               then String "k"%char (ToLower t2)
               else String (lower_byte c0) (ToLower t0)
           | EmptyString => String (lower_byte c0) (ToLower t0)
           end
  | String c0 EmptyString => str1 (lower_byte c0)
  end.

(** [strings.Replace(s, old, new, n)] for a non-empty [old]: [skip] bytes of
    the last match are still to be dropped, [n] replacements are left. *)
Fixpoint replace_go (old new : string) (skip n : nat) (s : string) : string :=
  match s with
  | EmptyString => EmptyString
  | String c t =>
      match skip with
      | S skip' => replace_go old new skip' n t
      | O =>
          match n with
          | S n' =>
              if HasPrefix s old then new +:+ replace_go old new (String.length old - 1) n' t
              else String c (replace_go old new 0 n t)
          | O => s
          end
      end
  end.
Definition Replace (s old new : string) (n : nat) : string := replace_go old new 0 n s.
Definition ReplaceAll (s old new : string) : string := Replace s old new (String.length s).

(** [strings.Cut] and [strings.SplitN] with [n = 2]. *)
Fixpoint Cut (s sep : string) : option (string * string) :=
  if HasPrefix s sep then Some (EmptyString, String.substring (String.length sep) (String.length s - String.length sep) s)
  else match s with
       | EmptyString => None
       | String c t => prod_map (String c) id <$> Cut t sep
       end.
Definition SplitN2 (s sep : string) : list string :=
  match Cut s sep with Some (a, b) => [a; b] | None => [s] end.

(** [strings.Split] and [bytes.Split] with a separator that is not empty: each
    cut takes at least one byte, so the length of the text is fuel enough. *)
Fixpoint split_go (fuel : nat) (s sep : string) : list string :=
  match fuel with
  | O => [s]
  | S fuel => match Cut s sep with Some (a, b) => a :: split_go fuel b sep | None => [s] end
  end.
Definition Split (s sep : string) : list string := split_go (String.length s) s sep.

(** The text before and after the first, and the last, occurrence of a byte. *)
Fixpoint cut_byte (c : ascii) (s : string) : option (string * string) :=
  match s with
  | EmptyString => None
  | String d t =>
      if bool_decide (c = d) then Some (EmptyString, t)
      else prod_map (String d) id <$> cut_byte c t
  end.
Fixpoint cut_last_byte (c : ascii) (s : string) : option (string * string) :=
  match s with
  | EmptyString => None
  | String d t =>
      match cut_last_byte c t with
      | Some (a, b) => Some (String d a, b)
      | None => if bool_decide (c = d) then Some (EmptyString, t) else None
      end
  end.

Definition Join (l : list string) (sep : string) : string := String.concat sep l.

(** [strings.TrimRight(s, cutset)] for a one-byte cutset. *)
Fixpoint TrimRight (s : string) (c : ascii) : string :=
  match s with
  | EmptyString => EmptyString
  | String d t =>
      match TrimRight t c with
      | EmptyString => if bool_decide (c = d) then EmptyString else str1 d
      | r => String d r
      end
  end.

(** ** strconv *)

Inductive num_error := ErrSyntax | ErrRange.

(** The value of a digit, as [strconv.ParseUint] reads it; 99 for no digit. *)
Definition digit_val (c : ascii) : Z :=
  if is_digit c then byte_val c - 48
  else if is_lower c then byte_val c - 97 + 10
  else if is_upper c then byte_val c - 65 + 10
  else 99.

Fixpoint parse_digits (base maxVal n : Z) (s : string) : Z + num_error :=
  match s with
  | EmptyString => inl n
  | String c t =>
      let d := digit_val c in
      if base <=? d then inr ErrSyntax
      else if maxVal <? n * base + d then inr ErrRange
      else parse_digits base maxVal (n * base + d) t
  end.

Definition ParseUint (s : string) (base bitSize : Z) : Z + num_error :=
  match s with
  | EmptyString => inr ErrSyntax
  | _ => parse_digits base (2 ^ bitSize - 1) 0 s
  end.

(** [strconv.Atoi]: an optional sign, then decimal digits, in an int64. *)
Definition Atoi (s : string) : Z + num_error :=
  let '(neg, body) :=
    match s with
    | String "+"%char t => (false, t)
    | String "-"%char t => (true, t)
    | _ => (false, s)
    end in
  match ParseUint body 10 64 with
  | inr e => inr e
  | inl n =>
      if neg then if n <=? 2 ^ 63 then inl (- n) else inr ErrRange
      else if n <? 2 ^ 63 then inl n else inr ErrRange
  end.

Definition digit_char (d : Z) : ascii := byte_of (if d <? 10 then 48 + d else 97 + d - 10).

(** The digits of [n], most significant first; [fuel] bounds their number. *)
Fixpoint fmt_digits (fuel : nat) (base n : Z) (acc : string) : string :=
  match fuel with
  | O => acc
  | S fuel' =>
      let acc' := String (digit_char (n mod base)) acc in
      if n <? base then acc' else fmt_digits fuel' base (n / base) acc'
  end.
Definition FormatUint (n base : Z) : string :=
  fmt_digits (S (Z.to_nat (Z.log2 n))) base n EmptyString.

Definition Itoa (n : Z) : string :=
  if n <? 0 then String "-"%char (FormatUint (- n) 10) else FormatUint n 10.

(** [fmt.Sprintf] with a zero-padded verb (%03o, %04x). *)
Fixpoint pad0 (k : nat) (s : string) : string :=
  match k with O => s | S k' => String "0"%char (pad0 k' s) end.
Definition fmt_pad (width : nat) (base n : Z) : string :=
  let s := FormatUint n base in pad0 (width - String.length s) s.

(** [strconv.Quote] (the %q verb) for ASCII texts; bytes above 127, which
    belong to runes that may or may not be printable, are kept as they are. *)
Definition quote_byte (c : ascii) : string :=
  let n := byte_val c in
  if (n =? 34) || (n =? 92) then String "\"%char (str1 c)
  else if n =? 7 then "\a" else if n =? 8 then "\b" else if n =? 12 then "\f"
  else if n =? 10 then "\n" else if n =? 13 then "\r" else if n =? 9 then "\t" else if n =? 11 then "\v"
  else if (n <? 32) || (n =? 127) then "\x" +:+ fmt_pad 2 16 n
  else str1 c.
Definition Quote (s : string) : string :=
  let q := str1 (byte_of 34) in q +:+ str_flat_map quote_byte s +:+ q.

(** The error of [strconv.ParseUint]. *)
Definition num_error_text (s : string) (e : num_error) : string :=
  "strconv.ParseUint: parsing " +:+ Quote s +:+ ": " +:+
  match e with ErrSyntax => "invalid syntax" | ErrRange => "value out of range" end.

(** ** Lemmas on strings *)

Lemma append_nil_r (s : string) : s +:+ EmptyString = s.
Proof. induction s as [|c s IH]; [done|]. change (String c (s +:+ EmptyString) = String c s). by rewrite IH. Qed.

Lemma append_assoc (a b c : string) : (a +:+ b) +:+ c = a +:+ (b +:+ c).
Proof.
  induction a as [|x a IH]; [done|].
  change (String x ((a +:+ b) +:+ c) = String x (a +:+ (b +:+ c))). by rewrite IH.
Qed.

Lemma append_cons c (a b : string) : String c a +:+ b = String c (a +:+ b).
Proof. done. Qed.

Lemma append_nil_l (s : string) : EmptyString +:+ s = s.
Proof. done. Qed.

Lemma length_append (a b : string) :
  (String.length (a +:+ b) = String.length a + String.length b)%nat.
Proof. induction a as [|c a IH]; [done|]. rewrite append_cons. cbn. by rewrite IH. Qed.

Lemma append_eq_nil (a b : string) : a +:+ b = EmptyString ↔ a = EmptyString ∧ b = EmptyString.
Proof. destruct a; cbn; rewrite ?append_cons; naive_solver. Qed.

Lemma append_inj_l (a b c : string) : a +:+ b = a +:+ c → b = c.
Proof. induction a as [|x a IH]; [done|]. rewrite !append_cons. intros [= H]. by apply IH. Qed.

Lemma str_all_app P (a b : string) : str_all P (a +:+ b) = str_all P a && str_all P b.
Proof.
  induction a as [|c a IH]; [done|]. rewrite append_cons. cbn. by rewrite IH, andb_assoc.
Qed.

Lemma str_all_impl (P Q : ascii → bool) s :
  (∀ c, P c = true → Q c = true) → str_all P s = true → str_all Q s = true.
Proof.
  intros HPQ. induction s as [|c s IH]; [done|]. cbn. rewrite !andb_true_iff. naive_solver.
Qed.

Lemma str_flat_map_app f (a b : string) :
  str_flat_map f (a +:+ b) = str_flat_map f a +:+ str_flat_map f b.
Proof.
  induction a as [|c a IH]; [done|]. rewrite append_cons. cbn. by rewrite IH, append_assoc.
Qed.

Lemma HasPrefix_app (p s : string) : HasPrefix (p +:+ s) p = true.
Proof.
  unfold HasPrefix. induction p as [|c p IH]; [by destruct s|].
  rewrite append_cons. cbn. by destruct (ascii_dec c c).
Qed.

Lemma HasPrefix_spec (s p : string) : HasPrefix s p = true ↔ ∃ t, s = p +:+ t.
Proof.
  split; [|intros [t ->]; apply HasPrefix_app].
  unfold HasPrefix. revert s. induction p as [|c p IH]; intros s H; [by exists s|].
  destruct s as [|d s]; [done|]. cbn in H. destruct (ascii_dec c d) as [->|]; [|done].
  destruct (IH s H) as [t ->]. by exists t.
Qed.

Lemma Contains_spec (s sub : string) : Contains s sub = true ↔ ∃ a b, s = a +:+ sub +:+ b.
Proof.
  induction s as [|c s IH]; cbn; rewrite orb_true_iff, HasPrefix_spec.
  - split.
    + intros [[t Ht]|]; [|done]. by exists EmptyString, t.
    + intros (a & b & H). symmetry in H. apply append_eq_nil in H as [_ H].
      apply append_eq_nil in H as [-> ->]. left. by exists EmptyString.
  - rewrite IH. split.
    + intros [[t ->]|(a & b & ->)]; [by exists EmptyString, t|]. by exists (String c a), b.
    + intros ([|d a] & b & H); [left; by exists b|].
      rewrite append_cons in H. injection H as -> ->. right. by exists a, b.
Qed.

Lemma cut_byte_spec c s a b :
  cut_byte c s = Some (a, b) →
  s = a +:+ String c b ∧ str_all (λ d, negb (bool_decide (c = d))) a = true.
Proof.
  revert a. induction s as [|d s IH]; intros a H; [done|]. cbn in H.
  case_bool_decide as Hc; [naive_solver|].
  destruct (cut_byte c s) as [[a' b']|]; [|done]. cbn in H. injection H as <- <-.
  destruct (IH a' eq_refl) as [-> Hall]. split; [done|]. cbn. by rewrite bool_decide_eq_false_2.
Qed.

Lemma cut_byte_none c s :
  cut_byte c s = None ↔ str_all (λ d, negb (bool_decide (c = d))) s = true.
Proof.
  induction s as [|d s IH]; [done|]. cbn. case_bool_decide; cbn; [done|].
  rewrite <- IH. by destruct (cut_byte c s).
Qed.

Lemma cut_byte_app c a b :
  str_all (λ d, negb (bool_decide (c = d))) a = true →
  cut_byte c (a +:+ String c b) = Some (a, b).
Proof.
  induction a as [|d a IH]; [intros _|]; rewrite ?append_nil_l, ?append_cons; cbn.
  - by rewrite bool_decide_eq_true_2.
  - rewrite andb_true_iff. intros [H1 H2]. bools. rewrite bool_decide_eq_false_2 by done.
    by rewrite IH.
Qed.

Lemma cut_last_byte_none c s :
  cut_last_byte c s = None ↔ str_all (λ d, negb (bool_decide (c = d))) s = true.
Proof.
  induction s as [|d s IH]; [done|]. cbn.
  destruct (cut_last_byte c s) as [[a b]|]; [|case_bool_decide]; cbn; [|done|].
  - rewrite andb_true_iff. split; [done|]. intros [_ H]. by apply IH in H.
  - by rewrite <- IH.
Qed.

Lemma cut_last_byte_spec c s a b :
  cut_last_byte c s = Some (a, b) →
  s = a +:+ String c b ∧ str_all (λ d, negb (bool_decide (c = d))) b = true.
Proof.
  revert a. induction s as [|d s IH]; intros a H; [done|]. cbn in H.
  destruct (cut_last_byte c s) as [[a' b']|] eqn:E.
  - injection H as <- ->. by destruct (IH a' eq_refl) as [-> ?].
  - case_bool_decide; [|done]. injection H as <- <-. subst d. split; [done|].
    by apply cut_last_byte_none.
Qed.

Lemma cut_last_byte_app c a b :
  str_all (λ d, negb (bool_decide (c = d))) b = true →
  cut_last_byte c (a +:+ String c b) = Some (a, b).
Proof.
  intros Hb. induction a as [|d a IH]; rewrite ?append_nil_l, ?append_cons; cbn.
  - apply cut_last_byte_none in Hb. by rewrite Hb, bool_decide_eq_true_2.
  - by rewrite IH.
Qed.

Create Rewrite HintDb str.
#[export] Hint Rewrite append_nil_r append_assoc append_cons append_nil_l str_all_app
  str_flat_map_app : str.

Lemma Cut_here sep t : Cut (sep +:+ t) sep = Some (EmptyString, t).
Proof.
  assert (HasPrefix (sep +:+ t) sep = true) as Hp by apply HasPrefix_app.
  assert (String.substring (String.length sep) (String.length (sep +:+ t) - String.length sep) (sep +:+ t) = t) as Hs.
  { rewrite length_append, Nat.add_comm, Nat.add_sub. clear Hp. induction sep as [|c sep IH].
    - rewrite append_nil_l. cbn. induction t as [|c t IHt]; [done|]. cbn. by f_equal.
    - rewrite append_cons. cbn. apply IH. }
  destruct (sep +:+ t); cbn [Cut]; rewrite Hp; by rewrite Hs.
Qed.

Lemma Cut_skip c s sep :
  HasPrefix (String c s) sep = false → Cut (String c s) sep = prod_map (String c) id <$> Cut s sep.
Proof. cbn [Cut]. by intros ->. Qed.

(** ** Reading back formatted numbers *)

Lemma digit_char_checks : forallb (λ d, (digit_val (digit_char (Z.of_nat d)) =? Z.of_nat d)
  && negb ((0 <? d)%nat && bool_decide (digit_char (Z.of_nat d) = "0"%char))
  && (is_digit (digit_char (Z.of_nat d)) || (9 <? d)%nat)) (seq 0 36) = true.
Proof. vm_compute. reflexivity. Qed.
Lemma digit_char_spec d : 0 <= d < 36 →
  digit_val (digit_char d) = d ∧ (0 < d → digit_char d ≠ "0"%char) ∧ (d < 10 → is_digit (digit_char d) = true).
Proof.
  intros Hd. pose proof digit_char_checks as H. rewrite forallb_forall in H.
  specialize (H (Z.to_nat d)). rewrite Z2Nat.id in H by lia.
  assert (In (Z.to_nat d) (seq 0 36)) as Hin by (apply in_seq; lia). apply H in Hin. bools.
  split_and!; [lia| |].
  - intros Hpos. match goal with H : _ && bool_decide _ = false |- _ => rename H into Hz end.
    replace (0 <? Z.to_nat d)%nat with true in Hz by (symmetry; apply Nat.ltb_lt; lia). cbn in Hz. by bools.
  - intros Hlt. match goal with H : _ || _ = true |- _ => rename H into Hz end.
    by replace (9 <? Z.to_nat d)%nat with false in Hz by (symmetry; apply Nat.ltb_ge; lia); rewrite orb_false_r in Hz.
Qed.

Lemma parse_fmt_digits base max fuel : 2 <= base <= 36 → ∀ n acc,
  0 <= n < 2 ^ Z.of_nat fuel → n <= max →
  parse_digits base max 0 (fmt_digits fuel base n acc) = parse_digits base max n acc.
Proof.
  intros Hb. induction fuel as [|fuel IH]; intros n acc Hn Hmax; [replace n with 0 by lia; done|].
  assert (0 <= n mod base < base) as Hd by (apply Z.mod_pos_bound; lia).
  assert (∀ q, q * base + n mod base = n →
    parse_digits base max q (String (digit_char (n mod base)) acc) = parse_digits base max n acc) as Hstep.
  { intros q Hq. cbn [parse_digits]. rewrite (proj1 (digit_char_spec (n mod base) ltac:(lia))), Hq.
    by replace (base <=? n mod base) with false by lia; replace (max <? n) with false by lia. }
  cbn [fmt_digits]. destruct (Z.ltb_spec n base) as [Hlt|Hge].
  - apply Hstep. rewrite Z.mod_small; lia.
  - pose proof (Z.div_mod n base ltac:(lia)). pose proof (Z.div_pos n base ltac:(lia) ltac:(lia)).
    assert (n / base < 2 ^ Z.of_nat fuel).
    { apply Z.div_lt_upper_bound; [lia|]. rewrite Nat2Z.inj_succ, Z.pow_succ_r in Hn by lia. nia. }
    rewrite IH; [apply Hstep| |]; nia.
Qed.

(** The fuel of [FormatUint] is enough. *)
Lemma format_fuel n : 0 < n → n < 2 ^ Z.of_nat (S (Z.to_nat (Z.log2 n))).
Proof.
  intros Hn. rewrite Nat2Z.inj_succ, Z2Nat.id by apply Z.log2_nonneg. apply Z.log2_spec; lia.
Qed.

Lemma parse_FormatUint base max n : 2 <= base <= 36 → 0 <= n <= max → parse_digits base max 0 (FormatUint n base) = inl n.
Proof.
  intros Hb Hn. unfold FormatUint. rewrite parse_fmt_digits; [done|done| |lia].
  destruct (decide (n = 0)) as [->|]; [done|]. pose proof (format_fuel n ltac:(lia)). lia.
Qed.

Lemma parse_pad0 base max k s : 2 <= base → 0 <= max → parse_digits base max 0 (pad0 k s) = parse_digits base max 0 s.
Proof.
  intros Hb Hm. induction k as [|k IH]; [done|]. cbn [pad0 parse_digits].
  change (digit_val "0") with 0. replace (base <=? 0) with false by lia. replace (0 * base + 0) with 0 by lia.
  by replace (max <? 0) with false by lia.
Qed.

(** A number printed in any base and padded can be read back. *)
Lemma fmt_pad_inj w base n m : 2 <= base <= 36 → 0 <= n → 0 <= m → fmt_pad w base n = fmt_pad w base m → n = m.
Proof.
  intros Hb Hn Hm Heq. apply (f_equal (parse_digits base (Z.max n m) 0)) in Heq. unfold fmt_pad in Heq.
  rewrite !parse_pad0, !parse_FormatUint in Heq by lia. congruence.
Qed.
