(* ===== verification/GoFlag.v ===== *)
(** * GoFlag: Go's package flag, and the texts strconv accepts for its values *)
From S2P Require Import Prelude GoStrings.
Local Open Scope Z_scope.

(** ** strconv *)

Definition ParseBool (s : string) : option bool :=
  if bool_decide (s ∈ ["1"; "t"; "T"; "true"; "TRUE"; "True"]) then Some true
  else if bool_decide (s ∈ ["0"; "f"; "F"; "false"; "FALSE"; "False"]) then Some false
  else None.

(** A number with a prefix for its base ([ParseUint] with base 0): the base and
    the digits after the prefix. *)
Definition base_prefix (s : string) : Z * string :=
  match s with
  | String "0" (String c (String _ _ as digits)) =>
      let l := lower_byte c in
      if bool_decide (l = "b"%char) then (2, digits)
      else if bool_decide (l = "o"%char) then (8, digits)
      else if bool_decide (l = "x"%char) then (16, digits)
      else (8, String c digits)
  | String "0" digits => (8, digits)
  | _ => (10, s)
  end.

(** Underscores may only separate digits, or follow the prefix. *)
Inductive last_seen := SeenNothing | SeenDigit | SeenUnderscore | SeenOther.
Fixpoint underscores_ok (hex : bool) (saw : last_seen) (s : string) : bool :=
  match s with
  | EmptyString => match saw with SeenUnderscore => false | _ => true end
  | String c t =>
      if is_digit c || hex && in_range 97 102 (lower_byte c) then underscores_ok hex SeenDigit t
      else if bool_decide (c = "_"%char) then
        match saw with SeenDigit => underscores_ok hex SeenUnderscore t | _ => false end
      else match saw with SeenUnderscore => false | _ => underscores_ok hex SeenOther t end
  end.
Definition underscoreOK (s : string) : bool :=
  let s := match s with String "-" t | String "+" t => t | _ => s end in
  match s with
  | String "0" (String c t) =>
      let l := lower_byte c in
      if bool_decide (l = "b"%char ∨ l = "o"%char ∨ l = "x"%char) then
        underscores_ok (bool_decide (l = "x"%char)) SeenDigit t
      else underscores_ok false SeenNothing s
  | _ => underscores_ok false SeenNothing s
  end.

Fixpoint drop_underscores (s : string) : string :=
  match s with
  | EmptyString => EmptyString
  | String c t => if bool_decide (c = "_"%char) then drop_underscores t else String c (drop_underscores t)
  end.

(** [strconv.ParseUint(s, 0, bitSize)] *)
Definition ParseUint0 (s : string) (bitSize : Z) : Z + num_error :=
  match s with
  | EmptyString => inr ErrSyntax
  | _ =>
      let '(base, digits) := base_prefix s in
      match parse_digits base (2 ^ bitSize - 1) 0 (drop_underscores digits) with
      | inr e => inr e
      | inl n => if Contains digits "_" && negb (underscoreOK s) then inr ErrSyntax else inl n
      end
  end.

(** ** Flags *)

(** A flag and its value. A package that registers flags of its own types says
    whether they are boolean and which texts they accept. *)
Inductive flag_value :=
  | FString (s : string)
  | FBool (b : bool)
  | FUint64 (n : Z)
  | FCustom (isBool : bool) (accepts : string → bool) (s : string).
Abbreviation FlagSet := (gmap string flag_value).

Definition IsBoolFlag (f : flag_value) : bool :=
  match f with FBool _ => true | FCustom b _ _ => b | _ => false end.
(** [Value.Set]: the new value, or [None] for an error. *)
Definition set_flag (f : flag_value) (s : string) : option flag_value :=
  match f with
  | FString _ => Some (FString s)
  | FBool _ => FBool <$> ParseBool s
  | FUint64 _ => match ParseUint0 s 64 with inl n => Some (FUint64 n) | inr _ => None end
  | FCustom b accepts _ => if accepts s then Some (FCustom b accepts s) else None
  end.
(** [flag.Set] *)
Definition Set_ (fs : FlagSet) (name value : string) : option FlagSet :=
  f ← fs !! name; f' ← set_flag f value; Some (<[name := f']> fs).

(** ** Parsing a command line *)

Inductive arg_shape :=
  | NotFlag
  | Terminator
  | BadSyntax
  | FlagArg (name : string) (value : option string).

Definition named_flag (name : string) : arg_shape :=
  match name with
  | EmptyString => BadSyntax
  | String "-" _ | String "=" _ => BadSyntax
  | _ => match cut_byte "=" name with Some (n, v) => FlagArg n (Some v) | None => FlagArg name None end
  end.
Definition shape (s : string) : arg_shape :=
  match s with
  | String "-" EmptyString => NotFlag
  | String "-" (String "-" EmptyString) => Terminator
  | String "-" (String "-" name) => named_flag name
  | String "-" name => named_flag name
  | _ => NotFlag
  end.

Inductive parse_result :=
  | Parsed (fs : FlagSet) (args : list string)
  | ErrHelp
  | ParseError.

Fixpoint Parse (fs : FlagSet) (args : list string) : parse_result :=
  match args with
  | [] => Parsed fs []
  | s :: rest =>
      match shape s with
      | NotFlag => Parsed fs args
      | Terminator => Parsed fs rest
      | BadSyntax => ParseError
      | FlagArg name value =>
          match fs !! name with
          | None => if bool_decide (name = "help" ∨ name = "h") then ErrHelp else ParseError
          | Some f =>
              if IsBoolFlag f then
                match set_flag f (default "true" value) with
                | Some f' => Parse (<[name := f']> fs) rest
                | None => ParseError
                end
              else
                match value, rest with
                | Some v, _ =>
                    match set_flag f v with Some f' => Parse (<[name := f']> fs) rest | None => ParseError end
                | None, v :: rest' =>
                    match set_flag f v with Some f' => Parse (<[name := f']> fs) rest' | None => ParseError end
                | None, [] => ParseError
                end
          end
      end
  end.

(** The status that [flag.Parse] exits with when it does not return. *)
Definition exit_status (r : parse_result) : option Z :=
  match r with Parsed _ _ => None | ErrHelp => Some 0 | ParseError => Some 2 end.

(** What a flag variable points to. *)
Definition get_string (fs : FlagSet) (name : string) : string :=
  match fs !! name with Some (FString s) => s | _ => EmptyString end.
Definition get_bool (fs : FlagSet) (name : string) : bool :=
  match fs !! name with Some (FBool b) => b | _ => false end.
Definition get_uint64 (fs : FlagSet) (name : string) : Z :=
  match fs !! name with Some (FUint64 n) => n | _ => 0 end.

(** ** Facts *)

(** *** Decimal numbers are read back *)

Lemma fmt_digits_all fuel : ∀ n acc, 0 <= n → str_all is_digit acc = true → str_all is_digit (fmt_digits fuel 10 n acc) = true.
Proof.
  induction fuel as [|fuel IH]; intros n acc Hn Hacc; [done|].
  assert (0 <= n mod 10 < 10) as Hd by (apply Z.mod_pos_bound; lia).
  assert (str_all is_digit (String (digit_char (n mod 10)) acc) = true) as H.
  { cbn [str_all]. by rewrite (proj2 (proj2 (digit_char_spec (n mod 10) ltac:(lia)))), Hacc by lia. }
  cbn [fmt_digits]. destruct (n <? 10); [done|]. apply IH; [apply Z.div_pos; lia|done].
Qed.

Lemma fmt_digits_head fuel : ∀ n acc,
  0 < n < 2 ^ Z.of_nat fuel → ∃ c t, fmt_digits fuel 10 n acc = String c t ∧ c ≠ "0"%char.
Proof.
  induction fuel as [|fuel IH]; intros n acc Hn; [lia|]. cbn [fmt_digits].
  destruct (Z.ltb_spec n 10) as [Hlt|Hge].
  - eexists _, _. rewrite Z.mod_small by lia. split; [done|]. apply (digit_char_spec n); lia.
  - apply IH. split; [apply Z.div_str_pos; lia|]. apply Z.div_lt_upper_bound; [lia|].
    rewrite Nat2Z.inj_succ, Z.pow_succ_r in Hn by lia. lia.
Qed.

Lemma digits_no_underscore s : str_all is_digit s = true → drop_underscores s = s ∧ Contains s "_" = false.
Proof.
  intros Hs. split.
  - induction s as [|c s IH]; [done|]. cbn in Hs |- *. bools. rewrite IH by done.
    case_bool_decide as Hc; [subst c; discriminate|done].
  - destruct (Contains s "_") eqn:Hc; [|done]. apply Contains_spec in Hc as (a & b & ->).
    rewrite !str_all_app in Hs. bools. discriminate.
Qed.

Lemma ParseUint0_FormatUint n bits : 0 <= n < 2 ^ bits → ParseUint0 (FormatUint n 10) bits = inl n.
Proof.
  intros Hn. destruct (decide (n = 0)) as [->|Hnz]; [done|].
  assert (0 < n < 2 ^ Z.of_nat (S (Z.to_nat (Z.log2 n)))) as Hfuel by (split; [lia|apply format_fuel; lia]).
  destruct (fmt_digits_head _ n EmptyString Hfuel) as (c & t & Hs & Hc).
  pose proof (fmt_digits_all (S (Z.to_nat (Z.log2 n))) n EmptyString ltac:(lia) eq_refl) as Hall.
  destruct (digits_no_underscore _ Hall) as [Hdrop Hcont].
  pose proof (parse_FormatUint 10 (2 ^ bits - 1) n ltac:(lia) ltac:(lia)) as Hp.
  unfold ParseUint0, FormatUint in *. rewrite Hs in *.
  assert (base_prefix (String c t) = (10, String c t)) as ->.
  { unfold base_prefix. by destruct c as [[] [] [] [] [] [] [] []]. }
  cbv beta iota. by rewrite Hdrop, Hp, Hcont.
Qed.
