(* ===== verification/GoPath.v ===== *)
(** * GoPath: Go's path package

    [Clean], [Join], [Dir], [Base] and [Split] on slash-separated paths, and
    the theory the volume model needs: a rooted clean path is [abs l] for a
    list [l] of normal components, and the operations act on [l]. *)
From S2P Require Import Prelude GoStrings.

Abbreviation slash := "/"%char.

(** [strings.Split(s, c)] for a one-byte separator: never empty. *)
Fixpoint split_on (c : ascii) (s : string) : list string :=
  match s with
  | EmptyString => [EmptyString]
  | String d t =>
      if bool_decide (c = d) then EmptyString :: split_on c t
      else match split_on c t with
           | h :: r => String d h :: r
           | [] => [str1 d]
           end
  end.

Fixpoint join_with (c : ascii) (l : list string) : string :=
  match l with
  | [] => EmptyString
  | [a] => a
  | a :: r => a +:+ String c (join_with c r)
  end.

Definition is_rooted (p : string) : bool := HasPrefix p "/".

(** One path element of [path.Clean]: the stack holds the elements kept so
    far, last first. *)
Definition clean_step (rooted : bool) (stack : list string) (c : string) : list string :=
  if bool_decide (c = EmptyString) || bool_decide (c = ".") then stack
  else if bool_decide (c = "..") then
    match stack with
    | top :: rest => if bool_decide (top = "..") then c :: stack else rest
    | [] => if rooted then [] else [c]
    end
  else c :: stack.

Definition clean_elems (rooted : bool) (elems : list string) : list string :=
  reverse (foldl (clean_step rooted) [] elems).

Definition Clean (p : string) : string :=
  if bool_decide (p = EmptyString) then "."
  else
    let elems := clean_elems (is_rooted p) (split_on slash p) in
    if is_rooted p then String slash (join_with slash elems)
    else match elems with [] => "." | _ => join_with slash elems end.

(** [path.Join]: the elements from the first non-empty one on, with a slash
    between them, cleaned; the empty string when there is none. *)
Definition join_raw (elems : list string) : string :=
  foldl (fun buf e => if bool_decide (buf = EmptyString) then e else buf +:+ "/" +:+ e)
        EmptyString elems.
Definition PathJoin (elems : list string) : string :=
  if bool_decide (join_raw elems = EmptyString) then EmptyString else Clean (join_raw elems).

(** [path.Split], [path.Dir]. *)
Definition Split (p : string) : string * string :=
  match cut_last_byte slash p with
  | Some (a, b) => (a +:+ "/", b)
  | None => (EmptyString, p)
  end.
Definition Dir (p : string) : string := Clean (Split p).1.

(** [path.Base]: the last element after the trailing slashes are dropped. *)
Definition Base (p : string) : string :=
  if bool_decide (p = EmptyString) then "."
  else
    let q := TrimRight p slash in
    let b := match cut_last_byte slash q with Some (_, b) => b | None => q end in
    if bool_decide (b = EmptyString) then "/" else b.

(** ** Normal components and rooted clean paths *)

Definition no_slash (s : string) : bool := str_all (λ d, negb (bool_decide (slash = d))) s.

Definition normal (c : string) : bool :=
  negb (bool_decide (c = EmptyString)) && negb (bool_decide (c = "."))
  && negb (bool_decide (c = "..")) && no_slash c.

Definition abs (l : list string) : string := String slash (join_with slash l).

Definition normals (l : list string) : Prop := Forall (λ c, normal c = true) l.

Lemma normal_inv c :
  normal c = true → c ≠ EmptyString ∧ c ≠ "." ∧ c ≠ ".." ∧ no_slash c = true.
Proof. unfold normal. intros H. bools. done. Qed.

Lemma normal_no_slash c : normal c = true → no_slash c = true.
Proof. by intros (_ & _ & _ & ?)%normal_inv. Qed.

(** *** Splitting *)

Lemma split_on_nonempty c s : split_on c s ≠ [].
Proof.
  destruct s as [|d s]; cbn; [done|]. case_bool_decide; [done|]. by destruct (split_on c s).
Qed.

Lemma split_on_app c a b : split_on c (a +:+ String c b) = split_on c a ++ split_on c b.
Proof.
  induction a as [|d a IH]; rewrite ?append_nil_l, ?append_cons; cbn.
  - by rewrite bool_decide_eq_true_2.
  - rewrite IH. case_bool_decide; [done|].
    pose proof (split_on_nonempty c a). by destruct (split_on c a).
Qed.

Lemma split_on_nosep c a :
  str_all (λ d, negb (bool_decide (c = d))) a = true → split_on c a = [a].
Proof.
  induction a as [|d a IH]; [done|]. cbn. rewrite andb_true_iff. intros [H1 H2]. bools.
  rewrite bool_decide_eq_false_2 by done. by rewrite IH.
Qed.

Lemma split_on_no_slash c s : Forall (λ e, str_all (λ d, negb (bool_decide (c = d))) e = true) (split_on c s).
Proof.
  induction s as [|d s IH]; cbn; [by repeat constructor|].
  case_bool_decide; [by constructor|].
  destruct (split_on c s) as [|h r]; inv IH; constructor; try done; cbn.
  all: rewrite bool_decide_eq_false_2 by done; done.
Qed.

Lemma split_on_join c l :
  l ≠ [] → Forall (λ e, str_all (λ d, negb (bool_decide (c = d))) e = true) l →
  split_on c (join_with c l) = l.
Proof.
  induction l as [|a l IH]; [done|]. intros _ Hl. inv Hl.
  destruct l as [|b l]; [by apply split_on_nosep|].
  change (split_on c (a +:+ String c (join_with c (b :: l))) = a :: b :: l).
  rewrite split_on_app, split_on_nosep, IH by done. done.
Qed.

Lemma join_with_app c l1 l2 :
  l1 ≠ [] → l2 ≠ [] → join_with c (l1 ++ l2) = join_with c l1 +:+ String c (join_with c l2).
Proof.
  intros H1 H2. induction l1 as [|a l1 IH]; [done|].
  destruct l1 as [|b l1].
  - cbn. by destruct l2.
  - change (a +:+ String c (join_with c ((b :: l1) ++ l2)) =
            (a +:+ String c (join_with c (b :: l1))) +:+ String c (join_with c l2)).
    rewrite IH by done. by rewrite append_assoc, append_cons.
Qed.

Lemma split_abs l : normals l → split_on slash (abs l) = EmptyString :: (if bool_decide (l = []) then [EmptyString] else l).
Proof.
  intros Hl. unfold abs. cbn. rewrite ?bool_decide_eq_true_2 by done. f_equal.
  case_bool_decide as E; [by subst|]. apply split_on_join; [done|].
  eapply Forall_impl; [exact Hl|]. intros c Hc. by apply normal_no_slash.
Qed.

Lemma is_rooted_cons s : is_rooted (String slash s) = true.
Proof. apply HasPrefix_spec. by exists s. Qed.

Lemma is_rooted_abs l : is_rooted (abs l) = true.
Proof. apply is_rooted_cons. Qed.

Lemma is_rooted_app l t : is_rooted (abs l +:+ t) = true.
Proof. apply is_rooted_cons. Qed.

Lemma is_rooted_inv p : is_rooted p = true → ∃ s, p = String slash s.
Proof. intros H. apply HasPrefix_spec in H as [t ->]. by exists t. Qed.

(** *** Cleaning *)

Lemma clean_step_normal r st c : normal c = true → clean_step r st c = c :: st.
Proof.
  intros (H1 & H2 & H3 & _)%normal_inv. unfold clean_step.
  by rewrite !bool_decide_eq_false_2.
Qed.

Lemma clean_step_nil r st : clean_step r st EmptyString = st.
Proof. done. Qed.

Lemma foldl_clean_normals r st l :
  normals l → foldl (clean_step r) st l = reverse l ++ st.
Proof.
  intros Hl. revert st. induction Hl as [|c l Hc _ IH]; intros st; [done|]. cbn [foldl].
  by rewrite clean_step_normal, IH, reverse_cons, <- app_assoc.
Qed.

(** A rooted clean never leaves a dot-dot, so its stack stays normal. *)
Lemma clean_step_rooted st c :
  normals st → no_slash c = true → normals (clean_step true st c).
Proof.
  intros Hst Hc. unfold clean_step.
  destruct (bool_decide (c = EmptyString)) eqn:E1; cbn; [done|].
  destruct (bool_decide (c = ".")) eqn:E2; cbn; [done|].
  destruct (bool_decide (c = "..")) eqn:E3.
  - destruct st as [|top rest]; [done|]. inv Hst.
    rewrite bool_decide_eq_false_2; [done|]. by apply (normal_inv top).
  - constructor; [|done]. unfold normal. by rewrite E1, E2, E3, Hc.
Qed.

Lemma foldl_clean_rooted st l :
  normals st → Forall (λ c, no_slash c = true) l → normals (foldl (clean_step true) st l).
Proof.
  intros Hst Hl. revert st Hst. induction Hl as [|c l Hc _ IH]; intros st Hst; [done|].
  cbn. by apply IH, clean_step_rooted.
Qed.

Lemma clean_elems_rooted l : Forall (λ c, no_slash c = true) l → normals (clean_elems true l).
Proof. intros H. unfold clean_elems, normals. apply Forall_reverse, foldl_clean_rooted; [constructor|done]. Qed.

(** The clean form of a rooted path. *)
Lemma Clean_rooted p :
  is_rooted p = true →
  Clean p = abs (clean_elems true (split_on slash p)) ∧ normals (clean_elems true (split_on slash p)).
Proof.
  intros Hp. split; [|apply clean_elems_rooted, split_on_no_slash].
  unfold Clean. rewrite Hp. rewrite bool_decide_eq_false_2; [done|].
  intros ->. by apply is_rooted_inv in Hp as [? ?].
Qed.

Lemma clean_elems_abs l : normals l → clean_elems true (split_on slash (abs l)) = l.
Proof.
  intros Hl. rewrite split_abs by done. unfold clean_elems. cbn [foldl].
  change (clean_step true [] EmptyString) with ([] : list string).
  case_bool_decide as E; [by subst|].
  by rewrite foldl_clean_normals, app_nil_r, reverse_involutive.
Qed.

(** [Clean] is the identity on clean rooted paths. *)
Lemma Clean_abs l : normals l → Clean (abs l) = abs l.
Proof.
  intros Hl. rewrite (proj1 (Clean_rooted _ (is_rooted_abs l))). by rewrite clean_elems_abs.
Qed.

(** *** Joining *)

Lemma clean_elems_join l s :
  normals l →
  clean_elems true (split_on slash (abs l +:+ String slash s))
  = reverse (foldl (clean_step true) (reverse l) (split_on slash s)).
Proof.
  intros Hl. rewrite split_on_app. unfold clean_elems. rewrite foldl_app. f_equal. f_equal.
  transitivity (reverse (clean_elems true (split_on slash (abs l)))).
  - unfold clean_elems. by rewrite reverse_involutive.
  - by rewrite clean_elems_abs.
Qed.

Lemma PathJoin_abs2 l s :
  normals l →
  PathJoin [abs l; s] = abs (reverse (foldl (clean_step true) (reverse l) (split_on slash s))).
Proof.
  intros Hl. unfold PathJoin, join_raw. cbn [foldl].
  rewrite (bool_decide_eq_true_2 (EmptyString = EmptyString)) by done.
  rewrite (bool_decide_eq_false_2 (abs l = EmptyString)) by done.
  rewrite bool_decide_eq_false_2 by done.
  change (abs l +:+ "/" +:+ s) with (abs l +:+ String slash s).
  rewrite (proj1 (Clean_rooted _ (is_rooted_app _ _))). by rewrite clean_elems_join.
Qed.

(** Joining a normal component, or a rooted clean path, extends the list. *)
Lemma PathJoin_normal l c : normals l → normal c = true → PathJoin [abs l; c] = abs (l ++ [c]).
Proof.
  intros Hl Hc. rewrite PathJoin_abs2 by done.
  rewrite split_on_nosep by (by apply normal_no_slash). cbn [foldl].
  by rewrite clean_step_normal, reverse_cons, reverse_involutive.
Qed.

Lemma PathJoin_abs l1 l2 : normals l1 → normals l2 → PathJoin [abs l1; abs l2] = abs (l1 ++ l2).
Proof.
  intros H1 H2. rewrite PathJoin_abs2 by done. f_equal.
  rewrite split_abs by done. case_bool_decide as E.
  - subst l2. cbn [foldl]. by rewrite !clean_step_nil, reverse_involutive, app_nil_r.
  - cbn [foldl]. rewrite clean_step_nil, foldl_clean_normals by done. by rewrite reverse_app, !reverse_involutive.
Qed.

(** *** Directory and base name *)

Lemma abs_snoc l c : abs (l ++ [c]) = (if bool_decide (l = []) then EmptyString else abs l) +:+ String slash c.
Proof.
  case_bool_decide as E; [by subst|]. unfold abs.
  rewrite join_with_app by done. by rewrite append_cons.
Qed.

Lemma cut_last_abs_snoc l c :
  normal c = true →
  cut_last_byte slash (abs (l ++ [c])) = Some (if bool_decide (l = []) then EmptyString else abs l, c).
Proof. intros Hc. rewrite abs_snoc. apply cut_last_byte_app. by apply normal_no_slash. Qed.

Lemma Dir_abs_snoc l c : normals l → normal c = true → Dir (abs (l ++ [c])) = abs l.
Proof.
  intros Hl Hc. unfold Dir, Split. rewrite cut_last_abs_snoc by done. cbn [fst].
  case_bool_decide as E; [by subst|].
  change (abs l +:+ "/") with (abs l +:+ String slash EmptyString).
  rewrite (proj1 (Clean_rooted _ (is_rooted_app _ _))). rewrite clean_elems_join by done.
  cbn [split_on foldl]. by rewrite clean_step_nil, reverse_involutive.
Qed.

Lemma Dir_root : Dir "/" = "/".
Proof. reflexivity. Qed.

Lemma TrimRight_nosuffix s c : no_slash c = true → c ≠ EmptyString → TrimRight (s +:+ c) slash = s +:+ c.
Proof.
  intros Hc Hne.
  assert (TrimRight c slash = c) as Hc'.
  { clear Hne. induction c as [|d c IH]; [done|]. cbn in *. apply andb_true_iff in Hc as [H1 H2].
    rewrite IH by done. destruct c; [|done]. bools. by rewrite bool_decide_eq_false_2. }
  induction s as [|d s IH]; [done|]. rewrite append_cons. cbn. rewrite IH.
  destruct (s +:+ c) eqn:E; [|done]. by apply append_eq_nil in E as [_ ->].
Qed.

Lemma Base_abs_snoc l c : normal c = true → Base (abs (l ++ [c])) = c.
Proof.
  intros Hc. pose proof (normal_inv _ Hc) as (Hne & _ & _ & Hs).
  unfold Base. rewrite bool_decide_eq_false_2 by done.
  assert (TrimRight (abs (l ++ [c])) slash = abs (l ++ [c])) as ->.
  { rewrite abs_snoc. change (String slash c) with (str1 slash +:+ c).
    rewrite <- append_assoc. by apply TrimRight_nosuffix. }
  rewrite cut_last_abs_snoc by done. by rewrite bool_decide_eq_false_2.
Qed.

Lemma Base_root : Base "/" = "/".
Proof. reflexivity. Qed.

Lemma abs_inj l1 l2 : normals l1 → normals l2 → abs l1 = abs l2 → l1 = l2.
Proof. intros H1 H2 E. by rewrite <- (clean_elems_abs l1), <- (clean_elems_abs l2), E. Qed.

#[export] Hint Resolve Forall_nil_2 Forall_cons_2 Forall_app_2 : core.
