(* ===== verification/GoNet.v ===== *)
(** * GoNet: Go's net and net/netip packages, as far as the driver uses them

    Whether a text is an IP address ([netip.ParseAddr], [net.ParseIP]) or a
    CIDR block ([net.ParseCIDR]), and [net.JoinHostPort]. Only the validity of
    an address and its bit length matter to the driver, so a parsed address is
    represented by its family and zone. *)
From S2P Require Import Prelude GoStrings GoPath.
Local Open Scope Z_scope.

Inductive ip_addr :=
  | Addr4
  | Addr6 (zone : string).

(** An octet of a dotted-decimal address: digits with no leading zero, at most 255. *)
Definition ipv4_field (s : string) : bool :=
  match s with
  | EmptyString => false
  | String "0"%char EmptyString => true
  | String "0"%char _ => false
  | _ => str_all is_digit s &&
         match ParseUint s 10 8 with inl _ => true | inr _ => false end
  end.

Definition ipv4_fields (s : string) : bool :=
  let fs := split_on "."%char s in
  (Z.of_nat (length fs) =? 4) && forallb ipv4_field fs.

Definition is_hex (c : ascii) : bool := digit_val c <? 16.

(** The leading hex digits of [s] and what follows them. *)
Fixpoint span_hex (s : string) : string * string :=
  match s with
  | EmptyString => (EmptyString, EmptyString)
  | String c t => if is_hex c then prod_map (String c) id (span_hex t) else (EmptyString, s)
  end.

(** The loop of [netip.parseIPv6] from byte [i] of the address on: [ell] tells
    whether an ellipsis was seen. The result is the byte reached, or [None]
    for a malformed address. Each round fills two bytes, so 8 rounds suffice. *)
Fixpoint ipv6_loop (fuel : nat) (i : Z) (ell : bool) (s : string) : option (Z * bool) :=
  match fuel with
  | O => if bool_decide (s = EmptyString) then Some (i, ell) else None
  | S fuel' =>
      let '(grp, rest) := span_hex s in
      if (String.length grp =? 0)%nat || (4 <? String.length grp)%nat then None
      else match rest with
      | String "."%char _ =>
          if negb ell && negb (i =? 12) then None
          else if 16 <? i + 4 then None
          else if ipv4_fields s then Some (i + 4, ell) else None
      | EmptyString => Some (i + 2, ell)
      | String ":"%char EmptyString => None
      | String ":"%char (String ":"%char t) =>
          if ell then None
          else if bool_decide (t = EmptyString) then Some (i + 2, true)
          else ipv6_loop fuel' (i + 2) true t
      | String ":"%char t => ipv6_loop fuel' (i + 2) ell t
      | _ => None
      end
  end.

Definition ipv6_body (s : string) : bool :=
  let '(ell, t) :=
    match s with String ":"%char (String ":"%char t) => (true, t) | _ => (false, s) end in
  if ell && bool_decide (t = EmptyString) then true
  else match ipv6_loop 8 0 ell t with
       | None => false
       | Some (i, ell') => if i <? 16 then ell' else negb ell'
       end.

Definition parseIPv6 (s : string) : option ip_addr :=
  match cut_byte "%"%char s with
  | Some (body, zone) =>
      if bool_decide (zone = EmptyString) then None
      else if ipv6_body body then Some (Addr6 zone) else None
  | None => if ipv6_body s then Some (Addr6 EmptyString) else None
  end.

(** [netip.ParseAddr]: the first dot, colon or percent sign decides. *)
Fixpoint addr_kind (s : string) : option ascii :=
  match s with
  | EmptyString => None
  | String c t =>
      if bool_decide (c = "."%char) || bool_decide (c = ":"%char) || bool_decide (c = "%"%char)
      then Some c else addr_kind t
  end.
Definition ParseAddr (s : string) : option ip_addr :=
  match addr_kind s with
  | Some "."%char => if ipv4_fields s then Some Addr4 else None
  | Some ":"%char => parseIPv6 s
  | _ => None
  end.

(** [net.ParseIP(s) != nil] *)
Definition ParseIP (s : string) : option ip_addr :=
  match ParseAddr s with
  | Some (Addr6 z) => if bool_decide (z = EmptyString) then Some (Addr6 z) else None
  | r => r
  end.

Definition BitLen (a : ip_addr) : Z := match a with Addr4 => 32 | Addr6 _ => 128 end.

(** [net.dtoi] on a whole text: decimal digits, with its limit 0xFFFFFF. *)
Definition dtoi (s : string) : option Z :=
  match s with
  | EmptyString => None
  | _ => if str_all is_digit s
         then match parse_digits 10 (16777215 - 1) 0 s with inl n => Some n | inr _ => None end
         else None
  end.

(** [net.ParseCIDR(s)] succeeds *)
Definition ParseCIDR (s : string) : bool :=
  match cut_byte "/"%char s with
  | None => false
  | Some (addr, mask) =>
      match ParseIP addr, dtoi mask with
      | Some a, Some n => n <=? BitLen a
      | _, _ => false
      end
  end.

Definition JoinHostPort (host port : string) : string :=
  match cut_byte ":"%char host with
  | Some _ => "[" +:+ host +:+ "]:" +:+ port
  | None => host +:+ ":" +:+ port
  end.
