(* ===== verification/GoURL.v ===== *)
(** * GoURL: Go's net/url package (Go 1.25), as far as the driver uses it

    [URL.String] for a URL built from a scheme, a host and a path, and
    [url.Parse]. Of a parsed URL the driver reads Scheme, Host and Path; the
    other parts (userinfo, query, fragment) are parsed for their errors. *)
From S2P Require Import Prelude GoStrings GoPath GoNet.
Local Open Scope Z_scope.

(** ** Escaping *)

Inductive encoding := encodePath | encodeHost | encodeZone | encodeUserPassword | encodeFragment.

#[export] Instance encoding_eq_dec : EqDecision encoding.
Proof. solve_decision. Defined.

Definition is_one_of (set : string) (c : ascii) : bool :=
  match cut_byte c set with Some _ => true | None => false end.

(** The double quote, which [shouldEscape] allows in a host. *)
Definition dquote : ascii := byte_of 34.

Definition shouldEscape (c : ascii) (mode : encoding) : bool :=
  if is_alpha c || is_digit c then false
  else if (bool_decide (mode = encodeHost) || bool_decide (mode = encodeZone))
          && (is_one_of "!$&'()*+,;=:[]<>" c || bool_decide (c = dquote)) then false
  else if is_one_of "-_.~" c then false
  else if is_one_of "$&+,/:;=?@" c then
    match mode with
    | encodePath => bool_decide (c = "?"%char)
    | encodeUserPassword => is_one_of "@/?:" c
    | encodeFragment => false
    | encodeHost | encodeZone => true
    end
  else if bool_decide (mode = encodeFragment) && is_one_of "!()*" c then false
  else true.

Definition upperhex (d : Z) : ascii := byte_of (if d <? 10 then 48 + d else 65 + d - 10).

Definition escape_byte (mode : encoding) (c : ascii) : string :=
  if shouldEscape c mode
  then String "%"%char (String (upperhex (byte_val c / 16)) (str1 (upperhex (byte_val c mod 16))))
  else str1 c.
Definition escape (s : string) (mode : encoding) : string := str_flat_map (escape_byte mode) s.

(** [unescape]: [None] for a malformed escape or a byte a host may not hold. *)
Fixpoint unescape (s : string) (mode : encoding) : option string :=
  match s with
  | EmptyString => Some EmptyString
  | String c t =>
      if bool_decide (c = "%"%char) then
        match t with
        | String a (String b r) =>
            let v := byte_of (digit_val a * 16 + digit_val b) in
            let is25 := bool_decide (a = "2"%char) && bool_decide (b = "5"%char) in
            if negb (is_hex a && is_hex b) then None
            else if bool_decide (mode = encodeHost) && (digit_val a <? 8) && negb is25 then None
            else if bool_decide (mode = encodeZone) && negb is25 && negb (bool_decide (v = " "%char))
                    && shouldEscape v encodeHost then None
            else String v <$> unescape r mode
        | _ => None
        end
      else if (bool_decide (mode = encodeHost) || bool_decide (mode = encodeZone))
              && (byte_val c <? 128) && shouldEscape c mode then None
      else String c <$> unescape t mode
  end.

(** ** Parsing *)

Definition validOptionalPort (port : string) : bool :=
  match port with
  | EmptyString => true
  | String c t => bool_decide (c = ":"%char) && str_all is_digit t
  end.

(** [strings.Index(s, sub)] as the text before the first occurrence and the
    text from it on. *)
Fixpoint cut_at (s sub : string) : option (string * string) :=
  if HasPrefix s sub then Some (EmptyString, s)
  else match s with
       | EmptyString => None
       | String c t => prod_map (String c) id <$> cut_at t sub
       end.

Definition parseHost (host : string) : option string :=
  match cut_last_byte "["%char host with
  | Some (before, after_open) =>
      match cut_last_byte "]"%char host with
      | None => None
      | Some (upto_close, colonPort) =>
          if negb (validOptionalPort colonPort) then None
          else
            (* host[openBracketIdx+1 : closeBracketIdx] *)
            let hostname := String.substring (S (String.length before))
                              (String.length upto_close - S (String.length before)) host in
            port ← unescape colonPort encodeHost;
            h ← match cut_at hostname "%25" with
                | Some (hp, zp) =>
                    a ← unescape hp encodeHost; b ← unescape zp encodeZone; Some (a +:+ b)
                | None => unescape hostname encodeHost
                end;
            match ParseAddr h with
            | Some (Addr6 _) => Some ("[" +:+ h +:+ "]" +:+ port)
            | _ => None
            end
      end
  | None =>
      match cut_last_byte ":"%char host with
      | Some (_, p) =>
          if validOptionalPort (String ":"%char p) then unescape host encodeHost else None
      | None => unescape host encodeHost
      end
  end.

Definition validUserinfo (s : string) : bool :=
  str_all (λ c, is_alpha c || is_digit c || is_one_of "-._:~!$&'()*+,;=%@" c) s.

Definition parseAuthority (authority : string) : option string :=
  match cut_last_byte "@"%char authority with
  | None => parseHost authority
  | Some (userinfo, host) =>
      h ← parseHost host;
      if negb (validUserinfo userinfo) then None
      else match unescape userinfo encodeUserPassword with None => None | Some _ => Some h end
  end.

(** [getScheme]: [None] for a text that starts with a colon. *)
Fixpoint scheme_go (seen : string) (whole s : string) : option (string * string) :=
  match s with
  | EmptyString => Some (EmptyString, whole)
  | String c t =>
      if is_alpha c then scheme_go (seen +:+ str1 c) whole t
      else if is_digit c || is_one_of "+-." c then
        if bool_decide (seen = EmptyString) then Some (EmptyString, whole)
        else scheme_go (seen +:+ str1 c) whole t
      else if bool_decide (c = ":"%char) then
        if bool_decide (seen = EmptyString) then None else Some (seen, t)
      else Some (EmptyString, whole)
  end.
Definition getScheme (s : string) : option (string * string) := scheme_go EmptyString s s.

Definition is_ctl (c : ascii) : bool := (byte_val c <? 32) || (byte_val c =? 127).

Record URL := mkURL { Scheme : string; Host : string; Path : string }.

(** [parse(rawURL, false)] on the text before the fragment. A query cannot
    make parsing fail, so it is cut off. *)
Definition url_parse_nofrag (rawURL : string) : option URL :=
  if negb (str_all (negb ∘ is_ctl) rawURL) then None
  else if bool_decide (rawURL = "*") then Some (mkURL EmptyString EmptyString "*")
  else
    '(scheme0, rest0) ← getScheme rawURL;
    let scheme := ToLower scheme0 in
    let rest := match cut_byte "?"%char rest0 with Some (a, _) => a | None => rest0 end in
    if negb (is_rooted rest) then
      if negb (bool_decide (scheme = EmptyString)) then Some (mkURL scheme EmptyString EmptyString)
      else
        let segment := match cut_byte slash rest with Some (a, _) => a | None => rest end in
        if Contains segment ":" then None
        else p ← unescape rest encodePath; Some (mkURL scheme EmptyString p)
    else
      if (negb (bool_decide (scheme = EmptyString)) || negb (HasPrefix rest "///")) && HasPrefix rest "//" then
        let authority0 := String.substring 2 (String.length rest - 2) rest in
        let '(authority, tail) :=
          match cut_byte slash authority0 with
          | Some (a, b) => (a, String slash b)
          | None => (authority0, EmptyString)
          end in
        host ← parseAuthority authority;
        p ← unescape tail encodePath;
        Some (mkURL scheme host p)
      else p ← unescape rest encodePath; Some (mkURL scheme EmptyString p).

Definition url_Parse (rawURL : string) : option URL :=
  match cut_byte "#"%char rawURL with
  | None => url_parse_nofrag rawURL
  | Some (u, frag) =>
      r ← url_parse_nofrag u;
      match unescape frag encodeFragment with None => None | Some _ => Some r end
  end.

(** ** Printing *)

Definition EscapedPath (p : string) : string :=
  if bool_decide (p = "*") then "*" else escape p encodePath.

(** [URL.String] when only Scheme, Host and Path are set and Scheme is not empty. *)
Definition url_String (u : URL) : string :=
  Scheme u +:+ ":" +:+
  (if bool_decide (Host u = EmptyString) && bool_decide (Path u = EmptyString) then EmptyString else "//") +:+
  escape (Host u) encodeHost +:+
  (let p := EscapedPath (Path u) in
   if negb (bool_decide (p = EmptyString)) && negb (is_rooted p) && negb (bool_decide (Host u = EmptyString))
   then "/" +:+ p else p).

(** ** Round trip *)

(** The hosts that [url_String] prints and [url_Parse] reads back: bytes a host
    may hold, no bracket, and only digits after the last colon. *)
Definition host_byte (c : ascii) : bool :=
  negb (bool_decide (c = "["%char)) && (negb (shouldEscape c encodeHost) || (128 <=? byte_val c)).
Definition plain_host (h : string) : bool :=
  str_all host_byte h &&
  match cut_last_byte ":"%char h with Some (_, p) => str_all is_digit p | None => true end.

(** An escaped byte is read back as the byte. *)
Definition reads_back (mode : encoding) (c : ascii) : bool :=
  match escape_byte mode c with
  | String e EmptyString =>
      bool_decide (e = c) && negb (bool_decide (e = "%"%char)) && negb (shouldEscape c mode)
  | String e (String a (String b EmptyString)) =>
      bool_decide (e = "%"%char) && is_hex a && is_hex b
      && bool_decide (byte_of (digit_val a * 16 + digit_val b) = c)
      && (negb (bool_decide (mode = encodeHost)) || (8 <=? digit_val a))
      && negb (bool_decide (mode = encodeZone))
  | _ => false
  end.

Lemma unescape_escape_byte mode c t :
  reads_back mode c = true →
  unescape (escape_byte mode c +:+ t) mode = String c <$> unescape t mode.
Proof.
  unfold reads_back. destruct (escape_byte mode c) as [|e [|a [|b [|]]]]; try done; intros H; bools.
  - subst e. rewrite append_cons, append_nil_l. cbn.
    rewrite bool_decide_eq_false_2 by done. by rewrite H0, andb_false_r.
  - subst e. rewrite !append_cons, append_nil_l. cbn.
    rewrite H3, H4. cbn. rewrite bool_decide_eq_false_2 with (P := mode = encodeZone) by done. cbn.
    assert (bool_decide (mode = encodeHost) && (digit_val a <? 8) = false) as ->.
    { apply orb_true_iff in H1 as [H1|H1]; bools; [by rewrite bool_decide_eq_false_2|].
      apply Z.leb_le in H1. rewrite andb_false_iff. right. lia. }
    cbn. by rewrite H2.
Qed.

Lemma unescape_escape mode s :
  str_all (reads_back mode) s = true → unescape (escape s mode) mode = Some s.
Proof.
  induction s as [|c s IH]; [done|]. cbn [str_all]. rewrite andb_true_iff. intros [Hc Hs].
  unfold escape in *. cbn [str_flat_map]. rewrite unescape_escape_byte by done. by rewrite IH.
Qed.

Lemma reads_back_path c : reads_back encodePath c = true.
Proof. revert c. apply ascii_forall. vm_compute. reflexivity. Qed.

Lemma reads_back_host c : host_byte c = true → reads_back encodeHost c = true.
Proof.
  intros H. assert (negb (host_byte c) || reads_back encodeHost c = true) as Hb.
  { revert c H. intros c _. revert c. apply ascii_forall. vm_compute. reflexivity. }
  by rewrite H in Hb.
Qed.

Lemma str_all_escape P mode s :
  (∀ c, str_all P (escape_byte mode c) = true) → str_all P (escape s mode) = true.
Proof.
  intros HP. unfold escape. induction s as [|c s IH]; [done|]. cbn. by rewrite str_all_app, HP, IH.
Qed.

Abbreviation avoids d := (str_all (λ c, negb (bool_decide (d = c)))) (only parsing).

Lemma substring_0_length s : String.substring 0 (String.length s) s = s.
Proof. induction s as [|c s IH]; [done|]. cbn. by rewrite IH. Qed.

Lemma escape_app a b mode : escape (a +:+ b) mode = escape a mode +:+ escape b mode.
Proof. apply str_flat_map_app. Qed.

Lemma escape_digits p : str_all is_digit p = true → escape p encodeHost = p.
Proof.
  induction p as [|c p IH]; [done|]. cbn. rewrite andb_true_iff. intros [Hc Hp].
  unfold escape in *. cbn. rewrite IH by done. unfold escape_byte, shouldEscape.
  by rewrite Hc, orb_true_r.
Qed.

Lemma digits_avoid d p : is_digit d = false → str_all is_digit p = true → avoids d p = true.
Proof.
  intros Hd. apply str_all_impl. intros c Hc. apply negb_true_iff, bool_decide_eq_false.
  intros ->. congruence.
Qed.

(** A property of bytes that escaping keeps, checked byte by byte. *)
Lemma str_all_escape_impl P mode s :
  (∀ c, implb (P c) (str_all P (escape_byte mode c)) = true) →
  str_all P s = true → str_all P (escape s mode) = true.
Proof.
  intros HP. unfold escape. induction s as [|c s IH]; [done|]. cbn.
  rewrite andb_true_iff. intros [Hc Hs]. rewrite str_all_app, IH by done.
  specialize (HP c). rewrite Hc in HP. cbn in HP. by rewrite HP.
Qed.

Lemma parseHost_escape h :
  plain_host h = true → parseHost (escape h encodeHost) = Some h.
Proof.
  unfold plain_host. rewrite andb_true_iff. intros [Hb Hport].
  assert (unescape (escape h encodeHost) encodeHost = Some h) as Hu.
  { apply unescape_escape. eapply str_all_impl; [|exact Hb]. apply reads_back_host. }
  unfold parseHost.
  assert (cut_last_byte "["%char (escape h encodeHost) = None) as ->.
  { apply cut_last_byte_none, str_all_escape_impl;
      [apply ascii_forall; vm_compute; reflexivity|].
    eapply str_all_impl; [|exact Hb]. intros c Hc. unfold host_byte in Hc. bools.
    by apply negb_true_iff, bool_decide_eq_false. }
  revert Hport. destruct (cut_last_byte ":"%char h) as [[a p]|] eqn:E; intros Hport.
  - apply cut_last_byte_spec in E as [-> _].
    assert (cut_last_byte ":"%char (escape (a +:+ String ":"%char p) encodeHost)
            = Some (escape a encodeHost, p)) as ->.
    { rewrite escape_app. change (String ":"%char p) with (str1 ":"%char +:+ p).
      rewrite escape_app, (escape_digits p) by done. apply (cut_last_byte_app ":"%char).
      by apply digits_avoid. }
    cbn. by rewrite Hport.
  - assert (cut_last_byte ":"%char (escape h encodeHost) = None) as ->; [|done].
    apply cut_last_byte_none, str_all_escape_impl;
      [apply ascii_forall; vm_compute; reflexivity|]. by apply cut_last_byte_none.
Qed.

(** A printed URL is parsed up to what [parseHost] makes of the printed host. *)
Lemma url_Parse_String h p :
  url_Parse (url_String (mkURL "beegfs" h (String slash p)))
  = (λ h', mkURL "beegfs" h' (String slash p)) <$> parseHost (escape h encodeHost).
Proof.
  unfold url_String. cbn [Scheme Host Path].
  rewrite (bool_decide_eq_false_2 (String slash p = EmptyString)) by done.
  rewrite andb_false_r. unfold EscapedPath.
  rewrite (bool_decide_eq_false_2 (String slash p = "*")) by done.
  set (eh := escape h encodeHost).
  set (ep := escape p encodePath).
  change (escape (String slash p) encodePath) with (String slash ep).
  rewrite is_rooted_cons, andb_false_r. cbn [andb].
  change ("beegfs" +:+ ":" +:+ "//" +:+ eh +:+ String slash ep)
    with ("beegfs://" +:+ (eh +:+ String slash ep)).
  set (tl := eh +:+ String slash ep).
  assert (∀ P, (∀ c, str_all P (escape_byte encodeHost c) = true) →
               (∀ c, str_all P (escape_byte encodePath c) = true) →
               P slash = true → str_all P tl = true) as Htl.
  { intros P H1 H2 H3. unfold tl, eh, ep. rewrite str_all_app. cbn. rewrite H3.
    by rewrite !str_all_escape. }
  assert (avoids "#"%char tl = true) as Hfrag
    by (apply Htl; [apply ascii_forall..|]; vm_compute; reflexivity).
  assert (avoids "?"%char tl = true) as Hq
    by (apply Htl; [apply ascii_forall..|]; vm_compute; reflexivity).
  assert (str_all (negb ∘ is_ctl) tl = true) as Hctl
    by (apply Htl; [apply ascii_forall..|]; vm_compute; reflexivity).
  unfold url_Parse.
  assert (cut_byte "#"%char ("beegfs://" +:+ tl) = None) as ->.
  { apply cut_byte_none. rewrite str_all_app, Hfrag. reflexivity. }
  unfold url_parse_nofrag.
  assert (str_all (negb ∘ is_ctl) ("beegfs://" +:+ tl) = true) as ->.
  { rewrite str_all_app, Hctl. reflexivity. }
  cbn [negb]. rewrite bool_decide_eq_false_2 by done.
  change (getScheme ("beegfs://" +:+ tl)) with (Some ("beegfs", "//" +:+ tl)).
  cbn [mbind option_bind]. change (ToLower "beegfs") with "beegfs".
  assert (cut_byte "?"%char ("//" +:+ tl) = None) as ->.
  { apply cut_byte_none. rewrite str_all_app, Hq. reflexivity. }
  rewrite HasPrefix_app. change (is_rooted ("//" +:+ tl)) with true.
  rewrite (bool_decide_eq_false_2 ("beegfs" = EmptyString)) by done. cbn [negb orb andb].
  assert (String.substring 2 (String.length ("//" +:+ tl) - 2) ("//" +:+ tl) = tl) as ->.
  { change (String.substring 0 (String.length tl - 0) tl = tl).
    rewrite Nat.sub_0_r. apply substring_0_length. }
  unfold tl. rewrite cut_byte_app
    by (apply str_all_escape, ascii_forall; vm_compute; reflexivity).
  unfold parseAuthority.
  assert (cut_last_byte "@"%char eh = None) as ->
    by (apply cut_last_byte_none, str_all_escape, ascii_forall; vm_compute; reflexivity).
  unfold eh. destruct (parseHost (escape h encodeHost)); [|done]. cbn [mbind option_bind].
  change (String slash ep) with (escape (String slash p) encodePath).
  rewrite unescape_escape; [done|]. clear. induction (String slash p) as [|c t IH]; [done|].
  cbn. by rewrite reads_back_path.
Qed.

Lemma url_roundtrip h p :
  plain_host h = true →
  url_Parse (url_String (mkURL "beegfs" h (String slash p)))
  = Some (mkURL "beegfs" h (String slash p)).
Proof. intros Hh. by rewrite url_Parse_String, parseHost_escape. Qed.

(** A host with a colon that is not followed by digits only is printed as it
    is, and the port check of the parser then rejects it. *)
Lemma parseHost_bad_port a p :
  str_all (λ c, negb (bool_decide ("["%char = c))) (a +:+ String ":"%char p) = true →
  str_all (λ c, negb (bool_decide (":"%char = c))) p = true →
  str_all is_digit p = false → escape p encodeHost = p →
  parseHost (escape (a +:+ String ":"%char p) encodeHost) = None.
Proof.
  intros Hb Hc Hp He. unfold parseHost.
  assert (cut_last_byte "["%char (escape (a +:+ String ":"%char p) encodeHost) = None) as ->.
  { apply cut_last_byte_none, str_all_escape_impl;
      [apply ascii_forall; vm_compute; reflexivity|done]. }
  rewrite escape_app. change (String ":"%char p) with (str1 ":"%char +:+ p).
  rewrite escape_app, He. change (escape (str1 ":"%char) encodeHost +:+ p) with (String ":"%char p).
  rewrite cut_last_byte_app by done. cbn. by rewrite Hp.
Qed.
