(* ===== verification/GoRegexp.v ===== *)
(** * GoRegexp: Go's regexp package for the patterns the driver compiles

    Regular expressions over bytes, their language, and a matcher by
    derivatives with simplifying constructors. The patterns of the driver use
    only ASCII classes, so matching bytes and matching runes agree. *)
From S2P Require Import Prelude GoStrings.

Inductive re :=
  | Nul
  | Eps
  | Chr (p : ascii → bool)
  | Cat (r s : re)
  | Alt (r s : re)
  | Star (r : re).

Inductive in_lang : re → string → Prop :=
  | in_Eps : in_lang Eps EmptyString
  | in_Chr p c : p c = true → in_lang (Chr p) (str1 c)
  | in_Cat r s a b : in_lang r a → in_lang s b → in_lang (Cat r s) (a +:+ b)
  | in_Alt_l r s a : in_lang r a → in_lang (Alt r s) a
  | in_Alt_r r s a : in_lang s a → in_lang (Alt r s) a
  | in_Star_nil r : in_lang (Star r) EmptyString
  | in_Star_cons r c a b : in_lang r (String c a) → in_lang (Star r) b →
      in_lang (Star r) (String c a +:+ b).

(** ** The matcher *)

Fixpoint nullable (r : re) : bool :=
  match r with
  | Nul | Chr _ => false
  | Eps | Star _ => true
  | Cat a b => nullable a && nullable b
  | Alt a b => nullable a || nullable b
  end.

Definition sAlt (a b : re) : re :=
  match a, b with
  | Nul, _ => b
  | _, Nul => a
  | _, _ => Alt a b
  end.
Definition sCat (a b : re) : re :=
  match a, b with
  | Nul, _ => Nul
  | _, Nul => Nul
  | Eps, _ => b
  | _, _ => Cat a b
  end.

Fixpoint deriv (c : ascii) (r : re) : re :=
  match r with
  | Nul | Eps => Nul
  | Chr p => if p c then Eps else Nul
  | Cat a b => sAlt (sCat (deriv c a) b) (if nullable a then deriv c b else Nul)
  | Alt a b => sAlt (deriv c a) (deriv c b)
  | Star a => sCat (deriv c a) (Star a)
  end.

Fixpoint matches (r : re) (s : string) : bool :=
  match s with
  | EmptyString => nullable r
  | String c t => matches (deriv c r) t
  end.

(** ** Correctness *)

Lemma in_lang_sAlt a b s : in_lang (sAlt a b) s ↔ in_lang (Alt a b) s.
Proof.
  destruct a, b; cbn; (split; intros H;
    [try done; (by apply in_Alt_l) || (by apply in_Alt_r)
    |inversion H; subst; try done;
     match goal with H : in_lang Nul _ |- _ => inversion H end]).
Qed.

Lemma in_lang_sCat a b s : in_lang (sCat a b) s ↔ in_lang (Cat a b) s.
Proof.
  assert (∀ r t, in_lang (Cat Nul r) t → False) as HNl
    by (intros r t H; inversion H as [| |? ? ? ? H1| | | |]; inversion H1).
  assert (∀ r t, in_lang (Cat r Nul) t → False) as HNr
    by (intros r t H; inversion H as [| |? ? ? ? ? H1| | | |]; inversion H1).
  destruct a, b; cbn; try done;
    (split; intros H; [|by exfalso; eauto]) || (split; intros H;
      [change s with (EmptyString +:+ s); constructor; [constructor|done]
      |inversion H as [| |? ? ? ? H1 H2| | | |]; inversion H1; by subst]);
    inversion H.
Qed.

Lemma nullable_spec r : nullable r = true ↔ in_lang r EmptyString.
Proof.
  induction r as [| |p|a IHa b IHb|a IHa b IHb|a IHa]; cbn.
  - split; intros H; inversion H.
  - split; [constructor|done].
  - split; intros H; inversion H.
  - rewrite andb_true_iff, IHa, IHb. split.
    + intros [Ha Hb]. by apply (in_Cat a b EmptyString EmptyString).
    + intros H. inversion H as [| |? ? x y Ha Hb Hr Heq| | | |]. subst.
      by apply append_eq_nil in Heq as [-> ->].
  - rewrite orb_true_iff, IHa, IHb. split.
    + intros [H|H]; [by apply in_Alt_l|by apply in_Alt_r].
    + intros H. inversion H; subst; auto.
  - split; [constructor|done].
Qed.

Lemma deriv_spec r : ∀ c s, in_lang (deriv c r) s ↔ in_lang r (String c s).
Proof.
  induction r as [| |p|a IHa b IHb|a IHa b IHb|a IHa]; intros c s; cbn.
  - split; intros H; inversion H.
  - split; intros H; inversion H.
  - destruct (p c) eqn:Hp; split; intros H; inversion H; subst; try congruence.
    + by apply in_Chr.
    + constructor.
  - rewrite in_lang_sAlt. split.
    + intros H. inversion H as [| | |? ? ? H1|? ? ? H1| |]; subst.
      * apply in_lang_sCat in H1. inversion H1 as [| |? ? x y Hx Hy| | | |]; subst.
        rewrite <- append_cons. constructor; [by apply IHa|done].
      * destruct (nullable a) eqn:Hn; [|inversion H1].
        rewrite <- (append_nil_l (String c s)). constructor; [by apply nullable_spec|by apply IHb].
    + intros H. inversion H as [| |? ? x y Hx Hy Hr Heq| | | |]; subst.
      destruct x as [|d x].
      * rewrite append_nil_l in Heq. subst y. apply nullable_spec in Hx. rewrite Hx.
        apply in_Alt_r. by apply IHb.
      * rewrite append_cons in Heq. injection Heq as -> <-.
        apply in_Alt_l, in_lang_sCat. constructor; [by apply IHa|done].
  - rewrite in_lang_sAlt. split; intros H; inversion H; subst;
      (apply in_Alt_l; by apply IHa) || (apply in_Alt_r; by apply IHb).
  - rewrite in_lang_sCat. split; intros H.
    + inversion H as [| |? ? x y Hx Hy| | | |]; subst.
      rewrite <- append_cons. constructor; [by apply IHa|done].
    + inversion H; subst. constructor; [by apply IHa|done].
Qed.

Lemma matches_spec s : ∀ r, matches r s = true ↔ in_lang r s.
Proof.
  induction s as [|c s IH]; intros r; cbn; [apply nullable_spec|].
  by rewrite IH, deriv_spec.
Qed.

(** ** Pattern syntax *)

Definition opt (r : re) : re := Alt r Eps.
Definition plus (r : re) : re := Cat r (Star r).
(** [r{0,n}] *)
Fixpoint upto (n : nat) (r : re) : re :=
  match n with O => Eps | S n' => opt (Cat r (upto n' r)) end.
Definition any : re := Chr (λ _, true).
(** [.], which matches no newline *)
Definition dot : re := Chr (λ c, negb (Z.eqb (byte_val c) 10)).
Fixpoint lit (s : string) : re :=
  match s with
  | EmptyString => Eps
  | String c t => Cat (Chr (λ d, bool_decide (c = d))) (lit t)
  end.

(** [MatchString] of a pattern that is anchored at both ends, and of one that
    is anchored nowhere. *)
Definition match_full (r : re) (s : string) : bool := matches r s.
Definition match_search (r : re) (s : string) : bool := matches (Cat (Star any) (Cat r (Star any))) s.
