(* ===== verification/Sha1.v ===== *)
(** * Sha1: Go's crypto/sha1.Sum and the %x verb

    SHA-1 (FIPS 180-4) over byte strings, on 32-bit words held in [Z]. *)
From S2P Require Import Prelude GoStrings.
Local Open Scope Z_scope.

Definition w32 (z : Z) : Z := z mod 2 ^ 32.
Definition rotl (n x : Z) : Z := Z.lor (w32 (Z.shiftl x n)) (Z.shiftr x (32 - n)).

Fixpoint str_bytes (s : string) : list Z :=
  match s with EmptyString => [] | String c t => byte_val c :: str_bytes t end.

(** Big-endian bytes of [n], [k] of them. *)
Fixpoint be_bytes (k : nat) (n : Z) : list Z :=
  match k with
  | O => []
  | S k' => (n / 2 ^ (8 * Z.of_nat k')) mod 256 :: be_bytes k' n
  end.

Definition sha1_pad (msg : list Z) : list Z :=
  let len := Z.of_nat (length msg) in
  msg ++ [128] ++ repeat 0 (Z.to_nat ((55 - len) mod 64)) ++ be_bytes 8 (8 * len).

Fixpoint words (l : list Z) : list Z :=
  match l with
  | a :: b :: c :: d :: r => (a * 2 ^ 24 + b * 2 ^ 16 + c * 2 ^ 8 + d) :: words r
  | _ => []
  end.

(** The message schedule, latest word first. *)
Fixpoint schedule (n : nat) (rev_w : list Z) : list Z :=
  match n with
  | O => rev_w
  | S n' =>
      let at_ i := nth i rev_w 0 in
      schedule n' (rotl 1 (Z.lxor (Z.lxor (at_ 2%nat) (at_ 7%nat)) (Z.lxor (at_ 13%nat) (at_ 15%nat))) :: rev_w)
  end.

Definition sha1_f (t : nat) (b c d : Z) : Z :=
  if bool_decide (t < 20)%nat then Z.lor (Z.land b c) (Z.land (Z.lxor b (2 ^ 32 - 1)) d)
  else if bool_decide (40 ≤ t < 60)%nat then Z.lor (Z.lor (Z.land b c) (Z.land b d)) (Z.land c d)
  else Z.lxor (Z.lxor b c) d.
Definition sha1_k (t : nat) : Z :=
  if bool_decide (t < 20)%nat then 0x5a827999
  else if bool_decide (t < 40)%nat then 0x6ed9eba1
  else if bool_decide (t < 60)%nat then 0x8f1bbcdc
  else 0xca62c1d6.

Definition sha1_state : Type := Z * Z * Z * Z * Z.

Fixpoint sha1_rounds (t : nat) (ws : list Z) (st : sha1_state) : sha1_state :=
  match ws with
  | [] => st
  | w :: ws' =>
      let '(a, b, c, d, e) := st in
      sha1_rounds (S t) ws'
        (w32 (rotl 5 a + sha1_f t b c d + e + sha1_k t + w), a, rotl 30 b, c, d)
  end.

Definition sha1_block (st : sha1_state) (block : list Z) : sha1_state :=
  let '(a, b, c, d, e) := st in
  let '(a', b', c', d', e') := sha1_rounds 0 (reverse (schedule 64 (reverse (words block)))) st in
  (w32 (a + a'), w32 (b + b'), w32 (c + c'), w32 (d + d'), w32 (e + e')).

Fixpoint sha1_blocks (fuel : nat) (st : sha1_state) (l : list Z) : sha1_state :=
  match fuel, l with
  | S fuel', _ :: _ => sha1_blocks fuel' (sha1_block st (take 64 l)) (drop 64 l)
  | _, _ => st
  end.

Definition sha1_Sum (s : string) : list Z :=
  let l := sha1_pad (str_bytes s) in
  let '(a, b, c, d, e) :=
    sha1_blocks (length l) (0x67452301, 0xefcdab89, 0x98badcfe, 0x10325476, 0xc3d2e1f0) l in
  be_bytes 4 a ++ be_bytes 4 b ++ be_bytes 4 c ++ be_bytes 4 d ++ be_bytes 4 e.

(** [fmt.Sprintf] with %x on a byte array. *)
Definition hex2 (b : Z) : string :=
  String (digit_char (b / 16)) (str1 (digit_char (b mod 16))).
Fixpoint fmt_x (l : list Z) : string :=
  match l with [] => EmptyString | b :: r => hex2 b +:+ fmt_x r end.

Lemma be_bytes_length k n : length (be_bytes k n) = k.
Proof. induction k as [|k IH]; [done|]. cbn. by rewrite IH. Qed.

Lemma be_bytes_range k n : Forall (λ b, 0 ≤ b < 256) (be_bytes k n).
Proof. induction k as [|k IH]; constructor; [|done]. apply Z.mod_pos_bound. lia. Qed.

Lemma sha1_Sum_length s : length (sha1_Sum s) = 20%nat.
Proof.
  unfold sha1_Sum. destruct (sha1_blocks _ _ _) as [[[[a b] c] d] e].
  by rewrite !length_app, !be_bytes_length.
Qed.

Lemma sha1_Sum_range s : Forall (λ b, 0 ≤ b < 256) (sha1_Sum s).
Proof.
  unfold sha1_Sum. destruct (sha1_blocks _ _ _) as [[[[a b] c] d] e].
  rewrite !Forall_app. eauto 10 using be_bytes_range.
Qed.

Lemma fmt_x_length l : String.length (fmt_x l) = (2 * length l)%nat.
Proof. induction l as [|b l IH]; [done|]. cbn. rewrite length_append, IH. cbn. lia. Qed.

(** A hexadecimal text holds lower-case hexadecimal digits only. *)
Lemma fmt_x_all P l :
  (∀ d, 0 ≤ d < 16 → P (digit_char d) = true) → Forall (λ b, 0 ≤ b < 256) l →
  str_all P (fmt_x l) = true.
Proof.
  intros HP. induction 1 as [|b l Hb _ IH]; [done|]. cbn [fmt_x]. rewrite str_all_app, IH. cbn.
  rewrite !HP; [done|apply Z.mod_pos_bound; lia|].
  split; [apply Z.div_pos; lia|apply Z.div_lt_upper_bound; lia].
Qed.

(** The digests of the two examples of FIPS 180-4. *)
Lemma sha1_abc : fmt_x (sha1_Sum "abc") = "a9993e364706816aba3e25717850c26c9cd0d89d".
Proof. vm_compute. reflexivity. Qed.
Lemma sha1_two_blocks :
  fmt_x (sha1_Sum "abcdbcdecdefdefgefghfghighijhijkijkljklmklmnlmnomnopnopq")
  = "84983e441c3bd26ebaae4aa1f95129e5e54670f1".
Proof. vm_compute. reflexivity. Qed.
