(* ===== verification/Base64.v ===== *)
(** * Base64: Go's encoding/base64, StdEncoding.DecodeString

    The decoder skips carriage returns and newlines, reads quanta of four
    characters and requires the padding; the unused low bits of a padded
    quantum are ignored (StdEncoding is not strict). *)
From S2P Require Import Prelude GoStrings.
Local Open Scope Z_scope.

Definition b64_val (c : ascii) : option Z :=
  if is_upper c then Some (byte_val c - 65)
  else if is_lower c then Some (byte_val c - 97 + 26)
  else if is_digit c then Some (byte_val c - 48 + 52)
  else if bool_decide (c = "+"%char) then Some 62
  else if bool_decide (c = "/"%char) then Some 63
  else None.

Definition b64_newline (c : ascii) : bool := (byte_val c =? 10) || (byte_val c =? 13).
Definition b64_clean (s : string) : string :=
  str_flat_map (λ c, if b64_newline c then EmptyString else str1 c) s.

Definition pad_char : ascii := "="%char.

Fixpoint b64_quanta (s : string) : option string :=
  match s with
  | EmptyString => Some EmptyString
  | String a (String b (String c (String d r))) =>
      va ← b64_val a; vb ← b64_val b;
      let b1 := byte_of (va * 4 + vb / 16) in
      if bool_decide (c = pad_char) then
        if bool_decide (d = pad_char) && bool_decide (r = EmptyString) then Some (str1 b1) else None
      else
        vc ← b64_val c;
        let b2 := byte_of ((vb mod 16) * 16 + vc / 4) in
        if bool_decide (d = pad_char) then
          if bool_decide (r = EmptyString) then Some (String b1 (str1 b2)) else None
        else
          vd ← b64_val d;
          t ← b64_quanta r;
          Some (String b1 (String b2 (String (byte_of ((vc mod 4) * 64 + vd)) t)))
  | _ => None
  end.
Definition DecodeString (s : string) : option string := b64_quanta (b64_clean s).

Lemma decode_examples :
  DecodeString "c2VjcmV0" = Some "secret" ∧ DecodeString "c2VjcmV0MQ==" = Some "secret1"
  ∧ DecodeString "c2VjcmV0MTI=" = Some "secret12" ∧ DecodeString "c2VjcmV0MQ" = None.
Proof. by vm_compute. Qed.
