(* ===== verification/Config.v ===== *)
(** * Config: the plugin configuration (config.go, beegfsdriver_types.go)

    Go maps are references: copying a [BeegfsConfig] struct copies the
    reference to its BeegfsClientConf map, so [overWriteBeegfsConfig] and
    [stripConfig] change the map that every copy of the struct sees. The types
    are parameterised by the representation [M] of that field: a reference into
    a heap of maps ([mapref]) for the code that builds the configuration, a map
    value ([gmap]) for the code that only reads it. *)
From S2P Require Import Prelude GoStrings GoNet GoRegexp Base64.
Local Open Scope Z_scope.

Abbreviation gomap := (gmap string string).

(** ** Types (operator/api/v1/beegfsdriver_types.go) *)

Record BeegfsConfig (M : Type) := mkBeegfsConfig {
  GrpcPort : string;
  ConnInterfaces : list string;
  ConnNetFilter : list string;
  ConnTcpOnlyFilter : list string;
  ConnRDMAInterfaces : list string;
  ConnAuth : string;
  TLSCert : string;
  BeegfsClientConf : M
}.
Arguments mkBeegfsConfig {M}.
Arguments GrpcPort {M}.
Arguments ConnInterfaces {M}.
Arguments ConnNetFilter {M}.
Arguments ConnTcpOnlyFilter {M}.
Arguments ConnRDMAInterfaces {M}.
Arguments ConnAuth {M}.
Arguments TLSCert {M}.
Arguments BeegfsClientConf {M}.

Record FileSystemSpecificConfig (M : Type) := mkFS {
  SysMgmtdHost : string;
  Config : BeegfsConfig M
}.
Arguments mkFS {M}.
Arguments SysMgmtdHost {M}.
Arguments Config {M}.

Record PluginConfig (M : Type) := mkPluginConfig {
  DefaultConfig : BeegfsConfig M;
  FileSystemSpecificConfigs : list (FileSystemSpecificConfig M)
}.
Arguments mkPluginConfig {M}.
Arguments DefaultConfig {M}.
Arguments FileSystemSpecificConfigs {M}.

Record NodeSpecificConfig (M : Type) := mkNode {
  NodeList : list string;
  NodeConfig : PluginConfig M
}.
Arguments mkNode {M}.
Arguments NodeList {M}.
Arguments NodeConfig {M}.

Record PluginConfigFromFile (M : Type) := mkFromFile {
  RawPluginConfig : PluginConfig M;
  NodeSpecificConfigs : list (NodeSpecificConfig M)
}.
Arguments mkFromFile {M}.
Arguments RawPluginConfig {M}.
Arguments NodeSpecificConfigs {M}.

Record ConnAuthConfig := mkConnAuthConfig {
  ca_SysMgmtdHost : string;
  ca_ConnAuth : string;
  ca_Encoding : string
}.
Record TLSCertConfig := mkTLSCertConfig {
  tls_SysMgmtdHost : string;
  tls_TLSCert : string
}.

#[export] Instance BeegfsConfig_eq_dec `{EqDecision M} : EqDecision (BeegfsConfig M).
Proof. solve_decision. Defined.

Definition set_conf {M N} (m : N) (c : BeegfsConfig M) : BeegfsConfig N :=
  mkBeegfsConfig (GrpcPort c) (ConnInterfaces c) (ConnNetFilter c) (ConnTcpOnlyFilter c)
    (ConnRDMAInterfaces c) (ConnAuth c) (TLSCert c) m.
Definition conf_map {M N} (f : M → N) (c : BeegfsConfig M) : BeegfsConfig N :=
  set_conf (f (BeegfsClientConf c)) c.
Definition fs_map {M N} (f : M → N) (c : FileSystemSpecificConfig M) : FileSystemSpecificConfig N :=
  mkFS (SysMgmtdHost c) (conf_map f (Config c)).
Definition plugin_map {M N} (f : M → N) (c : PluginConfig M) : PluginConfig N :=
  mkPluginConfig (conf_map f (DefaultConfig c)) (fs_map f <$> FileSystemSpecificConfigs c).

(** ** The heap of maps *)

Abbreviation loc := positive.
Abbreviation heap := (gmap loc gomap).
(** A map value of Go: nil, or a reference. *)
Abbreviation mapref := (option loc).
(** A map as the YAML decoder finds it: absent, or its entries. *)
Abbreviation yaml_conf := (option gomap).

(** Outcome of code that mutates maps: a value and the new heap, an error
    (the heap it leaves is never read again), or a run-time panic. *)
Inductive outcome (A : Type) :=
  | Done (a : A) (h : heap)
  | Fails (e : goerr)
  | Panics.
Arguments Done {A}.
Arguments Fails {A}.
Arguments Panics {A}.

Definition M (A : Type) : Type := heap → outcome A.
#[export] Instance M_ret : MRet M := λ A a h, Done a h.
#[export] Instance M_bind : MBind M := λ A B f m h,
  match m h with Done a h' => f a h' | Fails e => Fails e | Panics => Panics end.
Definition throw {A} (e : goerr) : M A := λ _, Fails e.

Definition deref (h : heap) (r : mapref) : gomap := default ∅ (r ≫= λ l, h !! l).
Arguments deref : simpl never.

(** Reading a nil map finds nothing, deleting from it does nothing, assigning
    to it panics. *)
Definition map_load (r : mapref) : M gomap := λ h, Done (deref h r) h.
Definition map_assign (r : mapref) (k v : string) : M unit := λ h,
  match r with
  | None => Panics
  | Some l => Done tt (alter (<[k := v]>) l h)
  end.
Definition map_delete (r : mapref) (k : string) : M unit := λ h,
  match r with
  | None => Done tt h
  | Some l => Done tt (alter (delete k) l h)
  end.
Definition map_make : M mapref := λ h,
  let l := fresh (dom h) in Done (Some l) (<[l := ∅]> h).

Fixpoint iter {A} (f : A → M unit) (l : list A) : M unit :=
  match l with [] => mret tt | x :: r => _ ← f x; iter f r end.
Fixpoint fold_m {A B} (f : B → A → M B) (b : B) (l : list A) : M B :=
  match l with [] => mret b | x :: r => b' ← f b x; fold_m f b' r end.

(** ** Building the configuration (config.go) *)

Section Build.
Context {RO : RangeOrder}.

Definition NewBeegfsConfig : M (BeegfsConfig mapref) :=
  r ← map_make;
  mret (mkBeegfsConfig EmptyString [] [] [] [] EmptyString EmptyString r).

Definition or_str (from to : string) : string := if bool_decide (from = EmptyString) then to else from.
Definition or_list (from to : list string) : list string := match from with [] => to | _ => from end.

Definition overWriteBeegfsConfig (writeTo writeFrom : BeegfsConfig mapref) : M (BeegfsConfig mapref) :=
  m ← map_load (BeegfsClientConf writeFrom);
  _ ← iter (λ '(k, v), map_assign (BeegfsClientConf writeTo) k v) (range_order m);
  mret (mkBeegfsConfig
    (or_str (GrpcPort writeFrom) (GrpcPort writeTo))
    (or_list (ConnInterfaces writeFrom) (ConnInterfaces writeTo))
    (or_list (ConnNetFilter writeFrom) (ConnNetFilter writeTo))
    (or_list (ConnTcpOnlyFilter writeFrom) (ConnTcpOnlyFilter writeTo))
    (or_list (ConnRDMAInterfaces writeFrom) (ConnRDMAInterfaces writeTo))
    (or_str (ConnAuth writeFrom) (ConnAuth writeTo))
    (or_str (TLSCert writeFrom) (TLSCert writeTo))
    (BeegfsClientConf writeTo)).

(** The inner loop over writeTo: every entry of the host is overwritten. *)
Fixpoint overwrite_matching (writeTo : list (FileSystemSpecificConfig mapref))
    (from : FileSystemSpecificConfig mapref) : M (list (FileSystemSpecificConfig mapref) * bool) :=
  match writeTo with
  | [] => mret ([], false)
  | c :: r =>
      if bool_decide (SysMgmtdHost c = SysMgmtdHost from) then
        c' ← overWriteBeegfsConfig (Config c) (Config from);
        '(r', _) ← overwrite_matching r from;
        mret (mkFS (SysMgmtdHost c) c' :: r', true)
      else
        '(r', had) ← overwrite_matching r from;
        mret (c :: r', had)
  end.

Definition overwriteFileSystemSpecificConfigs
    (writeTo writeFrom : list (FileSystemSpecificConfig mapref)) : M (list (FileSystemSpecificConfig mapref)) :=
  fold_m (λ to from,
    '(to', had) ← overwrite_matching to from;
    mret (if had : bool then to' else to' ++ [from])) writeTo writeFrom.

Definition applies_to (nodeID : string) {N} (c : NodeSpecificConfig N) : bool :=
  bool_decide (nodeID ∈ NodeList c).

Definition apply_node (nodeID : string) (c : PluginConfig mapref) (node : NodeSpecificConfig mapref)
    : M (PluginConfig mapref) :=
  if applies_to nodeID node then
    d ← overWriteBeegfsConfig (DefaultConfig c) (DefaultConfig (NodeConfig node));
    f ← overwriteFileSystemSpecificConfigs (FileSystemSpecificConfigs c)
          (FileSystemSpecificConfigs (NodeConfig node));
    mret (mkPluginConfig d f)
  else mret c.

(** ** Validation *)

Definition label_char (c : ascii) : bool :=
  bool_decide (c = "_"%char) || is_lower c || is_digit c.
Definition label_char_dash (c : ascii) : bool := label_char c || bool_decide (c = "-"%char).
Definition lower_digit (c : ascii) : bool := is_lower c || is_digit c.
Definition lower_digit_dash (c : ascii) : bool := lower_digit c || bool_decide (c = "-"%char).

Definition domainRegex : re :=
  Cat (plus (Alt
        (Cat (Chr label_char) (Cat (upto 61 (Chr label_char_dash)) (Cat (Chr lower_digit) (lit "."))))
        (Cat (Cat (plus (Chr is_digit)) (Cat (lit "/") (Cat (Chr is_digit) (Chr is_digit)))) (lit "."))))
      (opt (Cat (Chr is_lower) (opt (Cat (upto 61 (Chr lower_digit_dash)) (Chr lower_digit))))).

Definition valid_host (s : string) : bool :=
  bool_decide (s = "localhost") || bool_decide (is_Some (ParseIP s)) || match_full domainRegex s.

Definition valid_GrpcPort (p : string) : bool :=
  bool_decide (p = EmptyString) ||
  match Atoi p with inl n => (1 <=? n) && (n <=? 65535) | inr _ => false end.

Definition valid_filter (s : string) : bool := ParseCIDR s || bool_decide (is_Some (ParseIP s)).

Fixpoint first_bad {A} (ok : A → bool) (l : list A) : option A :=
  match l with [] => None | x :: r => if ok x then first_bad ok r else Some x end.

Fixpoint validate_configs (l : list (BeegfsConfig mapref)) : result unit :=
  match l with
  | [] => Ok tt
  | c :: r =>
      if negb (valid_GrpcPort (GrpcPort c)) then Err (ErrMsg ("invalid GrpcPort " +:+ GrpcPort c)) else
      match first_bad valid_filter (ConnNetFilter c) with
      | Some f => Err (ErrMsg ("invalid ConnNetFilter " +:+ f))
      | None =>
          match first_bad valid_filter (ConnTcpOnlyFilter c) with
          | Some f => Err (ErrMsg ("invalid ConnTCPOnlyFilter " +:+ f))
          | None => validate_configs r
          end
      end
  end.

Definition validateConfig (plConfig : PluginConfig mapref) : result unit :=
  match first_bad (λ c, valid_host (SysMgmtdHost c)) (FileSystemSpecificConfigs plConfig) with
  | Some c => Err (ErrMsg ("invalid SysMgmtdHost " +:+ SysMgmtdHost c))
  | None => validate_configs (DefaultConfig plConfig :: (Config <$> FileSystemSpecificConfigs plConfig))
  end.

Definition noEffectBeegfsConfOptions : list string :=
  ["sysMgmtdHost"; "connClientPortUDP"; "connClientPort"; "connPortShift"].

Definition unsupportedBeegfsConfOptions : list string :=
  ["connInterfacesFile"; "connNetFilterFile"; "connTcpOnlyFilterFile"; "connAuthFile"; "connRDMAInterfacesFile"].

(** The warnings that are logged: an option that was found, with its value. *)
Inductive warning :=
  | NoEffect (option value : string)
  | Unsupported (option value : string).

(** A loop whose body logs warnings. *)
Fixpoint each {A} (f : A → M (list warning)) (l : list A) : M (list warning) :=
  match l with [] => mret [] | x :: r => w ← f x; ws ← each f r; mret (w ++ ws) end.

Definition strip_options (c : BeegfsConfig mapref) : M (list warning) :=
  removed ← each (λ noEffectOption,
    m ← map_load (BeegfsClientConf c);
    match m !! noEffectOption with
    | Some val => _ ← map_delete (BeegfsClientConf c) noEffectOption; mret [NoEffect noEffectOption val]
    | None => mret []
    end) noEffectBeegfsConfOptions;
  left_in ← each (λ unsupportedOption,
    m ← map_load (BeegfsClientConf c);
    mret (match m !! unsupportedOption with Some val => [Unsupported unsupportedOption val] | None => [] end))
    unsupportedBeegfsConfOptions;
  mret (removed ++ left_in).

Definition stripConfig (plConfig : PluginConfig mapref) : M (list warning) :=
  each strip_options (DefaultConfig plConfig :: (Config <$> FileSystemSpecificConfigs plConfig)).

(** ** Reading the files

    [sigs.k8s.io/yaml] is a parameter: what its [UnmarshalStrict] makes of a
    file, as a tree whose BeegfsClientConf fields are [None] where the file has
    none (the decoder leaves a nil map) and [Some m] where it has one (the
    decoder makes a map of its own for each). *)

Definition alloc_map (m : yaml_conf) : M mapref :=
  match m with
  | None => mret None
  | Some m => λ h, let l := fresh (dom h) in Done (Some l) (<[l := m]> h)
  end.
Definition alloc_conf (c : BeegfsConfig yaml_conf) : M (BeegfsConfig mapref) :=
  r ← alloc_map (BeegfsClientConf c); mret (set_conf r c).
Fixpoint map_m {A B} (f : A → M B) (l : list A) : M (list B) :=
  match l with [] => mret [] | x :: r => y ← f x; r' ← map_m f r; mret (y :: r') end.
Definition alloc_fs (c : FileSystemSpecificConfig yaml_conf) : M (FileSystemSpecificConfig mapref) :=
  c' ← alloc_conf (Config c); mret (mkFS (SysMgmtdHost c) c').
Definition alloc_plugin (c : PluginConfig yaml_conf) : M (PluginConfig mapref) :=
  d ← alloc_conf (DefaultConfig c);
  f ← map_m alloc_fs (FileSystemSpecificConfigs c);
  mret (mkPluginConfig d f).
Definition alloc_node (c : NodeSpecificConfig yaml_conf) : M (NodeSpecificConfig mapref) :=
  p ← alloc_plugin (NodeConfig c); mret (mkNode (NodeList c) p).
Definition alloc_raw (c : PluginConfigFromFile yaml_conf) : M (PluginConfigFromFile mapref) :=
  p ← alloc_plugin (RawPluginConfig c);
  n ← map_m alloc_node (NodeSpecificConfigs c);
  mret (mkFromFile p n).

(** The pattern that recognises a missing quote in an unmarshalling error. *)
Definition unquoted_re : re :=
  Cat (Star dot) (Cat (lit "cannot unmarshal ") (Cat (Star dot) (Cat (lit " into Go struct field ")
    (Cat (Star dot) (Cat (lit ".beegfsClientConf of type string") (Star dot)))))).

Definition parseConfigFromFile (UnmarshalStrict : string → result (PluginConfigFromFile yaml_conf))
    (file : result string) (nodeID : string) : M (PluginConfig mapref) :=
  match file with
  | Err e => throw (Wrap e "failed to read configuration file")
  | Ok rawConfigBytes =>
      match UnmarshalStrict rawConfigBytes with
      | Err e =>
          if match_search unquoted_re (error_text e)
          then throw (Wrap e "likely missing quotes around an integer or boolean beegfsClientConf value")
          else throw (Wrap e "failed to unmarshal configuration file")
      | Ok tree =>
          rawConfig ← alloc_raw tree;
          newPluginConfig ← fold_m (apply_node nodeID) (RawPluginConfig rawConfig)
                              (NodeSpecificConfigs rawConfig);
          match validateConfig newPluginConfig with
          | Err e => throw (Wrap e "config validation failed")
          | Ok _ => _ ← stripConfig newPluginConfig; mret newPluginConfig
          end
      end
  end.

(** Set a secret in the first entry of the host, or append an entry that has
    nothing but the secret. *)
Fixpoint set_first (host : string) (f : BeegfsConfig mapref → BeegfsConfig mapref)
    (l : list (FileSystemSpecificConfig mapref)) : option (list (FileSystemSpecificConfig mapref)) :=
  match l with
  | [] => None
  | c :: r =>
      if bool_decide (host = SysMgmtdHost c) then Some (mkFS (SysMgmtdHost c) (f (Config c)) :: r)
      else cons c <$> set_first host f r
  end.
Definition zero_config : BeegfsConfig mapref :=
  mkBeegfsConfig EmptyString [] [] [] [] EmptyString EmptyString None.
Definition set_or_append (host : string) (f : BeegfsConfig mapref → BeegfsConfig mapref)
    (c : PluginConfig mapref) : PluginConfig mapref :=
  mkPluginConfig (DefaultConfig c)
    (match set_first host f (FileSystemSpecificConfigs c) with
     | Some l => l
     | None => FileSystemSpecificConfigs c ++ [mkFS host (f zero_config)]
     end).

Definition set_ConnAuth (s : string) {N} (c : BeegfsConfig N) : BeegfsConfig N :=
  mkBeegfsConfig (GrpcPort c) (ConnInterfaces c) (ConnNetFilter c) (ConnTcpOnlyFilter c)
    (ConnRDMAInterfaces c) s (TLSCert c) (BeegfsClientConf c).
Definition set_TLSCert (s : string) {N} (c : BeegfsConfig N) : BeegfsConfig N :=
  mkBeegfsConfig (GrpcPort c) (ConnInterfaces c) (ConnNetFilter c) (ConnTcpOnlyFilter c)
    (ConnRDMAInterfaces c) (ConnAuth c) s (BeegfsClientConf c).

Definition newline : string := str1 (byte_of 10).

Definition decode_ConnAuth (c : ConnAuthConfig) : result string :=
  if bool_decide (ca_Encoding c = "raw") || bool_decide (ca_Encoding c = EmptyString)
  then Ok (ca_ConnAuth c +:+ newline)
  else if bool_decide (ca_Encoding c = "base64") then
    match DecodeString (ca_ConnAuth c) with
    | Some s => Ok s
    | None => Err (Wrap (ErrMsg "illegal base64 data") "failed to decode base64 connAuth")
    end
  else Err (ErrMsg ("invalid ConnAuthFile encoding " +:+ ca_Encoding c)).

Fixpoint apply_ConnAuths (l : list ConnAuthConfig) (c : PluginConfig mapref) : result (PluginConfig mapref) :=
  match l with
  | [] => Ok c
  | a :: r =>
      s ← decode_ConnAuth a;
      apply_ConnAuths r (set_or_append (ca_SysMgmtdHost a) (set_ConnAuth s) c)
  end.

Definition parseConnAuthFromFile (UnmarshalStrict : string → result (list ConnAuthConfig))
    (file : result string) (newPluginConfig : PluginConfig mapref) : result (PluginConfig mapref) :=
  match file with
  | Err e => Err (Wrap e "failed to read connAuth file")
  | Ok bytes =>
      match UnmarshalStrict bytes with
      | Err e => Err (Wrap e "failed to unmarshal connAuth file")
      | Ok connAuthConfigs => apply_ConnAuths connAuthConfigs newPluginConfig
      end
  end.

Definition parseTLSCertsFromFile (UnmarshalStrict : string → result (list TLSCertConfig))
    (file : result string) (newPluginConfig : PluginConfig mapref) : result (PluginConfig mapref) :=
  match file with
  | Err e => Err (Wrap e "failed to read tlsCerts file")
  | Ok bytes =>
      match UnmarshalStrict bytes with
      | Err e => Err (Wrap e "failed to unmarshal tlsCerts file")
      | Ok tlsCertConfigs =>
          Ok (foldl (λ c t, set_or_append (tls_SysMgmtdHost t) (set_TLSCert (tls_TLSCert t +:+ newline)) c)
                newPluginConfig tlsCertConfigs)
      end
  end.

(** ** Squashing for one file system (beegfs_util.go) *)

Definition squashConfigForSysMgmtdHost (sysMgmtdHost : string) (config : PluginConfig mapref)
    : M (BeegfsConfig mapref) :=
  returnConfig ← NewBeegfsConfig;
  returnConfig ← overWriteBeegfsConfig returnConfig (DefaultConfig config);
  fold_m (λ c fsc,
    if bool_decide (sysMgmtdHost = SysMgmtdHost fsc)
    then overWriteBeegfsConfig c (Config fsc) else mret c)
    returnConfig (FileSystemSpecificConfigs config).

(** ** What is logged (the MarshalJSON methods)

    The fields of the encoded object that hold secrets. *)
Definition redact (s : string) : string := if bool_decide (s = EmptyString) then EmptyString else "******".
Definition BeegfsConfig_MarshalJSON {N} (c : BeegfsConfig N) : BeegfsConfig N :=
  set_TLSCert (redact (TLSCert c)) (set_ConnAuth (redact (ConnAuth c)) c).
Definition ConnAuthConfig_MarshalJSON (c : ConnAuthConfig) : ConnAuthConfig :=
  mkConnAuthConfig (ca_SysMgmtdHost c) (redact (ca_ConnAuth c)) EmptyString.
Definition TLSCertConfig_MarshalJSON (c : TLSCertConfig) : TLSCertConfig :=
  mkTLSCertConfig (tls_SysMgmtdHost c) (redact (tls_TLSCert c)).
End Build.
