(* ===== verification/ConfigFacts.v ===== *)
(** * ConfigFacts: what the configuration code computes

    The code of Config.v mutates shared maps. Here it is shown to compute, on
    every outcome that is not a panic, the pure functions below; and those are
    shown to give a file system a composition of layers: defaults, node-specific
    defaults, file-system-specific and node-and-file-system-specific values, the
    later ones winning field by field and key by key. *)
From S2P Require Import Prelude GoStrings GoNet GoRegexp Base64 Config.

(** ** Layers *)

Abbreviation layer := (BeegfsConfig gomap).

Definition no_layer : layer := mkBeegfsConfig EmptyString [] [] [] [] EmptyString EmptyString ∅.

Definition overwrite (to from : layer) : layer :=
  mkBeegfsConfig
    (or_str (GrpcPort from) (GrpcPort to))
    (or_list (ConnInterfaces from) (ConnInterfaces to))
    (or_list (ConnNetFilter from) (ConnNetFilter to))
    (or_list (ConnTcpOnlyFilter from) (ConnTcpOnlyFilter to))
    (or_list (ConnRDMAInterfaces from) (ConnRDMAInterfaces to))
    (or_str (ConnAuth from) (ConnAuth to))
    (or_str (TLSCert from) (TLSCert to))
    (BeegfsClientConf from ∪ BeegfsClientConf to).

(** The effect of layers, the first one lowest. *)
Definition compose (ls : list layer) : layer := foldl overwrite no_layer ls.

Lemma or_str_assoc a b c : or_str c (or_str b a) = or_str (or_str c b) a.
Proof. unfold or_str. repeat case_bool_decide; congruence. Qed.
Lemma or_list_assoc a b c : or_list c (or_list b a) = or_list (or_list c b) a.
Proof. by destruct a, b, c. Qed.
Lemma or_str_absorb a b : or_str a (or_str b a) = or_str a b.
Proof. unfold or_str. repeat case_bool_decide; congruence. Qed.
Lemma or_list_absorb a b : or_list a (or_list b a) = or_list a b.
Proof. by destruct a, b. Qed.

Lemma overwrite_assoc a b c : overwrite (overwrite a b) c = overwrite a (overwrite b c).
Proof.
  unfold overwrite. cbn. f_equal; try apply or_str_assoc; try apply or_list_assoc.
  apply (assoc_L (∪)).
Qed.

Lemma overwrite_nil_l a : overwrite no_layer a = a.
Proof.
  destruct a as [p i n t r ca tc m]. unfold overwrite, no_layer, or_str, or_list. cbn.
  rewrite map_union_empty. f_equal; repeat case_bool_decide; try congruence; by destruct i, n, t, r.
Qed.

Lemma overwrite_nil_r a : overwrite a no_layer = a.
Proof.
  destruct a as [p i n t r ca tc m]. unfold overwrite, no_layer, or_str, or_list. cbn.
  by rewrite map_empty_union.
Qed.

(** A layer that comes again later makes its first occurrence redundant. *)
Lemma overwrite_absorb a b : overwrite (overwrite a b) a = overwrite b a.
Proof.
  unfold overwrite. cbn. f_equal; try apply or_str_absorb; try apply or_list_absorb.
  rewrite (assoc_L (∪)). apply map_eq. intros k. rewrite !lookup_union.
  by destruct (BeegfsClientConf a !! k), (BeegfsClientConf b !! k).
Qed.

Lemma compose_app l1 l2 : compose (l1 ++ l2) = overwrite (compose l1) (compose l2).
Proof.
  unfold compose. rewrite foldl_app.
  generalize (foldl overwrite no_layer l1). induction l2 as [|x l2 IH] using rev_ind; intros b.
  - cbn. by rewrite overwrite_nil_r.
  - rewrite !foldl_app. cbn. by rewrite IH, overwrite_assoc.
Qed.

Lemma compose_singleton a : compose [a] = a.
Proof. apply overwrite_nil_l. Qed.

(** Overwriting each of several layers with [n] is overwriting all with [n]. *)
Lemma compose_each n ls : ls ≠ [] → compose ((λ c, overwrite c n) <$> ls) = overwrite (compose ls) n.
Proof.
  induction ls as [|a ls IH]; [done|]. intros _. cbn [fmap list_fmap].
  change (overwrite a n :: ?l) with ([overwrite a n] ++ l). rewrite compose_app, compose_singleton.
  change (a :: ls) with ([a] ++ ls). rewrite (compose_app [a]), compose_singleton.
  destruct ls as [|b ls]; [by rewrite !overwrite_nil_r|].
  rewrite IH by done. generalize (compose (b :: ls)). intros x.
  by rewrite (overwrite_assoc a n), <- (overwrite_assoc n x n), overwrite_absorb, overwrite_assoc.
Qed.

(** ** The pure reading of the code *)

Definition overwrite_fs (l : list (FileSystemSpecificConfig gomap)) (from : FileSystemSpecificConfig gomap)
    : list (FileSystemSpecificConfig gomap) :=
  if existsb (λ c, bool_decide (SysMgmtdHost c = SysMgmtdHost from)) l
  then (λ c, if bool_decide (SysMgmtdHost c = SysMgmtdHost from)
             then mkFS (SysMgmtdHost c) (overwrite (Config c) (Config from)) else c) <$> l
  else l ++ [from].

Definition apply_node_pure (nodeID : string) (c : PluginConfig gomap) (node : NodeSpecificConfig gomap)
    : PluginConfig gomap :=
  if applies_to nodeID node then
    mkPluginConfig (overwrite (DefaultConfig c) (DefaultConfig (NodeConfig node)))
      (foldl overwrite_fs (FileSystemSpecificConfigs c) (FileSystemSpecificConfigs (NodeConfig node)))
  else c.

Definition strip (m : gomap) : gomap := foldr delete m noEffectBeegfsConfOptions.

Definition host_layers (host : string) (l : list (FileSystemSpecificConfig gomap)) : list layer :=
  Config <$> filter (λ c, host = SysMgmtdHost c) l.

(** The layers that apply to a host, of a configuration and of the node
    configurations of a node. *)
Definition squash (host : string) (c : PluginConfig gomap) : layer :=
  compose (DefaultConfig c :: host_layers host (FileSystemSpecificConfigs c)).

Lemma host_layers_app host l1 l2 :
  host_layers host (l1 ++ l2) = host_layers host l1 ++ host_layers host l2.
Proof. unfold host_layers. by rewrite filter_app, fmap_app. Qed.

Lemma host_layers_overwrite_fs host l from :
  compose (host_layers host (overwrite_fs l from))
  = overwrite (compose (host_layers host l)) (compose (host_layers host [from])).
Proof.
  unfold overwrite_fs. destruct (existsb _ l) eqn:He;
    [|by rewrite host_layers_app, compose_app].
  destruct (decide (host = SysMgmtdHost from)) as [->|Hne].
  - transitivity (compose ((λ c, overwrite c (Config from)) <$> host_layers (SysMgmtdHost from) l)).
    + f_equal. clear He. induction l as [|c l IH]; [done|]. unfold host_layers in *.
      cbn [fmap list_fmap]. rewrite !filter_cons. repeat case_bool_decide; repeat case_decide; cbn in *;
        congruence.
    + rewrite compose_each.
      * f_equal. unfold host_layers. rewrite filter_cons_True by done. symmetry. apply compose_singleton.
      * apply existsb_exists in He as (c & Hc & He). bools. intros Hnil.
        apply fmap_nil_inv in Hnil. apply list_elem_of_In in Hc.
        assert (c ∈ filter (λ c, SysMgmtdHost from = SysMgmtdHost c) l) as Hin
          by (apply list_elem_of_filter; by split).
        rewrite Hnil in Hin. by apply elem_of_nil in Hin.
  - assert (host_layers host [from] = []) as -> by (unfold host_layers; by rewrite filter_cons_False).
    cbn. rewrite overwrite_nil_r. f_equal. clear He.
    induction l as [|c l IH]; [done|]. unfold host_layers in *.
    cbn [fmap list_fmap]. rewrite !filter_cons. repeat case_bool_decide; repeat case_decide; cbn in *;
      congruence.
Qed.

Lemma compose_cons a l : compose (a :: l) = overwrite a (compose l).
Proof. change (a :: l) with ([a] ++ l). by rewrite compose_app, compose_singleton. Qed.

Definition applicable (nodeID : string) {M} (nodes : list (NodeSpecificConfig M)) :=
  filter (λ n, applies_to nodeID n = true) nodes.

Lemma default_of_nodes nodeID nodes : ∀ c,
  DefaultConfig (foldl (apply_node_pure nodeID) c nodes)
  = compose (DefaultConfig c :: (DefaultConfig ∘ NodeConfig <$> applicable nodeID nodes)).
Proof.
  unfold applicable. induction nodes as [|n nodes IH]; intros c; cbn [foldl];
    [symmetry; apply compose_singleton|].
  rewrite IH, filter_cons. unfold apply_node_pure.
  destruct (applies_to nodeID n) eqn:E; case_decide; try congruence.
  cbn [fmap list_fmap DefaultConfig]. by rewrite !compose_cons, overwrite_assoc.
Qed.

Lemma host_layers_of_nodes host nodeID nodes : ∀ c,
  compose (host_layers host (FileSystemSpecificConfigs (foldl (apply_node_pure nodeID) c nodes)))
  = compose (host_layers host (FileSystemSpecificConfigs c)
      ++ (applicable nodeID nodes ≫= λ n, host_layers host (FileSystemSpecificConfigs (NodeConfig n)))).
Proof.
  assert (∀ from to, compose (host_layers host (foldl overwrite_fs to from))
    = compose (host_layers host to ++ host_layers host from)) as Hfs.
  { induction from as [|f from IH]; intros to; cbn [foldl]; [by rewrite app_nil_r|].
    rewrite IH, compose_app, host_layers_overwrite_fs, overwrite_assoc, <- compose_app.
    by rewrite <- host_layers_app, <- compose_app. }
  unfold applicable. induction nodes as [|n nodes IH]; intros c; cbn [foldl]; [by rewrite app_nil_r|].
  rewrite IH, filter_cons. unfold apply_node_pure.
  destruct (applies_to nodeID n) eqn:E; case_decide; try congruence.
  cbn [FileSystemSpecificConfigs mbind list_bind]. by rewrite app_assoc, !(compose_app _ (_ ≫= _)), Hfs.
Qed.

Lemma squash_nodes host nodeID c nodes :
  squash host (foldl (apply_node_pure nodeID) c nodes)
  = compose ([DefaultConfig c] ++ (DefaultConfig ∘ NodeConfig <$> applicable nodeID nodes)
      ++ host_layers host (FileSystemSpecificConfigs c)
      ++ (applicable nodeID nodes ≫= λ n, host_layers host (FileSystemSpecificConfigs (NodeConfig n)))).
Proof.
  unfold squash. rewrite compose_cons, default_of_nodes, host_layers_of_nodes.
  by rewrite <- compose_app.
Qed.

(** ** The heap code computes the pure functions *)

Section Refine.
Context {RO : RangeOrder}.

Definition cl (c : BeegfsConfig mapref) : list loc := option_list (BeegfsClientConf c).
Definition fl (l : list (FileSystemSpecificConfig mapref)) : list loc := l ≫= λ c, cl (Config c).
Definition pl (c : PluginConfig mapref) : list loc := cl (DefaultConfig c) ++ fl (FileSystemSpecificConfigs c).
Definition nl (l : list (NodeSpecificConfig mapref)) : list loc := l ≫= λ n, pl (NodeConfig n).

(** The configurations that [h] gives to references. *)
Definition den (h : heap) : BeegfsConfig mapref → layer := conf_map (deref h).
Definition fden (h : heap) : list (FileSystemSpecificConfig mapref) → list (FileSystemSpecificConfig gomap) :=
  fmap (fs_map (deref h)).
Definition pden (h : heap) : PluginConfig mapref → PluginConfig gomap := plugin_map (deref h).
Definition nden (h : heap) (n : NodeSpecificConfig mapref) : NodeSpecificConfig gomap :=
  mkNode (NodeList n) (pden h (NodeConfig n)).

(** [h'] is [h] but for the maps at [ls]. *)
Definition changes (ls : list loc) (h h' : heap) : Prop :=
  dom h' = dom h ∧ ∀ l, l ∉ ls → h' !! l = h !! l.
Definition allocated (ls : list loc) (h : heap) : Prop := ∀ l, l ∈ ls → l ∈ dom h.

Lemma changes_refl ls h : changes ls h h.
Proof. done. Qed.
Lemma changes_trans ls1 ls2 h1 h2 h3 :
  changes ls1 h1 h2 → changes ls2 h2 h3 → changes (ls1 ++ ls2) h1 h3.
Proof.
  intros [Hd1 H1] [Hd2 H2]. split; [congruence|]. intros l Hl. rewrite elem_of_app in Hl.
  rewrite H2, H1; tauto.
Qed.
Lemma changes_weaken ls ls' h h' : (∀ l, l ∈ ls → l ∈ ls') → changes ls h h' → changes ls' h h'.
Proof. intros Hs [Hd H]. split; [done|]. intros l Hl. apply H. auto. Qed.
Lemma allocated_changes ls ls' h h' : changes ls h h' → allocated ls' h → allocated ls' h'.
Proof. intros [Hd _] Ha l Hl. rewrite Hd. auto. Qed.

(** A configuration depends on the maps it refers to only. *)
Lemma den_frame h h' c : (∀ l, l ∈ cl c → h' !! l = h !! l) → den h' c = den h c.
Proof.
  intros H. unfold den, conf_map, cl, deref in *. f_equal.
  destruct (BeegfsClientConf c) as [l|]; [|done]. cbn. by rewrite H by (by left).
Qed.

Lemma fden_frame h h' f : (∀ l, l ∈ fl f → h' !! l = h !! l) → fden h' f = fden h f.
Proof.
  induction f as [|c f IH]; intros Hl; [done|]. cbn. f_equal.
  - unfold fs_map. f_equal. apply den_frame. intros l ?. apply Hl, elem_of_app. by left.
  - apply IH. intros l ?. apply Hl, elem_of_app. by right.
Qed.

Lemma pden_frame h h' c : (∀ l, l ∈ pl c → h' !! l = h !! l) → pden h' c = pden h c.
Proof.
  intros Hl. unfold pden, plugin_map. f_equal.
  - apply den_frame. intros l ?. apply Hl, elem_of_app. by left.
  - apply fden_frame. intros l ?. apply Hl, elem_of_app. by right.
Qed.

Lemma den_changes ls h h' c : changes ls h h' → (∀ l, l ∈ cl c → l ∉ ls) → den h' c = den h c.
Proof. intros [_ H] Hl. apply den_frame. auto. Qed.
Lemma fden_changes ls h h' f : changes ls h h' → (∀ l, l ∈ fl f → l ∉ ls) → fden h' f = fden h f.
Proof. intros [_ H] Hl. apply fden_frame. auto. Qed.
Lemma pden_changes ls h h' c : changes ls h h' → (∀ l, l ∈ pl c → l ∉ ls) → pden h' c = pden h c.
Proof. intros [_ H] Hl. apply pden_frame. auto. Qed.

(** Running the assignments of [overWriteBeegfsConfig]. *)
Lemma iter_assign l kvs : ∀ h,
  l ∈ dom h → NoDup kvs.*1 →
  ∃ h', iter (λ '(k, v), map_assign (Some l) k v) kvs h = Done tt h' ∧ changes [l] h h'
    ∧ deref h' (Some l) = list_to_map kvs ∪ deref h (Some l).
Proof.
  induction kvs as [|[k v] kvs IH]; intros h Hl Hnd.
  - exists h. split_and!; [done|apply changes_refl|]. cbn [list_to_map foldr].
    symmetry. apply (left_id_L ∅ (∪)).
  - apply NoDup_cons in Hnd as [Hk Hnd]. cbn in Hk. cbn [iter]. unfold mbind, M_bind. cbn [map_assign].
    set (h1 := alter (<[k := v]>) l h).
    assert (changes [l] h h1) as Hc1.
    { split; [apply dom_alter_L|]. intros l' Hl'. unfold h1. rewrite lookup_alter_ne; set_solver. }
    destruct (IH h1) as (h' & Hrun & Hc & Hd); [by rewrite (proj1 Hc1)|done|].
    exists h'. split_and!; [done| |].
    + eapply changes_weaken; [|by eapply changes_trans]. set_solver.
    + rewrite Hd. apply elem_of_dom in Hl as [m Hm].
      unfold deref, h1. cbn. rewrite lookup_alter_eq, Hm. cbn.
      rewrite <- insert_union_l. rewrite insert_union_r; [done|]. by apply not_elem_of_list_to_map.
Qed.

Lemma iter_assign_nil kvs h :
  iter (λ '(k, v), map_assign None k v) kvs h = if decide (kvs = []) then Done tt h else Panics.
Proof. destruct kvs as [|[k v] kvs]; cbn; by case_decide. Qed.

Lemma range_order_nil m : range_order m = [] ↔ m = ∅.
Proof.
  split; intros H.
  - apply map_to_list_empty_iff. apply Permutation_nil. rewrite <- range_perm. by rewrite H.
  - subst m. apply Permutation_nil. rewrite range_perm. by rewrite map_to_list_empty.
Qed.

(** [overWriteBeegfsConfig] panics exactly when it has keys to write and no map to write to. *)
Lemma overWrite_panics to from h :
  BeegfsClientConf to = None → deref h (BeegfsClientConf from) ≠ ∅ →
  overWriteBeegfsConfig to from h = Panics.
Proof.
  intros Hto Hne. unfold overWriteBeegfsConfig, mbind, M_bind. cbn [map_load].
  rewrite Hto, iter_assign_nil, decide_False; [done|]. by rewrite range_order_nil.
Qed.

Lemma overWrite_runs to from h :
  allocated (cl to) h → (∀ l, l ∈ cl to → l ∉ cl from) →
  (BeegfsClientConf to = None → deref h (BeegfsClientConf from) = ∅) →
  ∃ to' h', overWriteBeegfsConfig to from h = Done to' h' ∧ cl to' = cl to
    ∧ changes (cl to) h h' ∧ den h' to' = overwrite (den h to) (den h from).
Proof.
  intros Ha Hd Hnil. unfold overWriteBeegfsConfig, mbind, M_bind. cbn [map_load].
  unfold cl in *. destruct (BeegfsClientConf to) as [l|] eqn:Hto; cbn in *.
  - destruct (iter_assign l (range_order (deref h (BeegfsClientConf from))) h) as (h' & -> & Hc & Hm).
    { apply Ha. by left. }
    { apply range_order_NoDup. }
    eexists _, h'. split_and!; [done|done|done|].
    unfold den, conf_map, set_conf, overwrite. cbn. rewrite Hto, Hm. by rewrite list_to_map_range_order.
  - rewrite iter_assign_nil, Hnil by done. rewrite decide_True by (by apply range_order_nil).
    eexists _, h. split_and!; [done|done|done|].
    unfold den, conf_map, set_conf, overwrite. cbn. rewrite Hto, Hnil by done. done.
Qed.

Lemma overWrite_done to from h to' h' :
  allocated (cl to) h → (∀ l, l ∈ cl to → l ∉ cl from) →
  overWriteBeegfsConfig to from h = Done to' h' →
  cl to' = cl to ∧ changes (cl to) h h' ∧ den h' to' = overwrite (den h to) (den h from).
Proof.
  intros Ha Hd Hrun. destruct (overWrite_runs to from h Ha Hd) as (to2 & h2 & Hrun2 & H).
  - intros Hto. destruct (decide (deref h (BeegfsClientConf from) = ∅)) as [|Hne]; [done|].
    by rewrite overWrite_panics in Hrun.
  - rewrite Hrun in Hrun2. by injection Hrun2 as <- <-.
Qed.

Lemma M_bind_done {A B} (m : M A) (f : A → M B) h b h' :
  (m ≫= f) h = Done b h' ↔ ∃ a h1, m h = Done a h1 ∧ f a h1 = Done b h'.
Proof.
  unfold mbind, M_bind. destruct (m h) as [a h1| |]; naive_solver.
Qed.

Lemma M_ret_done {A} (a b : A) h h' : (mret a : M A) h = Done b h' ↔ a = b ∧ h = h'.
Proof. unfold mret, M_ret. naive_solver. Qed.

Lemma fl_cons c f : fl (c :: f) = cl (Config c) ++ fl f.
Proof. done. Qed.

(** Unfold the runs of a monadic computation that ended. *)
Ltac done_inv :=
  repeat match goal with
  | H : (_ ≫= _) _ = Done _ _ |- _ => apply M_bind_done in H as (? & ? & ? & ?)
  | H : M_ret _ _ _ = Done _ _ |- _ => apply M_ret_done in H as [? ?]
  | H : mret _ _ = Done _ _ |- _ => apply M_ret_done in H as [? ?]
  | p : (_ * _)%type |- _ => destruct p
  end; simplify_eq.

Lemma overwrite_matching_done from : ∀ to h to' had h',
  NoDup (fl to) → allocated (fl to) h → (∀ l, l ∈ fl to → l ∉ cl (Config from)) →
  overwrite_matching to from h = Done (to', had) h' →
  fl to' = fl to ∧ changes (fl to) h h'
  ∧ had = existsb (λ c, bool_decide (SysMgmtdHost c = SysMgmtdHost from)) (fden h to)
  ∧ fden h' to' = (λ c, if bool_decide (SysMgmtdHost c = SysMgmtdHost from)
       then mkFS (SysMgmtdHost c) (overwrite (Config c) (den h (Config from))) else c) <$> fden h to.
Proof.
  induction to as [|c to IH]; intros h to' had h' Hnd Ha Hdis Hrun.
  { cbn in Hrun. done_inv. by split_and!. }
  rewrite fl_cons in *. apply NoDup_app in Hnd as (Hnd1 & Hnd12 & Hnd2).
  assert (allocated (cl (Config c)) h) as Ha1 by (intros l ?; apply Ha, elem_of_app; by left).
  assert (allocated (fl to) h) as Ha2 by (intros l ?; apply Ha, elem_of_app; by right).
  assert (∀ l, l ∈ fl to → l ∉ cl (Config from)) as Hd2 by (intros l ?; apply Hdis, elem_of_app; by right).
  cbn [overwrite_matching] in Hrun. case_bool_decide as Hh.
  - apply M_bind_done in Hrun as (c' & h1 & Hov & Hrun).
    apply M_bind_done in Hrun as ([r' b] & h2 & Hrest & Hrun). done_inv.
    apply overWrite_done in Hov as (Hcl & Hc1 & Hden);
      [|done|intros l ?; apply Hdis, elem_of_app; by left].
    destruct (IH h1 r' b h') as (Hfl & Hc2 & Hb & Hf); [done|by eapply allocated_changes|done|done|].
    assert (fden h1 to = fden h to) as Ef by (eapply fden_changes; [done|]; set_solver).
    assert (den h1 (Config from) = den h (Config from)) as Efrom
      by (eapply den_changes; [done|]; set_solver).
    rewrite Ef, Efrom in Hf.
    split_and!.
    + by rewrite fl_cons, Hfl, <- Hcl.
    + by eapply changes_trans.
    + cbn. by rewrite bool_decide_eq_true_2.
    + cbn. rewrite bool_decide_eq_true_2 by done. f_equal; [|exact Hf].
      unfold fs_map. cbn. f_equal. change (conf_map (deref h') c') with (den h' c').
      rewrite (den_changes (fl to) h1 h' c'); [exact Hden|done|]. rewrite Hcl. set_solver.
  - apply M_bind_done in Hrun as ([r' b] & h2 & Hrest & Hrun). done_inv.
    destruct (IH h r' had h') as (Hfl & Hc2 & Hb & Hf); [done..|].
    split_and!.
    + by rewrite fl_cons, Hfl.
    + eapply changes_weaken; [|done]. set_solver.
    + cbn. by rewrite bool_decide_eq_false_2.
    + cbn. rewrite bool_decide_eq_false_2 by done. f_equal; [|exact Hf].
      unfold fs_map. f_equal. eapply den_changes; [done|]. set_solver.
Qed.

Lemma fl_app f1 f2 : fl (f1 ++ f2) = fl f1 ++ fl f2.
Proof. unfold fl. by rewrite bind_app. Qed.

(** The locations after overwriting are old ones or come from the source. *)
Definition grows (ls from ls' : list loc) : Prop :=
  NoDup ls' ∧ ∀ l, l ∈ ls' → l ∈ ls ∨ l ∈ from.

Lemma overwriteFS_done from : ∀ to h to' h',
  NoDup (fl to ++ fl from) → allocated (fl to ++ fl from) h →
  overwriteFileSystemSpecificConfigs to from h = Done to' h' →
  grows (fl to) (fl from) (fl to') ∧ changes (fl to ++ fl from) h h'
  ∧ fden h' to' = foldl overwrite_fs (fden h to) (fden h from).
Proof.
  unfold overwriteFileSystemSpecificConfigs.
  induction from as [|f from IH]; intros to h to' h' Hnd Ha Hrun; cbn [fold_m] in Hrun.
  { done_inv. cbn in *. rewrite app_nil_r in Hnd. repeat split; [done|auto]. }
  apply M_bind_done in Hrun as (to1 & h1 & Hstep & Hrun).
  apply M_bind_done in Hstep as ([r had] & h2 & Hm & Hstep).
  apply M_ret_done in Hstep as [<- ->].
  rewrite fl_cons in *. pose proof Hnd as (Hnd1 & Hdis & Hnd2)%NoDup_app.
  apply overwrite_matching_done in Hm as (Hfl & Hc & Hhad & Hf);
    [|done|intros l ?; apply Ha; set_solver|set_solver].
  assert (fden h1 [f] = fden h [f]) as Ef1 by (eapply fden_changes; [done|]; cbn; set_solver).
  assert (fden h1 from = fden h from) as Ef2 by (eapply fden_changes; [done|]; set_solver).
  assert (fl (if had then r else r ++ [f]) = fl to ++ (if had then [] else cl (Config f))) as Hfl1.
  { destruct had; [by rewrite app_nil_r|]. rewrite fl_app, Hfl. cbn. by rewrite app_nil_r. }
  assert (fden h1 (if had then r else r ++ [f]) = overwrite_fs (fden h to) (fs_map (deref h) f)) as Hf1.
  { unfold overwrite_fs. rewrite Hhad. cbn [fs_map SysMgmtdHost Config] in *.
    destruct (existsb _ _) eqn:E; subst had; [exact Hf|].
    unfold fden. rewrite fmap_app. f_equal; [|exact Ef1].
    etransitivity; [exact Hf|]. fold (fden h to). clear -E. induction (fden h to) as [|c l IHl]; [done|]. cbn in E.
    apply orb_false_iff in E as [E1 E2]. cbn. rewrite E1. f_equal. by apply IHl. }
  destruct (IH (if had then r else r ++ [f]) h1 to' h') as ([Hg1 Hg2] & Hc' & Hd).
  - rewrite Hfl1. destruct had; [|by rewrite <- app_assoc].
    rewrite app_nil_r. apply NoDup_app in Hnd2 as (? & ? & ?). apply NoDup_app. set_solver.
  - eapply allocated_changes; [done|]. rewrite Hfl1. intros l Hl. apply Ha. destruct had; set_solver.
  - done.
  - split_and!.
    + split; [done|]. intros l Hl%Hg2. rewrite Hfl1 in Hl. destruct had; set_solver.
    + eapply changes_weaken; [|by eapply changes_trans]. rewrite Hfl1. destruct had; set_solver.
    + rewrite Hd, Hf1. cbn [foldl fden fmap list_fmap]. f_equal. exact Ef2.
Qed.

Lemma apply_node_done nodeID c node h c' h' :
  NoDup (pl c ++ pl (NodeConfig node)) → allocated (pl c ++ pl (NodeConfig node)) h →
  apply_node nodeID c node h = Done c' h' →
  grows (pl c) (pl (NodeConfig node)) (pl c') ∧ changes (pl c ++ pl (NodeConfig node)) h h'
  ∧ pden h' c' = apply_node_pure nodeID (pden h c) (nden h node).
Proof.
  unfold apply_node, apply_node_pure. intros Hnd Ha Hrun.
  change (applies_to nodeID (nden h node)) with (applies_to nodeID node).
  destruct (applies_to nodeID node).
  2: { done_inv. apply NoDup_app in Hnd as (? & _ & _). by repeat split; auto. }
  apply M_bind_done in Hrun as (d & h1 & Hov & Hrun).
  apply M_bind_done in Hrun as (f & h2 & Hfs & Hrun). done_inv.
  destruct c as [cd cf], node as [ns [nd nf]]. unfold pl in *. cbn [NodeConfig DefaultConfig FileSystemSpecificConfigs] in *.
  apply NoDup_app in Hnd as (Hnd1 & Hdis & Hnd2).
  apply NoDup_app in Hnd1 as (? & ? & ?). apply NoDup_app in Hnd2 as (? & ? & ?).
  apply overWrite_done in Hov as (Hcl & Hc1 & Hden);
    [|intros l ?; apply Ha; set_solver|set_solver].
  apply overwriteFS_done in Hfs as ([Hg1 Hg2] & Hc2 & Hf);
    [|apply NoDup_app; set_solver|eapply allocated_changes; [done|]; intros l ?; apply Ha; set_solver].
  assert (fden h1 cf = fden h cf) as E1 by (eapply fden_changes; [done|]; set_solver).
  assert (fden h1 nf = fden h nf) as E2 by (eapply fden_changes; [done|]; set_solver).
  assert (den h' d = den h1 d) as E3 by (eapply den_changes; [done|]; rewrite Hcl; set_solver).
  split_and!.
  - split; [|rewrite Hcl; set_solver]. rewrite Hcl. apply NoDup_app. split_and!; [done| |done]. set_solver.
  - eapply changes_weaken; [|by eapply changes_trans]. set_solver.
  - unfold pden, plugin_map, nden. cbn. f_equal.
    + change (den h' d = overwrite (den h cd) (den h nd)). congruence.
    + change (fden h' f = foldl overwrite_fs (fden h cf) (fden h nf)). congruence.
Qed.

Lemma apply_nodes_done nodeID nodes : ∀ c h c' h',
  NoDup (pl c ++ nl nodes) → allocated (pl c ++ nl nodes) h →
  fold_m (apply_node nodeID) c nodes h = Done c' h' →
  allocated (pl c') h' ∧ pden h' c' = foldl (apply_node_pure nodeID) (pden h c) (nden h <$> nodes).
Proof.
  induction nodes as [|n nodes IH]; intros c h c' h' Hnd Ha Hrun; cbn [fold_m] in Hrun.
  { done_inv. split; [|done]. intros l ?. apply Ha. set_solver. }
  apply M_bind_done in Hrun as (c1 & h1 & Hstep & Hrun).
  change (nl (n :: nodes)) with (pl (NodeConfig n) ++ nl nodes) in *.
  rewrite app_assoc in Hnd, Ha. pose proof Hnd as (Hnd1 & Hdis & Hnd2)%NoDup_app.
  apply apply_node_done in Hstep as ([Hg1 Hg2] & Hc & Hd); [|done|intros l ?; apply Ha; set_solver].
  destruct (IH c1 h1 c' h') as [Ha' Hd'].
  - apply NoDup_app. set_solver.
  - eapply allocated_changes; [done|]. intros l [Hl|Hl]%elem_of_app; apply Ha; [|set_solver].
    apply Hg2 in Hl. set_solver.
  - done.
  - split; [done|]. rewrite Hd', Hd. cbn [fmap list_fmap foldl]. f_equal.
    apply list_fmap_ext. intros i x Hx. unfold nden. f_equal. eapply pden_changes; [done|].
    intros l Hl Hl'. apply (Hdis l Hl'). unfold nl. apply list_elem_of_bind.
    exists x. split; [done|]. by eapply list_elem_of_lookup_2.
Qed.
End Refine.
