(* ===== verification/ConfigParse.v ===== *)
(** * ConfigParse: the whole path from the configuration file to a file system's settings

    The maps the decoder makes are fresh, so the mutations of
    [parseConfigFromFile] never reach a configuration they should not, and the
    outcome is the composition of the layers that apply; [stripConfig] removes
    the options without effect from every map; [squashConfigForSysMgmtdHost]
    works on a map of its own. *)
From S2P Require Import Prelude GoStrings GoNet GoRegexp Base64 Config ConfigFacts.

Section Parse.
Context {RO : RangeOrder}.

(** ** The decoder's maps are fresh

    [m] allocates the maps of a value that denotes [b] in every later heap. *)
Definition allocates {A B} (locs : A → list loc) (d : heap → A → B) (m : M A) (b : B) : Prop :=
  ∀ h, ∃ y h', m h = Done y h' ∧ (h ⊆ h') ∧ NoDup (locs y)
    ∧ (∀ l, l ∈ locs y → (l ∉ dom h) ∧ l ∈ dom h') ∧ (∀ h2, h' ⊆ h2 → d h2 y = b).

Lemma allocates_ret {A B} (locs : A → list loc) (d : heap → A → B) y b :
  locs y = [] → (∀ h, d h y = b) → allocates locs d (mret y) b.
Proof. intros Hl Hd h. exists y, h. rewrite Hl. repeat split; auto using NoDup_nil_2; set_solver. Qed.

Lemma allocates_pair {A1 A2 A B1 B2 B} (l1 : A1 → list loc) (l2 : A2 → list loc) (l : A → list loc)
    (d1 : heap → A1 → B1) (d2 : heap → A2 → B2) (d : heap → A → B) m1 m2 f g b1 b2 :
  (∀ y1 y2, l (f y1 y2) = l1 y1 ++ l2 y2) → (∀ h y1 y2, d h (f y1 y2) = g (d1 h y1) (d2 h y2)) →
  allocates l1 d1 m1 b1 → allocates l2 d2 m2 b2 →
  allocates l d (m1 ≫= λ y1, m2 ≫= λ y2, mret (f y1 y2)) (g b1 b2).
Proof.
  intros Hl Hd H1 H2 h. destruct (H1 h) as (y1 & h1 & E1 & Hs1 & Hn1 & Hf1 & Hd1).
  destruct (H2 h1) as (y2 & h2 & E2 & Hs2 & Hn2 & Hf2 & Hd2).
  exists (f y1 y2), h2. apply subseteq_dom in Hs1 as Hsd1. apply subseteq_dom in Hs2 as Hsd2.
  split_and!.
  - unfold mbind, M_bind. by rewrite E1, E2.
  - by transitivity h1.
  - rewrite Hl. apply NoDup_app. split_and!; [done| |done].
    intros x Hx1 Hx2. apply Hf1 in Hx1 as [_ Hx1]. by apply Hf2 in Hx2 as [Hx2 _].
  - intros x. rewrite Hl, elem_of_app. intros [Hx|Hx].
    + apply Hf1 in Hx as [? ?]. set_solver.
    + apply Hf2 in Hx as [? ?]. set_solver.
  - intros h3 Hs3. rewrite Hd, Hd2 by done. rewrite Hd1; [done|]. by transitivity h2.
Qed.

Lemma allocates_map {A A' B} (f : A → A') (locs : A → list loc) (locs' : A' → list loc)
    {B'} (d : heap → A → B) (d' : heap → A' → B') (g : B → B') m b :
  (∀ y, locs' (f y) = locs y) → (∀ h y, d' h (f y) = g (d h y)) →
  allocates locs d m b → allocates locs' d' (y ← m; mret (f y)) (g b).
Proof.
  intros Hl Hd H h. destruct (H h) as (y & h' & E & Hs & Hn & Hf & Hb).
  exists (f y), h'. unfold mbind, M_bind. rewrite E, Hl. split_and!; [done..|].
  intros h2 Hs2. by rewrite Hd, Hb.
Qed.

(** The tree of which a value is the allocated form. *)
Definition oref (h : heap) (r : mapref) : yaml_conf := r ≫= λ l, h !! l.
Definition node_map {A B} (f : A → B) (n : NodeSpecificConfig A) : NodeSpecificConfig B :=
  mkNode (NodeList n) (plugin_map f (NodeConfig n)).
Definition file_map {A B} (f : A → B) (c : PluginConfigFromFile A) : PluginConfigFromFile B :=
  mkFromFile (plugin_map f (RawPluginConfig c)) (node_map f <$> NodeSpecificConfigs c).

Lemma alloc_map_ok m : allocates option_list oref (alloc_map m) m.
Proof.
  destruct m as [m|]; [|by apply allocates_ret].
  intros h. eexists _, _. split; [done|]. pose proof (is_fresh (dom h)) as Hfr.
  split_and!.
  - apply insert_subseteq. by apply not_elem_of_dom.
  - apply NoDup_singleton.
  - cbn. intros l ->%list_elem_of_singleton. rewrite dom_insert. set_solver.
  - intros h2 Hs. unfold oref. cbn.
    by rewrite (lookup_weaken _ _ _ _ (lookup_insert_eq _ _ _) Hs).
Qed.

Lemma alloc_conf_ok c : allocates cl (λ h, conf_map (oref h)) (alloc_conf c) c.
Proof.
  unfold alloc_conf. replace c with (set_conf (BeegfsClientConf c) c) at 2 by (by destruct c).
  apply (allocates_map (λ r, set_conf r c) option_list cl oref (λ h, conf_map (oref h)) (λ m, set_conf m c));
    [done..|]. apply alloc_map_ok.
Qed.

Lemma map_m_ok {A A'} (f : A → M A') (locs : A' → list loc) (d : heap → A' → A) l :
  (∀ x, allocates locs d (f x) x) →
  allocates (λ y, y ≫= locs) (λ h, fmap (d h)) (map_m f l) l.
Proof.
  intros Hf. induction l as [|x l IH]; [by apply allocates_ret|]. cbn [map_m].
  by apply (allocates_pair locs (λ y, y ≫= locs) _ d (λ h, fmap (d h)) _ _ _ cons cons).
Qed.

Lemma alloc_fs_ok c : allocates (λ y, cl (Config y)) (λ h, fs_map (oref h)) (alloc_fs c) c.
Proof.
  unfold alloc_fs. destruct c as [s c].
  apply (allocates_map (mkFS s) cl _ (λ h, conf_map (oref h)) _ (mkFS s)); [done..|].
  apply alloc_conf_ok.
Qed.

Lemma alloc_plugin_ok c : allocates pl (λ h, plugin_map (oref h)) (alloc_plugin c) c.
Proof.
  unfold alloc_plugin. destruct c as [d f].
  apply (allocates_pair cl fl pl (λ h, conf_map (oref h)) (λ h, fmap (fs_map (oref h))) _ _ _
    mkPluginConfig mkPluginConfig); [done..|apply alloc_conf_ok|].
  apply map_m_ok, alloc_fs_ok.
Qed.

Lemma alloc_raw_ok c :
  allocates (λ y, pl (RawPluginConfig y) ++ nl (NodeSpecificConfigs y)) (λ h, file_map (oref h)) (alloc_raw c) c.
Proof.
  unfold alloc_raw. destruct c as [p n].
  apply (allocates_pair pl nl _ (λ h, plugin_map (oref h)) (λ h, fmap (node_map (oref h))) _ _ _
    mkFromFile mkFromFile); [done..|apply alloc_plugin_ok|].
  apply map_m_ok. intros [ns nc]. unfold alloc_node.
  apply (allocates_map (mkNode ns) pl _ (λ h, plugin_map (oref h)) _ (mkNode ns)); [done..|].
  apply alloc_plugin_ok.
Qed.

(** Absent maps read as empty. *)
Definition conf_of : yaml_conf → gomap := default ∅.

Lemma pden_file h c : plugin_map conf_of (plugin_map (oref h) c) = pden h c.
Proof.
  unfold pden, plugin_map. cbn. f_equal. rewrite <- list_fmap_compose. by apply list_fmap_ext.
Qed.

Lemma nden_file h n : node_map conf_of (node_map (oref h) n) = nden h n.
Proof. unfold nden, node_map. cbn. f_equal. apply pden_file. Qed.

(** ** Stripping *)

Lemma bind_run {A B} (m : M A) (f : A → M B) h a h' : m h = Done a h' → (m ≫= f) h = f a h'.
Proof. intros E. unfold mbind, M_bind. by rewrite E. Qed.

Definition alter_ref (f : gomap → gomap) (r : mapref) (h : heap) : heap :=
  match r with Some l => alter f l h | None => h end.

(** The options of a list that a map sets, with a mark for each. *)
Definition found (mark : string → string → warning) (m : gomap) (opts : list string) : list warning :=
  opts ≫= λ o, option_list (mark o <$> m !! o).
Definition warnings_of (m : gomap) : list warning :=
  found NoEffect m noEffectBeegfsConfOptions ++ found Unsupported m unsupportedBeegfsConfOptions.

Lemma found_delete mark m o opts : o ∉ opts → found mark (delete o m) opts = found mark m opts.
Proof.
  unfold found. induction opts as [|o' opts IH]; intros Ho; [done|]. apply not_elem_of_cons in Ho as [Hne Ho].
  cbn. by rewrite IH, lookup_delete_ne by done.
Qed.

Lemma elem_of_found mark w m opts : w ∈ found mark m opts ↔ ∃ o v, o ∈ opts ∧ m !! o = Some v ∧ w = mark o v.
Proof.
  unfold found. rewrite list_elem_of_bind. split.
  - intros (o & Hw & Ho). destruct (m !! o) as [v|] eqn:Hv; cbn in Hw; [|by apply elem_of_nil in Hw].
    apply list_elem_of_singleton in Hw as ->. eauto.
  - intros (o & v & Ho & Hv & ->). exists o. rewrite Hv. split; [|done]. by left.
Qed.

Lemma alter_ref_delete r o h :
  (match deref h r !! o with Some _ => alter_ref (delete o) r h | None => h end) = alter_ref (delete o) r h.
Proof.
  destruct r as [l|]; [|by case_match]. unfold deref. cbn. destruct (h !! l) as [m|] eqn:Hl; cbn.
  - destruct (m !! o) eqn:Hm; [done|]. symmetry. apply map_eq. intros l'.
    destruct (decide (l' = l)) as [->|]; [|by rewrite lookup_alter_ne by done].
    by rewrite lookup_alter_eq, Hl; cbn; rewrite delete_id.
  - rewrite lookup_empty. symmetry. apply map_eq. intros l'.
    destruct (decide (l' = l)) as [->|]; [by rewrite lookup_alter_eq, Hl|by rewrite lookup_alter_ne by done].
Qed.

Lemma deref_alter_delete r o h : deref (alter_ref (delete o) r h) r = delete o (deref h r).
Proof.
  destruct r as [l|]; unfold deref; cbn; [|by rewrite delete_empty].
  rewrite lookup_alter_eq. destruct (h !! l); cbn; by rewrite ?delete_empty.
Qed.

Lemma strip_one_run r o h :
  (map_load r ≫= λ m, match m !! o with
                      | Some val => map_delete r o ≫= λ _, mret [NoEffect o val]
                      | None => mret []
                      end) h
  = Done (option_list (NoEffect o <$> deref h r !! o)) (alter_ref (delete o) r h).
Proof.
  rewrite (bind_run _ _ h (deref h r) h) by done. rewrite <- (alter_ref_delete r o h).
  destruct (deref h r !! o); [|done]. by destruct r.
Qed.

Lemma strip_map_run r opts : NoDup opts → ∀ h,
  each (λ o, map_load r ≫= λ m, match m !! o with
                                | Some val => map_delete r o ≫= λ _, mret [NoEffect o val]
                                | None => mret []
                                end) opts h
  = Done (found NoEffect (deref h r) opts) (alter_ref (λ m, foldl (flip delete) m opts) r h).
Proof.
  induction 1 as [|o opts Ho Hopts IH]; intros h; cbn [each].
  - unfold mret, M_ret. f_equal. destruct r; [|done]. symmetry. by apply alter_id.
  - rewrite (bind_run _ _ _ _ _ (strip_one_run r o h)), (bind_run _ _ _ _ _ (IH _)), deref_alter_delete, found_delete by done.
    unfold mret, M_ret. f_equal. destruct r as [l|]; [|done]. cbn. apply map_eq. intros l'.
    destruct (decide (l' = l)) as [->|]; [|by rewrite !lookup_alter_ne].
    rewrite !lookup_alter_eq. by destruct (h !! l).
Qed.

Lemma note_map_run r opts h :
  each (λ o, map_load r ≫= λ m, mret (match m !! o with Some val => [Unsupported o val] | None => [] end)) opts h
  = Done (found Unsupported (deref h r) opts) h.
Proof.
  induction opts as [|o opts IH]; [done|]. cbn [each].
  rewrite (bind_run _ _ h (option_list (Unsupported o <$> deref h r !! o)) h), (bind_run _ _ _ _ _ IH); [done|].
  rewrite (bind_run _ _ h (deref h r) h) by done. by destruct (deref h r !! o).
Qed.

Lemma strip_foldl m : foldl (flip delete) m noEffectBeegfsConfOptions = strip m.
Proof. apply map_eq. intros k. cbn. rewrite !lookup_delete. repeat case_decide; congruence. Qed.

Lemma strip_idem m : strip (strip m) = strip m.
Proof. apply map_eq. intros k. cbn. rewrite !lookup_delete. repeat case_decide; congruence. Qed.

(** Stripping keeps the options that are only warned about, and what it leaves
    gives no warning that the map did not give before. *)
Lemma strip_unsupported m :
  found Unsupported (strip m) unsupportedBeegfsConfOptions = found Unsupported m unsupportedBeegfsConfOptions.
Proof. unfold found, strip. cbn. by rewrite !lookup_delete_ne by done. Qed.

Lemma strip_warnings m w : w ∈ warnings_of (strip m) → w ∈ warnings_of m.
Proof.
  unfold warnings_of. rewrite !elem_of_app, strip_unsupported, !elem_of_found.
  intros [(o & v & Ho & Hv & ->)|Hu]; [left|by right]. exists o, v. split_and!; [done| |done].
  revert Hv. cbn. rewrite !lookup_delete. repeat case_decide; done.
Qed.

Lemma deref_alter_ref f r r' h : f ∅ = ∅ →
  deref (alter_ref f r h) r' = if decide (r = r') then f (deref h r') else deref h r'.
Proof.
  intros Hf. unfold deref. destruct r as [l|], r' as [l'|]; cbn; repeat case_decide; rewrite ?Hf; try done.
  - simplify_eq. rewrite lookup_alter_eq. by destruct (h !! l'); cbn.
  - by rewrite lookup_alter_ne by congruence.
Qed.

Lemma strip_empty : strip ∅ = ∅.
Proof. unfold strip. cbn. by rewrite !delete_empty. Qed.

Lemma strip_options_run c h :
  strip_options c h = Done (warnings_of (deref h (BeegfsClientConf c))) (alter_ref strip (BeegfsClientConf c) h).
Proof.
  assert (NoDup noEffectBeegfsConfOptions) as Hnd by (apply (bool_decide_eq_true_1 (NoDup noEffectBeegfsConfOptions)); reflexivity).
  assert (∀ r, alter_ref (λ m, foldl (flip delete) m noEffectBeegfsConfOptions) r h = alter_ref strip r h) as Hs.
  { intros [l|]; [|done]. apply alter_ext. intros m _. apply strip_foldl. }
  unfold strip_options. rewrite (bind_run _ _ _ _ _ (strip_map_run _ _ Hnd h)), Hs, (bind_run _ _ _ _ _ (note_map_run _ _ _)).
  rewrite (deref_alter_ref _ _ _ _ strip_empty), decide_True by done. by rewrite strip_unsupported.
Qed.

(** Stripping maps one after the other strips each of them, shared or not, and
    warns of everything that is in any of them. *)
Lemma strip_all_run (l : list (BeegfsConfig mapref)) : ∀ h,
  ∃ ws h', each strip_options l h = Done ws h'
    ∧ (∀ x, h' !! x = if decide (x ∈ l ≫= cl) then strip <$> h !! x else h !! x)
    ∧ (∀ w, w ∈ ws ↔ ∃ c, c ∈ l ∧ w ∈ warnings_of (deref h (BeegfsClientConf c))).
Proof.
  induction l as [|c l IH]; intros h; [exists [], h; split_and!; [done..|set_solver]|].
  cbn [each]. rewrite (bind_run _ _ _ _ _ (strip_options_run c h)).
  destruct (IH (alter_ref strip (BeegfsClientConf c) h)) as (ws & h' & Hrun & Hx & Hw).
  rewrite (bind_run _ _ _ _ _ Hrun). eexists _, h'. split_and!; [done| |].
  - intros x. rewrite Hx.
    assert (x ∈ (c :: l) ≫= cl ↔ BeegfsClientConf c = Some x ∨ x ∈ l ≫= cl) as Hin.
    { cbn [mbind list_bind]. rewrite elem_of_app. unfold cl at 1.
      destruct (BeegfsClientConf c) as [y|]; cbn; rewrite ?list_elem_of_singleton, ?elem_of_nil; naive_solver. }
    destruct (decide (BeegfsClientConf c = Some x)) as [E|E].
    + rewrite E, (decide_True (P := x ∈ (c :: l) ≫= cl)) by tauto. cbn [alter_ref]. rewrite lookup_alter_eq.
      destruct (h !! x) as [m|]; [|by case_decide]. cbn [fmap option_fmap option_map].
      case_decide; [|done]. by rewrite strip_idem.
    + assert (alter_ref strip (BeegfsClientConf c) h !! x = h !! x) as ->.
      { destruct (BeegfsClientConf c); [|done]. cbn. rewrite lookup_alter_ne; congruence. }
      repeat case_decide; tauto.
  - intros w. rewrite elem_of_app, Hw. setoid_rewrite elem_of_cons. split.
    + intros [Hc|(c' & Hc' & Hin)]; [by eauto|]. exists c'. split; [by right|].
      rewrite (deref_alter_ref _ _ _ _ strip_empty) in Hin. case_decide; [by apply strip_warnings|done].
    + intros (c' & [->|Hc'] & Hin); [by left|].
      destruct (decide (BeegfsClientConf c = BeegfsClientConf c')) as [E|E]; [left; by rewrite E|].
      right. exists c'. split; [done|]. by rewrite (deref_alter_ref _ _ _ _ strip_empty), decide_False.
Qed.

Lemma stripConfig_run c h :
  ∃ ws h', stripConfig c h = Done ws h' ∧ pden h' c = plugin_map strip (pden h c).
Proof.
  destruct (strip_all_run (DefaultConfig c :: (Config <$> FileSystemSpecificConfigs c)) h)
    as (ws & h' & Hrun & Hx & _).
  exists ws, h'. split; [exact Hrun|].
  assert (∀ x, x ∈ DefaultConfig c :: (Config <$> FileSystemSpecificConfigs c) →
    den h' x = conf_map strip (den h x)) as Hden.
  { intros x Hin. unfold den, conf_map, set_conf. cbn. f_equal. unfold deref.
    destruct (BeegfsClientConf x) as [l|] eqn:E; [|done]. cbn. rewrite Hx, decide_True.
    - by destruct (h !! l).
    - apply list_elem_of_bind. exists x. split; [|done]. unfold cl. rewrite E. by left. }
  unfold pden, plugin_map. cbn. f_equal; [apply Hden; by left|].
  rewrite <- list_fmap_compose. apply list_fmap_ext. intros i f Hf. unfold fs_map. cbn. f_equal.
  apply (Hden (Config f)). right. apply list_elem_of_fmap_2. by eapply list_elem_of_lookup_2.
Qed.

(** Every option that is removed for having no effect, and every option that is
    not supported, is warned about with the value it had, wherever it is set. *)
Theorem stripConfig_warns c h :
  ∃ ws h', stripConfig c h = Done ws h' ∧ ∀ w, w ∈ ws ↔
    ∃ config o v, config ∈ DefaultConfig c :: (Config <$> FileSystemSpecificConfigs c)
      ∧ deref h (BeegfsClientConf config) !! o = Some v
      ∧ (o ∈ noEffectBeegfsConfOptions ∧ w = NoEffect o v ∨ o ∈ unsupportedBeegfsConfOptions ∧ w = Unsupported o v).
Proof.
  destruct (strip_all_run (DefaultConfig c :: (Config <$> FileSystemSpecificConfigs c)) h) as (ws & h' & Hrun & _ & Hw).
  exists ws, h'. split; [exact Hrun|]. intros w. rewrite Hw. unfold warnings_of.
  setoid_rewrite elem_of_app. setoid_rewrite elem_of_found. naive_solver.
Qed.

Lemma strip_union a b : strip (a ∪ b) = strip a ∪ strip b.
Proof. unfold strip. cbn. by rewrite !delete_union. Qed.

Lemma strip_overwrite a b :
  conf_map strip (overwrite a b) = overwrite (conf_map strip a) (conf_map strip b).
Proof. unfold conf_map, set_conf, overwrite. cbn -[strip]. f_equal. apply strip_union. Qed.

Lemma strip_compose l : conf_map strip (compose l) = compose (conf_map strip <$> l).
Proof.
  induction l as [|a l IH]; [done|]. cbn [fmap list_fmap]. by rewrite !compose_cons, strip_overwrite, IH.
Qed.

Lemma squash_strip host c : squash host (plugin_map strip c) = conf_map strip (squash host c).
Proof.
  destruct c as [d fs]. unfold squash. rewrite strip_compose. f_equal.
  cbn [plugin_map DefaultConfig FileSystemSpecificConfigs fmap list_fmap]. f_equal.
  unfold host_layers. induction fs as [|f l IH]; [done|]. cbn [fmap list_fmap]. rewrite !filter_cons.
  cbn [fs_map SysMgmtdHost]. case_decide; [|done]. cbn [fmap list_fmap]. by rewrite IH.
Qed.

(** ** Squashing *)

Lemma overWrite_total to from h l :
  BeegfsClientConf to = Some l →
  ∃ to' h', overWriteBeegfsConfig to from h = Done to' h' ∧ BeegfsClientConf to' = Some l.
Proof.
  intros E. unfold overWriteBeegfsConfig. rewrite (bind_run _ _ h (deref h (BeegfsClientConf from)) h) by done.
  generalize (range_order (deref h (BeegfsClientConf from))). intros kvs. rewrite E.
  assert (∀ h, ∃ h', iter (λ '(k, v), map_assign (Some l) k v) kvs h = Done tt h') as Hit.
  { induction kvs as [|[k v] kvs IH]; intros h0; [by exists h0|]. cbn [iter].
    rewrite (bind_run _ _ _ tt (alter (<[k:=v]>) l h0)) by done. apply IH. }
  destruct (Hit h) as [h' Hh']. rewrite (bind_run _ _ _ _ _ Hh'). by eexists _, h'.
Qed.

Lemma squash_loop host l : ∀ c h,
  (∃ x, BeegfsClientConf c = Some x) → allocated (cl c) h → (∀ x, x ∈ cl c → x ∉ fl l) →
  ∃ c' h', fold_m (λ c fsc, if bool_decide (host = SysMgmtdHost fsc)
      then overWriteBeegfsConfig c (Config fsc) else mret c) c l h = Done c' h'
    ∧ cl c' = cl c ∧ changes (cl c) h h'
    ∧ den h' c' = overwrite (den h c) (compose (host_layers host (fden h l))).
Proof.
  induction l as [|f l IH]; intros c h [x Hx] Ha Hd.
  { exists c, h. split_and!; [done|done|done|]. cbn. by rewrite overwrite_nil_r. }
  rewrite fl_cons in Hd. unfold host_layers. cbn [fold_m fden fmap list_fmap]. rewrite filter_cons.
  change (SysMgmtdHost (fs_map (deref h) f)) with (SysMgmtdHost f).
  case_bool_decide as Hh; case_decide; try done.
  - destruct (overWrite_runs c (Config f) h) as (c1 & h1 & Hrun & Hcl & Hc & Hden);
      [done|set_solver|by rewrite Hx|].
    destruct (IH c1 h1) as (c' & h' & Hrun' & Hcl' & Hc' & Hden').
    + unfold cl in Hcl. rewrite Hx in Hcl. destruct (BeegfsClientConf c1) as [y|]; [by exists y|done].
    + rewrite Hcl. by eapply allocated_changes.
    + rewrite Hcl. set_solver.
    + exists c', h'. rewrite (bind_run _ _ _ _ _ Hrun). rewrite Hcl in *. split_and!; [done|done| |].
      * eapply changes_weaken; [|by eapply changes_trans]. set_solver.
      * rewrite Hden', Hden. cbn [fmap list_fmap]. rewrite compose_cons, overwrite_assoc.
        rewrite (fden_changes (cl c) h h1 l) by (done || set_solver). done.
  - rewrite (bind_run _ _ h c h) by done. apply IH; [by exists x|done|set_solver].
Qed.

Lemma squash_run host c h :
  allocated (pl c) h →
  ∃ c' h', squashConfigForSysMgmtdHost host c h = Done c' h'
    ∧ den h' c' = squash host (pden h c) ∧ pden h' c = pden h c.
Proof.
  intros Ha. unfold squashConfigForSysMgmtdHost, NewBeegfsConfig.
  set (x := fresh (dom h)). pose proof (is_fresh (dom h)) as Hfr.
  set (h1 := <[x := ∅]> h : heap).
  set (c0 := mkBeegfsConfig EmptyString [] [] [] [] EmptyString EmptyString (Some x) : BeegfsConfig mapref).
  rewrite (bind_run _ _ h c0 h1) by done.
  assert (∀ y, y ∈ pl c → y ∉ [x]) as Hnew by (intros y Hy%Ha ->%list_elem_of_singleton; done).
  assert (pden h1 c = pden h c) as E1.
  { apply pden_frame. intros y Hy%Hnew. unfold h1. rewrite lookup_insert_ne; set_solver. }
  assert (allocated (cl c0) h1) as Ha0.
  { intros y ->%list_elem_of_singleton. unfold h1. rewrite dom_insert. set_solver. }
  destruct (overWrite_runs c0 (DefaultConfig c) h1) as (c1 & h2 & Hrun & Hcl & Hc & Hden);
    [done| |done|].
  { intros y ->%list_elem_of_singleton Hin. apply (Hnew x); [|by left]. apply elem_of_app. by left. }
  rewrite (bind_run _ _ _ _ _ Hrun).
  destruct (squash_loop host (FileSystemSpecificConfigs c) c1 h2) as (c' & h' & Hrun' & Hcl' & Hc' & Hden').
  { destruct (overWrite_total c0 (DefaultConfig c) h1 x eq_refl) as (c2 & h3 & Hr & Hs).
    rewrite Hrun in Hr. injection Hr as <- <-. by exists x. }
  { rewrite Hcl. by eapply allocated_changes. }
  { rewrite Hcl. intros y ->%list_elem_of_singleton Hin. apply (Hnew x); [|by left]. apply elem_of_app. by right. }
  exists c', h'. split; [done|]. rewrite Hcl in Hc'.
  assert (changes [x] h1 h') as Hall.
  { eapply changes_weaken; [|eapply changes_trans; [exact Hc|exact Hc']]. set_solver. }
  split; [|by rewrite <- E1; eapply pden_changes].
  rewrite Hden', Hden. unfold squash. rewrite compose_cons, <- E1.
  assert (den h1 c0 = no_layer) as ->.
  { unfold den, conf_map, set_conf, no_layer. cbn. f_equal. unfold deref, h1. cbn. by rewrite lookup_insert_eq. }
  rewrite overwrite_nil_l. f_equal. f_equal. f_equal. eapply fden_changes; [exact Hc|].
  intros y Hy. apply Hnew, elem_of_app. by right.
Qed.
End Parse.

(** ** Properties *)

(** The layers of a configuration file that apply to a file system on a node. *)
Definition file_default (tree : PluginConfigFromFile yaml_conf) : layer :=
  DefaultConfig (plugin_map conf_of (RawPluginConfig tree)).
Definition file_nodes (nodeID : string) (tree : PluginConfigFromFile yaml_conf) : list (NodeSpecificConfig gomap) :=
  applicable nodeID (node_map conf_of <$> NodeSpecificConfigs tree).
Definition node_defaults (nodeID : string) (tree : PluginConfigFromFile yaml_conf) : list layer :=
  DefaultConfig ∘ NodeConfig <$> file_nodes nodeID tree.
Definition fs_entries (host : string) (tree : PluginConfigFromFile yaml_conf) : list layer :=
  host_layers host (FileSystemSpecificConfigs (plugin_map conf_of (RawPluginConfig tree))).
Definition node_fs_entries (nodeID host : string) (tree : PluginConfigFromFile yaml_conf) : list layer :=
  file_nodes nodeID tree ≫= λ n, host_layers host (FileSystemSpecificConfigs (NodeConfig n)).

(** The order in which the code applies them, lowest first; and the order that
    docs/deployment.md promises, in which a node's defaults override the file
    system's entries. *)
Definition layers_for (nodeID host : string) (tree : PluginConfigFromFile yaml_conf) : list layer :=
  [file_default tree] ++ node_defaults nodeID tree ++ fs_entries host tree ++ node_fs_entries nodeID host tree.
Definition documented_layers (nodeID host : string) (tree : PluginConfigFromFile yaml_conf) : list layer :=
  [file_default tree] ++ fs_entries host tree ++ node_defaults nodeID tree ++ node_fs_entries nodeID host tree.

(** Two layers that give no field and no key different values. *)
Definition compatible (a b : layer) : Prop :=
  let agrees {A} (f : layer → A) := f a = f no_layer ∨ f b = f no_layer ∨ f a = f b in
  agrees GrpcPort ∧ agrees ConnInterfaces ∧ agrees ConnNetFilter ∧ agrees ConnTcpOnlyFilter
  ∧ agrees ConnRDMAInterfaces ∧ agrees ConnAuth ∧ agrees TLSCert
  ∧ ∀ k v w, BeegfsClientConf a !! k = Some v → BeegfsClientConf b !! k = Some w → v = w.

Lemma or_str_comm (a b : string) : a = EmptyString ∨ b = EmptyString ∨ a = b → or_str a b = or_str b a.
Proof. unfold or_str. repeat case_bool_decide; naive_solver. Qed.
Lemma or_list_comm (a b : list string) : a = [] ∨ b = [] ∨ a = b → or_list a b = or_list b a.
Proof. destruct a, b; naive_solver. Qed.

Lemma or_comm3 {A} (a b d : A) : (a = d ∨ b = d ∨ a = b) ↔ (b = d ∨ a = d ∨ b = a).
Proof. split; intros [H|[H|H]]; auto. Qed.

Lemma overwrite_comm a b : compatible a b → overwrite a b = overwrite b a.
Proof.
  intros (H1 & H2 & H3 & H4 & H5 & H6 & H7 & H8). unfold overwrite.
  f_equal; try (apply or_str_comm, or_comm3; assumption); try (apply or_list_comm, or_comm3; assumption).
  apply map_eq. intros k. rewrite !lookup_union.
  destruct (BeegfsClientConf a !! k) eqn:Ea, (BeegfsClientConf b !! k) eqn:Eb; cbn; try done. f_equal. symmetry. eauto.
Qed.

Lemma layers_documented nodeID host tree :
  compatible (compose (node_defaults nodeID tree)) (compose (fs_entries host tree)) →
  compose (layers_for nodeID host tree) = compose (documented_layers nodeID host tree).
Proof.
  intros Hc. unfold layers_for, documented_layers. rewrite !compose_app. f_equal.
  rewrite <- overwrite_assoc, (overwrite_comm _ _ Hc). apply overwrite_assoc.
Qed.

Section Properties.
Context {RO : RangeOrder}.
Context (UnmarshalStrict : string → result (PluginConfigFromFile yaml_conf)).

(** What [parseConfigFromFile] did when it returned a configuration. *)
Lemma parse_done bytes nodeID h0 cfg h tree :
  UnmarshalStrict bytes = Ok tree →
  parseConfigFromFile UnmarshalStrict (Ok bytes) nodeID h0 = Done cfg h →
  allocated (pl cfg) h ∧ validateConfig cfg = Ok tt ∧
  pden h cfg = plugin_map strip (foldl (apply_node_pure nodeID)
    (plugin_map conf_of (RawPluginConfig tree)) (node_map conf_of <$> NodeSpecificConfigs tree)).
Proof.
  intros Hy Hrun. unfold parseConfigFromFile in Hrun. rewrite Hy in Hrun.
  destruct (alloc_raw_ok tree h0) as (raw & h1 & Ealloc & _ & Hnd & Hin & Hden).
  rewrite (bind_run _ _ _ _ _ Ealloc) in Hrun.
  apply M_bind_done in Hrun as (c & h2 & Hfold & Hrun).
  apply apply_nodes_done in Hfold as [Ha Hp]; [|done|intros l Hl; by apply Hin].
  destruct (validateConfig c) as [[]|] eqn:Hv; [|done].
  apply M_bind_done in Hrun as (ws & h3 & Hstrip & Hret). apply M_ret_done in Hret as [<- <-].
  destruct (stripConfig_run c h2) as (ws' & h4 & Hs & Hd). rewrite Hs in Hstrip. injection Hstrip as <- <-.
  assert (dom h4 = dom h2) as Hdom.
  { destruct (strip_all_run (DefaultConfig c :: (Config <$> FileSystemSpecificConfigs c)) h2)
      as (ws5 & h5 & Hs5 & Hx & _). unfold stripConfig in Hs. rewrite Hs in Hs5. injection Hs5 as <- <-.
    apply set_eq. intros l. rewrite !elem_of_dom, Hx. case_decide; [by rewrite fmap_is_Some|done]. }
  split_and!; [intros l Hl; rewrite Hdom; auto|done|].
  rewrite Hd, Hp. rewrite <- (Hden h1 ltac:(done)). destruct raw as [p n].
  cbn [file_map RawPluginConfig NodeSpecificConfigs]. rewrite pden_file, <- list_fmap_compose.
  f_equal. f_equal. apply list_fmap_ext. intros i x _. symmetry. apply nden_file.
Qed.

(** C10: every setting that reaches a file system on a node is the composition
    of the layers of the configuration file that apply there: the default, the
    node's defaults, the file system's entries and the node's entries for the
    file system, later layers winning per field and per beegfs-client.conf key,
    without the options that have no effect. This is the code's order: the
    documentation puts the node's defaults above the file system's entries. The
    two agree where these two layers do not give one setting different values.
    Squashing always succeeds and leaves the configuration it reads as it was. *)
Theorem parse_squash_layers bytes nodeID host h0 cfg h tree :
  UnmarshalStrict bytes = Ok tree →
  parseConfigFromFile UnmarshalStrict (Ok bytes) nodeID h0 = Done cfg h →
  ∃ c h', squashConfigForSysMgmtdHost host cfg h = Done c h'
    ∧ den h' c = conf_map strip (compose (layers_for nodeID host tree))
    ∧ pden h' cfg = pden h cfg
    ∧ (compatible (compose (node_defaults nodeID tree)) (compose (fs_entries host tree)) →
       den h' c = conf_map strip (compose (documented_layers nodeID host tree))).
Proof.
  intros Hy Hrun. destruct (parse_done _ _ _ _ _ _ Hy Hrun) as (Ha & _ & Hp).
  destruct (squash_run host cfg h Ha) as (c & h' & Hs & Hd & Hk).
  assert (den h' c = conf_map strip (compose (layers_for nodeID host tree))) as E
    by (by rewrite Hd, Hp, squash_strip, squash_nodes).
  exists c, h'. split_and!; [done..|]. intros Hc. by rewrite E, layers_documented.
Qed.

(** A configuration file whose default configuration has no
    beegfsClientConf crashes the driver at start-up on a node for which the file
    has a node-specific beegfsClientConf: the code assigns to a nil map. *)
Theorem parse_panics_without_default_conf bytes nodeID h0 d fs names nd nfs rest m :
  UnmarshalStrict bytes = Ok (mkFromFile (mkPluginConfig d fs) (mkNode names (mkPluginConfig nd nfs) :: rest)) →
  BeegfsClientConf d = None → nodeID ∈ names → BeegfsClientConf nd = Some m → m ≠ ∅ →
  parseConfigFromFile UnmarshalStrict (Ok bytes) nodeID h0 = Panics.
Proof.
  intros Hy Hd Hn Hm Hne. unfold parseConfigFromFile. rewrite Hy.
  set (tree := mkFromFile _ _). destruct (alloc_raw_ok tree h0) as (raw & h1 & Ealloc & _ & _ & Hin & Hden).
  rewrite (bind_run _ _ _ _ _ Ealloc). specialize (Hden h1 ltac:(done)).
  destruct raw as [[d' f'] [|[ns [nd' nf']] nodes]]; cbn in Hden, Hin; [done|].
  assert (conf_map (oref h1) d' = d) as E1 by (by inversion Hden).
  assert (conf_map (oref h1) nd' = nd) as E2 by (by inversion Hden).
  assert (ns = names) as -> by (by inversion Hden). cbn [RawPluginConfig NodeSpecificConfigs fold_m].
  assert (overWriteBeegfsConfig d' nd' h1 = Panics) as Hov.
  { apply overWrite_panics.
    - destruct (BeegfsClientConf d') as [l|] eqn:El; [|done]. exfalso.
      assert (l ∈ dom h1) as [? Hl]%elem_of_dom.
      { apply Hin. unfold pl, cl. cbn. rewrite El. by left. }
      rewrite <- E1 in Hd. cbn in Hd. unfold oref in Hd. rewrite El in Hd. cbn in Hd. congruence.
    - rewrite <- E2 in Hm. cbn in Hm. unfold deref. change (BeegfsClientConf nd' ≫= _) with (oref h1 (BeegfsClientConf nd')).
      by rewrite Hm. }
  assert (apply_node nodeID (mkPluginConfig d' f') (mkNode names (mkPluginConfig nd' nf')) h1 = Panics) as Hap.
  { unfold apply_node, applies_to. cbn [NodeList NodeConfig DefaultConfig].
    rewrite bool_decide_eq_true_2 by done. unfold mbind, M_bind. by rewrite Hov. }
  unfold mbind, M_bind. by rewrite Hap.
Qed.

(** ** No panic when every map is present *)

Definition has_map (c : BeegfsConfig mapref) : Prop := is_Some (BeegfsClientConf c).
Definition all_maps (c : PluginConfig mapref) : Prop :=
  has_map (DefaultConfig c) ∧ Forall (λ f, has_map (Config f)) (FileSystemSpecificConfigs c).

Lemma overwrite_matching_total from to : ∀ h,
  Forall (λ f, has_map (Config f)) to →
  ∃ to' had h', overwrite_matching to from h = Done (to', had) h' ∧ Forall (λ f, has_map (Config f)) to'.
Proof.
  induction to as [|c to IH]; intros h Hall; [by exists [], false, h|].
  apply Forall_cons in Hall as [[l Hl] Hall]. cbn [overwrite_matching]. case_bool_decide.
  - destruct (overWrite_total (Config c) (Config from) h l Hl) as (c' & h1 & Hr & Hc').
    rewrite (bind_run _ _ _ _ _ Hr). destruct (IH h1 Hall) as (to' & had & h' & Hr' & Hall').
    rewrite (bind_run _ _ _ _ _ Hr'). eexists _, _, _. split; [done|]. constructor; [by exists l|done].
  - destruct (IH h Hall) as (to' & had & h' & Hr' & Hall').
    rewrite (bind_run _ _ _ _ _ Hr'). eexists _, _, _. split; [done|]. constructor; [by exists l|done].
Qed.

Lemma overwriteFS_total from : ∀ to h,
  Forall (λ f, has_map (Config f)) to → Forall (λ f, has_map (Config f)) from →
  ∃ to' h', overwriteFileSystemSpecificConfigs to from h = Done to' h' ∧ Forall (λ f, has_map (Config f)) to'.
Proof.
  unfold overwriteFileSystemSpecificConfigs.
  induction from as [|f from IH]; intros to h Hto Hfrom; [by exists to, h|].
  apply Forall_cons in Hfrom as [Hf Hfrom]. cbn [fold_m].
  destruct (overwrite_matching_total f to h Hto) as (to1 & had & h1 & Hr & Hall).
  assert ((overwrite_matching to f ≫= λ '(to', had), mret (if had : bool then to' else to' ++ [f])) h
    = Done (if had then to1 else to1 ++ [f]) h1) as Hstep by (by rewrite (bind_run _ _ _ _ _ Hr)).
  rewrite (bind_run _ _ _ _ _ Hstep). apply IH; [|done].
  destruct had; [done|]. apply Forall_app. split; [done|by constructor].
Qed.

Lemma apply_nodes_total nodeID nodes : ∀ c h,
  all_maps c → Forall (λ n, Forall (λ f, has_map (Config f)) (FileSystemSpecificConfigs (NodeConfig n))) nodes →
  ∃ c' h', fold_m (apply_node nodeID) c nodes h = Done c' h'.
Proof.
  induction nodes as [|n nodes IH]; intros c h [[l Hl] Hfs] Hnodes; [by exists c, h|].
  apply Forall_cons in Hnodes as [Hn Hnodes]. cbn [fold_m].
  assert (∃ c1 h1, apply_node nodeID c n h = Done c1 h1 ∧ all_maps c1) as (c1 & h1 & Hr & Hall).
  { unfold apply_node. destruct (applies_to nodeID n); [|eexists _, _; split; [done|by split; [exists l|]]].
    destruct (overWrite_total (DefaultConfig c) (DefaultConfig (NodeConfig n)) h l Hl) as (d & h1 & Hr & Hd).
    rewrite (bind_run _ _ _ _ _ Hr).
    destruct (overwriteFS_total _ (FileSystemSpecificConfigs c) h1 Hfs Hn) as (f & h2 & Hr2 & Hf).
    rewrite (bind_run _ _ _ _ _ Hr2). eexists _, _. split; [done|]. split; [by exists l|done]. }
  rewrite (bind_run _ _ _ _ _ Hr). by apply IH.
Qed.

(** Every beegfsClientConf that can be written to is present in the file. *)
Definition maps_present (tree : PluginConfigFromFile yaml_conf) : Prop :=
  is_Some (BeegfsClientConf (DefaultConfig (RawPluginConfig tree)))
  ∧ Forall (λ f, is_Some (BeegfsClientConf (Config f))) (FileSystemSpecificConfigs (RawPluginConfig tree))
  ∧ Forall (λ n, Forall (λ f, is_Some (BeegfsClientConf (Config f)))
      (FileSystemSpecificConfigs (NodeConfig n))) (NodeSpecificConfigs tree).

(** A configuration file in which the default, every file-system-specific
    and every node-and-file-system-specific configuration has a beegfsClientConf
    is parsed without a crash: into a configuration, or into a validation error. *)
Theorem parse_no_panic bytes nodeID h0 tree :
  UnmarshalStrict bytes = Ok tree → maps_present tree →
  parseConfigFromFile UnmarshalStrict (Ok bytes) nodeID h0 ≠ Panics.
Proof.
  intros Hy (Hd & Hf & Hn). unfold parseConfigFromFile. rewrite Hy.
  destruct (alloc_raw_ok tree h0) as (raw & h1 & Ealloc & _ & _ & _ & Hden).
  rewrite (bind_run _ _ _ _ _ Ealloc). rewrite <- (Hden h1 ltac:(done)) in Hd, Hf, Hn.
  assert (∀ r : mapref, is_Some (oref h1 r) → is_Some r) as Hr by (by intros [] []).
  cbn in Hd, Hf, Hn. rewrite Forall_fmap in Hf. rewrite Forall_fmap in Hn.
  destruct (apply_nodes_total nodeID (NodeSpecificConfigs raw) (RawPluginConfig raw) h1) as (c & h2 & Hrun).
  - split; [by apply Hr|]. eapply Forall_impl; [exact Hf|]. intros f. apply Hr.
  - eapply Forall_impl; [exact Hn|]. cbn. intros n Hfn. rewrite Forall_fmap in Hfn.
    eapply Forall_impl; [exact Hfn|]. intros f. apply Hr.
  - rewrite (bind_run _ _ _ _ _ Hrun). destruct (validateConfig c); [|done].
    destruct (stripConfig_run c h2) as (ws & h3 & Hs & _). by rewrite (bind_run _ _ _ _ _ Hs).
Qed.
End Properties.

(** ** Validation *)

Lemma first_bad_none {A} (ok : A → bool) l : first_bad ok l = None ↔ Forall (λ x, ok x = true) l.
Proof.
  induction l as [|x l IH]; cbn; [by split|]. rewrite Forall_cons. destruct (ok x) eqn:E.
  - rewrite IH. naive_solver.
  - naive_solver.
Qed.

(** What the configuration may hold: hosts that are localhost, IP addresses or
    in the language of the domain pattern, ports between 1 and 65535, filters
    that are addresses or prefixes. *)
Definition host_ok (s : string) : Prop :=
  s = "localhost" ∨ is_Some (ParseIP s) ∨ in_lang domainRegex s.
Definition port_ok (p : string) : Prop :=
  p = EmptyString ∨ ∃ n, Atoi p = inl n ∧ (1 ≤ n ≤ 65535)%Z.
Definition filter_ok (s : string) : Prop := ParseCIDR s = true ∨ is_Some (ParseIP s).
Definition settings_ok (c : BeegfsConfig mapref) : Prop :=
  port_ok (GrpcPort c) ∧ Forall filter_ok (ConnNetFilter c) ∧ Forall filter_ok (ConnTcpOnlyFilter c).

Lemma valid_host_spec s : valid_host s = true ↔ host_ok s.
Proof.
  unfold valid_host, host_ok, match_full.
  rewrite !orb_true_iff, !bool_decide_eq_true, matches_spec. tauto.
Qed.

Lemma valid_GrpcPort_spec p : valid_GrpcPort p = true ↔ port_ok p.
Proof.
  unfold valid_GrpcPort, port_ok. rewrite orb_true_iff, bool_decide_eq_true.
  destruct (Atoi p) as [n|e]; [|naive_solver].
  rewrite andb_true_iff, !Z.leb_le. naive_solver.
Qed.

Lemma valid_filter_spec s : valid_filter s = true ↔ filter_ok s.
Proof. unfold valid_filter, filter_ok. by rewrite orb_true_iff, bool_decide_eq_true. Qed.

Lemma first_bad_filter l : first_bad valid_filter l = None ↔ Forall filter_ok l.
Proof. rewrite first_bad_none. apply Forall_iff, valid_filter_spec. Qed.

Lemma validate_configs_spec l : validate_configs l = Ok tt ↔ Forall settings_ok l.
Proof.
  induction l as [|c l IH]; cbn [validate_configs]; [by split|].
  rewrite Forall_cons. unfold settings_ok at 1.
  rewrite <- valid_GrpcPort_spec, <- !first_bad_filter.
  destruct (valid_GrpcPort (GrpcPort c)); cbn [negb]; [|naive_solver].
  destruct (first_bad valid_filter (ConnNetFilter c)); [naive_solver|].
  destruct (first_bad valid_filter (ConnTcpOnlyFilter c)); [naive_solver|].
  rewrite IH. naive_solver.
Qed.

(** C39: validation accepts a configuration exactly when every file system's
    host is localhost, an IP address or matches the domain pattern, and every
    gRPC port and connection filter is well formed. *)
Theorem validateConfig_spec (c : PluginConfig mapref) :
  validateConfig c = Ok tt ↔
  Forall (λ f, host_ok (SysMgmtdHost f)) (FileSystemSpecificConfigs c)
  ∧ settings_ok (DefaultConfig c) ∧ Forall (λ f, settings_ok (Config f)) (FileSystemSpecificConfigs c).
Proof.
  unfold validateConfig. destruct (first_bad _ _) as [f|] eqn:E.
  - split; [done|]. intros [H _]. exfalso.
    assert (first_bad (λ c, valid_host (SysMgmtdHost c)) (FileSystemSpecificConfigs c) = None) as Hn.
    { apply first_bad_none. eapply Forall_impl; [exact H|]. intros x. apply valid_host_spec. }
    congruence.
  - apply first_bad_none in E. rewrite validate_configs_spec, Forall_cons, Forall_fmap.
    split; [|tauto]. intros H. split; [|exact H].
    eapply Forall_impl; [exact E|]. intros x. apply valid_host_spec.
Qed.

Lemma in_lang_cat_inv r t s : in_lang (Cat r t) s → ∃ a b, s = a +:+ b ∧ in_lang r a ∧ in_lang t b.
Proof. intros H. inversion H; subst. eauto. Qed.

(** Every name the domain pattern accepts has a dot. *)
Lemma domainRegex_dot s : in_lang domainRegex s → Contains s "." = true.
Proof.
  assert (∀ a b, Contains b "." = true → Contains (a +:+ b) "." = true) as Hr.
  { intros a b (x & y & ->)%Contains_spec. apply Contains_spec. exists (a +:+ x), y. by rewrite append_assoc. }
  assert (∀ a b, Contains a "." = true → Contains (a +:+ b) "." = true) as Hl.
  { intros a b (x & y & ->)%Contains_spec. apply Contains_spec. exists x, (y +:+ b).
    by rewrite !append_assoc. }
  assert (∀ t, in_lang (lit ".") t → Contains t "." = true) as Hdot.
  { intros t (a & b & -> & Ha & Hb)%in_lang_cat_inv. inversion Ha as [|p c Hc| | | | |]; subst.
    bools. subst c. inversion Hb. reflexivity. }
  intros (a & b & -> & (x & y & -> & Hx & _)%in_lang_cat_inv & _)%in_lang_cat_inv.
  apply Hl, Hl. inversion Hx as [| | |? ? ? H|? ? ? H| |]; subst.
  - apply in_lang_cat_inv in H as (? & ? & -> & _ & (? & ? & -> & _ & (? & ? & -> & _ & H)%in_lang_cat_inv)%in_lang_cat_inv).
    auto.
  - apply in_lang_cat_inv in H as (? & ? & -> & _ & H). auto.
Qed.

(** The comment on the check says a host may be a domain name, but a file
    system whose host name has no dot (other than localhost) is rejected. *)
Theorem undotted_host_rejected (d : BeegfsConfig mapref) host c rest :
  Contains host "." = false → host ≠ "localhost" → ParseIP host = None →
  validateConfig (mkPluginConfig d (mkFS host c :: rest)) = Err (ErrMsg ("invalid SysMgmtdHost " +:+ host)).
Proof.
  intros Hdot Hl Hip. unfold validateConfig. cbn [first_bad FileSystemSpecificConfigs SysMgmtdHost].
  assert (valid_host host = false) as ->; [|done].
  apply not_true_iff_false. rewrite valid_host_spec. intros [?|[Hs|Hin]];
    [done|rewrite Hip in Hs; by destruct Hs|].
  apply domainRegex_dot in Hin. congruence.
Qed.

(** ** Secrets *)

Inductive secret := AuthSecret | CertSecret.

#[export] Instance secret_eq_dec : EqDecision secret.
Proof. solve_decision. Defined.

Definition get_secret (k : secret) {N} (c : BeegfsConfig N) : string :=
  match k with AuthSecret => ConnAuth c | CertSecret => TLSCert c end.
Definition set_secret (k : secret) (s : string) {N} (c : BeegfsConfig N) : BeegfsConfig N :=
  match k with AuthSecret => set_ConnAuth s c | CertSecret => set_TLSCert s c end.

Lemma get_set_secret {N} k k' s (c : BeegfsConfig N) :
  get_secret k (set_secret k' s c) = if bool_decide (k = k') then s else get_secret k c.
Proof. by destruct k, k'. Qed.
Lemma get_compose_cons k c l : get_secret k (compose (c :: l)) = or_str (get_secret k (compose l)) (get_secret k c).
Proof. rewrite compose_cons. by destruct k. Qed.

Abbreviation fs_list := (list (FileSystemSpecificConfig mapref)).

Fixpoint first_secret (k : secret) (host : string) (l : fs_list) : string :=
  match l with
  | [] => EmptyString
  | c :: r => if bool_decide (host = SysMgmtdHost c) then get_secret k (Config c) else first_secret k host r
  end.

(** Of the entries of one host, only the first has a secret. *)
Fixpoint first_only (k : secret) (l : fs_list) : Prop :=
  match l with
  | [] => True
  | c :: r => first_secret k (SysMgmtdHost c) r = EmptyString ∧ first_only k r
  end.

Lemma first_secret_compose k host h l :
  first_only k l → get_secret k (compose (host_layers host (fden h l))) = first_secret k host l.
Proof.
  induction l as [|c l IH]; [by destruct k|]. intros [Hc Hl]. unfold host_layers in *.
  cbn [fden fmap list_fmap first_secret]. rewrite filter_cons.
  change (SysMgmtdHost (fs_map (deref h) c)) with (SysMgmtdHost c).
  case_decide as Hh; case_bool_decide; try done; [|by apply IH].
  cbn [fmap list_fmap]. rewrite get_compose_cons. rewrite <- Hh in Hc.
  etransitivity; [apply (f_equal (λ x, or_str x _)), IH, Hl|]. rewrite Hc. by destruct k.
Qed.

Lemma first_secret_set k k' host s c h' :
  first_secret k h' (FileSystemSpecificConfigs (set_or_append host (set_secret k' s) c))
  = if bool_decide (k = k') && bool_decide (h' = host) then s else first_secret k h' (FileSystemSpecificConfigs c).
Proof.
  unfold set_or_append. cbn. induction (FileSystemSpecificConfigs c) as [|x l IH]; cbn.
  - rewrite get_set_secret. repeat (case_bool_decide; cbn [andb]); try congruence. by destruct k.
  - destruct (bool_decide (host = SysMgmtdHost x)) eqn:Hh; bools; cbn.
    + subst host. rewrite get_set_secret. repeat (case_bool_decide; cbn [andb]); congruence.
    + destruct (set_first host (set_secret k' s) l) as [l'|]; cbn in *; rewrite IH;
        repeat (case_bool_decide; cbn [andb]); congruence.
Qed.

Lemma first_only_set k k' host s c :
  first_only k (FileSystemSpecificConfigs c) →
  first_only k (FileSystemSpecificConfigs (set_or_append host (set_secret k' s) c)).
Proof.
  unfold set_or_append. cbn. induction (FileSystemSpecificConfigs c) as [|x l IH]; [done|].
  cbn. intros [Hx Hl]. specialize (IH Hl). case_bool_decide as Hh; cbn; [done|].
  pose proof (first_secret_set k k' host s (mkPluginConfig (DefaultConfig c) l) (SysMgmtdHost x)) as Hs.
  unfold set_or_append in Hs. cbn in Hs. rewrite (bool_decide_eq_false_2 (_ = host)), andb_false_r in Hs by congruence.
  destruct (set_first host (set_secret k' s) l) as [l'|]; cbn in *; by rewrite Hs.
Qed.

(** Erasing the secrets from a layer. *)
Definition erase (c : layer) : layer := set_TLSCert EmptyString (set_ConnAuth EmptyString c).

Lemma erase_compose l : erase (compose l) = compose (erase <$> l).
Proof.
  induction l as [|a l IH]; [done|]. cbn [fmap list_fmap]. rewrite !compose_cons, <- IH. unfold erase, set_ConnAuth, overwrite. done.
Qed.
Lemma erase_set_secret h k s c : erase (conf_map (deref h) (set_secret k s c)) = erase (conf_map (deref h) c).
Proof. by destruct k. Qed.

Lemma erase_set h k host s c host' :
  erase (squash host' (pden h (set_or_append host (set_secret k s) c))) = erase (squash host' (pden h c)).
Proof.
  unfold squash. rewrite !erase_compose. cbn [pden plugin_map set_or_append DefaultConfig FileSystemSpecificConfigs fmap list_fmap].
  rewrite !compose_cons. f_equal. fold fden.
  unfold host_layers. induction (FileSystemSpecificConfigs c) as [|x l IH].
  - cbn [set_first fmap list_fmap app]. rewrite filter_cons. case_decide; [|done]. cbn [fmap list_fmap].
    cbn [Config fs_map]. rewrite erase_set_secret, compose_cons. cbn. by rewrite overwrite_nil_r.
  - cbn [set_first]. case_bool_decide as Hh.
    + cbn [fmap list_fmap]. rewrite !filter_cons. cbn [fs_map SysMgmtdHost]. case_decide; [|done].
      cbn [fmap list_fmap Config fs_map]. by rewrite erase_set_secret.
    + destruct (set_first host (set_secret k s) l) as [l'|]; cbn [fmap list_fmap option_fmap option_map app] in *;
        rewrite !filter_cons; case_decide; [|done| |done]; cbn [fmap list_fmap]; by rewrite !compose_cons, IH.
Qed.

(** Secrets that files give to hosts, set one after the other. *)
Abbreviation secret_entry := (secret * string * string)%type.
Definition set_secrets (es : list secret_entry) (c : PluginConfig mapref) : PluginConfig mapref :=
  foldl (λ c e, set_or_append e.1.2 (set_secret e.1.1 e.2) c) c es.
(** The secret a host ends up with: that of its last entry. *)
Definition last_secret (k : secret) (host : string) (es : list secret_entry) : option string :=
  last ((filter (λ e, e.1 = (k, host)) es).*2).

Lemma last_secret_cons k host e es :
  last_secret k host (e :: es)
  = match last_secret k host es with Some s => Some s | None => if bool_decide (e.1 = (k, host)) then Some e.2 else None end.
Proof.
  unfold last_secret. rewrite filter_cons. case_decide; case_bool_decide; try done; [|by destruct (last _)].
  cbn [fmap list_fmap]. by rewrite last_cons.
Qed.

(** A configuration without secrets. *)
Definition no_secret {N} (c : PluginConfig N) : Prop :=
  ∀ k, get_secret k (DefaultConfig c) = EmptyString
    ∧ Forall (λ f, get_secret k (Config f) = EmptyString) (FileSystemSpecificConfigs c).

Lemma set_secrets_squash es : ∀ c h k host,
  first_only k (FileSystemSpecificConfigs c) →
  DefaultConfig (set_secrets es c) = DefaultConfig c ∧ first_only k (FileSystemSpecificConfigs (set_secrets es c))
  ∧ first_secret k host (FileSystemSpecificConfigs (set_secrets es c))
    = default (first_secret k host (FileSystemSpecificConfigs c)) (last_secret k host es)
  ∧ erase (squash host (pden h (set_secrets es c))) = erase (squash host (pden h c)).
Proof.
  induction es as [|[[k' h'] s] es IH]; intros c h k host Hf; [done|]. unfold set_secrets. cbn [foldl fst snd].
  fold (set_secrets es (set_or_append h' (set_secret k' s) c)).
  destruct (IH (set_or_append h' (set_secret k' s) c) h k host) as (H1 & H2 & H3 & H4); [by apply first_only_set|].
  split_and!; [done|done| |by rewrite H4, erase_set]. rewrite H3, last_secret_cons, first_secret_set. cbn [fst snd].
  destruct (last_secret k host es); [done|]. cbn [default].
  repeat (case_bool_decide; cbn [andb]); simplify_eq; try done; naive_solver.
Qed.

Lemma no_secret_first k c :
  no_secret c → first_only k (FileSystemSpecificConfigs c) ∧ ∀ x, first_secret k x (FileSystemSpecificConfigs c) = EmptyString.
Proof.
  intros Hn. destruct (Hn k) as [_ Hall]. induction Hall as [|f l Hf _ [IH1 IH2]]; [done|].
  cbn. split; [done|]. intros x. by case_bool_decide.
Qed.

(** What a file system gets from a configuration without secrets to which the
    secrets were added. *)
Lemma secrets_reach_hosts es c h host :
  no_secret c →
  squash host (pden h (set_secrets es c))
  = set_TLSCert (default EmptyString (last_secret CertSecret host es))
      (set_ConnAuth (default EmptyString (last_secret AuthSecret host es)) (squash host (pden h c))).
Proof.
  intros Hn. assert (∀ k, get_secret k (squash host (pden h (set_secrets es c)))
    = default EmptyString (last_secret k host es)) as Hget.
  { intros k. destruct (no_secret_first k c Hn) as [Hf Hfs]. destruct (Hn k) as [Hd _].
    destruct (set_secrets_squash es c h k host Hf) as (H1 & H2 & H3 & _).
    unfold squash. rewrite get_compose_cons.
    change (FileSystemSpecificConfigs (pden h (set_secrets es c))) with (fden h (FileSystemSpecificConfigs (set_secrets es c))).
    rewrite first_secret_compose, H3, Hfs by done. unfold or_str. case_bool_decide; [|done].
    change (DefaultConfig (pden h (set_secrets es c))) with (conf_map (deref h) (DefaultConfig (set_secrets es c))).
    rewrite H1. transitivity (get_secret k (DefaultConfig c)); [by destruct k|]. congruence. }
  destruct (no_secret_first AuthSecret c Hn) as [Hf _].
  destruct (set_secrets_squash es c h AuthSecret host Hf) as (_ & _ & _ & He).
  rewrite <- (Hget CertSecret), <- (Hget AuthSecret). cbn [get_secret]. revert He.
  generalize (squash host (pden h (set_secrets es c))) as x, (squash host (pden h c)) as y. intros [] [].
  unfold erase, set_TLSCert, set_ConnAuth. cbn. by intros [= -> -> -> -> -> ->].
Qed.

(** The secret a connAuth file holds for a host, and the certificate of a
    tlsCerts file: those of the last entry. *)
Fixpoint file_secret (host : string) (l : list ConnAuthConfig) : option string :=
  match l with
  | [] => None
  | a :: r =>
      match file_secret host r with
      | Some s => Some s
      | None =>
          if bool_decide (host = ca_SysMgmtdHost a)
          then match decode_ConnAuth a with Ok s => Some s | Err _ => None end else None
      end
  end.
Definition file_cert (host : string) (l : list TLSCertConfig) : option string :=
  last ((λ t, tls_TLSCert t +:+ newline) <$> filter (λ t, tls_SysMgmtdHost t = host) l).

(** The entries of the two files. *)
Lemma apply_ConnAuths_entries auths : ∀ c c',
  apply_ConnAuths auths c = Ok c' →
  ∃ es, c' = set_secrets es c ∧ (∀ host, last_secret AuthSecret host es = file_secret host auths)
    ∧ Forall (λ e, e.1.1 = AuthSecret) es.
Proof.
  induction auths as [|a auths IH]; intros c c' Hrun; cbn [apply_ConnAuths] in Hrun.
  { injection Hrun as <-. exists []. by split_and!. }
  destruct (decode_ConnAuth a) as [s|] eqn:Hd; [|done]. cbn in Hrun. apply IH in Hrun as (es & -> & Hl & Hall).
  exists ((AuthSecret, ca_SysMgmtdHost a, s) :: es). split_and!; [done| |by constructor].
  intros host. rewrite last_secret_cons, Hl. cbn [file_secret fst snd]. rewrite Hd.
  destruct (file_secret host auths); [done|]. repeat case_bool_decide; naive_solver.
Qed.
Lemma tlsCerts_entries certs c :
  ∃ es, foldl (λ c t, set_or_append (tls_SysMgmtdHost t) (set_TLSCert (tls_TLSCert t +:+ newline)) c) c certs
      = set_secrets es c ∧ (∀ host, last_secret CertSecret host es = file_cert host certs)
    ∧ Forall (λ e, e.1.1 = CertSecret) es.
Proof.
  exists ((λ t, (CertSecret, tls_SysMgmtdHost t, tls_TLSCert t +:+ newline)) <$> certs). split_and!.
  - revert c. induction certs as [|t certs IH]; intros c; [done|]. cbn [foldl fmap list_fmap]. apply IH.
  - intros host. unfold last_secret, file_cert. f_equal. induction certs as [|t certs IH]; [done|].
    cbn [fmap list_fmap]. rewrite !filter_cons. cbn [fst]. repeat case_decide; try congruence;
      cbn [fmap list_fmap snd]; by f_equal.
  - apply Forall_fmap, Forall_true. done.
Qed.

Lemma last_secret_app k host es es' :
  last_secret k host (es ++ es') = match last_secret k host es' with Some s => Some s | None => last_secret k host es end.
Proof. unfold last_secret. rewrite filter_app, fmap_app, last_app. done. Qed.
Lemma last_secret_other k k' host es : k ≠ k' → Forall (λ e, e.1.1 = k') es → last_secret k host es = None.
Proof.
  intros Hk Hall. unfold last_secret. induction Hall as [|[[a b] s] es E _ IH]; [done|]. cbn in E. subst.
  rewrite filter_cons_False by naive_solver. done.
Qed.

(** A connAuth file gives each management host the secret of its last entry in
    the file (raw with a newline, or base64-decoded), a tlsCerts file that host's
    last certificate with a newline; a host that a file does not name gets nothing
    from it, and no other setting of any host changes. *)
Lemma secrets_squash auths certs c c' h host :
  no_secret c → apply_ConnAuths auths c = Ok c' →
  squash host (pden h (foldl (λ c t, set_or_append (tls_SysMgmtdHost t) (set_TLSCert (tls_TLSCert t +:+ newline)) c) c' certs))
  = set_TLSCert (default EmptyString (file_cert host certs))
      (set_ConnAuth (default EmptyString (file_secret host auths)) (squash host (pden h c))).
Proof.
  intros Hn (es & -> & Hl & Hall)%apply_ConnAuths_entries.
  destruct (tlsCerts_entries certs (set_secrets es c)) as (es' & -> & Hl' & Hall').
  assert (set_secrets es' (set_secrets es c) = set_secrets (es ++ es') c) as -> by (unfold set_secrets; by rewrite foldl_app).
  rewrite secrets_reach_hosts by done. rewrite !last_secret_app, Hl', Hl.
  rewrite (last_secret_other AuthSecret CertSecret) by done. rewrite (last_secret_other CertSecret AuthSecret) by done.
  by destruct (file_cert host certs).
Qed.

(** ** Examples *)

Module Example.

Definition conf (m : yaml_conf) : BeegfsConfig yaml_conf :=
  mkBeegfsConfig EmptyString ["ib0"] [] [] [] EmptyString EmptyString m.
(** A file with a default, a file system and a configuration for node1. *)
Definition tree : PluginConfigFromFile yaml_conf :=
  mkFromFile
    (mkPluginConfig (conf (Some {["logLevel" := "3"; "connPortShift" := "1"]}))
       [mkFS "127.0.0.1" (conf (Some {["logLevel" := "4"]}))])
    [mkNode ["node1"] (mkPluginConfig (conf (Some {["quotaEnabled" := "true"]}))
       [mkFS "127.0.0.1" (conf (Some {["logLevel" := "5"]}))])].
(** The same default without a beegfsClientConf. *)
Definition nil_tree : PluginConfigFromFile yaml_conf :=
  mkFromFile (mkPluginConfig (conf None) [])
    [mkNode ["node1"] (mkPluginConfig (conf (Some {["quotaEnabled" := "true"]})) [])].

(** The outcome of parsing [tree] on node1. *)
Definition parsed : PluginConfig mapref * heap :=
  match parseConfigFromFile (RO := list_order) (λ _, Ok tree) (Ok "file") "node1" ∅ with
  | Done c h => (c, h)
  | _ => (mkPluginConfig zero_config [], ∅)
  end.

Lemma parse_squash_layers_witness :
  ∃ c h', squashConfigForSysMgmtdHost (RO := list_order) "127.0.0.1" parsed.1 parsed.2 = Done c h'
  ∧ den h' c = conf_map strip (compose (layers_for "node1" "127.0.0.1" tree))
  ∧ pden h' parsed.1 = pden parsed.2 parsed.1
  ∧ (compatible (compose (node_defaults "node1" tree)) (compose (fs_entries "127.0.0.1" tree)) →
     den h' c = conf_map strip (compose (documented_layers "node1" "127.0.0.1" tree))).
Proof.
  apply (parse_squash_layers (RO := list_order) (λ _, Ok tree) "file" "node1" "127.0.0.1" ∅ _ _ tree eq_refl).
  vm_compute. reflexivity.
Defined.

(** A node's default that the documentation lets win over a file system's entry,
    and the code does not. *)
Definition conflicting : PluginConfigFromFile yaml_conf :=
  mkFromFile (mkPluginConfig (conf (Some ∅)) [mkFS "127.0.0.1" (conf (Some {["logLevel" := "4"]}))])
    [mkNode ["node1"] (mkPluginConfig (conf (Some {["logLevel" := "5"]})) [])].
Lemma documented_precedence_differs :
  BeegfsClientConf (compose (layers_for "node1" "127.0.0.1" conflicting)) !! "logLevel" = Some "4"
  ∧ BeegfsClientConf (compose (documented_layers "node1" "127.0.0.1" conflicting)) !! "logLevel" = Some "5".
Proof. by vm_compute. Qed.

Lemma parse_panics_witness :
  parseConfigFromFile (RO := list_order) (λ _, Ok nil_tree) (Ok "file") "node1" ∅ = Panics.
Proof.
  eapply (parse_panics_without_default_conf (RO := list_order) (λ _, Ok nil_tree) "file" "node1" ∅);
    [reflexivity|reflexivity|by left|reflexivity|]. apply insert_non_empty.
Defined.

Lemma parse_no_panic_witness :
  parseConfigFromFile (RO := reverse_order) (λ _, Ok tree) (Ok "file") "node2" ∅ ≠ Panics.
Proof.
  apply (parse_no_panic (RO := reverse_order) (λ _, Ok tree) "file" "node2" ∅ tree eq_refl).
  split_and!; repeat constructor; eexists; reflexivity.
Defined.

Lemma undotted_host_rejected_witness :
  validateConfig (mkPluginConfig zero_config [mkFS "mgmtd" zero_config])
  = Err (ErrMsg "invalid SysMgmtdHost mgmtd").
Proof. apply (undotted_host_rejected zero_config "mgmtd" zero_config []); [reflexivity|done|reflexivity]. Defined.

Definition auths : list ConnAuthConfig :=
  [mkConnAuthConfig "127.0.0.1" "old" "raw"; mkConnAuthConfig "127.0.0.1" "c2VjcmV0" "base64"].
End Example.
