(* ===== verification/Prog.v ===== *)
(** * Prog: programs with effects

    Go code that talks to the operating system, to the mount tables or to
    shared state is modelled by a tree: at each node the program performs an
    event and goes on with the response. The development reasons about all the
    ways such a program can run ([exec], [wlp]), and evaluates it against a
    concrete environment ([run]). *)
From S2P Require Import Prelude.

Section Prog.
Context {E : Type} {R : E → Type}.

Inductive prog (A : Type) : Type :=
  | Ret (a : A)
  | Vis (e : E) (k : R e → prog A)
  | Panic (msg : string)
  | OutOfFuel.
Arguments Ret {A}.
Arguments Vis {A}.
Arguments Panic {A}.
Arguments OutOfFuel {A}.

#[global] Instance prog_ret : MRet prog := λ A a, Ret a.
Fixpoint prog_bind_ {A B} (f : A → prog B) (p : prog A) : prog B :=
  match p with
  | Ret a => f a
  | Vis e k => Vis e (λ r, prog_bind_ f (k r))
  | Panic m => Panic m
  | OutOfFuel => OutOfFuel
  end.
#[global] Instance prog_bind : MBind prog := λ A B f p, prog_bind_ f p.

Lemma ret_bind {A B} (a : A) (k : A → prog B) : (x ← mret a; k x) = k a.
Proof. reflexivity. Qed.

Definition trigger (e : E) : prog (R e) := Vis e Ret.

(** ** Runs *)

Inductive ending (A : Type) :=
  | Returned (a : A)
  | Panicked (msg : string)
  | Unfinished.
Arguments Returned {A}.
Arguments Panicked {A}.
Arguments Unfinished {A}.

(** A trace: the events, each with its response. *)
Definition trace : Type := list (sigT R).

Definition did (e : E) (tr : trace) : Prop := ∃ r, existT e r ∈ tr.
Definition got (e : E) (r : R e) (tr : trace) : Prop := existT e r ∈ tr.

Fixpoint exec {A} (p : prog A) (tr : trace) (o : ending A) : Prop :=
  match p with
  | Ret a => tr = [] ∧ o = Returned a
  | Vis e k => ∃ r tr', tr = existT e r :: tr' ∧ exec (k r) tr' o
  | Panic m => tr = [] ∧ o = Panicked m
  | OutOfFuel => tr = [] ∧ o = Unfinished
  end.

(** [Q] holds of every run of [p], whatever the responses. *)
Definition wlp {A} (p : prog A) (Q : trace → ending A → Prop) : Prop := ∀ tr o, exec p tr o → Q tr o.

Lemma wlp_ret {A} (a : A) Q : Q [] (Returned a) → wlp (Ret a) Q.
Proof. intros H tr o [-> ->]. exact H. Qed.

Lemma wlp_vis {A} e (k : R e → prog A) Q :
  (∀ r, wlp (k r) (λ tr o, Q (existT e r :: tr) o)) → wlp (Vis e k) Q.
Proof. intros H tr o (r & tr' & -> & Hx). by apply H. Qed.

Lemma wlp_mono {A} (p : prog A) (Q Q' : trace → ending A → Prop) :
  wlp p Q → (∀ tr o, Q tr o → Q' tr o) → wlp p Q'.
Proof. intros H HQ tr o Hx. apply HQ, H, Hx. Qed.

Definition ending_map {A B} (o : ending A) : ending B :=
  match o with Returned _ => Unfinished | Panicked m => Panicked m | Unfinished => Unfinished end.

Lemma wlp_bind {A B} (p : prog A) (f : A → prog B) Q :
  wlp p (λ tr o, match o with
                 | Returned a => wlp (f a) (λ tr' o', Q (tr ++ tr') o')
                 | _ => Q tr (ending_map o)
                 end) →
  wlp (p ≫= f) Q.
Proof.
  revert Q. induction p as [a|e k IH|m|]; intros Q H.
  - exact (H [] (Returned a) (conj eq_refl eq_refl)).
  - apply wlp_vis. intros r. apply IH. intros tr o Hx.
    specialize (H (existT e r :: tr) o (ex_intro _ r (ex_intro _ tr (conj eq_refl Hx)))). by destruct o.
  - intros tr o [-> ->]. exact (H [] (Panicked m) (conj eq_refl eq_refl)).
  - intros tr o [-> ->]. exact (H [] Unfinished (conj eq_refl eq_refl)).
Qed.

Lemma exec_bind {A B} (p : prog A) (f : A → prog B) tr1 tr2 a o :
  exec p tr1 (Returned a) → exec (f a) tr2 o → exec (p ≫= f) (tr1 ++ tr2) o.
Proof.
  revert tr1. induction p as [b|e k IH|m|]; intros tr1 H1 H2; cbn in H1.
  - by destruct H1 as [-> [= ->]].
  - destruct H1 as (r & tr' & -> & H1). cbn. exists r, (tr' ++ tr2). split; [done|]. by apply IH.
  - by destruct H1.
  - by destruct H1.
Qed.

(** ** Events that may occur *)

Fixpoint always {A} (P : E → Prop) (p : prog A) : Prop :=
  match p with
  | Vis e k => P e ∧ ∀ r, always P (k r)
  | _ => True
  end.

Lemma always_bind {A B} P (p : prog A) (f : A → prog B) :
  always P p → (∀ a, always P (f a)) → always P (p ≫= f).
Proof.
  intros Hp Hf. induction p as [a|e k IH|m|]; cbn in *; [apply Hf| |done..].
  destruct Hp as [He Hk]. split; [done|]. intros r. by apply IH.
Qed.

Lemma always_mono {A} (P Q : E → Prop) (p : prog A) : (∀ e, P e → Q e) → always P p → always Q p.
Proof.
  intros HPQ. induction p as [a|e k IH|m|]; [done| |done..]. intros [He Hk].
  split; [auto|]. intros r. by apply IH.
Qed.

Lemma always_exec {A} P (p : prog A) tr o : always P p → exec p tr o → Forall (λ s, P (projT1 s)) tr.
Proof.
  revert tr. induction p as [a|e k IH|m|]; intros tr Hp Hx; cbn in *; try (destruct Hx as [-> _]; constructor).
  destruct Hx as (r & tr' & -> & Hx). destruct Hp as [He Hk]. constructor; [done|]. by eapply IH.
Qed.

(** ** Programs that return *)

(** Whatever the responses, [p] returns. *)
Fixpoint total {A} (p : prog A) : Prop :=
  match p with
  | Ret _ => True
  | Vis e k => ∀ r, total (k r)
  | Panic _ | OutOfFuel => False
  end.

Lemma total_bind {A B} (p : prog A) (f : A → prog B) : total p → (∀ a, total (f a)) → total (p ≫= f).
Proof.
  intros Hp Hf. induction p as [a|e k IH|m|]; cbn in *; [apply Hf| |done..]. intros r. by apply IH.
Qed.

(** Only the values that [p] can return matter to what follows it. *)
Lemma total_bind_ret {A B} (p : prog A) (f : A → prog B) :
  total p → (∀ tr a, exec p tr (Returned a) → total (f a)) → total (p ≫= f).
Proof.
  induction p as [a|e k IH|m|]; intros Hp Hf; cbn in *; [by apply (Hf [] a)| |done..].
  intros r. apply IH; [done|]. intros tr a Hx. apply (Hf (existT e r :: tr)). eauto.
Qed.

Lemma total_exec {A} (p : prog A) tr o : total p → exec p tr o → ∃ a, o = Returned a.
Proof.
  revert tr. induction p as [a|e k IH|m|]; intros tr Hp Hx; cbn in *; [|destruct Hx as (r & tr' & -> & Hx)|done..].
  - destruct Hx as [_ ->]. by exists a.
  - by eapply IH.
Qed.

(** ** Running in an environment *)

Fixpoint run {W A} (h : ∀ e, W → R e * W) (p : prog A) (w : W) : trace * ending A * W :=
  match p with
  | Ret a => ([], Returned a, w)
  | Vis e k =>
      let '(r, w') := h e w in
      let '(tr, o, w'') := run h (k r) w' in
      (existT e r :: tr, o, w'')
  | Panic m => ([], Panicked m, w)
  | OutOfFuel => ([], Unfinished, w)
  end.

Lemma run_exec {W A} h (p : prog A) (w : W) : exec p (run h p w).1.1 (run h p w).1.2.
Proof.
  revert w. induction p as [a|e k IH|m|]; intros w; cbn; [done| |done..].
  destruct (h e w) as [r w']. specialize (IH r w'). destruct (run h (k r) w') as [[tr o] w2]. cbn in *. eauto.
Qed.

Lemma run_bind {W A B} h (p : prog A) (f : A → prog B) (w : W) tr a w' :
  run h p w = (tr, Returned a, w') →
  run h (p ≫= f) w = (tr ++ (run h (f a) w').1.1, (run h (f a) w').1.2, (run h (f a) w').2).
Proof.
  revert w tr. induction p as [b|e k IH|m|]; intros w tr Hrun; cbn in *; [| |done..].
  - injection Hrun as <- <- <-. by destruct (run h (f b) w) as [[]].
  - destruct (h e w) as [r w1]. destruct (run h (k r) w1) as [[tr1 o1] w2] eqn:Hk.
    injection Hrun as <- -> ->. unfold mbind, prog_bind in IH. by rewrite (IH _ _ _ Hk).
Qed.
End Prog.

Arguments prog : clear implicits.
Arguments Ret {E R A}.
Arguments Vis {E R A}.
Arguments Panic {E R A}.
Arguments OutOfFuel {E R A}.
Arguments Returned {A}.
Arguments Panicked {A}.
Arguments Unfinished {A}.
Arguments trace {E} R.

(** ** Stepping through programs *)

Lemma wlp_mret {E} {R : E → Type} {A} (a : A) (Q : trace R → ending A → Prop) :
  Q [] (Returned a) → wlp (mret a : prog E R A) Q.
Proof. apply wlp_ret. Qed.

Lemma wlp_ret_bind {E} {R : E → Type} {A B} (a : A) (f : A → prog E R B) Q :
  wlp (f a) Q → wlp ((mret a : prog E R A) ≫= f) Q.
Proof. done. Qed.

Lemma always_mret {E} {R : E → Type} {A} P (a : A) : always P (mret a : prog E R A).
Proof. done. Qed.

(** A run of [p ≫= f] is a run of [p] that did not return, or runs of both. *)
Lemma exec_bind_inv {E} {R : E → Type} {A B} (p : prog E R A) (f : A → prog E R B) tr o :
  exec (p ≫= f) tr o →
  (∃ tr1 tr2 a, tr = tr1 ++ tr2 ∧ exec p tr1 (Returned a) ∧ exec (f a) tr2 o)
  ∨ (∃ o', exec p tr o' ∧ (∀ a, o' ≠ Returned a) ∧ o = ending_map o').
Proof.
  revert tr o. change (wlp (p ≫= f) (λ tr o,
    (∃ tr1 tr2 a, tr = tr1 ++ tr2 ∧ exec p tr1 (Returned a) ∧ exec (f a) tr2 o)
    ∨ (∃ o', exec p tr o' ∧ (∀ a, o' ≠ Returned a) ∧ o = ending_map o'))).
  apply wlp_bind. intros tr o Hx. destruct o as [a|m|].
  - intros tr' o' Hx'. left. by exists tr, tr', a.
  - right. by exists (Panicked m).
  - right. by exists Unfinished.
Qed.

Lemma exec_bind_returned {E} {R : E → Type} {A B} (p : prog E R A) (f : A → prog E R B) tr b :
  exec (p ≫= f) tr (Returned b) →
  ∃ tr1 tr2 a, tr = tr1 ++ tr2 ∧ exec p tr1 (Returned a) ∧ exec (f a) tr2 (Returned b).
Proof.
  intros [H|(o & _ & Hn & E')]%exec_bind_inv; [done|]. destruct o; [by destruct (Hn a)|done..].
Qed.

(** Only the values that [p] can return matter to what follows it. *)
Lemma always_bind_ret {E} {R : E → Type} {A B} P (p : prog E R A) (f : A → prog E R B) :
  always P p → (∀ tr a, exec p tr (Returned a) → always P (f a)) → always P (p ≫= f).
Proof.
  induction p as [a|e k IH|m|]; intros Hp Hf; cbn in *; [|destruct Hp as [He Hk]|done..].
  - by apply (Hf [] a).
  - split; [done|]. intros r. apply IH; [done|]. intros tr a Hx. apply (Hf (existT e r :: tr)). eauto.
Qed.

(** ** What a trace contains *)

Section Traces.
Context {E : Type} {R : E → Type}.
Implicit Types tr : trace R.

Lemma did_cons e s tr : did e (s :: tr) ↔ e = projT1 s ∨ did e tr.
Proof.
  unfold did. setoid_rewrite elem_of_cons. split.
  - intros (r & [<-|H]); [by left|right; eauto].
  - intros [->|[r H]]; [|eauto]. destruct s as [e r]. exists r. by left.
Qed.
Lemma did_nil e : ¬ did e ([] : trace R).
Proof. intros (r & []%elem_of_nil). Qed.
Lemma did_app e tr1 tr2 : did e (tr1 ++ tr2) ↔ did e tr1 ∨ did e tr2.
Proof. unfold did. setoid_rewrite elem_of_app. naive_solver. Qed.

Lemma got_nil e r : ¬ got e r ([] : trace R).
Proof. intros []%elem_of_nil. Qed.
Lemma got_did e r tr : got e r tr → did e tr.
Proof. intros H. by exists r. Qed.

(** A part of the run is a run of [p] that returned [a]. *)
Definition ran {A} (p : prog E R A) (a : A) tr : Prop :=
  ∃ pre mid post, tr = pre ++ mid ++ post ∧ exec p mid (Returned a).

Lemma ran_all {A} (p : prog E R A) a tr : exec p tr (Returned a) → ran p a tr.
Proof. intros H. exists [], tr, []. by rewrite app_nil_r. Qed.
Lemma ran_app_l {A} (p : prog E R A) a tr tr' : ran p a tr → ran p a (tr ++ tr').
Proof. intros (pre & mid & post & -> & H). exists pre, mid, (post ++ tr'). by rewrite <- !app_assoc. Qed.
Lemma ran_app_r {A} (p : prog E R A) a tr tr' : ran p a tr' → ran p a (tr ++ tr').
Proof. intros (pre & mid & post & -> & H). exists (tr ++ pre), mid, post. by rewrite <- !app_assoc. Qed.
Lemma ran_cons {A} (p : prog E R A) a s tr : ran p a tr → ran p a (s :: tr).
Proof. apply (ran_app_r p a [s]). Qed.

Lemma got_cons e e' (r : R e) (r' : R e') tr :
  got e r tr → got e r (existT e' r' :: tr).
Proof. by right. Qed.
Lemma got_head e (r : R e) tr : got e r (existT e r :: tr).
Proof. by left. Qed.
Lemma got_app_l e (r : R e) tr tr' : got e r tr → got e r (tr ++ tr').
Proof. intros H. apply elem_of_app. by left. Qed.
Lemma got_app_r e (r : R e) tr tr' : got e r tr' → got e r (tr ++ tr').
Proof. intros H. apply elem_of_app. by right. Qed.
End Traces.

Create HintDb trace.
#[export] Hint Resolve got_cons got_head got_app_l got_app_r ran_all ran_app_l ran_app_r ran_cons : trace.
