(* ===== verification/World.v ===== *)
(** * World: what the driver's code does to its surroundings

    The events of the driver, and the libraries it calls that are not part of
    the repository: the host file system and process table (afero, os, os/exec),
    the mount tables (k8s.io/mount-utils), UDP sockets, the clock, and the two
    shared tables of thread_safe.go. A theorem about all responses to these
    events holds whatever the libraries do. *)
From S2P Require Import Prelude Prog Config.
Local Open Scope Z_scope.

Record MountPoint := mkMountPoint {
  mp_Device : string;
  mp_Path : string;
  mp_Type : string;
  mp_Opts : list string
}.

Inductive volumeStatus := statusCreated | statusDeleted.

#[export] Instance volumeStatus_eq_dec : EqDecision volumeStatus.
Proof. solve_decision. Defined.

Inductive event :=
  (** the file system: afero's fs and fsutil, os, io/ioutil *)
  | MkdirAll (path : string) (perm : Z)
  | Mkdir (path : string) (perm : Z)
  | Stat (path : string)
  | ReadFile (path : string)
  | WriteFile (path content : string) (perm : Z)
  | Create (path : string)
  | WriteTo (path content : string)
  | RemoveAll (path : string)
  | Remove (path : string)
  | ReadDir (path : string)
  | DirExists (path : string)
  | Exists (path : string)
  | IsEmpty (path : string)
  | Chmod (path : string) (mode : Z)
  (** sockets: net *)
  | ListenPacket (network address : string)
  | ResolveUDPAddr (network address : string)
  | CloseConn
  (** mounts: mount.Interface and mount.CleanupMountPoint *)
  | MountList
  | IsLikelyNotMountPoint (path : string)
  | IsMountPoint (path : string)
  | Mount (source target fstype : string) (options : list string)
  | CleanupMountPoint (path : string) (extensiveMountPointCheck : bool)
  (** commands: exec.Command(...).Run() *)
  | RunCmd (name : string) (args : list string)
  | SelinuxGetEnabled
  (** the clock, in nanoseconds *)
  | TimeNow
  | Sleep (d : Z)
  (** the order of one range loop over a map *)
  | RangeMap (m : gomap)
  (** the controller service's tables: thread_safe.go *)
  | ObtainLock (s : string)
  | ReleaseLock (s : string)
  | ReadStatus (volumeID : string)
  | WriteStatus (volumeID : string) (status : volumeStatus).

(** A command's stdout, stderr and error. *)
Record cmd_result := mkCmd { cmd_stdout : string; cmd_stderr : string; cmd_err : option goerr }.

Definition response (e : event) : Type :=
  match e with
  | MkdirAll _ _ | Mkdir _ _ | Stat _ | WriteFile _ _ _ | Create _ | WriteTo _ _ | RemoveAll _ | Remove _
  | Chmod _ _ | CloseConn | Mount _ _ _ _ | CleanupMountPoint _ _ => result unit
  | ReadFile _ => result string
  | ReadDir _ => result (list string)
  | DirExists _ | Exists _ | IsEmpty _ | IsLikelyNotMountPoint _ | IsMountPoint _ => result bool
  | ListenPacket _ _ => result (string * string)
  | ResolveUDPAddr _ _ => result Z
  | MountList => result (list MountPoint)
  | RunCmd _ _ => cmd_result
  | SelinuxGetEnabled | ObtainLock _ => bool
  | TimeNow => Z
  | Sleep _ | ReleaseLock _ | WriteStatus _ _ => unit
  | RangeMap m => { l : list (string * string) | l ≡ₚ map_to_list m }
  | ReadStatus _ => option volumeStatus
  end.

Abbreviation io := (prog event response).
Abbreviation io_trace := (trace response).

Definition do (e : event) : io (response e) := trigger e.

(** [x, err := p; if err != nil { return h }; k] *)
Notation "'let?' x := p 'catch' e => h 'in' k" :=
  (mbind (M := io) (λ r_, match r_ with Ok x => k | Err e => h end) p)
  (at level 10, x pattern, e name, p at level 100, h at level 100, k at level 200,
   format "'let?'  x  :=  p  'catch'  e  =>  h  'in' '//' k").

(** An error is returned as it is, or wrapped. *)
Definition fail {A} (e : goerr) : io (result A) := mret (Err e).
Definition ok {A} (a : A) : io (result A) := mret (Ok a).

(** ** Libraries *)

(** gopkg.in/ini.v1: a file with keys in its default section. [ini_Load]
    parses, [HasKey] and [KeyValue] read, [SetValue] writes, [ini_Bytes] prints.
    The laws are the documented behaviour of keys. *)
Class Ini := {
  ini_file : Type;
  ini_Load : string → result ini_file;
  HasKey : ini_file → string → bool;
  KeyValue : ini_file → string → string;
  SetValue : ini_file → string → string → ini_file;
  ini_Bytes : ini_file → string;
  HasKey_SetValue f k v k' : HasKey (SetValue f k v) k' = bool_decide (k = k') || HasKey f k';
  KeyValue_SetValue f k v k' : KeyValue (SetValue f k v) k' = if bool_decide (k = k') then v else KeyValue f k'
}.

(** github.com/opencontainers/selinux: the text of a security context. *)
Class Selinux := { context_Get : list (string * string) → string }.

(** An ini library that parses every text to one template, for evaluation. *)
Definition template_ini (template : gomap) : Ini.
Proof.
  refine {| ini_file := gomap; ini_Load := λ _, Ok template; HasKey := λ f k, bool_decide (is_Some (f !! k));
    KeyValue := λ f k, default EmptyString (f !! k); SetValue := λ f k v, <[k := v]> f;
    ini_Bytes := λ _, EmptyString |}.
  - intros f k v k'. destruct (decide (k = k')) as [->|Hne].
    + rewrite lookup_insert_eq, (bool_decide_eq_true_2 (k' = k')) by done. by apply bool_decide_eq_true_2.
    + by rewrite lookup_insert_ne, (bool_decide_eq_false_2 (k = k')).
  - intros f k v k'. destruct (decide (k = k')) as [->|Hne].
    + by rewrite lookup_insert_eq, bool_decide_eq_true_2.
    + by rewrite lookup_insert_ne, (bool_decide_eq_false_2 (k = k')).
Defined.

Definition colon_selinux : Selinux := {| context_Get := λ l, String.concat ":" (l.*2) |}.

(** ** Reasoning about the driver's programs *)

Lemma wlp_do {A} e (k : response e → io A) Q :
  (∀ r, wlp (k r) (λ tr o, Q (existT e r :: tr) o)) → wlp (do e ≫= k) Q.
Proof. apply wlp_vis. Qed.
Lemma always_do {A} P e (k : response e → io A) : P e → (∀ r, always P (k r)) → always P (do e ≫= k).
Proof. by split. Qed.
Lemma exec_do {A} e (k : response e → io A) tr o :
  exec (do e ≫= k) tr o → ∃ r tr', tr = existT e r :: tr' ∧ exec (k r) tr' o.
Proof. done. Qed.
Lemma exec_ret {A} (a : A) tr o : exec (mret a : io A) tr o → tr = [] ∧ o = Returned a.
Proof. done. Qed.
Lemma exec_ok {A} (a : A) tr o : exec (ok a) tr o → tr = [] ∧ o = Returned (Ok a).
Proof. done. Qed.
Lemma exec_fail {A} e tr o : exec (fail e : io (result A)) tr o → tr = [] ∧ o = Returned (Err e).
Proof. done. Qed.

(** One event, one branch or one return of a [wlp] goal; all of them. *)
Ltac wstep :=
  match goal with
  | |- ∀ _, _ => intro
  | |- wlp (mbind _ (do _)) _ => apply wlp_do
  | |- wlp (do _) _ => apply wlp_vis; intro; apply wlp_ret
  | |- wlp (mbind _ (mret _)) _ => apply wlp_ret_bind
  | |- wlp (mbind _ (ok _)) _ => apply wlp_ret_bind
  | |- wlp (mbind _ (fail _)) _ => apply wlp_ret_bind
  | |- wlp (mret _) _ => apply wlp_mret
  | |- wlp (ok _) _ => apply wlp_mret
  | |- wlp (fail _) _ => apply wlp_mret
  | |- wlp (match ?x with _ => _ end) _ => destruct x eqn:?
  | |- wlp (mbind _ (match ?x with _ => _ end)) _ => destruct x eqn:?
  end.
Ltac wsteps := repeat wstep.

(** The same for [always]. *)
Ltac astep :=
  match goal with
  | |- ∀ _, _ => intro
  | |- always _ (mbind _ (do _)) => apply always_do
  | |- always _ (do _) => split; [|done]
  | |- always _ (mret _) => exact I
  | |- always _ (ok _) => exact I
  | |- always _ (fail _) => exact I
  | |- always _ OutOfFuel => exact I
  | |- always _ (match ?x with _ => _ end) => destruct x eqn:?
  | |- always _ (mbind _ _) => apply always_bind
  end.
Ltac asteps := repeat astep.

#[export] Instance MountPoint_eq_dec : EqDecision MountPoint.
Proof. solve_decision. Defined.
#[export] Instance event_eq_dec : EqDecision event.
Proof. solve_decision. Defined.

Lemma step_inj e (r r' : response e) : existT e r = existT e r' → r = r'.
Proof. apply Eqdep_dec.inj_pair2_eq_dec. apply event_eq_dec. Qed.

Lemma got_here e r (r' : response e) (tr : io_trace) : got e r (existT e r' :: tr) ↔ r = r' ∨ got e r tr.
Proof.
  unfold got. rewrite elem_of_cons. split.
  - intros [H|H]; [left; by apply step_inj in H|by right].
  - intros [->|H]; [by left|by right].
Qed.
Lemma got_other e r e' (r' : response e') (tr : io_trace) : e ≠ e' → got e r (existT e' r' :: tr) ↔ got e r tr.
Proof.
  intros Hne. unfold got. rewrite elem_of_cons. split; [|by right].
  intros [H|H]; [|done]. by apply (f_equal (@projT1 _ _)) in H.
Qed.
(** Simplify hypotheses about what a concrete trace contains. *)
Ltac trace_inv :=
  repeat match goal with
  | H : did _ (_ ++ _) |- _ => apply did_app in H as [H|H]
  | H : did _ (_ :: _) |- _ => apply did_cons in H as [H|H]; cbn in H
  | H : did _ [] |- _ => by destruct (did_nil _ H)
  | H : got _ _ [] |- _ => by destruct (got_nil _ _ H)
  | H : got ?e _ (existT ?e _ :: _) |- _ => apply got_here in H as [H|H]
  | H : got _ _ (existT _ _ :: _) |- _ => apply got_other in H; [|by intros [=]]
  | H : Returned _ = Returned _ |- _ => injection H as H
  end; simplify_eq.

(** Follow a run of [do e ≫= k], or of a return, in hypothesis [H]. *)
Ltac xdo H r :=
  let tr := fresh "tr" in
  apply exec_do in H as (r & tr & -> & H); cbv beta in H.
Ltac xret H :=
  first [apply exec_ok in H as [-> H]|apply exec_fail in H as [-> H]|apply exec_ret in H as [-> H]]; simplify_eq.

(** A [let?] whose body returned a value: its computation returned one. *)
Lemma exec_let {A B} (p : io (result A)) (g : goerr → goerr) (k : A → io (result B)) tr b :
  exec (let? x := p catch err => fail (g err) in k x) tr (Returned (Ok b)) →
  ∃ tr1 tr2 a, tr = tr1 ++ tr2 ∧ exec p tr1 (Returned (Ok a)) ∧ exec (k a) tr2 (Returned (Ok b)).
Proof.
  intros (tr1 & tr2 & [a|err] & -> & H1 & H2)%exec_bind_returned; [eauto 10|]. by xret H2.
Qed.
Ltac xlet H a Ha :=
  let tr := fresh "tr" in let tr' := fresh "tr" in
  apply exec_let in H as (tr & tr' & a & -> & Ha & H); cbv beta in H.

Lemma exec_trigger e tr r : exec (do e) tr (Returned r) → tr = [existT e r].
Proof. intros (r' & tr' & -> & Hx). cbn in Hx. by destruct Hx as [-> [= ->]]. Qed.

Ltac xbind H a Ha :=
  let tr := fresh "tr" in let tr' := fresh "tr" in
  apply exec_bind_returned in H as (tr & tr' & a & -> & Ha & H); cbv beta in H.
