(* ===== verification/Volume.v ===== *)
(** * Volume: volume IDs, directories and permissions (beegfs.go, beegfs_util.go)

    A volume is a directory of a BeeGFS file system; its ID is a URL
    beegfs://sysMgmtdHost/path. [newBeegfsVolume] derives from a mount directory,
    a host and a path every path the RPCs use. *)
From S2P Require Import Prelude GoStrings GoPath GoNet GoURL Sha1 Config ConfigFacts ConfigParse Prog World.
Local Open Scope Z_scope.

(** ** Volume IDs *)

Definition NewBeegfsURL (host path : string) : string := url_String (mkURL "beegfs" host path).

Definition parseBeegfsURL (rawURL : string) : result (string * string) :=
  match url_Parse rawURL with
  | None => Err (WithStack (ErrMsg ("parse " +:+ rawURL)))
  | Some structURL =>
      if negb (bool_decide (Scheme structURL = "beegfs")) then Err (ErrMsg "URL has incorrect scheme")
      else Ok (Host structURL, Path structURL)
  end.

Definition sanitizeVolumeID (volumeID : string) : string :=
  let s := Replace volumeID "beegfs://" EmptyString 1 in
  let s := ReplaceAll s "_" "__" in
  let s := ReplaceAll s "/" "_" in
  if (255 <? Z.of_nat (String.length s)) then fmt_x (sha1_Sum volumeID) else s.

(** ** The volume *)

Record beegfsVolume := mkVolume {
  config : layer;
  clientConfPath : string;
  csiDirPath : string;
  csiDirPathBeegfsRoot : string;
  mountDirPath : string;
  mountPath : string;
  sysMgmtdHost : string;
  volDirBasePathBeegfsRoot : string;
  volDirBasePath : string;
  volDirPathBeegfsRoot : string;
  volDirPath : string;
  volumeID : string
}.

#[export] Instance beegfsVolume_eq_dec : EqDecision beegfsVolume.
Proof. solve_decision. Defined.

Definition getConnAuthPath (v : beegfsVolume) : string := PathJoin [mountDirPath v; "connAuthFile"].
Definition getTLSCertPath (v : beegfsVolume) : string := PathJoin [mountDirPath v; "cert.pem"].

(** The fields that [newBeegfsVolume] fills in. *)
Definition make_volume (mountDirPath sysMgmtdHost volDirPathBeegfsRoot : string) (config : layer) : beegfsVolume :=
  let mountPath := PathJoin [mountDirPath; "mount"] in
  let volDirPath := PathJoin [mountPath; volDirPathBeegfsRoot] in
  let volDirBasePath := Dir volDirPath in
  let volDirBasePathBeegfsRoot := Dir volDirPathBeegfsRoot in
  let volName := Base volDirPathBeegfsRoot in
  mkVolume
    config
    (PathJoin [mountDirPath; "beegfs-client.conf"])
    (PathJoin [volDirBasePath; ".csi"; "volumes"; volName])
    (PathJoin [volDirBasePathBeegfsRoot; ".csi"; "volumes"; volName])
    mountDirPath
    mountPath
    sysMgmtdHost
    volDirBasePathBeegfsRoot
    volDirBasePath
    volDirPathBeegfsRoot
    volDirPath
    (NewBeegfsURL sysMgmtdHost volDirPathBeegfsRoot).

(** Which mount directory the controller service chooses for a volume. *)
Definition cs_mountDirPath (csDataDir volumeID : string) : string := PathJoin [csDataDir; sanitizeVolumeID volumeID].

Section Code.
Context {RO : RangeOrder}.

(** [squashConfigForSysMgmtdHost] of a server's configuration. Nothing changes
    that configuration after the start, so servers hold it by value; the code
    runs on a heap that holds its maps, and what it returns is read off the heap
    it leaves. [None] is a run-time panic. *)
Definition squashConfig (sysMgmtdHost : string) (pluginConfig : PluginConfig gomap) : option layer :=
  match (c ← alloc_plugin (plugin_map Some pluginConfig); squashConfigForSysMgmtdHost sysMgmtdHost c) ∅ with
  | Done c h => Some (den h c)
  | Fails _ | Panics => None
  end.

Definition newBeegfsVolume (mountDirPath sysMgmtdHost volDirPathBeegfsRoot : string)
    (pluginConfig : PluginConfig gomap) : io beegfsVolume :=
  match squashConfig sysMgmtdHost pluginConfig with
  | Some config => mret (make_volume mountDirPath sysMgmtdHost volDirPathBeegfsRoot config)
  | None => Panic "assignment to entry in nil map"
  end.

Definition newBeegfsVolumeFromID (mountDirPath volumeID : string) (pluginConfig : PluginConfig gomap)
    : io (result beegfsVolume) :=
  match parseBeegfsURL volumeID with
  | Err err => fail err
  | Ok (sysMgmtdHost, volDirPathBeegfsRoot) =>
      vol ← newBeegfsVolume mountDirPath sysMgmtdHost volDirPathBeegfsRoot pluginConfig; ok vol
  end.

(** The wrappers of the controller service (controllerserver.go), which choose
    the mount directory under csDataDir. *)
Definition cs_newBeegfsVolume (csDataDir : string) (pluginConfig : PluginConfig gomap)
    (sysMgmtdHost volDirBasePathBeegfsRoot volName : string) : io beegfsVolume :=
  let volDirPathBeegfsRoot := PathJoin [volDirBasePathBeegfsRoot; volName] in
  let volumeID := NewBeegfsURL sysMgmtdHost volDirPathBeegfsRoot in
  let mountDirPath := cs_mountDirPath csDataDir volumeID in
  newBeegfsVolume mountDirPath sysMgmtdHost volDirPathBeegfsRoot pluginConfig.
Definition cs_newBeegfsVolumeFromID (csDataDir : string) (pluginConfig : PluginConfig gomap)
    (volumeID : string) : io (result beegfsVolume) :=
  newBeegfsVolumeFromID (cs_mountDirPath csDataDir volumeID) volumeID pluginConfig.
End Code.

(** ** The volume that the code makes

    The settings are those of [squash], and the code never panics. *)

Definition volume_of (mountDirPath sysMgmtdHost volDirPathBeegfsRoot : string) (pluginConfig : PluginConfig gomap)
    : beegfsVolume :=
  make_volume mountDirPath sysMgmtdHost volDirPathBeegfsRoot (squash sysMgmtdHost pluginConfig).
Definition volume_of_id (mountDirPath volumeID : string) (pluginConfig : PluginConfig gomap) : result beegfsVolume :=
  '(sysMgmtdHost, volDirPathBeegfsRoot) ← parseBeegfsURL volumeID;
  Ok (volume_of mountDirPath sysMgmtdHost volDirPathBeegfsRoot pluginConfig).
Definition cs_volume_of (csDataDir : string) (pluginConfig : PluginConfig gomap)
    (sysMgmtdHost volDirBasePathBeegfsRoot volName : string) : beegfsVolume :=
  let volDirPathBeegfsRoot := PathJoin [volDirBasePathBeegfsRoot; volName] in
  volume_of (cs_mountDirPath csDataDir (NewBeegfsURL sysMgmtdHost volDirPathBeegfsRoot))
    sysMgmtdHost volDirPathBeegfsRoot pluginConfig.
Definition cs_volume_of_id (csDataDir : string) (pluginConfig : PluginConfig gomap) (volumeID : string)
    : result beegfsVolume :=
  volume_of_id (cs_mountDirPath csDataDir volumeID) volumeID pluginConfig.

Section Runs.
Context {RO : RangeOrder}.

Lemma squashConfig_run host pc : squashConfig host pc = Some (squash host pc).
Proof.
  unfold squashConfig. destruct (alloc_plugin_ok (plugin_map Some pc) ∅) as (c & h & Ea & _ & _ & Hin & Hden).
  rewrite (bind_run _ _ _ _ _ Ea). destruct (squash_run host c h) as (c' & h' & -> & Hd & _).
  { intros l Hl. by apply Hin. }
  rewrite Hd. do 2 f_equal. rewrite <- pden_file, (Hden h) by done. destruct pc as [d fs]. unfold plugin_map. cbn. f_equal.
  - by destruct d.
  - rewrite <- list_fmap_compose. rewrite <- (list_fmap_id fs) at 2. apply list_fmap_ext. by intros i [? []] _.
Qed.

Lemma newBeegfsVolume_run d host path pc : newBeegfsVolume d host path pc = mret (volume_of d host path pc).
Proof. unfold newBeegfsVolume. by rewrite squashConfig_run. Qed.
Lemma newBeegfsVolumeFromID_run d id pc : newBeegfsVolumeFromID d id pc = mret (volume_of_id d id pc).
Proof.
  unfold newBeegfsVolumeFromID, volume_of_id. destruct (parseBeegfsURL id) as [[host path]|]; [|done].
  by rewrite newBeegfsVolume_run.
Qed.
Lemma cs_newBeegfsVolume_run d pc host base name :
  cs_newBeegfsVolume d pc host base name = mret (cs_volume_of d pc host base name).
Proof. apply newBeegfsVolume_run. Qed.
Lemma cs_newBeegfsVolumeFromID_run d pc id : cs_newBeegfsVolumeFromID d pc id = mret (cs_volume_of_id d pc id).
Proof. apply newBeegfsVolumeFromID_run. Qed.
End Runs.

(** ** Permissions *)

Record permissionsConfig := mkPermissions { uid : Z; gid : Z; mode : Z }.
Definition defaultPermissionsMode : Z := 0x1ff. (* 0o777 *)

Definition hasNonDefaultOwnerOrGroup (cfg : permissionsConfig) : bool := (0 <? uid cfg) || (0 <? gid cfg).
Definition hasSpecialPermissions (cfg : permissionsConfig) : bool := 0x1ff <? mode cfg.

(** The bits of os.FileMode. *)
Definition ModeSetuid : Z := Z.shiftl 1 23.
Definition ModeSetgid : Z := Z.shiftl 1 22.
Definition ModeSticky : Z := Z.shiftl 1 20.

Definition goFileMode (cfg : permissionsConfig) : Z :=
  let goMode := Z.land (mode cfg) 0x1ff in
  let stickyBit := 0 <? Z.land (mode cfg) 0x200 in
  let setgidBit := 0 <? Z.land (mode cfg) 0x400 in
  let setuidBit := 0 <? Z.land (mode cfg) 0x800 in
  let goMode := if stickyBit then Z.lor goMode ModeSticky else goMode in
  let goMode := if setgidBit then Z.lor goMode ModeSetgid else goMode in
  if setuidBit then Z.lor goMode ModeSetuid else goMode.

(** What the operating system's chmod makes of an os.FileMode (os.syscallMode). *)
Definition syscallMode (m : Z) : Z :=
  let o := Z.land m 0x1ff in
  let o := if Z.testbit m 23 then Z.lor o 0x800 else o in
  let o := if Z.testbit m 22 then Z.lor o 0x400 else o in
  if Z.testbit m 20 then Z.lor o 0x200 else o.

(** ** Lemmas *)

Lemma sanitize_examples :
  sanitizeVolumeID "beegfs://127.0.0.1/scratch/vol_1" = "127.0.0.1_scratch_vol__1"
  ∧ sanitizeVolumeID ("beegfs://some.domain.com/lots/of/characters/lots/of/characters/lots/of/characters/" +:+
      "lots/of/characters/lots/of/characters/lots/of/characters/lots/of/characters/lots/of/characters/" +:+
      "lots/of/characters/lots/of/characters/lots/of/characters/lots/of/characters/lots/of/characters")
    = "20d02d3ce23bd842f5a9334f478c87c3f131e51e".
Proof. vm_compute. done. Qed.
