(* ===== verification/VolumeFacts.v ===== *)
(** * VolumeFacts: volume IDs read back, directories stay where they belong *)
From S2P Require Import Prelude GoStrings GoPath GoNet GoURL Sha1 Config ConfigFacts Prog World Volume.

(** ** Sanitized names *)

Lemma replace_go_byte o new n s :
  (String.length s ≤ n)%nat →
  replace_go (str1 o) new 0 n s = str_flat_map (λ c, if bool_decide (o = c) then new else str1 c) s.
Proof.
  revert n. induction s as [|c s IH]; intros n Hn; [done|]. cbn in Hn.
  destruct n as [|n]; [lia|]. cbn [replace_go str_flat_map].
  assert (HasPrefix (String c s) (str1 o) = bool_decide (o = c)) as ->.
  { unfold HasPrefix, str1. cbn. destruct (ascii_dec o c) as [->|Hne].
    - rewrite bool_decide_eq_true_2 by done. by destruct s.
    - by rewrite bool_decide_eq_false_2. }
  case_bool_decide; cbn [String.length str1 Nat.sub].
  - rewrite IH by lia. done.
  - rewrite IH by lia. done.
Qed.

Lemma replace_go_skip old new p s : replace_go old new (String.length p) 0 (p +:+ s) = s.
Proof. induction p as [|c p IH]; [by destruct s|]. rewrite append_cons. cbn. by rewrite IH. Qed.

Lemma Replace_prefix p s : p ≠ EmptyString → Replace (p +:+ s) p EmptyString 1 = s.
Proof.
  destruct p as [|c p]; [done|]. intros _. unfold Replace. rewrite append_cons. cbn [replace_go].
  rewrite <- append_cons, HasPrefix_app, append_nil_l. cbn [String.length]. rewrite Nat.sub_succ, Nat.sub_0_r.
  apply replace_go_skip.
Qed.

Lemma ReplaceAll_byte s o new :
  ReplaceAll s (str1 o) new = str_flat_map (λ c, if bool_decide (o = c) then new else str1 c) s.
Proof. by apply replace_go_byte. Qed.

Lemma str_flat_map_comp f g s :
  str_flat_map g (str_flat_map f s) = str_flat_map (λ c, str_flat_map g (f c)) s.
Proof. induction s as [|c s IH]; [done|]. cbn. by rewrite str_flat_map_app, IH. Qed.

Lemma str_flat_map_ext f g s : (∀ c, f c = g c) → str_flat_map f s = str_flat_map g s.
Proof. intros H. induction s as [|c s IH]; [done|]. cbn. by rewrite H, IH. Qed.

(** What sanitizing does to each byte after the scheme. *)
Definition enc_byte (c : ascii) : string :=
  if bool_decide ("_"%char = c) then "__" else if bool_decide (slash = c) then "_" else str1 c.
Definition enc (s : string) : string := str_flat_map enc_byte s.

Lemma sanitize_enc r :
  sanitizeVolumeID ("beegfs://" +:+ r)
  = if (255 <? Z.of_nat (String.length (enc r)))%Z then fmt_x (sha1_Sum ("beegfs://" +:+ r)) else enc r.
Proof.
  unfold sanitizeVolumeID.
  rewrite Replace_prefix by done. cbv zeta.
  assert (ReplaceAll (ReplaceAll r "_" "__") "/" "_" = enc r) as ->; [|done].
  change (ReplaceAll r "_" "__") with (ReplaceAll r (str1 "_"%char) "__").
  change "/" with (str1 slash). rewrite !ReplaceAll_byte, str_flat_map_comp.
  apply str_flat_map_ext. intros c. unfold enc_byte.
  case_bool_decide; [by vm_compute|]. cbn. rewrite append_nil_r. by case_bool_decide.
Qed.

(** Reading a sanitized name back: two underscores are one, one is a slash. *)
Fixpoint dec (s : string) : string :=
  match s with
  | EmptyString => EmptyString
  | String c t =>
      if bool_decide ("_"%char = c) then
        match t with
        | String d u => if bool_decide ("_"%char = d) then String "_"%char (dec u) else String slash (dec t)
        | EmptyString => str1 slash
        end
      else String c (dec t)
  end.

(** No path element starts with an underscore and none is empty. *)
Fixpoint elements_ok (s : string) : bool :=
  match s with
  | EmptyString => true
  | String c t =>
      (if bool_decide (slash = c)
       then match t with String d _ => negb (bool_decide ("_"%char = d)) && negb (bool_decide (slash = d))
                       | EmptyString => true end
       else true) && elements_ok t
  end.

Lemma enc_plain c : "_"%char ≠ c → slash ≠ c → enc_byte c = str1 c.
Proof. intros H1 H2. unfold enc_byte. by rewrite !bool_decide_eq_false_2. Qed.

Lemma dec_plain c s : "_"%char ≠ c → dec (str1 c +:+ s) = String c (dec s).
Proof.
  intros H. change (str1 c +:+ s) with (String c s). cbn [dec]. by rewrite bool_decide_eq_false_2.
Qed.

Lemma dec_enc s : elements_ok s = true → dec (enc s) = s.
Proof.
  unfold enc. induction s as [|c s IH]; [done|]. cbn [elements_ok str_flat_map]. rewrite andb_true_iff.
  intros [Hc Hs]. specialize (IH Hs).
  destruct (decide ("_"%char = c)) as [<-|E1].
  { change (String "_"%char (dec (str_flat_map enc_byte s)) = String "_"%char s). by rewrite IH. }
  destruct (decide (slash = c)) as [<-|E2].
  - destruct s as [|d s]; [done|]. rewrite bool_decide_eq_true_2 in Hc by done. bools.
    cbn [str_flat_map] in *. rewrite (enc_plain d) in IH |- * by done.
    rewrite dec_plain in IH by done.
    transitivity (dec (String "_"%char (String d (str_flat_map enc_byte s)))); [done|]. cbn [dec].
    rewrite bool_decide_eq_true_2, !(bool_decide_eq_false_2 ("_"%char = d)) by done. by rewrite IH.
  - by rewrite enc_plain, dec_plain, IH.
Qed.

Lemma enc_no_slash s : no_slash (enc s) = true.
Proof.
  unfold no_slash, enc. induction s as [|c s IH]; [done|]. cbn. rewrite str_all_app, IH, andb_true_r.
  unfold enc_byte. repeat case_bool_decide; try done. cbn. by rewrite bool_decide_eq_false_2.
Qed.

(** A sanitized name is a file name: no slash, at most 255 bytes, and, when the
    ID has a slash after its host, neither empty nor a dot name. *)
Lemma sanitize_no_slash r :
  no_slash (sanitizeVolumeID ("beegfs://" +:+ r)) = true
  ∧ (String.length (sanitizeVolumeID ("beegfs://" +:+ r)) ≤ 255)%nat.
Proof.
  rewrite sanitize_enc. destruct (255 <? _)%Z eqn:E.
  - split; [|rewrite fmt_x_length, sha1_Sum_length; lia].
    apply fmt_x_all; [|apply sha1_Sum_range]. intros d Hd.
    assert (d ∈ seqZ 0 16) as Hin by (apply elem_of_seqZ; lia). clear Hd. revert d Hin. apply Forall_forall.
    vm_compute. repeat constructor.
  - split; [apply enc_no_slash|lia].
Qed.

Lemma sanitize_normal a b :
  normal (sanitizeVolumeID ("beegfs://" +:+ a +:+ String slash b)) = true.
Proof.
  destruct (sanitize_no_slash (a +:+ String slash b)) as [Hs _]. revert Hs. rewrite sanitize_enc.
  destruct (255 <? _)%Z; intros Hs; unfold normal; rewrite Hs, andb_true_r.
  - assert (∀ x : string, String.length x < 40 → fmt_x (sha1_Sum ("beegfs://" +:+ a +:+ String slash b)) ≠ x) as Hne.
    { intros x Hx E. apply (f_equal String.length) in E. rewrite fmt_x_length, sha1_Sum_length in E. lia. }
    rewrite !bool_decide_eq_false_2; [done|apply Hne; cbn; lia..].
  - unfold enc. rewrite str_flat_map_app. cbn [str_flat_map]. change (enc_byte slash) with "_".
    assert (∀ x y z, str_all (λ c, negb (bool_decide ("_"%char = c))) z = true → x +:+ "_" +:+ y ≠ z) as Hne.
    { intros x y z Hz <-. rewrite !str_all_app in Hz. cbn in Hz. by rewrite andb_false_r in Hz. }
    rewrite !bool_decide_eq_false_2; [done|by apply Hne..].
Qed.

(** ** Paths *)

Lemma NewBeegfsURL_rooted host p :
  NewBeegfsURL host (String slash p)
  = "beegfs://" +:+ escape host encodeHost +:+ String slash (escape p encodePath).
Proof.
  unfold NewBeegfsURL, url_String. cbn [Scheme Host Path].
  rewrite (bool_decide_eq_false_2 (String slash p = EmptyString)) by done.
  rewrite andb_false_r. unfold EscapedPath.
  rewrite (bool_decide_eq_false_2 (String slash p = "*")) by done.
  change (escape (String slash p) encodePath) with (String slash (escape p encodePath)).
  by rewrite is_rooted_cons, andb_false_r.
Qed.

Lemma PathJoin_rooted p q : is_rooted p = true → ∃ l, normals l ∧ PathJoin [p; q] = abs l.
Proof.
  intros Hp. pose proof (is_rooted_inv _ Hp) as [s ->]. unfold PathJoin, join_raw. cbn [foldl].
  rewrite (bool_decide_eq_true_2 (EmptyString = EmptyString)) by done.
  rewrite (bool_decide_eq_false_2 (String slash s = EmptyString)) by done.
  rewrite append_cons, bool_decide_eq_false_2 by done.
  destruct (Clean_rooted (String slash (s +:+ "/" +:+ q)) (is_rooted_cons _)) as [-> Hn]. eauto.
Qed.

Lemma split_join_normals l : l ≠ [] → normals l → split_on slash (join_with slash l) = l.
Proof.
  intros Hne Hl. apply split_on_join; [done|]. eapply Forall_impl; [exact Hl|]. intros c. apply normal_no_slash.
Qed.

Lemma join_raw_cons c s l :
  join_raw (String c s :: l) = String c s +:+ foldr (λ e acc, "/" +:+ e +:+ acc) EmptyString l.
Proof.
  unfold join_raw. cbn [foldl]. rewrite bool_decide_eq_true_2 by done.
  revert s. induction l as [|e l IH]; intros s; cbn [foldl foldr]; [by rewrite append_nil_r|].
  rewrite bool_decide_eq_false_2, append_cons, IH by done. by rewrite !append_cons, !append_assoc.
Qed.

Lemma PathJoin_normals4 l a b c :
  normals l → normals [a; b; c] → PathJoin [abs l; a; b; c] = abs (l ++ [a; b; c]).
Proof.
  intros Hl Habc. transitivity (PathJoin [abs l; join_with slash [a; b; c]]).
  - unfold PathJoin. assert (join_raw [abs l; a; b; c] = join_raw [abs l; join_with slash [a; b; c]]) as ->; [|done].
    unfold abs. rewrite !join_raw_cons. cbn [foldr join_with]. by rewrite !append_nil_r.
  - rewrite PathJoin_abs2 by done. rewrite split_join_normals by done.
    rewrite foldl_clean_normals by done. by rewrite reverse_app, !reverse_involutive.
Qed.

Lemma normals_app l1 l2 : normals (l1 ++ l2) ↔ normals l1 ∧ normals l2.
Proof. apply Forall_app. Qed.

(** Where every path of a volume lies, for a mount directory and a clean path. *)
Lemma volume_of_layout d l host pc :
  normals d → normals l →
  let v := volume_of (abs d) host (abs l) pc in
  mountPath v = abs (d ++ ["mount"]) ∧ clientConfPath v = abs (d ++ ["beegfs-client.conf"])
  ∧ volDirPath v = abs (d ++ ["mount"] ++ l)
  ∧ ∀ l0 n, l = l0 ++ [n] →
      csiDirPath v = abs (d ++ ["mount"] ++ l0 ++ [".csi"; "volumes"; n])
      ∧ csiDirPathBeegfsRoot v = abs (l0 ++ [".csi"; "volumes"; n])
      ∧ volDirBasePathBeegfsRoot v = abs l0.
Proof.
  intros Hd Hl v.
  assert (mountPath v = abs (d ++ ["mount"])) as Hm by (by apply PathJoin_normal).
  assert (normals (d ++ ["mount"])) as Hdm by (apply normals_app; split; [done|by repeat constructor]).
  assert (volDirPath v = abs (d ++ ["mount"] ++ l)) as Hv.
  { unfold v, volume_of, make_volume. cbn [volDirPath mountPath] in *. rewrite PathJoin_normal by done.
    rewrite app_assoc. by apply PathJoin_abs. }
  split_and!; [done|by apply PathJoin_normal|done|].
  intros l0 n ->. apply normals_app in Hl as [Hl0 Hn].
  assert (normal n = true) as Hn1 by (by inversion Hn).
  assert (normals [".csi"; "volumes"; n]) as Hc by (by repeat constructor).
  assert (Base (abs (l0 ++ [n])) = n) as HB by (by apply Base_abs_snoc).
  unfold v, volume_of, make_volume in *. cbn [csiDirPath csiDirPathBeegfsRoot volDirBasePathBeegfsRoot volDirPath] in *.
  rewrite Hv, HB, Dir_abs_snoc by done. rewrite !app_assoc, Dir_abs_snoc;
    [|apply normals_app; by split|done].
  split_and!; [|by apply PathJoin_normals4|done].
  rewrite PathJoin_normals4; [by rewrite <- !app_assoc|apply normals_app; by split|done].
Qed.

(** ** Properties *)

Section Properties.
Context {RO : RangeOrder} (pc : PluginConfig gomap).

Lemma parse_rooted_url host p :
  parseBeegfsURL (NewBeegfsURL host (String slash p))
  = match parseHost (escape host encodeHost) with
    | Some h => Ok (h, String slash p)
    | None => Err (WithStack (ErrMsg ("parse " +:+ NewBeegfsURL host (String slash p))))
    end.
Proof.
  unfold parseBeegfsURL. unfold NewBeegfsURL at 1. rewrite url_Parse_String.
  by destruct (parseHost (escape host encodeHost)).
Qed.

(** C19: the ID of a volume that CreateVolume makes is read back, by every later
    RPC of the controller service, as the same volume with the same paths and
    settings: whatever the name, the base path and (with any of the bytes %, /, ?
    and the like) whatever needs escaping in them, for host names and IPv4
    addresses. *)
Theorem volume_id_roundtrip csDataDir host base name :
  plain_host host = true → is_rooted base = true →
  ∃ vol, cs_newBeegfsVolume csDataDir pc host base name = mret vol
    ∧ cs_newBeegfsVolumeFromID csDataDir pc (volumeID vol) = mret (Ok vol).
Proof.
  intros Hh Hb. destruct (PathJoin_rooted base name Hb) as (l & _ & El).
  exists (cs_volume_of csDataDir pc host base name). rewrite cs_newBeegfsVolume_run, cs_newBeegfsVolumeFromID_run.
  split; [done|]. f_equal.
  unfold cs_volume_of_id, cs_volume_of, volume_of_id. rewrite El.
  cbn [volumeID volume_of make_volume]. unfold abs. rewrite parse_rooted_url, parseHost_escape by done. done.
Qed.

(** An IPv6 management address whose last group is not made of decimal
    digits (such as fe80::abcd) yields volume IDs that no later RPC can read. *)
Theorem ipv6_volume_id_unreadable csDataDir a p base name :
  str_all (λ c, negb (bool_decide ("["%char = c))) (a +:+ String ":"%char p) = true →
  str_all (λ c, is_alpha c || is_digit c) p = true → str_all is_digit p = false →
  is_rooted base = true →
  ∃ vol err, cs_newBeegfsVolume csDataDir pc (a +:+ String ":"%char p) base name = mret vol
    ∧ cs_newBeegfsVolumeFromID csDataDir pc (volumeID vol) = mret (Err err).
Proof.
  intros Hb Hp Hd Hr. destruct (PathJoin_rooted base name Hr) as (l & _ & El).
  exists (cs_volume_of csDataDir pc (a +:+ String ":"%char p) base name). rewrite cs_newBeegfsVolume_run.
  setoid_rewrite cs_newBeegfsVolumeFromID_run. eexists. split; [done|]. f_equal.
  unfold cs_volume_of_id, cs_volume_of, volume_of_id. rewrite El.
  cbn [volumeID volume_of make_volume]. unfold abs. rewrite parse_rooted_url, parseHost_bad_port; try done.
  - eapply str_all_impl; [|exact Hp]. intros c Hc. apply negb_true_iff, bool_decide_eq_false.
    by intros <-.
  - clear Hb Hd. induction p as [|c p IH]; [done|]. cbn in *. apply andb_true_iff in Hp as [Hc Hp].
    unfold escape in *. cbn. rewrite IH by done. unfold escape_byte, shouldEscape. by rewrite Hc.
Qed.

(** C20: the directories of a volume CreateVolume makes lie where they should:
    the mount directory is a child of csDataDir with a name of at most 255
    bytes, the client configuration and the mount point are in it, and the
    volume and its metadata are below the mount point. *)
Theorem created_volume_confined d host base name :
  normals d → is_rooted base = true →
  ∃ v c l, cs_newBeegfsVolume (abs d) pc host base name = mret v
    ∧ normal c = true ∧ (String.length c ≤ 255)%nat ∧ normals l
    ∧ volDirPathBeegfsRoot v = abs l ∧ mountDirPath v = abs (d ++ [c])
    ∧ mountPath v = abs (d ++ [c; "mount"]) ∧ clientConfPath v = abs (d ++ [c; "beegfs-client.conf"])
    ∧ volDirPath v = abs (d ++ [c; "mount"] ++ l)
    ∧ ∀ l0 n, l = l0 ++ [n] → csiDirPath v = abs (d ++ [c; "mount"] ++ l0 ++ [".csi"; "volumes"; n]).
Proof.
  intros Hd Hb. destruct (PathJoin_rooted base name Hb) as (l & Hl & El).
  set (id := NewBeegfsURL host (abs l)).
  assert (id = "beegfs://" +:+ escape host encodeHost +:+ String slash (escape (join_with slash l) encodePath)) as Eid
    by apply NewBeegfsURL_rooted.
  assert (normal (sanitizeVolumeID id) = true) as Hn by (rewrite Eid; apply sanitize_normal).
  exists (cs_volume_of (abs d) pc host base name), (sanitizeVolumeID id), l.
  split; [apply cs_newBeegfsVolume_run|]. split; [done|]. split; [rewrite Eid; apply sanitize_no_slash|]. split; [done|].
  unfold cs_volume_of, cs_mountDirPath. rewrite El. fold id. rewrite PathJoin_normal by done.
  assert (normals (d ++ [sanitizeVolumeID id])) as Hdn by (apply normals_app; split; [done|by repeat constructor]).
  destruct (volume_of_layout (d ++ [sanitizeVolumeID id]) l host pc Hdn Hl) as (E1 & E2 & E3 & E4).
  split_and!; [done|done|by rewrite E1, <- app_assoc|by rewrite E2, <- app_assoc|by rewrite E3, <- app_assoc|].
  intros l0 n E. destruct (E4 l0 n E) as (-> & _). by rewrite <- app_assoc.
Qed.

Lemma pop_dotdots st k : normals st → (length st ≤ k)%nat → foldl (clean_step true) st (repeat ".." k) = [].
Proof.
  revert st. induction k as [|k IH]; intros st Hst Hk.
  - destruct st; [done|cbn in Hk; lia].
  - cbn [repeat foldl]. destruct st as [|c st].
    { change (clean_step true [] "..") with ([] : list string). apply IH; [done|cbn; lia]. }
    inversion Hst as [|? ? Hc Hst']; subst. apply normal_inv in Hc as (_ & _ & Hc & _).
    assert (clean_step true (c :: st) ".." = st) as ->.
    { unfold clean_step. rewrite !(bool_decide_eq_false_2 (".." = _)), bool_decide_eq_true_2 by done. cbn.
      by rewrite bool_decide_eq_false_2. }
    apply IH; [done|]. cbn in Hk. lia.
Qed.

(** C40: nothing confines a volume ID that did not come from CreateVolume: for
    every directory of the host there is an ID whose volume directory, the one
    DeleteVolume removes with everything in it, is that directory. *)
Theorem crafted_id_reaches_any_directory d t host :
  normals d → normals t → plain_host host = true →
  ∃ id v, cs_newBeegfsVolumeFromID (abs d) pc id = mret (Ok v) ∧ volDirPath v = abs t.
Proof.
  intros Hd Ht Hh. set (p := repeat ".." (length d + 2) ++ t).
  set (id := NewBeegfsURL host (String slash (join_with slash p))).
  assert (normal (sanitizeVolumeID id) = true) as Hn.
  { unfold id. rewrite NewBeegfsURL_rooted. apply sanitize_normal. }
  eexists id, _. split.
  - rewrite cs_newBeegfsVolumeFromID_run. f_equal. unfold cs_volume_of_id, volume_of_id. unfold id at 2.
    rewrite parse_rooted_url, parseHost_escape by done. reflexivity.
  - cbn [volume_of make_volume volDirPath]. unfold cs_mountDirPath. rewrite PathJoin_normal by done.
    assert (normals (d ++ [sanitizeVolumeID id])) as Hdn by (apply normals_app; split; [done|by repeat constructor]).
    rewrite PathJoin_normal by done.
    rewrite PathJoin_abs2 by (apply normals_app; split; [done|by repeat constructor]).
    change (String slash (join_with slash p)) with (EmptyString +:+ String slash (join_with slash p)).
    rewrite split_on_app, split_on_join.
    + cbn [split_on app foldl]. rewrite clean_step_nil. unfold p. rewrite foldl_app, pop_dotdots.
      * by rewrite foldl_clean_normals, app_nil_r, reverse_involutive.
      * apply Forall_reverse, normals_app. split; [done|by repeat constructor].
      * rewrite length_reverse, !length_app. cbn. lia.
    + unfold p. by rewrite Nat.add_comm.
    + unfold p. apply Forall_app. split; [|eapply Forall_impl; [exact Ht|]; intros c; apply normal_no_slash].
      apply Forall_forall. by intros x ->%list_elem_of_In%repeat_spec.
Qed.

(** An ID without a path can move the mount directory itself out of
    csDataDir: with beegfs://.. it is the parent of csDataDir, which DeleteVolume
    removes recursively when it cleans up. *)
Theorem crafted_id_moves_mount_dir d c :
  normals (d ++ [c]) →
  ∃ v, cs_newBeegfsVolumeFromID (abs (d ++ [c])) pc "beegfs://.." = mret (Ok v) ∧ mountDirPath v = abs d.
Proof.
  intros Hd. eexists. split; [rewrite cs_newBeegfsVolumeFromID_run; reflexivity|].
  cbn [volume_of make_volume mountDirPath]. unfold cs_mountDirPath.
  change (sanitizeVolumeID "beegfs://..") with "..". rewrite PathJoin_abs2 by done.
  apply normals_app in Hd as [_ Hc]. inversion Hc as [|? ? Hn _]; subst. apply normal_inv in Hn as (_ & _ & Hn & _).
  assert (foldl (clean_step true) (reverse (d ++ [c])) (split_on slash "..") = reverse d) as ->;
    [|by rewrite reverse_involutive].
  change (split_on slash "..") with [".."]. rewrite reverse_snoc. cbn [foldl]. unfold clean_step.
  rewrite (bool_decide_eq_true_2 (".." = "..")) by done. cbn [orb].
  by rewrite !(bool_decide_eq_false_2 (".." = _)), bool_decide_eq_false_2.
Qed.

Lemma abs_snoc_inj d a b : normals d → normal a = true → normal b = true → abs (d ++ [a]) = abs (d ++ [b]) → a = b.
Proof.
  intros Hd Ha Hb E. apply abs_inj in E; [|apply normals_app; split; [done|by repeat constructor]..].
  by apply app_inj_2 in E as [_ [= ->]].
Qed.

(** C21: two volumes CreateVolume makes share a mount directory only if they are
    the same volume, provided no element of their IDs starts with an underscore
    or is empty and the sanitized IDs have at most 255 bytes. *)
Theorem mount_dirs_distinct d h1 b1 n1 h2 b2 n2 r1 r2 :
  normals d → is_rooted b1 = true → is_rooted b2 = true →
  ∃ v1 v2, cs_newBeegfsVolume (abs d) pc h1 b1 n1 = mret v1 ∧ cs_newBeegfsVolume (abs d) pc h2 b2 n2 = mret v2 ∧ (
  volumeID v1 = "beegfs://" +:+ r1 → volumeID v2 = "beegfs://" +:+ r2 →
  elements_ok r1 = true → elements_ok r2 = true →
  (String.length (enc r1) ≤ 255)%nat → (String.length (enc r2) ≤ 255)%nat →
  mountDirPath v1 = mountDirPath v2 → volumeID v1 = volumeID v2).
Proof.
  intros Hd Hb1 Hb2. set (v1 := cs_volume_of (abs d) pc h1 b1 n1). set (v2 := cs_volume_of (abs d) pc h2 b2 n2).
  exists v1, v2. split; [apply cs_newBeegfsVolume_run|]. split; [apply cs_newBeegfsVolume_run|]. intros E1 E2 Hr1 Hr2 Hl1 Hl2 Hm.
  assert (∀ h b n, is_rooted b = true →
    normal (sanitizeVolumeID (volumeID (cs_volume_of (abs d) pc h b n))) = true) as Hnorm.
  { intros h b n Hb. destruct (PathJoin_rooted b n Hb) as (l & _ & El). unfold cs_volume_of. rewrite El.
    cbn [volumeID volume_of make_volume]. unfold abs. rewrite NewBeegfsURL_rooted. apply sanitize_normal. }
  pose proof (Hnorm h1 b1 n1 Hb1) as N1. pose proof (Hnorm h2 b2 n2 Hb2) as N2. fold v1 in N1. fold v2 in N2.
  change (mountDirPath v1) with (PathJoin [abs d; sanitizeVolumeID (volumeID v1)]) in Hm.
  change (mountDirPath v2) with (PathJoin [abs d; sanitizeVolumeID (volumeID v2)]) in Hm.
  rewrite !PathJoin_normal in Hm by done. apply abs_snoc_inj in Hm; [|done..].
  rewrite E1, E2, !sanitize_enc in Hm.
  rewrite !(proj2 (Z.ltb_ge _ _)) in Hm by lia.
  rewrite E1, E2. f_equal. by rewrite <- (dec_enc r1), <- (dec_enc r2), Hm.
Qed.

(** Without that proviso two different volumes can share a mount directory
    (and, having different IDs, are not excluded from using it at the same time). *)
Theorem mount_dirs_collide csDataDir :
  ∃ v1 v2, cs_newBeegfsVolume csDataDir pc "host" "/a_" "b" = mret v1
    ∧ cs_newBeegfsVolume csDataDir pc "host" "/a" "_b" = mret v2
    ∧ volumeID v1 ≠ volumeID v2 ∧ mountDirPath v1 = mountDirPath v2.
Proof.
  eexists _, _. split; [apply cs_newBeegfsVolume_run|]. split; [apply cs_newBeegfsVolume_run|].
  split; [by vm_compute|reflexivity].
Qed.
End Properties.

(** The mode that chmod applies for [goFileMode] is the mode of the
    parameters, special bits included, for every 12-bit mode. *)
Theorem goFileMode_roundtrip cfg :
  (0 ≤ mode cfg < 4096)%Z → syscallMode (goFileMode cfg) = mode cfg.
Proof.
  destruct cfg as [u g m]. cbn [mode]. intros Hm.
  assert (Forall (λ m, syscallMode (goFileMode (mkPermissions 0 0 m)) = m) (seqZ 0 4096)) as Hall.
  { apply (bool_decide_unpack _). vm_compute. exact I. }
  rewrite Forall_forall in Hall. exact (Hall m (proj2 (elem_of_seqZ 0 4096 m) ltac:(lia))).
Qed.

(** ** Examples *)

Module Example.

#[local] Existing Instance list_order.
Definition pc : PluginConfig gomap := mkPluginConfig no_layer [].

Lemma volume_id_roundtrip_witness :
  ∃ vol, cs_newBeegfsVolume "/csi" pc "mgmtd.example.com" "/scratch" "50% full?" = mret vol
    ∧ cs_newBeegfsVolumeFromID "/csi" pc (volumeID vol) = mret (Ok vol).
Proof. apply volume_id_roundtrip; reflexivity. Defined.

Lemma ipv6_volume_id_unreadable_witness :
  ∃ vol err, cs_newBeegfsVolume "/csi" pc "fe80::abcd" "/scratch" "vol" = mret vol
    ∧ cs_newBeegfsVolumeFromID "/csi" pc (volumeID vol) = mret (Err err).
Proof. apply (ipv6_volume_id_unreadable pc "/csi" "fe80:" "abcd"); reflexivity. Defined.

Lemma created_volume_confined_witness :
  ∃ v c l, cs_newBeegfsVolume (abs ["csi"; "data"]) pc "host" "/scratch" "../vol" = mret v
    ∧ normal c = true ∧ (String.length c ≤ 255)%nat ∧ normals l
    ∧ volDirPathBeegfsRoot v = abs l ∧ mountDirPath v = abs (["csi"; "data"] ++ [c])
    ∧ mountPath v = abs (["csi"; "data"] ++ [c; "mount"])
    ∧ clientConfPath v = abs (["csi"; "data"] ++ [c; "beegfs-client.conf"])
    ∧ volDirPath v = abs (["csi"; "data"] ++ [c; "mount"] ++ l)
    ∧ ∀ l0 n, l = l0 ++ [n] → csiDirPath v = abs (["csi"; "data"] ++ [c; "mount"] ++ l0 ++ [".csi"; "volumes"; n]).
Proof. apply created_volume_confined; [by repeat constructor|reflexivity]. Defined.

Lemma crafted_id_reaches_any_directory_witness :
  ∃ id v, cs_newBeegfsVolumeFromID (abs ["csi"; "data"]) pc id = mret (Ok v) ∧ volDirPath v = "/etc/kubernetes".
Proof.
  apply (crafted_id_reaches_any_directory pc ["csi"; "data"] ["etc"; "kubernetes"] "host");
    [by repeat constructor|by repeat constructor|reflexivity].
Defined.

Lemma crafted_id_moves_mount_dir_witness :
  ∃ v, cs_newBeegfsVolumeFromID "/var/lib" pc "beegfs://.." = mret (Ok v) ∧ mountDirPath v = "/var".
Proof. apply (crafted_id_moves_mount_dir pc ["var"] "lib"). by repeat constructor. Defined.

Lemma mount_dirs_distinct_witness :
  ∃ v1 v2, cs_newBeegfsVolume "/csi" pc "host" "/scratch/a_b" "vol_1" = mret v1
    ∧ cs_newBeegfsVolume "/csi" pc "host" "/scratch" "a_b/vol_1" = mret v2 ∧ volumeID v1 = volumeID v2.
Proof.
  destruct (mount_dirs_distinct pc ["csi"] "host" "/scratch/a_b" "vol_1" "host" "/scratch" "a_b/vol_1"
    "host/scratch/a_b/vol_1" "host/scratch/a_b/vol_1") as (v1 & v2 & E1 & E2 & H);
    [constructor; [reflexivity|constructor]|reflexivity..|].
  exists v1, v2. split; [exact E1|]. split; [exact E2|]. rewrite cs_newBeegfsVolume_run in E1, E2.
  injection E1 as <-. injection E2 as <-. apply H; try reflexivity; apply Nat.leb_le; reflexivity.
Defined.

Lemma goFileMode_roundtrip_witness : syscallMode (goFileMode (mkPermissions 0 0 1535)) = 1535%Z.
Proof. apply (goFileMode_roundtrip (mkPermissions 0 0 1535)). cbn. lia. Defined.
End Example.
