(* ===== verification/Params.v ===== *)
(** * Params: the parameters of CreateVolume (controllerserver.go)

    [validateReqParams] consumes a request's parameter map: each parameter it
    understands is checked, stored and deleted from the map, which the caller
    shares; what remains is an error. *)
From S2P Require Import Prelude GoStrings GoPath GoRegexp Config Volume.
Local Open Scope Z_scope.

Definition volDirBasePathKey : string := "volDirBasePath".
Definition sysMgmtdHostKey : string := "sysMgmtdHost".
Definition stripePatternStoragePoolIDKey : string := "stripePattern/storagePoolID".
Definition stripePatternChunkSizeKey : string := "stripePattern/chunkSize".
Definition stripePatternNumTargetsKey : string := "stripePattern/numTargets".
Definition permissionsUIDKey : string := "permissions/uid".
Definition permissionsGIDKey : string := "permissions/gid".
Definition permissionsModeKey : string := "permissions/mode".

Record stripePatternConfig := mkStripe {
  storagePoolID : string;
  stripePatternChunkSize : string;
  stripePatternNumTargets : string
}.

Record reqParameters := mkReqParameters {
  req_sysMgmtdHost : string;
  req_volDirBasePathBeegfsRoot : string;
  volStripePatternConfig : stripePatternConfig;
  volPermissionsConfig : permissionsConfig
}.

Definition chunkSizeRegex : re := Cat (plus (Chr is_digit)) (Chr is_alpha).

(** [strconv.ParseUint] with its error wrapped. *)
Definition parse_uint (s : string) (base bits : Z) (what : string) : result Z :=
  match ParseUint s base bits with
  | inl n => Ok n
  | inr e => Err (Wrap (ErrMsg (num_error_text s e)) ("could not parse provided " +:+ what))
  end.

(** A map printed with %s: its entries sorted by key. *)
Definition key_le (a b : string * string) : Prop := String.leb a.1 b.1 = true.
#[export] Instance key_le_dec a b : Decision (key_le a b).
Proof. unfold key_le. apply _. Defined.
Definition fmt_map (m : gomap) : string :=
  "map[" +:+ Join ((λ kv : string * string, kv.1 +:+ ":" +:+ kv.2) <$> merge_sort key_le (map_to_list m)) " " +:+ "]".

Section Loops.
Context {RO : RangeOrder}.

(** The loop both functions share: [for param := range reqParams], with the
    parameters that are [mine] handled and deleted. *)
Fixpoint params_loop {C} (mine : string → bool) (handle : string → string → C → result C)
    (ks : list string) (cfg : C) (reqParams : gomap) : result (C * gomap) :=
  match ks with
  | [] => Ok (cfg, reqParams)
  | param :: ks' =>
      if mine param then
        cfg' ← handle param (default EmptyString (reqParams !! param)) cfg;
        params_loop mine handle ks' cfg' (delete param reqParams)
      else params_loop mine handle ks' cfg reqParams
  end.

Definition stripe_param (param v : string) (cfg : stripePatternConfig) : result stripePatternConfig :=
  if bool_decide (param = stripePatternStoragePoolIDKey) then
    let cfg' := mkStripe v (stripePatternChunkSize cfg) (stripePatternNumTargets cfg) in
    if bool_decide (v = EmptyString) then Ok cfg' else
    _ ← parse_uint v 10 16 "StoragePoolID"; Ok cfg'
  else if bool_decide (param = stripePatternChunkSizeKey) then
    let cfg' := mkStripe (storagePoolID cfg) v (stripePatternNumTargets cfg) in
    if bool_decide (v = EmptyString) || match_full chunkSizeRegex v then Ok cfg'
    else Err (ErrMsg "could not parse provided chunkSize")
  else if bool_decide (param = stripePatternNumTargetsKey) then
    let cfg' := mkStripe (storagePoolID cfg) (stripePatternChunkSize cfg) v in
    if bool_decide (v = EmptyString) then Ok cfg' else
    _ ← parse_uint v 10 16 "numTargets"; Ok cfg'
  else Err (ErrMsg ("CreateVolume parameter invalid: " +:+ param)).

Definition getStripePatternConfigFromParams (reqParams : gomap) : result (stripePatternConfig * gomap) :=
  params_loop (λ param, Contains param "stripePattern/") stripe_param (range_order reqParams).*1
    (mkStripe EmptyString EmptyString EmptyString) reqParams.

Definition permissions_param (param v : string) (cfg : permissionsConfig) : result permissionsConfig :=
  if bool_decide (param = permissionsUIDKey) then
    n ← parse_uint v 10 32 "UID"; Ok (mkPermissions n (gid cfg) (mode cfg))
  else if bool_decide (param = permissionsGIDKey) then
    n ← parse_uint v 10 32 "GID"; Ok (mkPermissions (uid cfg) n (mode cfg))
  else if bool_decide (param = permissionsModeKey) then
    n ← parse_uint v 8 12 "mode"; Ok (mkPermissions (uid cfg) (gid cfg) n)
  else Err (ErrMsg ("CreateVolume parameter invalid: " +:+ param)).

Definition getPermissionsConfigFromParams (reqParams : gomap) : result (permissionsConfig * gomap) :=
  params_loop (λ param, HasPrefix param "permissions/") permissions_param (range_order reqParams).*1
    (mkPermissions 0 0 defaultPermissionsMode) reqParams.

(** The parameters, and what the map holds afterwards. *)
Definition validateReqParams (params : gomap) : result (reqParameters * gomap) :=
  let host := default EmptyString (params !! sysMgmtdHostKey) in
  if bool_decide (host = EmptyString) then Err (ErrMsg "sysMgmtdHost not provided") else
  let params := delete sysMgmtdHostKey params in
  match params !! volDirBasePathKey with
  | None => Err (ErrMsg "volDirBasePath not provided")
  | Some volDirBasePathBeegfsRoot =>
      let base := Clean (PathJoin ["/"; volDirBasePathBeegfsRoot]) in
      let params := delete volDirBasePathKey params in
      '(stripe, params) ← getStripePatternConfigFromParams params;
      '(permissions, params) ← getPermissionsConfigFromParams params;
      if bool_decide (params = ∅) then Ok (mkReqParameters host base stripe permissions, params)
      else Err (ErrMsg ("CreateVolume parameter invalid: " +:+ fmt_map params))
  end.
End Loops.

(** ** What the loops compute *)

Section Loop_spec.
Context {C : Type} (mine : string → bool) (handle : string → string → C → result C).

(** Handling the parameters that are [mine], without the map. *)
Fixpoint handle_all (kvs : list (string * string)) (cfg : C) : result C :=
  match kvs with
  | [] => Ok cfg
  | (k, v) :: r => if mine k then cfg' ← handle k v cfg; handle_all r cfg' else handle_all r cfg
  end.

Lemma params_loop_spec kvs : ∀ cfg (m : gomap),
  NoDup kvs.*1 → (∀ k v, (k, v) ∈ kvs → m !! k = Some v) →
  params_loop mine handle kvs.*1 cfg m
  = cfg' ← handle_all kvs cfg; Ok (cfg', filter (λ kv, ¬ (kv.1 ∈ kvs.*1 ∧ mine kv.1 = true)) m).
Proof.
  induction kvs as [|[k v] kvs IH]; intros cfg m Hnd Hm.
  - cbn. f_equal. f_equal. symmetry. apply map_filter_id. intros i x _. rewrite elem_of_nil. tauto.
  - rewrite fmap_cons in *. cbn [fst params_loop handle_all] in *. apply NoDup_cons in Hnd as [Hk Hnd].
    assert (m !! k = Some v) as Ek by (apply Hm; by left).
    rewrite Ek. cbn [default from_option id]. destruct (mine k) eqn:Hmine.
    + destruct (handle k v cfg) as [cfg'|e]; [|done]. cbn [mbind result_bind]. rewrite IH; [|done|].
      * destruct (handle_all kvs cfg'); [|done]. cbn. f_equal. f_equal. apply map_eq. intros i.
        rewrite map_filter_delete. destruct (decide (i = k)) as [->|Hne].
        { rewrite lookup_delete_eq. symmetry. apply map_lookup_filter_None. right.
          intros x _. cbn. set_solver. }
        rewrite lookup_delete_ne by done. rewrite !map_lookup_filter.
        destruct (m !! i); [|done]. cbn. repeat case_guard; set_solver.
      * intros k' v' Hin. rewrite lookup_delete_ne; [apply Hm; by right|].
        intros ->. apply Hk. apply list_elem_of_fmap. by exists (k', v').
    + rewrite IH; [|done|intros; apply Hm; by right].
      destruct (handle_all kvs cfg); [|done]. cbn. f_equal. f_equal. apply map_filter_ext.
      intros i x _. cbn. rewrite elem_of_cons. naive_solver congruence.
Qed.

Context (valid : string → string → bool) (set : string → string → C → C).
Hypothesis handle_spec : ∀ k v c,
  match handle k v c with Ok c' => valid k v = true ∧ c' = set k v c | Err _ => valid k v = false end.

Definition set_all (kvs : list (string * string)) (cfg : C) : C :=
  foldl (λ c kv, if mine kv.1 then set kv.1 kv.2 c else c) cfg kvs.

Lemma handle_all_spec kvs : ∀ cfg c,
  handle_all kvs cfg = Ok c ↔
  Forall (λ kv, mine kv.1 = true → valid kv.1 kv.2 = true) kvs ∧ c = set_all kvs cfg.
Proof.
  induction kvs as [|[k v] kvs IH]; intros cfg c; cbn [handle_all set_all foldl fst snd].
  - split; [intros [= <-]; by split|intros [_ ->]; done].
  - rewrite Forall_cons. cbn [fst snd]. destruct (mine k); [|rewrite IH; naive_solver].
    specialize (handle_spec k v cfg). destruct (handle k v cfg) as [c'|e]; cbn [mbind result_bind].
    + destruct handle_spec as [Hv ->]. rewrite IH. naive_solver.
    + naive_solver congruence.
Qed.

(** A field that one key sets holds that key's value. *)
Lemma set_all_field {F} (f : C → F) (g : string → F) K kvs : ∀ cfg,
  (∀ k v c, f (set k v c) = if bool_decide (k = K) then g v else f c) → mine K = true → NoDup kvs.*1 →
  f (set_all kvs cfg)
  = match (list_to_map kvs : gomap) !! K with Some v => g v | None => f cfg end.
Proof.
  intros cfg Hset HK. revert cfg. induction kvs as [|[k v] kvs IH]; intros cfg Hnd; [done|].
  rewrite fmap_cons in Hnd. apply NoDup_cons in Hnd as [Hk Hnd]. cbn [set_all foldl fst snd]. rewrite list_to_map_cons.
  fold (set_all kvs (if mine k then set k v cfg else cfg)). rewrite IH by done.
  destruct (decide (k = K)) as [->|Hne].
  - rewrite lookup_insert_eq, not_elem_of_list_to_map_1 by done. rewrite HK, Hset.
    by rewrite bool_decide_eq_true_2.
  - rewrite lookup_insert_ne by done. destruct (list_to_map kvs !! K); [done|].
    destruct (mine k); [|done]. by rewrite Hset, bool_decide_eq_false_2.
Qed.
End Loop_spec.

(** ** The specification of the parameters *)

Definition uint_ok (base bits : Z) (v : string) : bool :=
  match ParseUint v base bits with inl _ => true | inr _ => false end.
Definition uint_val (base bits : Z) (v : string) : Z :=
  match ParseUint v base bits with inl n => n | inr _ => 0 end.

Definition stripe_valid (k v : string) : bool :=
  (bool_decide (k = stripePatternStoragePoolIDKey) && (bool_decide (v = EmptyString) || uint_ok 10 16 v))
  || (bool_decide (k = stripePatternChunkSizeKey) && (bool_decide (v = EmptyString) || match_full chunkSizeRegex v))
  || (bool_decide (k = stripePatternNumTargetsKey) && (bool_decide (v = EmptyString) || uint_ok 10 16 v)).
Definition stripe_set (k v : string) (c : stripePatternConfig) : stripePatternConfig :=
  mkStripe (if bool_decide (k = stripePatternStoragePoolIDKey) then v else storagePoolID c)
    (if bool_decide (k = stripePatternChunkSizeKey) then v else stripePatternChunkSize c)
    (if bool_decide (k = stripePatternNumTargetsKey) then v else stripePatternNumTargets c).

Lemma stripe_param_spec k v c :
  match stripe_param k v c with
  | Ok c' => stripe_valid k v = true ∧ c' = stripe_set k v c
  | Err _ => stripe_valid k v = false
  end.
Proof.
  unfold stripe_param, stripe_valid, stripe_set, uint_ok, parse_uint.
  destruct (bool_decide (k = stripePatternStoragePoolIDKey)) eqn:E1; [|
  destruct (bool_decide (k = stripePatternChunkSizeKey)) eqn:E2; [|
  destruct (bool_decide (k = stripePatternNumTargetsKey)) eqn:E3]]; bools; subst;
    repeat (rewrite bool_decide_eq_false_2 by done); cbn [andb orb]; rewrite ?orb_false_r; try done;
    destruct (bool_decide (v = EmptyString)); cbn [orb]; try (by destruct (ParseUint v 10 16));
    by destruct (match_full chunkSizeRegex v).
Qed.

Definition permissions_valid (k v : string) : bool :=
  (bool_decide (k = permissionsUIDKey) && uint_ok 10 32 v)
  || (bool_decide (k = permissionsGIDKey) && uint_ok 10 32 v)
  || (bool_decide (k = permissionsModeKey) && uint_ok 8 12 v).
Definition permissions_set (k v : string) (c : permissionsConfig) : permissionsConfig :=
  mkPermissions (if bool_decide (k = permissionsUIDKey) then uint_val 10 32 v else uid c)
    (if bool_decide (k = permissionsGIDKey) then uint_val 10 32 v else gid c)
    (if bool_decide (k = permissionsModeKey) then uint_val 8 12 v else mode c).

Lemma permissions_param_spec k v c :
  match permissions_param k v c with
  | Ok c' => permissions_valid k v = true ∧ c' = permissions_set k v c
  | Err _ => permissions_valid k v = false
  end.
Proof.
  unfold permissions_param, permissions_valid, permissions_set, uint_ok, uint_val, parse_uint.
  destruct (bool_decide (k = permissionsUIDKey)) eqn:E1; [|
  destruct (bool_decide (k = permissionsGIDKey)) eqn:E2; [|
  destruct (bool_decide (k = permissionsModeKey)) eqn:E3]]; bools; subst;
    repeat (rewrite bool_decide_eq_false_2 by done); cbn [andb orb]; rewrite ?orb_false_r; try done;
    by destruct (ParseUint v _ _).
Qed.

Section Spec.
Context {RO : RangeOrder}.

Definition val (m : gomap) (k : string) : string := default EmptyString (m !! k).
Definition uint_param (m : gomap) (k : string) (base bits dflt : Z) : Z :=
  match m !! k with Some v => uint_val base bits v | None => dflt end.

Lemma loop_range {C} mine handle valid set (cfg : C) (m : gomap) r :
  (∀ k v c, match handle k v c with
            | Ok c' => valid k v = true ∧ c' = set k v c | Err _ => valid k v = false end) →
  params_loop mine handle (range_order m).*1 cfg m = Ok r ↔
  (∀ k v, m !! k = Some v → mine k = true → valid k v = true)
  ∧ r = (set_all mine set (range_order m) cfg, filter (λ kv, mine kv.1 = false) m).
Proof.
  intros Hh. rewrite params_loop_spec;
    [|apply range_order_NoDup|intros k v; apply elem_of_range_order].
  rewrite result_bind_ok.
  assert (filter (λ kv, ¬ (kv.1 ∈ (range_order m).*1 ∧ mine kv.1 = true)) m
    = filter (λ kv, mine kv.1 = false) m) as ->.
  { apply map_filter_ext. intros k v Hk. cbn. rewrite <- not_true_iff_false.
    assert (k ∈ (range_order m).*1); [|tauto].
    apply list_elem_of_fmap. exists (k, v). split; [done|]. by apply elem_of_range_order. }
  split.
  - intros (c & (Hall & ->)%(handle_all_spec _ _ _ _ Hh) & [= <-]). split; [|done].
    intros k v Hk Hm. rewrite Forall_forall in Hall. apply (Hall (k, v)); [|done]. by apply elem_of_range_order.
  - intros [Hall ->]. eexists. split; [|done]. apply (handle_all_spec _ _ _ _ Hh). split; [|done].
    apply Forall_forall. intros [k v] Hin%elem_of_range_order Hm. by apply Hall.
Qed.

Lemma getStripePattern_spec (m : gomap) r :
  getStripePatternConfigFromParams m = Ok r ↔
  (∀ k v, m !! k = Some v → Contains k "stripePattern/" = true → stripe_valid k v = true)
  ∧ r = (mkStripe (val m stripePatternStoragePoolIDKey) (val m stripePatternChunkSizeKey)
           (val m stripePatternNumTargetsKey),
         filter (λ kv, Contains kv.1 "stripePattern/" = false) m).
Proof.
  unfold getStripePatternConfigFromParams. rewrite (loop_range _ _ _ _ _ _ _ stripe_param_spec).
  set (c := set_all _ _ _ _).
  assert (c = mkStripe (val m stripePatternStoragePoolIDKey) (val m stripePatternChunkSizeKey)
    (val m stripePatternNumTargetsKey)) as ->; [|done].
  assert (∀ (f : stripePatternConfig → string) K,
    (∀ k v c, f (stripe_set k v c) = if bool_decide (k = K) then v else f c) → Contains K "stripePattern/" = true →
    f (mkStripe EmptyString EmptyString EmptyString) = EmptyString → f c = val m K) as Hf.
  { intros f K Hs HK H0. unfold c. rewrite (set_all_field _ _ f id K) by (done || apply range_order_NoDup).
    rewrite list_to_map_range_order, H0. unfold val. by destruct (m !! K). }
  destruct c as [a b d] eqn:E. f_equal.
  - by apply (Hf storagePoolID).
  - by apply (Hf stripePatternChunkSize).
  - by apply (Hf stripePatternNumTargets).
Qed.

Lemma getPermissions_spec (m : gomap) r :
  getPermissionsConfigFromParams m = Ok r ↔
  (∀ k v, m !! k = Some v → HasPrefix k "permissions/" = true → permissions_valid k v = true)
  ∧ r = (mkPermissions (uint_param m permissionsUIDKey 10 32 0) (uint_param m permissionsGIDKey 10 32 0)
           (uint_param m permissionsModeKey 8 12 defaultPermissionsMode),
         filter (λ kv, HasPrefix kv.1 "permissions/" = false) m).
Proof.
  unfold getPermissionsConfigFromParams. rewrite (loop_range _ _ _ _ _ _ _ permissions_param_spec).
  set (c := set_all _ _ _ _).
  assert (c = mkPermissions (uint_param m permissionsUIDKey 10 32 0) (uint_param m permissionsGIDKey 10 32 0)
           (uint_param m permissionsModeKey 8 12 defaultPermissionsMode)) as ->; [|done].
  assert (∀ (f : permissionsConfig → Z) K base bits dflt,
    (∀ k v c, f (permissions_set k v c) = if bool_decide (k = K) then uint_val base bits v else f c) →
    HasPrefix K "permissions/" = true →
    f (mkPermissions 0 0 defaultPermissionsMode) = dflt → f c = uint_param m K base bits dflt) as Hf.
  { intros f K base bits dflt Hs HK <-. unfold c.
    rewrite (set_all_field _ _ f (uint_val base bits) K) by (done || apply range_order_NoDup).
    by rewrite list_to_map_range_order. }
  destruct c as [a b d] eqn:E. f_equal.
  - by apply (Hf uid).
  - by apply (Hf gid).
  - by apply (Hf mode).
Qed.

(** Which requests are valid, and what they ask for. *)
Definition params_ok (m : gomap) (p : reqParameters) : Prop :=
  req_sysMgmtdHost p ≠ EmptyString
  ∧ m !! sysMgmtdHostKey = Some (req_sysMgmtdHost p)
  ∧ (∃ b, m !! volDirBasePathKey = Some b ∧ req_volDirBasePathBeegfsRoot p = Clean (PathJoin ["/"; b]))
  ∧ (∀ k v, m !! k = Some v → k = sysMgmtdHostKey ∨ k = volDirBasePathKey
       ∨ stripe_valid k v = true ∨ permissions_valid k v = true)
  ∧ volStripePatternConfig p = mkStripe (val m stripePatternStoragePoolIDKey) (val m stripePatternChunkSizeKey)
      (val m stripePatternNumTargetsKey)
  ∧ volPermissionsConfig p = mkPermissions (uint_param m permissionsUIDKey 10 32 0)
      (uint_param m permissionsGIDKey 10 32 0) (uint_param m permissionsModeKey 8 12 defaultPermissionsMode).

Lemma stripe_valid_key k v :
  stripe_valid k v = true → Contains k "stripePattern/" = true ∧ HasPrefix k "permissions/" = false
  ∧ k ≠ sysMgmtdHostKey ∧ k ≠ volDirBasePathKey.
Proof.
  unfold stripe_valid. rewrite !orb_true_iff. intros [[H|H]|H]; bools; subst k; split_and!; by vm_compute.
Qed.
Lemma permissions_valid_key k v :
  permissions_valid k v = true → HasPrefix k "permissions/" = true ∧ Contains k "stripePattern/" = false
  ∧ k ≠ sysMgmtdHostKey ∧ k ≠ volDirBasePathKey.
Proof.
  unfold permissions_valid. rewrite !orb_true_iff. intros [[H|H]|H]; bools; subst k; split_and!; by vm_compute.
Qed.

Lemma val_delete2 (m : gomap) k a b : k ≠ a → k ≠ b → val (delete a (delete b m)) k = val m k.
Proof. intros H1 H2. unfold val. by rewrite !lookup_delete_ne. Qed.

Lemma uint_param_rest (m : gomap) k a b base bits dflt :
  k ≠ a → k ≠ b → Contains k "stripePattern/" = false →
  uint_param (filter (λ kv, Contains kv.1 "stripePattern/" = false) (delete a (delete b m))) k base bits dflt
  = uint_param m k base bits dflt.
Proof.
  intros H1 H2 H3. unfold uint_param. rewrite map_lookup_filter, !lookup_delete_ne by done.
  destruct (m !! k); [|done]. cbn. by case_guard.
Qed.

(** Nothing is left over exactly when every parameter belongs to one of the groups. *)
Lemma leftover_spec (m : gomap) :
  filter (λ kv, HasPrefix kv.1 "permissions/" = false)
    (filter (λ kv, Contains kv.1 "stripePattern/" = false) m) = ∅
  ↔ ∀ k v, m !! k = Some v → Contains k "stripePattern/" = true ∨ HasPrefix k "permissions/" = true.
Proof.
  rewrite map_filter_filter. split.
  - intros H k v Hk. pose proof (map_empty_filter_1 _ _ H k v Hk) as Hn. cbn in Hn.
    destruct (Contains k "stripePattern/"), (HasPrefix k "permissions/"); tauto.
  - intros H. apply map_empty_filter_2. intros k v Hk [H1 H2]. cbn in *. destruct (H k v Hk); congruence.
Qed.

Lemma validateReqParams_iff (m : gomap) p m' :
  validateReqParams m = Ok (p, m') ↔ params_ok m p ∧ m' = ∅.
Proof.
  unfold validateReqParams. cbv zeta.
  set (m1 := delete volDirBasePathKey (delete sysMgmtdHostKey m)).
  rewrite lookup_delete_ne by done. split.
  - case_bool_decide as Hh; [done|]. destruct (m !! volDirBasePathKey) as [b|] eqn:Hb; [|done].
    intros ([stripe m2] & (Hs & [= -> ->])%getStripePattern_spec & H)%result_bind_ok.
    apply result_bind_ok in H as ([perm m3] & (Hp & [= -> ->])%getPermissions_spec & H).
    case_bool_decide as He; [|done]. injection H as <- <-. split; [|done].
    rewrite leftover_spec in He. unfold params_ok.
    cbn [req_sysMgmtdHost req_volDirBasePathBeegfsRoot volStripePatternConfig volPermissionsConfig]. split_and!.
    + done.
    + by destruct (m !! sysMgmtdHostKey).
    + by exists b.
    + intros k v Hk. destruct (decide (k = sysMgmtdHostKey)); [by left|].
      destruct (decide (k = volDirBasePathKey)); [by right; left|]. right; right.
      assert (m1 !! k = Some v) as Hk1 by (unfold m1; by rewrite !lookup_delete_ne).
      destruct (Contains k "stripePattern/") eqn:Ec; [left; eauto|right].
      apply Hp; [|by destruct (He k v Hk1); congruence]. apply map_lookup_filter_Some. by split.
    + unfold m1. by rewrite !val_delete2.
    + unfold m1. by rewrite !uint_param_rest.
  - destruct p as [host base stripe perm]. intros [(Hne & Hh & (b & Hb & Hbase) & Hall & Hst & Hpe) ->].
    cbn [req_sysMgmtdHost req_volDirBasePathBeegfsRoot volStripePatternConfig volPermissionsConfig] in *.
    rewrite Hh, Hb. cbn [default from_option id]. rewrite bool_decide_eq_false_2 by done.
    assert (∀ k v, m1 !! k = Some v → stripe_valid k v = true ∨ permissions_valid k v = true) as Hall1.
    { intros k v Hk. unfold m1 in Hk. rewrite !lookup_delete_Some in Hk. naive_solver. }
    assert (getStripePatternConfigFromParams m1 = Ok (stripe, filter (λ kv, Contains kv.1 "stripePattern/" = false) m1)) as ->.
    { apply getStripePattern_spec. split; [|unfold m1; rewrite Hst, !val_delete2; done].
      intros k v Hk Hc. destruct (Hall1 k v Hk) as [|Hv]; [done|].
      apply permissions_valid_key in Hv as (_ & ? & _). congruence. }
    cbn [mbind result_bind].
    assert (getPermissionsConfigFromParams (filter (λ kv, Contains kv.1 "stripePattern/" = false) m1)
      = Ok (perm, ∅)) as ->; [|cbn; by rewrite Hbase].
    apply getPermissions_spec. split.
    + intros k v (Hk & Hc)%map_lookup_filter_Some Hp. destruct (Hall1 k v Hk) as [Hv|]; [|done].
      apply stripe_valid_key in Hv as (? & _). cbn in Hc. congruence.
    + unfold m1. rewrite Hpe, !uint_param_rest by done. f_equal. symmetry. apply leftover_spec.
      intros k v Hk. destruct (Hall1 k v Hk) as [Hv|Hv];
        [apply stripe_valid_key in Hv as (? & _); by left|apply permissions_valid_key in Hv as (? & _); by right].
Qed.

(** [ParseUint] returns values of its width. *)
Lemma parse_digits_range base maxVal s : ∀ n v,
  1 < base → 0 ≤ n ≤ maxVal → parse_digits base maxVal n s = inl v → 0 ≤ v ≤ maxVal.
Proof.
  induction s as [|c s IH]; intros n v Hb Hn; cbn; [by intros [= <-]|].
  destruct (base <=? digit_val c) eqn:E1; [done|]. destruct (maxVal <? n * base + digit_val c) eqn:E2; [done|].
  apply IH; [done|]. assert (0 ≤ digit_val c); [|nia].
  unfold digit_val, is_digit, is_lower, is_upper, in_range, byte_val. repeat case_match; bools; lia.
Qed.

Lemma uint_val_range base bits v : 1 < base → 0 ≤ bits → 0 ≤ uint_val base bits v < 2 ^ bits.
Proof.
  intros Hb Hbits. unfold uint_val, ParseUint. pose proof (Z.pow_pos_nonneg 2 bits ltac:(lia) Hbits).
  destruct v as [|c v]; [lia|]. destruct (parse_digits _ _ _ _) as [n|] eqn:E; [|lia].
  apply parse_digits_range in E; lia.
Qed.

(** ** The values that are accepted, and those that are documented *)




















(** A valid request asks for a rooted base path. *)
Lemma params_rooted m p m' : validateReqParams m = Ok (p, m') → is_rooted (req_volDirBasePathBeegfsRoot p) = true.
Proof.
  intros [(_ & _ & (b & _ & Hb) & _ & _ & Hp) _]%validateReqParams_iff. rewrite Hb.
  destruct (Clean_rooted (PathJoin ["/"; b])) as [-> _]; [|apply is_rooted_abs].
  change "/" with (abs []). rewrite PathJoin_abs2 by constructor. apply is_rooted_abs.
Qed.

(** A valid request asks for a rooted base path and for a mode of 12 and
    owner IDs of 32 bits, so the conversions to uint16 and uint32 lose nothing. *)
Theorem validateReqParams_bounds m p m' :
  validateReqParams m = Ok (p, m') →
  is_rooted (req_volDirBasePathBeegfsRoot p) = true ∧ 0 ≤ mode (volPermissionsConfig p) < 2 ^ 12
  ∧ 0 ≤ uid (volPermissionsConfig p) < 2 ^ 32 ∧ 0 ≤ gid (volPermissionsConfig p) < 2 ^ 32.
Proof.
  intros Hv. split; [by eapply params_rooted|].
  apply validateReqParams_iff in Hv as [(_ & _ & _ & _ & _ & Hp) _]. rewrite Hp. cbn [uid gid mode]. unfold uint_param.
  repeat case_match; split_and!; try (unfold defaultPermissionsMode; lia);
    try apply uint_val_range; lia.
Qed.
End Spec.

(** ** Examples *)

Module Example.
Definition request : gomap :=
  {["sysMgmtdHost" := "10.0.0.1"; "volDirBasePath" := "scratch/../data"; "stripePattern/chunkSize" := "512k";
    "permissions/mode" := "2755"; "permissions/uid" := "1000"]}.
Definition parsed : reqParameters :=
  mkReqParameters "10.0.0.1" "/data" (mkStripe "" "512k" "") (mkPermissions 1000 0 1517).

Lemma validateReqParams_bounds_witness :
  is_rooted (req_volDirBasePathBeegfsRoot parsed) = true ∧ 0 ≤ mode (volPermissionsConfig parsed) < 2 ^ 12
  ∧ 0 ≤ uid (volPermissionsConfig parsed) < 2 ^ 32 ∧ 0 ≤ gid (volPermissionsConfig parsed) < 2 ^ 32.
Proof. apply (validateReqParams_bounds (RO := reverse_order) request parsed ∅). vm_compute. reflexivity. Defined.
End Example.
