(* ===== verification/ThreadSafe.v ===== *)
(** * ThreadSafe: the tables of thread_safe.go

    Each method holds the table's mutex while it runs, so it is one atomic step
    on the table. *)
From S2P Require Import Prelude World.

(** ** threadSafeStringLock: the strings in use *)

Record threadSafeStringLock := mkLock { lock_items : gset string }.
Definition newThreadSafeStringLock : threadSafeStringLock := mkLock ∅.

Definition obtainLockOnString (stringToLock : string) (v : threadSafeStringLock) : bool * threadSafeStringLock :=
  if bool_decide (stringToLock ∈ lock_items v) then (false, v)
  else (true, mkLock ({[stringToLock]} ∪ lock_items v)).

Definition releaseLockOnString (stringToUnlock : string) (v : threadSafeStringLock) : threadSafeStringLock :=
  mkLock (lock_items v ∖ {[stringToUnlock]}).

(** ** threadSafeStatusMap: the checkpoints volumes have reached *)

Record threadSafeStatusMap := mkStatusMap { status_items : gmap string volumeStatus }.
Definition newThreadSafeStatusMap : threadSafeStatusMap := mkStatusMap ∅.

Definition writeStatus (volumeID : string) (status : volumeStatus) (m : threadSafeStatusMap) : threadSafeStatusMap :=
  mkStatusMap (<[volumeID := status]> (status_items m)).
Definition readStatus (volumeID : string) (m : threadSafeStatusMap) : option volumeStatus :=
  status_items m !! volumeID.
