(* ===== verification/Sim.v ===== *)
(** * Sim: a small host to evaluate the driver's programs in

    File system calls succeed; the mount table, the commands, the node tracking
    directory and the clock are the state's. The shared tables are those of
    ThreadSafe.v. *)
From S2P Require Import Prelude GoStrings Prog Config World ThreadSafe.
Local Open Scope Z_scope.

Record sim := mkSim {
  sim_clock : Z;
  sim_mounts : list MountPoint;
  sim_mounted : result bool;               (** IsLikelyNotMountPoint's answer *)
  sim_nodes : option bool;                 (** the nodes directory: is it empty? *)
  sim_cmd : string → list string → cmd_result;
  sim_file : result string;                (** what reading a file gives *)
  sim_locks : threadSafeStringLock;
  sim_status : threadSafeStatusMap
}.

Definition set_clock (f : Z → Z) (w : sim) : sim :=
  mkSim (f (sim_clock w)) (sim_mounts w) (sim_mounted w) (sim_nodes w) (sim_cmd w) (sim_file w)
    (sim_locks w) (sim_status w).
Definition set_locks (l : threadSafeStringLock) (w : sim) : sim :=
  mkSim (sim_clock w) (sim_mounts w) (sim_mounted w) (sim_nodes w) (sim_cmd w) (sim_file w) l (sim_status w).
Definition set_status (s : threadSafeStatusMap) (w : sim) : sim :=
  mkSim (sim_clock w) (sim_mounts w) (sim_mounted w) (sim_nodes w) (sim_cmd w) (sim_file w) (sim_locks w) s.

Definition sim_handle (e : event) (w : sim) : response e * sim :=
  match e with
  | MkdirAll _ _ | Mkdir _ _ | Stat _ | WriteFile _ _ _ | Create _ | WriteTo _ _ | RemoveAll _ | Remove _
  | Chmod _ _ | CloseConn | Mount _ _ _ _ | CleanupMountPoint _ _ => (Ok tt, w)
  | ReadFile _ => (sim_file w, w)
  | ReadDir _ => (Ok [], w)
  | DirExists _ => (Ok (match sim_nodes w with Some _ => true | None => false end), w)
  | Exists _ => (Ok true, w)
  | IsEmpty _ => (Ok (default true (sim_nodes w)), w)
  | IsLikelyNotMountPoint _ => (sim_mounted w, w)
  | IsMountPoint _ => (Ok false, w)
  | ListenPacket _ _ => (Ok ("udp", "0.0.0.0:40000"), w)
  | ResolveUDPAddr _ _ => (Ok 40000, w)
  | MountList => (Ok (sim_mounts w), w)
  | RunCmd name args => (sim_cmd w name args, w)
  | SelinuxGetEnabled => (true, w)
  | TimeNow => (sim_clock w, w)
  | Sleep d => (tt, set_clock (λ t, t + Z.max 0 d) w)
  | RangeMap m => (exist _ (map_to_list m) (Permutation_refl _), w)
  | ObtainLock s => let '(b, l) := obtainLockOnString s (sim_locks w) in (b, set_locks l w)
  | ReleaseLock s => (tt, set_locks (releaseLockOnString s (sim_locks w)) w)
  | ReadStatus id => (readStatus id (sim_status w), w)
  | WriteStatus id s => (tt, set_status (writeStatus id s (sim_status w)) w)
  end.

(** A host where every command succeeds and nothing is mounted or locked. *)
Definition sim0 : sim :=
  mkSim 0 [] (Ok true) None (λ _ _, mkCmd EmptyString EmptyString None) (Ok EmptyString)
    newThreadSafeStringLock newThreadSafeStatusMap.

Definition sim_trace {A} (p : io A) (w : sim) : io_trace := (run sim_handle p w).1.1.
Definition sim_ending {A} (p : io A) (w : sim) : ending A := (run sim_handle p w).1.2.

Lemma sim_exec {A} (p : io A) w : exec p (sim_trace p w) (sim_ending p w).
Proof. apply run_exec. Qed.
