(* ===== verification/Mounts.v ===== *)
(** * Mounts: mounting, unmounting and cleaning up (beegfs_util.go) *)
From S2P Require Import Prelude GoStrings GoPath Prog Config Volume World.
Local Open Scope Z_scope.

(** ** Mount options *)

(** [removeInvalidMountOptions]: the options in order, without duplicates and
    without any that mention cfgFile. *)
Fixpoint remove_invalid (mountOpts inputMountOpts : list string) : list string :=
  match inputMountOpts with
  | [] => mountOpts
  | opt :: r =>
      if Contains (ToLower opt) "cfgfile" then remove_invalid mountOpts r
      else if bool_decide (opt ∈ mountOpts) then remove_invalid mountOpts r
      else remove_invalid (mountOpts ++ [opt]) r
  end.
Definition removeInvalidMountOptions (inputMountOpts : list string) : list string :=
  remove_invalid [] inputMountOpts.

Section Mounts.
Context {SE : Selinux}.

Definition defaultContext : list (string * string) :=
  [("user", "system_u"); ("role", "object_r"); ("type", "container_file_t"); ("level", "s0")].

Definition addContextToMountOptionsIfNecessary (inputMountOpts : list string) : list string :=
  if existsb (λ o, HasPrefix o "context=") inputMountOpts then inputMountOpts
  else inputMountOpts ++ ["context=" +:+ context_Get defaultContext].

Definition constructMountOptions (desiredMountOpts : list string) (vol : beegfsVolume) : io (list string) :=
  let mountOpts :=
    match desiredMountOpts with
    | [] => ["rw"; "relatime"; "cfgFile=" +:+ clientConfPath vol; "nosuid"]
    | _ => removeInvalidMountOptions desiredMountOpts ++ ["cfgFile=" +:+ clientConfPath vol]
    end in
  enabled ← do SelinuxGetEnabled;
  mret (if enabled : bool then addContextToMountOptionsIfNecessary mountOpts else mountOpts).

(** ** Mounting *)

Definition mount_beegfs (vol : beegfsVolume) (mountOpts : list string) : io (result unit) :=
  let? _ := do (Mount "beegfs_nodev" (mountPath vol) "beegfs" mountOpts) catch err => fail (WithStack err) in
  ok tt.

Definition mountIfNecessary (vol : beegfsVolume) (desiredMountOpts : list string) : io (result unit) :=
  mountOpts ← constructMountOptions desiredMountOpts vol;
  r ← do (IsLikelyNotMountPoint (mountPath vol));
  match r with
  | Err err =>
      if os_IsNotExist err then
        let? _ := do (Mkdir (mountPath vol) 0x1e8) catch err => fail (WithStack err) in
        mount_beegfs vol mountOpts
      else fail (WithStack err)
  | Ok notMnt => if notMnt : bool then mount_beegfs vol mountOpts else ok tt
  end.
End Mounts.

(** ** Cleaning up *)

Fixpoint remove_entries (dir : string) (names : list string) : io (result unit) :=
  match names with
  | [] => ok tt
  | d :: r =>
      let? _ := do (RemoveAll (PathJoin [dir; d])) catch err => fail (WithStack err) in
      remove_entries dir r
  end.

Definition cleanUpIfNecessary (vol : beegfsVolume) (rmDir : bool) : io (result unit) :=
  if negb rmDir then
    let? dir := do (ReadDir (mountDirPath vol)) catch err => fail (WithStack err) in
    remove_entries (mountDirPath vol) dir
  else
    let? _ := do (RemoveAll (mountDirPath vol)) catch err => fail (WithStack err) in
    ok tt.

(** Is a mount entry a bind mount of the volume's file system somewhere else? *)
Definition bind_mounted (vol : beegfsVolume) (entry : MountPoint) : bool :=
  let exclude := PathJoin [Base (mountDirPath vol); "mount"] in
  bool_decide (mp_Device entry = "beegfs_nodev") && negb (Contains (mp_Path entry) exclude)
  && existsb (λ o, Contains o (clientConfPath vol)) (mp_Opts entry).

Fixpoint first_match {A} (p : A → bool) (l : list A) : option A :=
  match l with [] => None | x :: r => if p x then Some x else first_match p r end.

Definition unmountAndCleanUpIfNecessary (vol : beegfsVolume) (rmDir : bool) : io (result unit) :=
  let? allMounts := do MountList catch err => fail (Wrap err "error listing mounted filesystems") in
  match first_match (bind_mounted vol) allMounts with
  | Some entry =>
      fail (ErrMsg ("refused to unmount staged file system at " +:+ mountPath vol
                    +:+ " while bind mounted at " +:+ mp_Path entry))
  | None =>
      let? _ := do (CleanupMountPoint (mountPath vol) false) catch err => fail (WithStack err) in
      let? _ := cleanUpIfNecessary vol rmDir catch err =>
        fail (Wrap err ("failed to clean up " +:+ mountDirPath vol +:+ " for " +:+ volumeID vol)) in
      ok tt
  end.

(** ** An ephemeral port *)

Definition getEphemeralPortUDP : io (result Z) :=
  let? conn := do (ListenPacket "udp4" EmptyString) catch err => fail (WithStack err) in
  res ← do (ResolveUDPAddr conn.1 conn.2);
  let ret := match res with Ok port => Ok port | Err err => Err (WithStack err) end in
  (* deferred: conn.Close() *)
  closed ← do CloseConn;
  match closed with
  | Ok _ => mret ret
  | Err closeErr =>
      let closeErr := WithStack closeErr in
      match ret with
      | Err err => fail (Wrap err (error_text closeErr))
      | Ok _ => fail closeErr
      end
  end.

(** ** Deleting a volume once the nodes have unstaged it (controllerserver.go) *)

(** [time.Duration(waitTime) * time.Second] in an int64. *)
Definition wrap_int64 (z : Z) : Z := (z + 2 ^ 63) mod 2 ^ 64 - 2 ^ 63.
Definition seconds (n : Z) : Z := wrap_int64 (wrap_int64 n * 1000000000).

(** The loop: [Ok tt] when it is time to delete the volume itself. *)
Fixpoint wait_unstaged (fuel : nat) (vol : beegfsVolume) (start waitTime : Z) : io (result unit) :=
  match fuel with
  | O => OutOfFuel
  | S fuel' =>
      let nodesPath := PathJoin [csiDirPath vol; "nodes"] in
      let remove_csi : io (result unit) :=
        let? _ := do (RemoveAll (csiDirPath vol)) catch err => fail (WithStack err) in ok tt in
      let? dirExists := do (DirExists nodesPath) catch err => fail (WithStack err) in
      if dirExists : bool then
        let? isEmpty := do (IsEmpty nodesPath) catch err => fail (WithStack err) in
        if negb isEmpty then
          now ← do TimeNow;
          if now - start <? seconds waitTime then
            (* secondsLeft, for the log *)
            _ ← do TimeNow;
            _ ← do (Sleep (2 * 1000000000));
            wait_unstaged fuel' vol start waitTime
          else
            (* the remaining nodes, for the log *)
            _ ← do (ReadDir nodesPath);
            remove_csi
        else remove_csi
      else ok tt
  end.

Definition deleteVolumeUntilWait (fuel : nat) (vol : beegfsVolume) (waitTime : Z) : io (result unit) :=
  start ← do TimeNow;
  let? _ := wait_unstaged fuel vol start waitTime catch err => fail err in
  let? _ := do (RemoveAll (volDirPath vol)) catch err => fail (WithStack err) in
  ok tt.

(** ** The client module *)

Definition isBeegfsClientModuleLoaded : io (result bool) :=
  r ← do (RunCmd "lsmod" []);
  match cmd_err r with
  | Some err => fail (Wrap err ("lsmod failed with stdOut: " +:+ cmd_stdout r +:+ " and stdErr: " +:+ cmd_stderr r))
  | None => ok (Contains (cmd_stdout r) "beegfs")
  end.

Definition isBeegfsClientModuleInstalled : io (result bool) :=
  r ← do (RunCmd "modprobe" ["-R"; "beegfs"]);
  match cmd_err r with
  | Some err =>
      if bool_decide (error_text err = "exit status 1") then ok false
      else fail (Wrap err ("modprobe execution failed with stdOut: " +:+ cmd_stdout r
                           +:+ " and stdErr: " +:+ cmd_stderr r))
  | None => ok true
  end.

Definition verifyBeegfsClientModuleIsAvailable : io (result unit) :=
  loaded ← isBeegfsClientModuleLoaded;
  if bool_decide (loaded = Ok true) then ok tt else
  let? isInstalled := isBeegfsClientModuleInstalled catch err =>
    fail (Wrap err "unable to determine if the beegfs module is installed") in
  if isInstalled : bool then ok tt
  else fail (ErrMsg "the BeeGFS client kernel module is not installed").
