(* ===== verification/MountsFacts.v ===== *)
(** * MountsFacts: what mounting and cleaning up guarantee *)
From S2P Require Import Prelude GoStrings GoPath Prog Config ConfigFacts Volume World Sim Mounts.
Local Open Scope Z_scope.

(** ** Mount options *)

Definition mentions_cfgFile (o : string) : bool := Contains (ToLower o) "cfgfile".

Lemma remove_invalid_spec input : ∀ acc,
  NoDup acc →
  NoDup (remove_invalid acc input)
  ∧ ∀ o, o ∈ remove_invalid acc input ↔ o ∈ acc ∨ (o ∈ input ∧ mentions_cfgFile o = false).
Proof.
  induction input as [|x input IH]; intros acc Hnd; cbn [remove_invalid].
  { split; [done|]. intros o. rewrite elem_of_nil. tauto. }
  fold (mentions_cfgFile x). destruct (mentions_cfgFile x) eqn:Ex.
  { destruct (IH acc Hnd) as [H1 H2]. split; [done|]. intros o. rewrite H2, elem_of_cons.
    split; [naive_solver|]. intros [?|[[->|?] ?]]; [tauto|congruence|tauto]. }
  case_bool_decide as Hin.
  - destruct (IH acc Hnd) as [H1 H2]. split; [done|]. intros o. rewrite H2, elem_of_cons. naive_solver.
  - destruct (IH (acc ++ [x])) as [H1 H2].
    { apply NoDup_app. split_and!; [done|set_solver|apply NoDup_singleton]. }
    split; [done|]. intros o. rewrite H2, elem_of_app, list_elem_of_singleton, elem_of_cons. naive_solver.
Qed.

Lemma remove_invalid_order input : ∀ acc,
  ∃ rest, remove_invalid acc input = acc ++ rest ∧ rest `sublist_of` input.
Proof.
  induction input as [|x input IH]; intros acc; cbn [remove_invalid].
  { exists []. by rewrite app_nil_r. }
  assert (∃ rest, remove_invalid acc input = acc ++ rest ∧ rest `sublist_of` x :: input) as Hskip.
  { destruct (IH acc) as (rest & -> & Hs). exists rest. split; [done|]. by apply sublist_cons. }
  destruct (Contains _ _); [done|]. case_bool_decide; [done|].
  destruct (IH (acc ++ [x])) as (rest & -> & Hs). exists (x :: rest).
  split; [by rewrite <- app_assoc|]. by apply sublist_skip.
Qed.

(** The mount options passed on are the requested ones in their order,
    each once, and none that mentions cfgFile in any capitalisation. *)
Theorem removeInvalidMountOptions_spec opts :
  NoDup (removeInvalidMountOptions opts) ∧ removeInvalidMountOptions opts `sublist_of` opts
  ∧ ∀ o, o ∈ removeInvalidMountOptions opts ↔ o ∈ opts ∧ mentions_cfgFile o = false.
Proof.
  unfold removeInvalidMountOptions.
  destruct (remove_invalid_spec opts [] ltac:(constructor)) as [H1 H2].
  destruct (remove_invalid_order opts []) as (rest & Hr & Hs).
  split_and!; [done|by rewrite Hr|]. intros o. rewrite H2, elem_of_nil. naive_solver.
Qed.

Lemma mentions_cfgFile_own p : mentions_cfgFile ("cfgFile=" +:+ p) = true.
Proof.
  unfold mentions_cfgFile. apply Contains_spec.
  exists EmptyString, ("=" +:+ ToLower p). rewrite append_nil_l. destruct p as [|c p]; [done|].
  change ("cfgFile=" +:+ String c p) with (String "c" (String "f" (String "g" (String "F" (String "i" (String "l"
    (String "e" (String "=" (String c p)))))))))%char.
  by destruct p.
Qed.

Lemma filter_Forall_not {A} (P : A → Prop) `{∀ x, Decision (P x)} l : Forall (λ x, ¬ P x) l → filter P l = [].
Proof. induction 1 as [|x l Hx _ IH]; [done|]. by rewrite filter_cons_False. Qed.

Section Options.
Context {SE : Selinux}.

(** The options BeeGFS is mounted with have no duplicates and exactly one
    of them names a client configuration: the volume's own. When SELinux is on
    one of them is a security context, and the default one is added only when
    the request has none. *)
Theorem constructMountOptions_spec desired vol tr opts :
  mentions_cfgFile ("context=" +:+ context_Get defaultContext) = false →
  exec (constructMountOptions desired vol) tr (Returned opts) →
  NoDup opts ∧ filter (λ o, mentions_cfgFile o = true) opts = ["cfgFile=" +:+ clientConfPath vol]
  ∧ (got SelinuxGetEnabled true tr → existsb (λ o, HasPrefix o "context=") opts = true).
Proof.
  intros Hctx.
  set (base := match desired with
    | [] => ["rw"; "relatime"; "cfgFile=" +:+ clientConfPath vol; "nosuid"]
    | _ => removeInvalidMountOptions desired ++ ["cfgFile=" +:+ clientConfPath vol]
    end).
  assert (NoDup base ∧ filter (λ o, mentions_cfgFile o = true) base = ["cfgFile=" +:+ clientConfPath vol]) as [Hnd Hf].
  { pose proof (mentions_cfgFile_own (clientConfPath vol)) as Hown.
    unfold base. destruct desired as [|d desired].
    - split; [repeat (apply NoDup_cons; split; [set_solver|]); constructor|].
      rewrite !filter_cons. rewrite !(decide_False (P := _ = true)), decide_True by done. done.
    - destruct (remove_invalid_spec (d :: desired) [] ltac:(constructor)) as [H1 H2]. split.
      + apply NoDup_app. split_and!; [done| |apply NoDup_singleton].
        intros o Ho ->%list_elem_of_singleton. apply H2 in Ho as [[]%elem_of_nil|[_ Ho]]. congruence.
      + rewrite filter_app, filter_cons_True by done.
        assert (filter (λ o, mentions_cfgFile o = true) (removeInvalidMountOptions (d :: desired)) = []) as ->; [|done].
        apply filter_Forall_not, Forall_forall. intros o Ho.
        apply H2 in Ho as [[]%elem_of_nil|[_ Ho]]. by rewrite Ho. }
  intros (enabled & tr' & -> & [-> [= ->]]). fold base. destruct enabled.
  2: { split_and!; [done|done|]. intros H. by trace_inv. }
  unfold addContextToMountOptionsIfNecessary. destruct (existsb _ base) eqn:Hex; [by split_and!|].
  split_and!.
  - apply NoDup_app. split_and!; [done| |apply NoDup_singleton].
    intros o Ho ->%list_elem_of_singleton. apply not_true_iff_false in Hex. apply Hex, existsb_exists.
    eexists. split; [by apply list_elem_of_In|]. apply HasPrefix_app.
  - rewrite filter_app, Hf. rewrite filter_cons_False; [done|]. by rewrite Hctx.
  - intros _. rewrite existsb_app. cbn. by rewrite HasPrefix_app, orb_true_r.
Qed.
(** The options that a mount with the flags [desired] gets: the flags that do not
    name a client configuration, the volume's own client configuration, and at
    most a security context; without flags, the default ones. *)
Definition options_for (vol : beegfsVolume) (desired opts : list string) : Prop :=
  let own := "cfgFile=" +:+ clientConfPath vol in
  own ∈ opts
  ∧ (∀ o, o ∈ desired → mentions_cfgFile o = false → o ∈ opts)
  ∧ (∀ o, o ∈ opts → o = own ∨ o = "context=" +:+ context_Get defaultContext
       ∨ (o ∈ desired ∧ mentions_cfgFile o = false) ∨ (desired = [] ∧ o ∈ ["rw"; "relatime"; "nosuid"])).

Lemma constructMountOptions_for desired vol enabled tr opts :
  exec (constructMountOptions desired vol) (existT SelinuxGetEnabled enabled :: tr) (Returned opts) →
  tr = [] ∧ options_for vol desired opts.
Proof.
  unfold constructMountOptions. set (base := match desired with [] => _ | _ => _ end). intros Hx.
  destruct Hx as (en & tr' & [= E ->] & [-> [= ->]]). split; [done|].
  assert (options_for vol desired base) as (H1 & H2 & H3).
  { unfold base, options_for. destruct desired as [|x desired]; [set_solver|].
    destruct (removeInvalidMountOptions_spec (x :: desired)) as (_ & _ & Hs).
    split_and!; [set_solver|intros o Ho Hc; apply elem_of_app; left; by apply Hs|].
    intros o [Ho|Ho]%elem_of_app; [apply Hs in Ho; tauto|]. apply list_elem_of_singleton in Ho. tauto. }
  destruct en; [|done]. unfold addContextToMountOptionsIfNecessary. case_match; [done|].
  split_and!; [set_solver|intros; apply elem_of_app; left; by apply H2|].
  intros o [Ho|Ho]%elem_of_app; [by apply H3|]. apply list_elem_of_singleton in Ho. tauto.
Qed.

(** A run of mountIfNecessary that succeeded: the mount path was a mount point
    already, or the file system was mounted on it, after it was made if it was
    missing. *)
Definition mounted (vol : beegfsVolume) (desired : list string) (tr : io_trace) : Prop :=
  ∃ enabled notMnt rest,
    tr = existT SelinuxGetEnabled enabled :: existT (IsLikelyNotMountPoint (mountPath vol)) notMnt :: rest
    ∧ (notMnt = Ok false ∧ rest = []
       ∨ ∃ opts made, options_for vol desired opts
           ∧ rest = made ++ [existT (Mount "beegfs_nodev" (mountPath vol) "beegfs" opts) (Ok tt)]
           ∧ (notMnt = Ok true ∧ made = []
              ∨ ∃ err, notMnt = Err err ∧ os_IsNotExist err = true
                  ∧ made = [existT (Mkdir (mountPath vol) 0x1e8) (Ok tt)])).

Lemma mount_beegfs_ok vol opts tr :
  exec (mount_beegfs vol opts) tr (Returned (Ok tt)) →
  tr = [existT (Mount "beegfs_nodev" (mountPath vol) "beegfs" opts) (Ok tt)].
Proof. unfold mount_beegfs. intros Hx. xdo Hx r. destruct r as [[]|]; [|by apply exec_fail in Hx as [_ [=]]]. by xret Hx. Qed.

Lemma mountIfNecessary_mounted vol desired tr :
  exec (mountIfNecessary vol desired) tr (Returned (Ok tt)) → mounted vol desired tr.
Proof.
  unfold mountIfNecessary. intros Hx. apply exec_bind_returned in Hx as (tro & tr1 & opts & -> & Ho & Hx).
  assert (∃ en tro', tro = existT SelinuxGetEnabled en :: tro') as (en & tro' & ->)
    by (destruct Ho as (en & tro' & -> & _); eauto).
  apply constructMountOptions_for in Ho as [-> Ho]. xdo Hx r. exists en, r, tr. split; [done|].
  destruct r as [[]|err].
  - apply mount_beegfs_ok in Hx as ->. right. exists opts, []. auto.
  - xret Hx. by left.
  - destruct (os_IsNotExist err) eqn:E; [|by apply exec_fail in Hx as [_ [=]]]. xdo Hx m. destruct m as [[]|];
      [|by apply exec_fail in Hx as [_ [=]]]. apply mount_beegfs_ok in Hx as ->. right. exists opts, [existT (Mkdir (mountPath vol) 0x1e8) (Ok tt)].
    split_and!; [done..|]. right. by exists err.
Qed.
End Options.

(** ** Unmounting *)

Lemma first_match_none {A} (p : A → bool) l : first_match p l = None ↔ Forall (λ x, p x = false) l.
Proof.
  induction l as [|x l IH]; cbn; [by split|]. rewrite Forall_cons. destruct (p x); [naive_solver|].
  rewrite IH. naive_solver.
Qed.

Lemma remove_entries_always dir names :
  always (λ e, ∃ d, d ∈ names ∧ e = RemoveAll (PathJoin [dir; d])) (remove_entries dir names).
Proof.
  induction names as [|d names IH]; cbn [remove_entries]; asteps; [by exists d; set_solver|].
  eapply always_mono; [|exact IH]. set_solver.
Qed.

(** After the mount table has been read, it is not read again. *)
Lemma cleanUp_always vol rmDir : always (λ e, e ≠ MountList) (cleanUpIfNecessary vol rmDir).
Proof.
  unfold cleanUpIfNecessary. asteps; try done.
  eapply always_mono; [|apply remove_entries_always]. by intros e (d & _ & ->).
Qed.

Lemma always_not_got {A} (p : io A) e tr o :
  always (λ e', e' ≠ e) p → exec p tr o → ¬ did e tr.
Proof.
  intros Ha Hx (r & Hin). pose proof (always_exec _ _ _ _ Ha Hx) as Hall. rewrite Forall_forall in Hall.
  by apply (Hall _ Hin).
Qed.

Lemma unmount_refuses vol rmDir tr o :
  exec (unmountAndCleanUpIfNecessary vol rmDir) tr o →
  (∀ mounts entry, got MountList (Ok mounts) tr → entry ∈ mounts → bind_mounted vol entry = true →
     (∃ e, o = Returned (Err e)) ∧ ∀ ev, did ev tr → ev = MountList)
  ∧ (∀ ev, did ev tr → ev ≠ MountList →
     ∃ mounts, got MountList (Ok mounts) tr ∧ Forall (λ m, bind_mounted vol m = false) mounts).
Proof.
  intros (r & tr' & -> & Hx). destruct r as [mounts|err].
  2: { destruct Hx as [-> ->]. split; [intros; trace_inv|]. intros ev H. by trace_inv. }
  cbn in Hx. destruct (first_match (bind_mounted vol) mounts) as [entry|] eqn:Em.
  { destruct Hx as [-> ->]. split; [|intros ev H; by trace_inv].
    intros ms x _ _ _. split; [by eexists|]. intros ev H. by trace_inv. }
  apply first_match_none in Em.
  assert (¬ did MountList tr') as Hno.
  { eapply always_not_got; [|exact Hx]. split; [done|]. intros [|]; [|done].
    apply always_bind; [apply cleanUp_always|]. by intros []. }
  split.
  - intros ms entry Hg Hin Hb. apply got_here in Hg as [[= ->]|Hg]; [|by destruct Hno; eapply got_did].
    rewrite Forall_forall in Em. rewrite (Em _ Hin) in Hb. done.
  - intros ev _ _. exists mounts. split; [apply got_here; by left|done].
Qed.

Lemma unmount_returned vol rmDir tr :
  exec (unmountAndCleanUpIfNecessary vol rmDir) tr (Returned (Ok tt)) →
  ∃ mounts, got MountList (Ok mounts) tr ∧ Forall (λ m, bind_mounted vol m = false) mounts.
Proof.
  unfold unmountAndCleanUpIfNecessary. intros Hx. xlet Hx ms Hm. apply exec_trigger in Hm as ->.
  destruct (first_match (bind_mounted vol) ms) eqn:Em; [by xret Hx|].
  exists ms. split; [auto with trace|by apply first_match_none].
Qed.

(** C24: a BeeGFS file system that is still bind mounted somewhere is left
    alone: the call fails and neither unmounts nor removes anything. Whenever
    something is unmounted or removed, the mount table was read first and showed
    no such bind mount. *)
Theorem unmount_refuses_while_in_use vol rmDir tr o :
  exec (unmountAndCleanUpIfNecessary vol rmDir) tr o →
  (∀ mounts entry, got MountList (Ok mounts) tr → entry ∈ mounts → bind_mounted vol entry = true →
     (∃ e, o = Returned (Err e)) ∧ ∀ ev, did ev tr → ev = MountList)
  ∧ (∀ ev, did ev tr → ev ≠ MountList →
     ∃ mounts, got MountList (Ok mounts) tr ∧ Forall (λ m, bind_mounted vol m = false) mounts).
Proof. apply unmount_refuses. Qed.

(** Cleaning up after a volume removes its mount directory, or the entries
    listed in it, and nothing else. *)
Theorem cleanUp_stays_in_mount_dir d vol rmDir tr o ev :
  normals d → mountDirPath vol = abs d →
  (∀ names, got (ReadDir (abs d)) (Ok names) tr → normals names) →
  exec (cleanUpIfNecessary vol rmDir) tr o → did ev tr →
  ev = ReadDir (abs d) ∨ (rmDir = true ∧ ev = RemoveAll (abs d))
  ∨ ∃ n, normal n = true ∧ ev = RemoveAll (abs (d ++ [n])).
Proof.
  intros Hd Hm Hnames. unfold cleanUpIfNecessary. rewrite Hm. destruct rmDir; cbn [negb].
  - intros (r & tr' & -> & Hx) Hdid. assert (tr' = []) as -> by (destruct r; by destruct Hx).
    trace_inv. by right; left.
  - intros (r & tr' & -> & Hx) Hdid. apply did_cons in Hdid as [->|Hdid]; [by left|]. right; right.
    destruct r as [names|err]; [|destruct Hx as [-> _]; trace_inv].
    pose proof (always_exec _ _ _ _ (remove_entries_always (abs d) names) Hx) as Hall.
    destruct Hdid as (r & Hin). rewrite Forall_forall in Hall. destruct (Hall _ Hin) as (n & Hn & Hev).
    cbn in Hev. subst ev.
    assert (normal n = true) as Hnn.
    { assert (normals names) as Hns by (apply Hnames, got_here; by left).
      unfold normals in Hns. rewrite Forall_forall in Hns. auto. }
    exists n. split; [done|]. by rewrite PathJoin_normal.
Qed.

(** ** Waiting for the nodes *)

Section Wait.
Context (vol : beegfsVolume) (waitTime : Z).
Let nodesPath := PathJoin [csiDirPath vol; "nodes"].

Lemma wait_unstaged_done fuel start : ∀ tr,
  exec (wait_unstaged fuel vol start waitTime) tr (Returned (Ok tt)) →
  got (DirExists nodesPath) (Ok false) tr ∨ got (IsEmpty nodesPath) (Ok true) tr
  ∨ ∃ t, got TimeNow t tr ∧ seconds waitTime ≤ t - start.
Proof.
  induction fuel as [|fuel IH]; intros tr Hx; [by destruct Hx|].
  cbn [wait_unstaged] in Hx. fold nodesPath in Hx.
  xdo Hx r. destruct r as [dirExists|]; [|by xret Hx].
  destruct dirExists; [|left; auto 12 with trace].
  xdo Hx r. destruct r as [isEmpty|]; [|by xret Hx].
  destruct isEmpty; cbn [negb] in Hx; [right; left; auto 12 with trace|].
  xdo Hx now. destruct (now - start <? seconds waitTime) eqn:Et.
  - xdo Hx t2. xdo Hx u. apply IH in Hx as [H|[H|(t & H & Ht)]];
      [left|right; left|right; right; exists t]; auto 12 with trace.
  - right; right. exists now. split; [auto 12 with trace|lia].
Qed.

Lemma wait_unstaged_always fuel start :
  always (λ e, match e with RemoveAll p => p = csiDirPath vol | _ => True end)
    (wait_unstaged fuel vol start waitTime).
Proof. induction fuel as [|fuel IH]; cbn [wait_unstaged]; asteps; done. Qed.

(** C22: DeleteVolume removes a volume only after the directory that tracks its
    nodes was absent or empty, or after the configured time had passed since
    the wait began. *)
Theorem delete_waits_for_nodes fuel tr o :
  csiDirPath vol ≠ volDirPath vol →
  exec (deleteVolumeUntilWait fuel vol waitTime) tr o → did (RemoveAll (volDirPath vol)) tr →
  got (DirExists nodesPath) (Ok false) tr ∨ got (IsEmpty nodesPath) (Ok true) tr
  ∨ ∃ start t, head tr = Some (existT TimeNow start) ∧ got TimeNow t tr ∧ seconds waitTime ≤ t - start.
Proof.
  intros Hne Hx Hdid. unfold deleteVolumeUntilWait in Hx. xdo Hx start. trace_inv.
  assert (∀ trw o0, exec (wait_unstaged fuel vol start waitTime) trw o0 → ¬ did (RemoveAll (volDirPath vol)) trw) as Hno.
  { intros trw o0 Hx0 (r & Hin).
    pose proof (always_exec _ _ _ _ (wait_unstaged_always fuel start) Hx0) as Hall.
    rewrite Forall_forall in Hall. specialize (Hall _ Hin). cbn in Hall. congruence. }
  apply exec_bind_inv in Hx as [(tr1 & tr2 & a & -> & H1 & H2)|(o' & H1 & _)]; [|by destruct (Hno _ _ H1)].
  apply did_app in Hdid as [Hdid|Hdid]; [by destruct (Hno _ _ H1)|].
  destruct a as [[]|]; [|xret H2; by trace_inv].
  apply wait_unstaged_done in H1 as [H|[H|(t & H & Ht)]];
    [left|right; left|right; right; exists start, t; split; [done|split; [|done]]]; auto 12 with trace.
Qed.
End Wait.

(** An environment whose clock runs: it never goes back, sleeping takes the
    time asked for, and reading it gives the time. *)
Record clocked {W} (clock : W → Z) (h : ∀ e, W → response e * W) : Prop := {
  clock_mono e w : clock w ≤ clock (h e w).2;
  clock_sleep d w : clock w + d ≤ clock (h (Sleep d) w).2;
  clock_now w : (h TimeNow w).1 = clock w
}.

Section Terminates.
Context {W : Type} (clock : W → Z) (h : ∀ e, W → response e * W) (Hclock : clocked clock h).

Definition returns {A} (p : io A) (w : W) : Prop := ∃ a, (run h p w).1.2 = Returned a.

Lemma returns_do {A} e (k : response e → io A) w :
  returns (k (h e w).1) (h e w).2 → returns (do e ≫= k) w.
Proof.
  intros [a Ha]. exists a. cbn. destruct (h e w) as [r w']. cbn in *. by destruct (run h (k r) w') as [[]].
Qed.
Lemma returns_mret {A} (a : A) w : returns (mret a) w.
Proof. by exists a. Qed.
Lemma returns_bind {A B} (p : io A) (f : A → io B) w :
  returns p w → (∀ a, returns (f a) (run h p w).2) → returns (p ≫= f) w.
Proof.
  intros [a Ha] Hf. destruct (run h p w) as [[tr o] w'] eqn:Hrun. cbn in *. subst o.
  destruct (Hf a) as [b Hb]. exists b. by rewrite (run_bind _ _ _ _ _ _ _ Hrun).
Qed.

Lemma wait_unstaged_returns vol start waitTime fuel : ∀ w,
  (1 ≤ fuel)%nat → seconds waitTime - (clock w - start) ≤ 2000000000 * (Z.of_nat fuel - 1) →
  returns (wait_unstaged fuel vol start waitTime) w.
Proof.
  induction fuel as [|fuel IH]; intros w Hf Hm; [lia|]. cbn [wait_unstaged].
  set (nodes := PathJoin [csiDirPath vol; "nodes"]).
  assert (∀ w', returns (let? _ := do (RemoveAll (csiDirPath vol)) catch err => fail (WithStack err) in ok tt) w') as Hrm.
  { intros w'. apply (returns_do (RemoveAll _)). destruct (h _ w').1; apply returns_mret. }
  apply (returns_do (DirExists nodes)). pose proof (clock_mono _ _ Hclock (DirExists nodes) w) as C1.
  destruct (h (DirExists nodes) w) as [[dirExists|] w1]; [|apply returns_mret]. cbn [fst snd] in *.
  destruct dirExists; [|apply returns_mret].
  apply (returns_do (IsEmpty nodes)). pose proof (clock_mono _ _ Hclock (IsEmpty nodes) w1) as C2.
  destruct (h (IsEmpty nodes) w1) as [[isEmpty|] w2]; [|apply returns_mret]. cbn [fst snd] in *.
  destruct isEmpty; cbn [negb]; [apply Hrm|]. apply (returns_do TimeNow).
  rewrite (clock_now _ _ Hclock). pose proof (clock_mono _ _ Hclock TimeNow w2) as C3.
  destruct (clock w2 - start <? seconds waitTime) eqn:Et.
  - apply (returns_do TimeNow), (returns_do (Sleep _)).
    set (w3 := (h TimeNow w2).2) in *. pose proof (clock_mono _ _ Hclock TimeNow w3) as C4.
    pose proof (clock_sleep _ _ Hclock (2 * 1000000000) (h TimeNow w3).2) as C5.
    apply IH; lia.
  - apply (returns_do (ReadDir nodes)). apply Hrm.
Qed.

(** C23: with a running clock, waiting for the nodes ends: one round of two
    seconds for each two seconds of the timeout, and one more, is enough. *)
Theorem deleteVolumeUntilWait_returns vol waitTime fuel w :
  (1 ≤ fuel)%nat → seconds waitTime ≤ 2000000000 * (Z.of_nat fuel - 1) →
  ∃ r, (run h (deleteVolumeUntilWait fuel vol waitTime) w).1.2 = Returned r.
Proof.
  intros Hf Hm. change (returns (deleteVolumeUntilWait fuel vol waitTime) w).
  unfold deleteVolumeUntilWait. apply (returns_do TimeNow). rewrite (clock_now _ _ Hclock).
  pose proof (clock_mono _ _ Hclock TimeNow w) as C.
  apply returns_bind; [apply wait_unstaged_returns; lia|]. intros [|]; [|apply returns_mret].
  apply (returns_do (RemoveAll _)). destruct (h _ _).1; apply returns_mret.
Qed.
End Terminates.

(** The timeout is multiplied in an int64: one of 9223372037 seconds or a
    little more is negative, and the volume is deleted without any wait even
    though nodes still use it. *)
Theorem huge_timeout_does_not_wait fuel vol start tr o :
  exec (wait_unstaged fuel vol start 9223372037) tr o →
  (∀ t, got TimeNow t tr → start ≤ t) → ¬ did (Sleep 2000000000) tr.
Proof.
  destruct fuel as [|fuel]; intros Hx Ht Hdid; [destruct Hx as [-> _]; by trace_inv|].
  cbn [wait_unstaged] in Hx. xdo Hx r. destruct r as [[]|]; [|xret Hx; by trace_inv..].
  xdo Hx r. assert (∀ tr, exec (let? _ := do (RemoveAll (csiDirPath vol)) catch err => fail (WithStack err) in ok tt) tr o
    → ¬ did (Sleep 2000000000) tr) as Hrm.
  { intros tr' Hx' Hd. xdo Hx' r'. destruct r'; xret Hx'; by trace_inv. }
  destruct r as [[]|]; cbn [negb] in Hx; [|clear Hrm|xret Hx; by trace_inv].
  - trace_inv. by eapply Hrm.
  - xdo Hx now. assert (start ≤ now) as Hn by (apply Ht; auto 12 with trace).
    assert ((now - start <? seconds 9223372037) = false) as E.
    { apply Z.ltb_ge. change (seconds 9223372037) with (-9223372036709551616). lia. }
    rewrite E in Hx. xdo Hx r. trace_inv. xdo Hx r'. destruct r'; xret Hx; by trace_inv.
Qed.

(** ** The ephemeral port *)

(** Every socket opened to find a port is closed again, and a port is
    returned only if it was resolved and the close succeeded. *)
Theorem getEphemeralPortUDP_closes tr r :
  exec getEphemeralPortUDP tr (Returned r) →
  (∀ c, got (ListenPacket "udp4" EmptyString) (Ok c) tr → did CloseConn tr)
  ∧ ∀ port, r = Ok port → ∃ c, got (ListenPacket "udp4" EmptyString) (Ok c) tr
      ∧ got (ResolveUDPAddr c.1 c.2) (Ok port) tr ∧ got CloseConn (Ok tt) tr.
Proof.
  intros Hx. unfold getEphemeralPortUDP in Hx. xdo Hx l. destruct l as [c|]; [|xret Hx; split; intros; trace_inv].
  xdo Hx res. xdo Hx closed. split.
  - intros _ _. apply (got_did _ closed). auto 12 with trace.
  - intros port ->. exists c. destruct closed as [[]|].
    + xret Hx. destruct res as [p|]; simplify_eq. auto 12 with trace.
    + destruct res; by xret Hx.
Qed.

(** ** The client module *)

Lemma isLoaded_spec tr r :
  exec isBeegfsClientModuleLoaded tr (Returned r) →
  ∃ c, tr = [existT (RunCmd "lsmod" []) c]
    ∧ (r = Ok true ↔ cmd_err c = None ∧ Contains (cmd_stdout c) "beegfs" = true).
Proof.
  unfold isBeegfsClientModuleLoaded. intros Hx. xdo Hx c. exists c.
  destruct (cmd_err c); xret Hx; (split; [done|]); split; try done; [by intros []|by intros [= ->]|].
  by intros [_ ->].
Qed.

Lemma isInstalled_spec tr r :
  exec isBeegfsClientModuleInstalled tr (Returned r) →
  ∃ c, tr = [existT (RunCmd "modprobe" ["-R"; "beegfs"]) c] ∧ (r = Ok true ↔ cmd_err c = None).
Proof.
  unfold isBeegfsClientModuleInstalled. intros Hx. xdo Hx c. exists c.
  by destruct (cmd_err c); [case_bool_decide|]; xret Hx.
Qed.

(** The driver accepts the host exactly when lsmod lists the client module
    or, when it does not, modprobe finds it installed. *)
Theorem verifyBeegfsClientModule_spec tr r :
  exec verifyBeegfsClientModuleIsAvailable tr (Returned r) →
  is_ok r = true ↔
  (∃ c, got (RunCmd "lsmod" []) c tr ∧ cmd_err c = None ∧ Contains (cmd_stdout c) "beegfs" = true)
  ∨ (∃ c, got (RunCmd "modprobe" ["-R"; "beegfs"]) c tr ∧ cmd_err c = None).
Proof.
  intros Hx. unfold verifyBeegfsClientModuleIsAvailable in Hx.
  apply exec_bind_returned in Hx as (tr1 & tr2 & loaded & -> & (c & -> & Hc)%isLoaded_spec & H2).
  case_bool_decide as Hl.
  { xret H2. split; [|done]. intros _. left. exists c. split; [auto with trace|tauto]. }
  apply exec_bind_returned in H2 as (tr3 & tr4 & installed & -> & (c2 & -> & Hc2)%isInstalled_spec & H2).
  assert (is_ok r = true ↔ installed = Ok true ∧ tr4 = []) as Hr.
  { by destruct installed as [[]|]; xret H2; split; try done; intros []. }
  assert (tr4 = []) as -> by (destruct installed as [[]|]; by xret H2).
  rewrite Hr. cbn. split.
  - intros [Hi _]. right. exists c2. split; [auto with trace|tauto].
  - intros [(x & Hg & Hx)|(x & Hg & Hx)]; trace_inv; tauto.
Qed.

(** ** Examples *)

Module Example.

Definition vol : beegfsVolume := cs_volume_of "/csi" (mkPluginConfig no_layer []) "host" "/scratch" "vol".

(** A bind mount of the volume's file system into a pod. *)
Definition pod_mount : MountPoint :=
  mkMountPoint "beegfs_nodev" "/pods/1/mount" "beegfs" ["rw"; "cfgFile=" +:+ clientConfPath vol].
Definition in_use : sim :=
  mkSim 0 [pod_mount] (Ok true) None (λ _ _, mkCmd EmptyString EmptyString None) (Ok EmptyString)
    (sim_locks sim0) (sim_status sim0).
(** Nodes still use the volume. *)
Definition staged : sim :=
  mkSim 0 [] (Ok true) (Some false) (λ _ _, mkCmd EmptyString EmptyString None) (Ok EmptyString)
    (sim_locks sim0) (sim_status sim0).

Definition options_prog : io (list string) :=
  constructMountOptions (SE := colon_selinux) ["ro"; "CFGFILE=/etc/passwd"; "ro"] vol.

Lemma constructMountOptions_spec_witness :
  let opts := ["ro"; "cfgFile=" +:+ clientConfPath vol; "context=system_u:object_r:container_file_t:s0"] in
  NoDup opts ∧ filter (λ o, mentions_cfgFile o = true) opts = ["cfgFile=" +:+ clientConfPath vol]
  ∧ (got (R := response) SelinuxGetEnabled true (sim_trace options_prog sim0) →
     existsb (λ o, HasPrefix o "context=") opts = true).
Proof.
  apply (constructMountOptions_spec (SE := colon_selinux) ["ro"; "CFGFILE=/etc/passwd"; "ro"] vol); [reflexivity|].
  exact (sim_exec options_prog sim0).
Defined.

Lemma unmount_refuses_witness :
  let p := unmountAndCleanUpIfNecessary vol true in
  (∃ e, sim_ending p in_use = Returned (Err e)) ∧ ∀ ev, did ev (sim_trace p in_use) → ev = MountList.
Proof.
  refine (proj1 (unmount_refuses_while_in_use vol true _ _ (sim_exec _ in_use)) [pod_mount] pod_mount _ _ _).
  - by left.
  - by left.
  - reflexivity.
Defined.

Lemma cleanUp_stays_in_mount_dir_witness :
  let ev := RemoveAll (mountDirPath vol) in
  ev = ReadDir (abs ["csi"; "host_scratch_vol"]) ∨ (true = true ∧ ev = RemoveAll (abs ["csi"; "host_scratch_vol"]))
  ∨ ∃ n, normal n = true ∧ ev = RemoveAll (abs (["csi"; "host_scratch_vol"] ++ [n])).
Proof.
  apply (cleanUp_stays_in_mount_dir ["csi"; "host_scratch_vol"] vol true
    (sim_trace (cleanUpIfNecessary vol true) sim0) (sim_ending (cleanUpIfNecessary vol true) sim0)).
  - by repeat constructor.
  - reflexivity.
  - assert (sim_trace (cleanUpIfNecessary vol true) sim0 = [existT (RemoveAll (mountDirPath vol)) (Ok tt)]) as E
      by reflexivity. intros names H. rewrite E in H. by trace_inv.
  - apply sim_exec.
  - exists (Ok tt). by left.
Defined.

Lemma delete_waits_for_nodes_witness :
  let tr := sim_trace (deleteVolumeUntilWait 20 vol 30) staged in
  let nodesPath := PathJoin [csiDirPath vol; "nodes"] in
  got (R := response) (DirExists nodesPath) (Ok false) tr ∨ got (R := response) (IsEmpty nodesPath) (Ok true) tr
  ∨ ∃ start t, head tr = Some (existT TimeNow start) ∧ got (R := response) TimeNow t tr ∧ seconds 30 ≤ t - start.
Proof.
  apply (delete_waits_for_nodes vol 30 20 _ (sim_ending (deleteVolumeUntilWait 20 vol 30) staged)).
  - by vm_compute.
  - apply sim_exec.
  - exists (Ok tt).
    apply (list_elem_of_lookup_2 _ (length (sim_trace (deleteVolumeUntilWait 20 vol 30) staged) - 1)).
    vm_compute. reflexivity.
Defined.

Lemma sim_clocked : clocked sim_clock sim_handle.
Proof. split; [|intros d w; cbn; lia|done]. intros [] w; cbn; try lia. by case_match. Qed.

Lemma deleteVolumeUntilWait_returns_witness :
  ∃ r, (run sim_handle (deleteVolumeUntilWait 16 vol 30) staged).1.2 = Returned r.
Proof.
  apply (deleteVolumeUntilWait_returns sim_clock sim_handle sim_clocked vol 30 16 staged); [lia|].
  apply Z.leb_le. reflexivity.
Defined.

Lemma huge_timeout_does_not_wait_witness :
  ¬ did (Sleep 2000000000) (sim_trace (wait_unstaged 5 vol 0 9223372037) staged).
Proof.
  apply (huge_timeout_does_not_wait 5 vol 0 _ (sim_ending (wait_unstaged 5 vol 0 9223372037) staged)).
  - apply sim_exec.
  - assert (forallb (λ s : sigT response, match s with existT TimeNow t => 0 <=? t | _ => true end)
      (sim_trace (wait_unstaged 5 vol 0 9223372037) staged) = true) as E by (vm_compute; reflexivity).
    rewrite forallb_forall in E. intros t H%list_elem_of_In. specialize (E _ H). cbn in E. lia.
Defined.

Lemma getEphemeralPortUDP_closes_witness :
  did CloseConn (sim_trace getEphemeralPortUDP sim0).
Proof.
  apply (proj1 (getEphemeralPortUDP_closes _ _ (sim_exec getEphemeralPortUDP sim0)) ("udp", "0.0.0.0:40000")).
  by left.
Defined.

Lemma verifyBeegfsClientModule_witness :
  is_ok (Ok tt) = true ↔
  (∃ c, got (R := response) (RunCmd "lsmod" []) c (sim_trace verifyBeegfsClientModuleIsAvailable sim0)
     ∧ cmd_err c = None ∧ Contains (cmd_stdout c) "beegfs" = true)
  ∨ (∃ c, got (R := response) (RunCmd "modprobe" ["-R"; "beegfs"]) c
       (sim_trace verifyBeegfsClientModuleIsAvailable sim0) ∧ cmd_err c = None).
Proof. apply verifyBeegfsClientModule_spec. apply (sim_exec verifyBeegfsClientModuleIsAvailable sim0). Defined.
End Example.
