(* ===== verification/BeegfsCtl.v ===== *)
(** * BeegfsCtl: running the BeeGFS command line tools (beegfs_ctl.go)

    The driver creates, stats and stripes directories by running the beegfs
    (version 8) or beegfs-ctl (version 7) tool. A dispatcher finds out for each
    call which of the two works for the volume's file system. *)
From S2P Require Import Prelude GoStrings GoPath GoNet Prog Config ConfigFacts Volume Params World.
Local Open Scope Z_scope.

(** [beegfsCtlExecutorInterface] *)
Record beegfsCtlExecutorInterface := mkExecutor {
  createDirectoryForVolume : beegfsVolume → string → permissionsConfig → io (result unit);
  statDirectoryForVolume : beegfsVolume → string → io (result string);
  setPatternForVolume : beegfsVolume → stripePatternConfig → io (result unit)
}.

(** ** Running a command *)

Definition ctl_error (r : cmd_result) (err : goerr) : goerr :=
  let out := cmd_stdout r in
  let serr := cmd_stderr r in
  if Contains serr "does not exist" || Contains serr "no such file or directory" then ErrCtl CtlNotExist out serr
  else if Contains serr "exists already" || Contains out "exists already" then ErrCtl CtlExist out serr
  else if Contains serr "No connAuthFile configured" then ErrCtl CtlConnAuth out serr
  else
    let nl := byte_of 10 in
    ErrWrap "error executing ctl: " err
      (" (stdOut: " +:+ Quote (TrimRight out nl) +:+ " | stdErr: " +:+ Quote (TrimRight serr nl) +:+ ")").

Definition execBeeGFSCmd (name : string) (args : list string) : io (result string) :=
  r ← do (RunCmd name args);
  mret (match cmd_err r with None => Ok (cmd_stdout r) | Some err => Err (ctl_error r err) end).

(** [beegfsCtlExecutorV8.execute] *)
Definition execute_V8 (vol : beegfsVolume) (args : list string) : io (result string) :=
  if bool_decide (head args = Some "--help") then execBeeGFSCmd "beegfs" args else
  let port := if bool_decide (GrpcPort (config vol) = EmptyString) then "8010" else GrpcPort (config vol) in
  execBeeGFSCmd "beegfs"
    (args ++ ["--mgmtd-addr=" +:+ JoinHostPort (sysMgmtdHost vol) port]
     ++ (if bool_decide (ConnAuth (config vol) = EmptyString) then ["--auth-disable"]
         else ["--auth-file=" +:+ getConnAuthPath vol])
     ++ (if bool_decide (TLSCert (config vol) = EmptyString) then ["--tls-disable"]
         else ["--tls-cert-file=" +:+ getTLSCertPath vol])).

(** [beegfsCtlExecutorV7.execute] *)
Definition execute_V7 (clientConfPath : string) (args : list string) : io (result string) :=
  execBeeGFSCmd "beegfs-ctl" (("--cfgFile=" +:+ clientConfPath) :: args).

(** ** Arguments *)

Definition nonempty_arg (flag value : string) : list string :=
  if bool_decide (value = EmptyString) then [] else [flag +:+ value].

Definition constructSetPatternForVolumeArgs (cfg : stripePatternConfig) (isV8 : bool) : list string * bool :=
  let '(pool, chunk, num, verb) :=
    if isV8 then ("--pool=", "--chunk-size=", "--num-targets=", ["--mount=none"; "entry"; "set"])
    else ("--storagepoolid=", "--chunksize=", "--numtargets=", ["--unmounted"; "--setpattern"]) in
  (* each argument is put in front of the others *)
  let args := nonempty_arg num (stripePatternNumTargets cfg) in
  let args := nonempty_arg chunk (stripePatternChunkSize cfg) ++ args in
  let args := nonempty_arg pool (storagePoolID cfg) ++ args in
  let needToExecute := negb (bool_decide (args = [])) in
  if needToExecute then (verb ++ args, true) else ([], false).

Definition constructCreateDirForVolumeArgs (cfg : permissionsConfig) (isV8 : bool) : list string :=
  let mode := fmt_pad 3 8 (Z.land (mode cfg) 0x1ff) in
  (if isV8 then ["--mount=none"; "entry"; "create"; "directory"; "--permissions=" +:+ mode]
   else ["--unmounted"; "--createdir"; "--access=" +:+ mode])
  ++ (if uid cfg =? 0 then [] else ["--uid=" +:+ Itoa (uid cfg)])
  ++ (if gid cfg =? 0 then [] else ["--gid=" +:+ Itoa (gid cfg)]).

(** ** Creating directories *)

(** [for dir := path.Dir(dirPath); dir != "/"; dir = path.Dir(dir)], with the
    more general paths put first. *)
Fixpoint parent_dirs (fuel : nat) (dir : string) (dirsToMake : list string) : option (list string) :=
  match fuel with
  | O => None
  | S fuel' =>
      if bool_decide (dir = "/") then Some dirsToMake
      else parent_dirs fuel' (Dir dir) (dir :: dirsToMake)
  end.
(** A path has fewer elements than bytes, so its length is fuel enough. *)
Definition dirs_to_make (dirPath : string) : option (list string) :=
  parent_dirs (S (S (String.length dirPath))) (Dir dirPath) [dirPath].

Fixpoint create_dirs (execute : list string → io (result string)) (createDirArgs : list string)
    (volumeID : string) (dirs : list string) : io (result unit) :=
  match dirs with
  | [] => ok tt
  | dir :: r =>
      res ← execute (createDirArgs ++ [dir]);
      match res with
      | Err err =>
          if errors_as CtlExist err then create_dirs execute createDirArgs volumeID r
          else fail (Wrap err ("cannot create BeeGFS directory " +:+ dir +:+ " for " +:+ volumeID))
      | Ok _ => create_dirs execute createDirArgs volumeID r
      end
  end.

(** The body both executors' createDirectoryForVolume share. *)
Definition create_directory (stat : io (result string)) (execute : list string → io (result string))
    (createDirArgs : list string) (vol : beegfsVolume) (dirPath : string) : io (result unit) :=
  res ← stat;
  match res with
  | Ok _ => ok tt
  | Err err =>
      if errors_as CtlNotExist err then
        match dirs_to_make dirPath with
        | None => OutOfFuel
        | Some dirsToMake => create_dirs execute createDirArgs (volumeID vol) dirsToMake
        end
      else fail err
  end.

Definition set_pattern (execute : list string → io (result string)) (isV8 : bool) (vol : beegfsVolume)
    (cfg : stripePatternConfig) : io (result unit) :=
  let '(args, needToExecute) := constructSetPatternForVolumeArgs cfg isV8 in
  if negb needToExecute then ok tt else
  let? _ := execute (args ++ [volDirPathBeegfsRoot vol]) catch err =>
    fail (Wrap err ("cannot set pattern for BeeGFS directory " +:+ volDirPathBeegfsRoot vol
                    +:+ " for volume " +:+ sysMgmtdHost vol)) in
  ok tt.

(** ** The executors *)

Definition statDirectoryForVolume_V8 (vol : beegfsVolume) (dirPath : string) : io (result string) :=
  execute_V8 vol ["--mount=none"; "entry"; "info"; dirPath].
Definition createDirectoryForVolume_V8 (vol : beegfsVolume) (dirPath : string) (cfg : permissionsConfig)
    : io (result unit) :=
  create_directory (statDirectoryForVolume_V8 vol dirPath) (execute_V8 vol)
    (constructCreateDirForVolumeArgs cfg true) vol dirPath.
Definition setPatternForVolume_V8 (vol : beegfsVolume) (cfg : stripePatternConfig) : io (result unit) :=
  set_pattern (execute_V8 vol) true vol cfg.
Definition beegfsCtlExecutorV8 : beegfsCtlExecutorInterface :=
  mkExecutor createDirectoryForVolume_V8 statDirectoryForVolume_V8 setPatternForVolume_V8.

Definition statDirectoryForVolume_V7 (vol : beegfsVolume) (dirPath : string) : io (result string) :=
  execute_V7 (clientConfPath vol) ["--unmounted"; "--getentryinfo"; dirPath].
Definition createDirectoryForVolume_V7 (vol : beegfsVolume) (dirPath : string) (cfg : permissionsConfig)
    : io (result unit) :=
  create_directory (statDirectoryForVolume_V7 vol dirPath) (execute_V7 (clientConfPath vol))
    (constructCreateDirForVolumeArgs cfg false) vol dirPath.
Definition setPatternForVolume_V7 (vol : beegfsVolume) (cfg : stripePatternConfig) : io (result unit) :=
  set_pattern (execute_V7 (clientConfPath vol)) false vol cfg.
Definition beegfsCtlExecutorV7 : beegfsCtlExecutorInterface :=
  mkExecutor createDirectoryForVolume_V7 statDirectoryForVolume_V7 setPatternForVolume_V7.

(** The mock executor of the sanity tests. *)
Definition fakeBeegfsCtlExecutor : beegfsCtlExecutorInterface :=
  mkExecutor (λ _ _ _, ok tt) (λ _ _, ok EmptyString) (λ _ _, ok tt).

(** ** The dispatcher *)

Definition detectCTLVersion (vol : beegfsVolume) : io (result beegfsCtlExecutorInterface) :=
  r8 ← execute_V8 vol ["node"; "list"];
  match r8 with
  | Ok _ => ok beegfsCtlExecutorV8
  | Err err8 =>
      r7 ← execute_V7 (clientConfPath vol) ["--listnodes"; "--nodetype=management"];
      match r7 with
      | Ok _ => ok beegfsCtlExecutorV7
      | Err err7 =>
          fail (ErrMsg ("unable to verify if this is a BeeGFS 7 or 8 volume: BeeGFS 8 list nodes failed ("
            +:+ error_text err8 +:+ "); BeeGFS 7 list nodes failed (" +:+ error_text err7
            +:+ ") (hint: verify the management address and that the correct version of BeeGFS CTL is installed and in $PATH)"))
      end
  end.

Definition dispatch {A} (vol : beegfsVolume) (f : beegfsCtlExecutorInterface → io (result A)) : io (result A) :=
  let? ctl := detectCTLVersion vol catch err => fail err in f ctl.

Definition beegfsCtlDispatcher : beegfsCtlExecutorInterface :=
  mkExecutor
    (λ vol dirPath cfg, dispatch vol (λ ctl, createDirectoryForVolume ctl vol dirPath cfg))
    (λ vol dirPath, dispatch vol (λ ctl, statDirectoryForVolume ctl vol dirPath))
    (λ vol cfg, dispatch vol (λ ctl, setPatternForVolume ctl vol cfg)).

(** [beegfsVolume{}] *)
Definition zero_volume : beegfsVolume :=
  mkVolume no_layer EmptyString EmptyString EmptyString EmptyString EmptyString EmptyString EmptyString
    EmptyString EmptyString EmptyString EmptyString.

Definition newBeeGFSCtlExecutor : io (result beegfsCtlExecutorInterface) :=
  r8 ← execute_V8 zero_volume ["--help"];
  r7 ← execute_V7 EmptyString ["--help"];
  let v7err := match r7 with
               | Err e => if errors_as CtlConnAuth e then None else Some e
               | Ok _ => None
               end in
  match v7err, r8 with
  | Some e7, Err e8 =>
      fail (ErrWrap2 "unable to verify the BeeGFS 7 CTL is installed: " e7
              "; unable to verify the BeeGFS 8 CTL is installed: " e8
              " (one must be installed and in $PATH to proceed)")
  | _, _ => ok beegfsCtlDispatcher
  end.
