(* ===== verification/BeegfsCtlFacts.v ===== *)
(** * BeegfsCtlFacts: the commands that create and stripe a volume's directory *)
From S2P Require Import Prelude GoStrings GoPath GoNet Prog Config ConfigFacts Volume VolumeFacts Params World Sim.
From S2P Require Import BeegfsCtl.
Local Open Scope Z_scope.

(** ** Which directories are made *)

Definition prefixes {A} (l : list A) : list (list A) := (λ i, take (S i) l) <$> seq 0 (length l).

Lemma prefixes_snoc {A} (l : list A) c : prefixes (l ++ [c]) = prefixes l ++ [l ++ [c]].
Proof.
  unfold prefixes. rewrite length_app, Nat.add_comm. cbn [length Nat.add].
  rewrite seq_S, fmap_app. f_equal.
  - apply list_fmap_ext. intros i j Hij. apply lookup_seq in Hij as [-> Hlt]. by rewrite take_app_le by lia.
  - cbn. f_equal. apply take_ge. rewrite length_app. cbn. lia.
Qed.

Lemma abs_snoc_not_root l c : normal c = true → abs (l ++ [c]) ≠ "/".
Proof.
  intros Hc. apply normal_inv in Hc as (Hne & _). rewrite abs_snoc. case_bool_decide.
  - rewrite append_nil_l. congruence.
  - unfold abs. rewrite append_cons. intros [= E]. apply append_eq_nil in E as [_ E]. done.
Qed.

Lemma parent_dirs_abs l : ∀ fuel acc,
  normals l → (length l < fuel)%nat → parent_dirs fuel (abs l) acc = Some ((abs <$> prefixes l) ++ acc).
Proof.
  induction l as [|c l IH] using rev_ind; intros fuel acc Hl Hf; (destruct fuel as [|fuel]; [lia|]).
  - done.
  - apply normals_app in Hl as [Hl Hc]. assert (normal c = true) as Hn by (by inversion Hc).
    cbn [parent_dirs]. rewrite bool_decide_eq_false_2 by (by apply abs_snoc_not_root).
    rewrite Dir_abs_snoc by done. rewrite length_app in Hf. cbn in Hf.
    rewrite IH by (done || lia). by rewrite prefixes_snoc, fmap_app, <- app_assoc.
Qed.

Lemma length_split_on c s : (length (split_on c s) ≤ S (String.length s))%nat.
Proof.
  induction s as [|d s IH]; cbn; [lia|]. case_bool_decide; cbn; [lia|].
  destruct (split_on c s); cbn in *; lia.
Qed.

Lemma length_clean st l r : (length (foldl (clean_step r) st l) ≤ length st + length l)%nat.
Proof.
  revert st. induction l as [|c l IH]; intros st; cbn [foldl length]; [lia|].
  etransitivity; [apply IH|]. unfold clean_step. repeat case_match; cbn; lia.
Qed.

Lemma length_normals l : normals l → (length l ≤ String.length (join_with slash l))%nat.
Proof.
  induction 1 as [|c l Hc _ IH]; [done|]. apply normal_inv in Hc as (Hne & _).
  destruct c as [|x c]; [done|]. destruct l as [|d l]; [cbn; lia|].
  change (join_with slash (String x c :: d :: l)) with (String x c +:+ String slash (join_with slash (d :: l))).
  rewrite length_append. cbn [String.length length] in *. lia.
Qed.

Lemma dirs_to_make_abs l c :
  normals (l ++ [c]) → dirs_to_make (abs (l ++ [c])) = Some (abs <$> prefixes (l ++ [c])).
Proof.
  intros Hlc. pose proof (length_normals _ Hlc) as Hlen. apply normals_app in Hlc as [Hl Hc].
  assert (normal c = true) as Hn by (by inversion Hc).
  unfold dirs_to_make. rewrite Dir_abs_snoc by done. rewrite length_app in Hlen.
  rewrite parent_dirs_abs; [by rewrite prefixes_snoc, fmap_app|done|].
  unfold abs. cbn [String.length length] in *. lia.
Qed.

Lemma Split_rooted p :
  is_rooted p = true → is_rooted (Split p).1 = true ∧ (String.length (Split p).1 ≤ String.length p)%nat.
Proof.
  intros Hp. unfold Split. destruct (cut_last_byte slash p) as [[a b]|] eqn:E.
  - apply cut_last_byte_spec in E as [-> _]. cbn [fst]. rewrite !length_append. cbn. split; [|lia].
    destruct a as [|x a]; [done|]. apply is_rooted_inv in Hp as [s Hs]. rewrite append_cons in *.
    injection Hs as -> _. apply is_rooted_cons.
  - apply cut_last_byte_none in E. apply is_rooted_inv in Hp as [s ->]. cbn in E.
    by rewrite bool_decide_eq_true_2 in E.
Qed.

Lemma dirs_to_make_rooted p : is_rooted p = true → is_Some (dirs_to_make p).
Proof.
  intros [Hq Hlen]%Split_rooted. unfold dirs_to_make, Dir. set (q := (Split p).1) in *.
  destruct (Clean_rooted q Hq) as [-> Hn]. rewrite parent_dirs_abs; [by eexists|done|].
  unfold clean_elems. rewrite length_reverse.
  pose proof (length_clean [] (split_on slash q) true). pose proof (length_split_on slash q). cbn in *. lia.
Qed.

(** The directories made for a volume are those on the way from the root
    to it, the most general one first and the volume's own last; for every
    absolute path the loop that collects them ends. *)
Theorem dirs_to_make_spec :
  (∀ l c, normals (l ++ [c]) → dirs_to_make (abs (l ++ [c])) = Some (abs <$> prefixes (l ++ [c])))
  ∧ ∀ p, is_rooted p = true → is_Some (dirs_to_make p).
Proof. split; [apply dirs_to_make_abs|apply dirs_to_make_rooted]. Qed.

(** The comment on the loop says path.Dir returns a dot when there is no
    parent, but the loop only stops at the root: for a relative name it never
    ends. *)
Theorem relative_dir_never_ends p fuel :
  no_slash p = true → parent_dirs fuel (Dir p) [p] = None.
Proof.
  intros Hp. unfold Dir, Split. apply cut_last_byte_none in Hp. rewrite Hp. cbn [fst].
  change (Clean EmptyString) with ".". generalize [p]. induction fuel as [|fuel IH]; intros acc; [done|].
  cbn [parent_dirs]. rewrite bool_decide_eq_false_2 by done. change (Dir ".") with ".". apply IH.
Qed.

(** ** The commands *)

(** The flags that end every command of the version 8 tool but --help. *)
Definition v8_flags (vol : beegfsVolume) : list string :=
  let port := if bool_decide (GrpcPort (config vol) = EmptyString) then "8010" else GrpcPort (config vol) in
  ["--mgmtd-addr=" +:+ JoinHostPort (sysMgmtdHost vol) port]
  ++ (if bool_decide (ConnAuth (config vol) = EmptyString) then ["--auth-disable"]
      else ["--auth-file=" +:+ getConnAuthPath vol])
  ++ (if bool_decide (TLSCert (config vol) = EmptyString) then ["--tls-disable"]
      else ["--tls-cert-file=" +:+ getTLSCertPath vol]).

Lemma execute_V8_eq vol args :
  head args ≠ Some "--help" → execute_V8 vol args = execBeeGFSCmd "beegfs" (args ++ v8_flags vol).
Proof. intros H. unfold execute_V8. by rewrite bool_decide_eq_false_2. Qed.

(** An executor that runs one command and classifies its outcome. *)
Definition runs (execute : list string → io (result string)) (cmd : list string → list string) (name : string)
    (args : list string) : Prop :=
  execute args = execBeeGFSCmd name (cmd args).

(** What the driver makes of a command's outcome. *)
Definition outcome_of (c : cmd_result) : result string :=
  match cmd_err c with None => Ok (cmd_stdout c) | Some e => Err (ctl_error c e) end.

(** A directory is there after a command to make it: it was made, or existed. *)
Definition there (c : cmd_result) : bool :=
  match outcome_of c with Ok _ => true | Err err => errors_as CtlExist err end.

Definition ran_cmd (name : string) (args : list string) (c : cmd_result) : sigT response := existT (RunCmd name args) c.

Lemma execBeeGFSCmd_exec name args tr o :
  exec (execBeeGFSCmd name args) tr o → ∃ c, tr = [ran_cmd name args c] ∧ o = Returned (outcome_of c).
Proof. unfold execBeeGFSCmd. intros Hx. xdo Hx c. xret Hx. by exists c. Qed.

Lemma exec_cmd_bind {A} name args (k : result string → io A) tr o :
  exec (execBeeGFSCmd name args ≫= k) tr o →
  ∃ c tr', tr = ran_cmd name args c :: tr' ∧ exec (k (outcome_of c)) tr' o.
Proof.
  intros [(tr1 & tr2 & a & -> & H1 & H2)|(o' & H1 & Hno & ->)]%exec_bind_inv;
    apply execBeeGFSCmd_exec in H1 as (c & -> & Ho); [injection Ho as ->; by exists c, tr2|].
  subst o'. by destruct (Hno _ eq_refl).
Qed.

(** How making [dirs] one after the other ends, when the commands for the first
    of them had the outcomes [rs]: all of them are there, or the last command
    failed for another reason than that its directory exists. *)
Definition made (vid : string) (dirs : list string) (rs : list cmd_result) (r : result unit) : Prop :=
  (r = Ok tt ∧ length rs = length dirs ∧ Forall (λ c, there c = true) rs)
  ∨ ∃ rs' c d err, rs = rs' ++ [c] ∧ dirs !! length rs' = Some d ∧ Forall (λ c, there c = true) rs'
      ∧ outcome_of c = Err err ∧ errors_as CtlExist err = false
      ∧ r = Err (Wrap err ("cannot create BeeGFS directory " +:+ d +:+ " for " +:+ vid)).

Lemma made_cons vid d dirs c rs r : there c = true → made vid dirs rs r → made vid (d :: dirs) (c :: rs) r.
Proof.
  intros Hc [(-> & Hl & Hrs)|(rs' & c' & d' & err & -> & Hd & Hrs & H)].
  - left. split_and!; [done|cbn; lia|by constructor].
  - right. exists (c :: rs'), c', d', err. split_and!; [done|done|by constructor|naive_solver..].
Qed.

Lemma create_dirs_exec execute cmd name cargs vid dirs : ∀ tr o,
  (∀ d, runs execute cmd name (cargs ++ [d])) →
  exec (create_dirs execute cargs vid dirs) tr o →
  ∃ rs r, o = Returned r ∧ tr = zip_with (λ d, ran_cmd name (cmd (cargs ++ [d]))) dirs rs ∧ made vid dirs rs r.
Proof.
  induction dirs as [|d dirs IH]; intros tr o Hr Hx; cbn [create_dirs] in Hx.
  { xret Hx. exists [], (Ok tt). split_and!; [done..|]. by left. }
  rewrite (Hr d) in Hx. apply exec_cmd_bind in Hx as (c & tr' & -> & Hx).
  assert (there c = true → exec (create_dirs execute cargs vid dirs) tr' o →
    ∃ rs r, o = Returned r ∧ ran_cmd name (cmd (cargs ++ [d])) c :: tr'
      = zip_with (λ d, ran_cmd name (cmd (cargs ++ [d]))) (d :: dirs) rs ∧ made vid (d :: dirs) rs r) as Hrest.
  { intros Hc Hx'. destruct (IH tr' o Hr Hx') as (rs & r & -> & -> & Hm). exists (c :: rs), r.
    split_and!; [done..|by apply made_cons]. }
  destruct (outcome_of c) as [out|err] eqn:Ec; [apply Hrest; [unfold there; by rewrite Ec|done]|].
  destruct (errors_as CtlExist err) eqn:Ee; [apply Hrest; [unfold there; by rewrite Ec|done]|].
  xret Hx. exists [c], (Err (Wrap err ("cannot create BeeGFS directory " +:+ d +:+ " for " +:+ vid))).
  split_and!; [done|cbn; by rewrite zip_with_nil_r|]. right. exists [], c, d, err. by split_and!.
Qed.

(** A run that makes the directory [abs path]: a command stats it; if it exists,
    or the command fails for another reason, that is all. Otherwise a command is
    run for each directory on the way to it, as long as the ones before are there. *)
Definition makes_directory (name : string) (stat : list string) (create : string → list string) (vid : string)
    (path : list string) (tr : io_trace) (o : ending (result unit)) : Prop :=
  let dirs := abs <$> prefixes path in
  ∃ c0 rs r, o = Returned r
    ∧ tr = ran_cmd name stat c0 :: zip_with (λ d, ran_cmd name (create d)) dirs rs
    ∧ match outcome_of c0 with
      | Ok _ => rs = [] ∧ r = Ok tt
      | Err err => if errors_as CtlNotExist err then made vid dirs rs r else rs = [] ∧ r = Err err
      end.

Lemma create_directory_exec execute cmd name sargs cargs vol l c tr o :
  normals (l ++ [c]) →
  (∀ d, runs execute cmd name (cargs ++ [d])) →
  exec (create_directory (execBeeGFSCmd name sargs) execute cargs vol (abs (l ++ [c]))) tr o →
  makes_directory name sargs (λ d, cmd (cargs ++ [d])) (volumeID vol) (l ++ [c]) tr o.
Proof.
  intros Hl Hr Hx. unfold create_directory in Hx. apply exec_cmd_bind in Hx as (c0 & tr' & -> & Hx).
  unfold makes_directory. exists c0. destruct (outcome_of c0) as [out|err].
  { xret Hx. exists [], (Ok tt). by rewrite zip_with_nil_r. }
  destruct (errors_as CtlNotExist err); [|xret Hx; exists [], (Err err); by rewrite zip_with_nil_r].
  rewrite dirs_to_make_abs in Hx by done.
  destruct (create_dirs_exec _ _ _ _ _ _ _ _ Hr Hx) as (rs & r & -> & -> & Hm). by exists rs, r.
Qed.

(** C31: creating a directory runs one command that stats it. If that command
    succeeds, the call succeeds and does no more; if it fails for another reason
    than that the directory does not exist, the call fails with its error. Only
    otherwise it runs one command per directory on the way to it, parents first
    and whether they exist or not, with the requested permissions. It stops with
    an error at the first command that fails for another reason than "exists
    already", and succeeds exactly when there is none. The call always returns
    (BeeGFS 8). *)
Theorem createDirectory_V8_commands vol l c cfg tr o :
  normals (l ++ [c]) →
  exec (createDirectoryForVolume_V8 vol (abs (l ++ [c])) cfg) tr o →
  makes_directory "beegfs" (["--mount=none"; "entry"; "info"; abs (l ++ [c])] ++ v8_flags vol)
    (λ d, (constructCreateDirForVolumeArgs cfg true ++ [d]) ++ v8_flags vol) (volumeID vol) (l ++ [c]) tr o.
Proof.
  intros Hl Hx. unfold createDirectoryForVolume_V8, statDirectoryForVolume_V8 in Hx.
  rewrite execute_V8_eq in Hx by done.
  apply (create_directory_exec _ (λ args, args ++ v8_flags vol) "beegfs") in Hx; [exact Hx|done|].
  intros d. by apply execute_V8_eq.
Qed.

(** The same for BeeGFS 7 and its beegfs-ctl tool. *)
Theorem createDirectory_V7_commands vol l c cfg tr o :
  normals (l ++ [c]) →
  exec (createDirectoryForVolume_V7 vol (abs (l ++ [c])) cfg) tr o →
  makes_directory "beegfs-ctl" [ "--cfgFile=" +:+ clientConfPath vol; "--unmounted"; "--getentryinfo"; abs (l ++ [c])]
    (λ d, ("--cfgFile=" +:+ clientConfPath vol) :: constructCreateDirForVolumeArgs cfg false ++ [d])
    (volumeID vol) (l ++ [c]) tr o.
Proof.
  intros Hl Hx. unfold createDirectoryForVolume_V7, statDirectoryForVolume_V7, execute_V7 at 1 in Hx.
  by apply (create_directory_exec _ (λ args, ("--cfgFile=" +:+ clientConfPath vol) :: args) "beegfs-ctl") in Hx.
Qed.

(** The permissions argument of a directory is three octal digits that
    stand for the lower nine bits of the requested mode. *)
Theorem createDir_mode_argument cfg (isV8 : bool) :
  0 ≤ mode cfg < 4096 →
  ∃ digits, String.length digits = 3%nat ∧ ParseUint digits 8 16 = inl (Z.land (mode cfg) 511)
    ∧ ((if isV8 then "--permissions=" else "--access=") +:+ digits) ∈ constructCreateDirForVolumeArgs cfg isV8.
Proof.
  intros Hm. exists (fmt_pad 3 8 (Z.land (mode cfg) 511)).
  assert (forallb (λ m, Nat.eqb (String.length (fmt_pad 3 8 m)) 3
    && match ParseUint (fmt_pad 3 8 m) 8 16 with inl n => n =? m | inr _ => false end) (seqZ 0 512) = true) as Hall
    by (vm_compute; reflexivity).
  assert (Z.land (mode cfg) 511 ∈ seqZ 0 512) as Hin.
  { apply elem_of_seqZ. change 511 with (Z.ones 9). rewrite Z.land_ones by lia. apply Z.mod_pos_bound. lia. }
  rewrite forallb_forall in Hall. apply list_elem_of_In in Hin.
  apply Hall, andb_true_iff in Hin as [H1%Nat.eqb_eq H2].
  split_and!; [done|destruct (ParseUint _ _ _); [f_equal; lia|done]|].
  unfold constructCreateDirForVolumeArgs. apply elem_of_app. left.
  destruct isV8; repeat (apply elem_of_cons; (left; reflexivity) || right).
Qed.

(** ** What the executors run *)

(** The things the driver asks the BeeGFS tools to do for a volume, and the
    command of each tool for them. *)
Inductive ctl_op :=
  | OpDetect
  | OpInfo (dir : string)
  | OpCreate (cfg : permissionsConfig) (dir : string)
  | OpPattern (cfg : stripePatternConfig).

Definition op_args (isV8 : bool) (vol : beegfsVolume) (op : ctl_op) : list string :=
  match op with
  | OpDetect => if isV8 then ["node"; "list"] else ["--listnodes"; "--nodetype=management"]
  | OpInfo dir => if isV8 then ["--mount=none"; "entry"; "info"; dir] else ["--unmounted"; "--getentryinfo"; dir]
  | OpCreate cfg dir => constructCreateDirForVolumeArgs cfg isV8 ++ [dir]
  | OpPattern cfg => (constructSetPatternForVolumeArgs cfg isV8).1 ++ [volDirPathBeegfsRoot vol]
  end.
Definition cmd8 (vol : beegfsVolume) (op : ctl_op) (e : event) : Prop :=
  e = RunCmd "beegfs" (op_args true vol op ++ v8_flags vol).
Definition cmd7 (vol : beegfsVolume) (op : ctl_op) (e : event) : Prop :=
  e = RunCmd "beegfs-ctl" (("--cfgFile=" +:+ clientConfPath vol) :: op_args false vol op).
Definition ctl_cmd (vol : beegfsVolume) (op : ctl_op) (e : event) : Prop := cmd8 vol op e ∨ cmd7 vol op e.

(** [dir] itself, or one of the directories above it but the root. *)
Definition on_the_way (dir d : string) : Prop := d = dir ∨ ∃ n, d = Nat.iter n Dir (Dir dir) ∧ d ≠ "/".

Lemma parent_dirs_above fuel dir acc l d :
  parent_dirs fuel dir acc = Some l → d ∈ l → d ∈ acc ∨ ∃ n, d = Nat.iter n Dir dir ∧ d ≠ "/".
Proof.
  revert dir acc. induction fuel as [|fuel IH]; intros dir acc Hl Hd; [done|]. cbn [parent_dirs] in Hl.
  case_bool_decide; [simplify_eq; by left|]. destruct (IH _ _ Hl Hd) as [Hin|(n & -> & Hr)].
  - apply elem_of_cons in Hin as [->|Hin]; [right; by exists 0%nat|by left].
  - right. exists (S n). by rewrite Nat.iter_succ_r.
Qed.
Lemma dirs_to_make_on_the_way dir l d : dirs_to_make dir = Some l → d ∈ l → on_the_way dir d.
Proof.
  intros Hl Hd. destruct (parent_dirs_above _ _ _ _ _ Hl Hd) as [->%list_elem_of_singleton|H]; [by left|by right].
Qed.

Section Always.
Context (P : event → Prop) (execute : list string → io (result string)).

Lemma create_dirs_always cargs vid dirs :
  (∀ d, d ∈ dirs → always P (execute (cargs ++ [d]))) → always P (create_dirs execute cargs vid dirs).
Proof.
  induction dirs as [|d dirs IH]; intros H; [done|]. cbn [create_dirs].
  assert (always P (create_dirs execute cargs vid dirs)) by (apply IH; intros; apply H; by right).
  apply always_bind; [apply H; by left|]. intros [|err]; [done|]. by destruct (errors_as CtlExist err).
Qed.

Lemma create_directory_always stat cargs vol dir :
  always P stat → (∀ d, on_the_way dir d → always P (execute (cargs ++ [d]))) →
  always P (create_directory stat execute cargs vol dir).
Proof.
  intros Hs He. apply always_bind; [done|]. intros [|err]; [done|]. destruct (errors_as CtlNotExist err); [|done].
  destruct (dirs_to_make dir) eqn:E; [|done]. apply create_dirs_always. intros d Hd.
  by eapply He, dirs_to_make_on_the_way.
Qed.

Lemma set_pattern_always isV8 vol cfg :
  ((constructSetPatternForVolumeArgs cfg isV8).2 = true →
   always P (execute ((constructSetPatternForVolumeArgs cfg isV8).1 ++ [volDirPathBeegfsRoot vol]))) →
  always P (set_pattern execute isV8 vol cfg).
Proof.
  intros H. unfold set_pattern. destruct (constructSetPatternForVolumeArgs cfg isV8) as [args []]; [|done].
  cbn [negb]. apply always_bind; [by apply H|]. by intros [].
Qed.
End Always.

(** What the services rely on: an executor runs nothing but the commands for
    the call it was given, besides those that find out the version. *)
Class RunsOps (cmd : beegfsVolume → ctl_op → event → Prop) (ctl : beegfsCtlExecutorInterface) : Prop := {
  create_runs vol dir cfg : always
    (λ e, cmd vol OpDetect e ∨ cmd vol (OpInfo dir) e ∨ ∃ d, on_the_way dir d ∧ cmd vol (OpCreate cfg d) e)
    (createDirectoryForVolume ctl vol dir cfg);
  stat_runs vol dir : always (λ e, cmd vol OpDetect e ∨ cmd vol (OpInfo dir) e) (statDirectoryForVolume ctl vol dir);
  pattern_runs vol cfg : always (λ e, cmd vol OpDetect e ∨ cmd vol (OpPattern cfg) e) (setPatternForVolume ctl vol cfg)
}.
Abbreviation RunsCtl := (RunsOps ctl_cmd).

Lemma RunsOps_mono (cmd cmd' : beegfsVolume → ctl_op → event → Prop) ctl :
  (∀ vol op e, cmd vol op e → cmd' vol op e) → RunsOps cmd ctl → RunsOps cmd' ctl.
Proof.
  intros H [H1 H2 H3].
  split; intros; (eapply always_mono; [|first [apply H1|apply H2|apply H3]]); cbn beta; naive_solver.
Qed.

Lemma execute_V8_always vol args (P : event → Prop) :
  head args ≠ Some "--help" → P (RunCmd "beegfs" (args ++ v8_flags vol)) → always P (execute_V8 vol args).
Proof. intros Hh HP. by rewrite execute_V8_eq. Qed.
Lemma execute_V7_always conf args (P : event → Prop) :
  P (RunCmd "beegfs-ctl" (("--cfgFile=" +:+ conf) :: args)) → always P (execute_V7 conf args).
Proof. intros HP. by split. Qed.

#[export] Instance V8_runs : RunsOps cmd8 beegfsCtlExecutorV8.
Proof.
  split; intros; cbn [createDirectoryForVolume statDirectoryForVolume setPatternForVolume beegfsCtlExecutorV8].
  - apply create_directory_always; [apply execute_V8_always; [done|by right; left]|].
    intros d Hd. apply execute_V8_always; [done|]. right. right. by exists d.
  - apply execute_V8_always; [done|by right].
  - apply set_pattern_always. intros Hn. apply execute_V8_always; [|by right].
    unfold constructSetPatternForVolumeArgs in *. by case_match.
Qed.
#[export] Instance V7_runs : RunsOps cmd7 beegfsCtlExecutorV7.
Proof.
  split; intros; cbn [createDirectoryForVolume statDirectoryForVolume setPatternForVolume beegfsCtlExecutorV7].
  - apply create_directory_always; [apply execute_V7_always; by right; left|].
    intros d Hd. apply execute_V7_always. right. right. by exists d.
  - apply execute_V7_always. by right.
  - apply set_pattern_always. intros Hn. apply execute_V7_always. by right.
Qed.

(** ** The dispatcher *)

Lemma detect_always vol : always (ctl_cmd vol OpDetect) (detectCTLVersion vol).
Proof.
  apply always_bind; [apply execute_V8_always; [done|by left]|]. intros [|]; [done|].
  apply always_bind; [apply execute_V7_always; by right|]. by intros [].
Qed.

Lemma detect_exec vol tr o :
  exec (detectCTLVersion vol) tr o →
  ∃ r, o = Returned r ∧ ∀ ctl, r = Ok ctl → ctl = beegfsCtlExecutorV8 ∨ ctl = beegfsCtlExecutorV7.
Proof.
  unfold detectCTLVersion. rewrite execute_V8_eq by done. intros (c & tr' & -> & Hx)%exec_cmd_bind.
  destruct (outcome_of c); [xret Hx; eexists; split; [done|]; intros ctl [= <-]; by left|].
  apply exec_cmd_bind in Hx as (c' & tr2 & -> & Hx).
  destruct (outcome_of c'); xret Hx; eexists; (split; [done|]); [intros ctl [= <-]; by right|done].
Qed.

(** What the dispatcher does satisfies what both executors' operations satisfy. *)
Lemma dispatch_always {A} (P : event → Prop) vol (f : beegfsCtlExecutorInterface → io (result A)) :
  (∀ e, ctl_cmd vol OpDetect e → P e) → always P (f beegfsCtlExecutorV8) → always P (f beegfsCtlExecutorV7) →
  always P (dispatch vol f).
Proof.
  intros HP H8 H7. apply always_bind_ret; [eapply always_mono, detect_always; done|]. intros tr r Hx.
  apply detect_exec in Hx as (r' & [= <-] & Hr). destruct r as [ctl|]; [|done].
  by destruct (Hr ctl eq_refl) as [->| ->].
Qed.

#[export] Instance V8_RunsCtl : RunsCtl beegfsCtlExecutorV8.
Proof. eapply RunsOps_mono, V8_runs. by left. Qed.
#[export] Instance V7_RunsCtl : RunsCtl beegfsCtlExecutorV7.
Proof. eapply RunsOps_mono, V7_runs. by right. Qed.
#[export] Instance dispatcher_RunsCtl : RunsCtl beegfsCtlDispatcher.
Proof.
  split; intros; (apply dispatch_always; [by left|..]);
    first [apply create_runs|apply stat_runs|apply pattern_runs].
Qed.
#[export] Instance fake_RunsCtl : RunsCtl fakeBeegfsCtlExecutor.
Proof. by split. Qed.

Definition is_cmd (name : string) (e : event) : Prop := ∃ args, e = RunCmd name args.
Lemma cmd8_is_cmd vol op e : cmd8 vol op e → is_cmd "beegfs" e.
Proof. intros ->. by eexists. Qed.

(** A dispatched call that runs the version 7 tool saw version 8 fail. *)
Lemma dispatch_v7 {A} vol (f : beegfsCtlExecutorInterface → io (result A)) tr o args :
  always (is_cmd "beegfs") (f beegfsCtlExecutorV8) →
  exec (dispatch vol f) tr o → did (RunCmd "beegfs-ctl" args) tr →
  ∃ c e, got (RunCmd "beegfs" (["node"; "list"] ++ v8_flags vol)) c tr ∧ cmd_err c = Some e.
Proof.
  intros Hf Hx Hdid. unfold dispatch, detectCTLVersion in Hx. rewrite execute_V8_eq in Hx by done.
  destruct Hx as (c & tr' & -> & Hx). cbn in Hx.
  destruct (cmd_err c) as [e|] eqn:Ec; [exists c, e; auto with trace|].
  exfalso. apply did_cons in Hdid as [|(r & Hin)]; [done|].
  pose proof (always_exec _ _ _ _ Hf Hx) as Hall. rewrite Forall_forall in Hall.
  by destruct (Hall _ Hin) as (? & [=]).
Qed.

(** The version 7 tool is run for a volume only after the version 8 tool
    failed to list the nodes of the volume's file system, whichever of the three
    operations is called. *)
Theorem v7_only_after_v8_failed vol dir cfg pattern args tr :
  (∃ o, exec (createDirectoryForVolume beegfsCtlDispatcher vol dir cfg) tr o)
  ∨ (∃ o, exec (statDirectoryForVolume beegfsCtlDispatcher vol dir) tr o)
  ∨ (∃ o, exec (setPatternForVolume beegfsCtlDispatcher vol pattern) tr o) →
  did (RunCmd "beegfs-ctl" args) tr →
  ∃ c e, got (RunCmd "beegfs" (["node"; "list"] ++ v8_flags vol)) c tr ∧ cmd_err c = Some e.
Proof.
  intros [[o Hx]|[[o Hx]|[o Hx]]] Hdid.
  - refine (dispatch_v7 vol (λ ctl, createDirectoryForVolume ctl vol dir cfg) _ _ _ _ Hx Hdid).
    eapply always_mono, (create_runs (cmd := cmd8)). cbn beta. intros e [He|[He|(d & _ & He)]]; by eapply cmd8_is_cmd.
  - refine (dispatch_v7 vol (λ ctl, statDirectoryForVolume ctl vol dir) _ _ _ _ Hx Hdid).
    eapply always_mono, (stat_runs (cmd := cmd8)). cbn beta. intros e [He|He]; by eapply cmd8_is_cmd.
  - refine (dispatch_v7 vol (λ ctl, setPatternForVolume ctl vol pattern) _ _ _ _ Hx Hdid).
    eapply always_mono, (pattern_runs (cmd := cmd8)). cbn beta. intros e [He|He]; by eapply cmd8_is_cmd.
Qed.

(** ** Examples *)

Module Example.

Definition vol : beegfsVolume := cs_volume_of "/csi" (mkPluginConfig no_layer []) "host" "/scratch" "vol".

(** A host where only the version 7 tool works and nothing exists yet. *)
Definition v7_host : sim :=
  mkSim 0 [] (Ok true) None
    (λ name args, if bool_decide (name = "beegfs") then mkCmd EmptyString "command not found" (Some (ErrMsg "exit status 127"))
      else if bool_decide ("--getentryinfo" ∈ args) then mkCmd EmptyString "entry does not exist" (Some (ErrMsg "exit status 1"))
      else mkCmd EmptyString EmptyString None)
    (Ok EmptyString) (sim_locks sim0) (sim_status sim0).

(** A host where the version 8 tool works and only /scratch exists. *)
Definition v8_host : sim :=
  mkSim 0 [] (Ok true) None
    (λ _ args, if bool_decide ("info" ∈ args) then mkCmd EmptyString "no such file or directory" (Some (ErrMsg "exit status 1"))
      else if bool_decide ("/scratch" ∈ args) then mkCmd EmptyString "exists already" (Some (ErrMsg "exit status 1"))
      else mkCmd EmptyString EmptyString None)
    (Ok EmptyString) (sim_locks sim0) (sim_status sim0).

Definition create7 : io (result unit) :=
  createDirectoryForVolume_V7 vol (abs (["scratch"] ++ ["vol"])) (mkPermissions 0 0 511).
Definition create8 : io (result unit) :=
  createDirectoryForVolume_V8 vol (abs (["scratch"] ++ ["vol"])) (mkPermissions 0 0 511).

Lemma createDirectory_V7_commands_witness :
  makes_directory "beegfs-ctl" [ "--cfgFile=" +:+ clientConfPath vol; "--unmounted"; "--getentryinfo"; "/scratch/vol"]
    (λ d, ("--cfgFile=" +:+ clientConfPath vol) :: constructCreateDirForVolumeArgs (mkPermissions 0 0 511) false ++ [d])
    (volumeID vol) ["scratch"; "vol"] (sim_trace create7 v7_host) (sim_ending create7 v7_host)
  ∧ length (sim_trace create7 v7_host) = 3%nat ∧ sim_ending create7 v7_host = Returned (Ok tt).
Proof.
  split; [|by vm_compute].
  apply (createDirectory_V7_commands vol ["scratch"] "vol" (mkPermissions 0 0 511)); [|apply sim_exec].
  by repeat constructor.
Defined.

Lemma createDirectory_V8_commands_witness :
  makes_directory "beegfs" (["--mount=none"; "entry"; "info"; "/scratch/vol"] ++ v8_flags vol)
    (λ d, (constructCreateDirForVolumeArgs (mkPermissions 0 0 511) true ++ [d]) ++ v8_flags vol)
    (volumeID vol) ["scratch"; "vol"] (sim_trace create8 v8_host) (sim_ending create8 v8_host)
  ∧ length (sim_trace create8 v8_host) = 3%nat ∧ sim_ending create8 v8_host = Returned (Ok tt).
Proof.
  split; [|by vm_compute].
  apply (createDirectory_V8_commands vol ["scratch"] "vol" (mkPermissions 0 0 511)); [|apply sim_exec].
  by repeat constructor.
Defined.

Lemma relative_dir_never_ends_witness : parent_dirs 1000 (Dir "vol") ["vol"] = None.
Proof. apply (relative_dir_never_ends "vol" 1000). reflexivity. Defined.

Lemma createDir_mode_argument_witness :
  ∃ digits, String.length digits = 3%nat ∧ ParseUint digits 8 16 = inl (Z.land 1517 511)
    ∧ ("--permissions=" +:+ digits) ∈ constructCreateDirForVolumeArgs (mkPermissions 0 0 1517) true.
Proof. apply (createDir_mode_argument (mkPermissions 0 0 1517) true). cbn. lia. Defined.

Definition stat7 : io (result string) := statDirectoryForVolume beegfsCtlDispatcher vol "/scratch/vol".

Lemma v7_only_after_v8_failed_witness :
  ∃ c e, got (RunCmd "beegfs" (["node"; "list"] ++ v8_flags vol)) c (sim_trace stat7 v7_host) ∧ cmd_err c = Some e.
Proof.
  apply (v7_only_after_v8_failed vol "/scratch/vol" (mkPermissions 0 0 511) (mkStripe "" "" "")
    ["--cfgFile=" +:+ clientConfPath vol; "--unmounted"; "--getentryinfo"; "/scratch/vol"]).
  - right; left. eexists. apply (sim_exec stat7).
  - eexists. apply (list_elem_of_lookup_2 _ 2). vm_compute. reflexivity.
Defined.
End Example.
