(* ===== verification/ClientFiles.v ===== *)
(** * ClientFiles: writing a volume's client configuration (beegfs_util.go, writeClientFiles) *)
From S2P Require Import Prelude GoStrings GoPath Prog Config Volume World Mounts.
Local Open Scope Z_scope.

Section ClientFiles.
Context {INI : Ini}.

(** The helper of the same name: an error if the template has no such key. *)
Definition setConfigValueIfKeyExists (iniFile : ini_file) (key value : string) : result ini_file :=
  if HasKey iniFile key then Ok (SetValue iniFile key value)
  else Err (ErrMsg (key +:+ " not in template beegfs-client.conf file")).

(** The loop over BeegfsClientConf: keys the template does not know are errors,
    but for the two ports that version 8 replaced by one. *)
Fixpoint set_client_conf (kvs : list (string * string)) (connMgmtdPort : string) (clientConfINI : ini_file)
    : result ini_file :=
  match kvs with
  | [] => Ok clientConfINI
  | (k, v) :: r =>
      match setConfigValueIfKeyExists clientConfINI k v with
      | Ok f => set_client_conf r connMgmtdPort f
      | Err err =>
          if bool_decide (k = "connMgmtdPortTCP") || bool_decide (k = "connMgmtdPortUDP") then
            if HasKey clientConfINI "connMgmtdPort" then
              if bool_decide (connMgmtdPort = EmptyString) || bool_decide (connMgmtdPort = v) then
                f ← setConfigValueIfKeyExists clientConfINI "connMgmtdPort" v;
                set_client_conf r v f
              else Err (ErrMsg ("the template beegfs-client.conf file appears to be for BeeGFS 8 but connMgmtdPortTCP "
                +:+ "and connMgmtdPortUDP appear to be set to different values in the driver configuration "
                +:+ "(they must be the same in BeeGFS 8+)"))
            else Err err
          else Err err
      end
  end.

(** Set the key that names a file, and write the file, if there is something to
    write. A [None] key is one that the configuration does not mention. *)
Definition write_conf_file (key : option string) (path content : string) (perm : Z) (present : bool) (what : string)
    (clientConfINI : ini_file) : io (result ini_file) :=
  if negb present then ok clientConfINI else
  match (match key with Some k => setConfigValueIfKeyExists clientConfINI k path | None => Ok clientConfINI end) with
  | Err err => fail err
  | Ok f =>
      let? _ := do (WriteFile path content perm) catch err => fail (Wrap err ("error writing " +:+ what +:+ " file")) in
      ok f
  end.

Definition lines (l : list string) : string := Join l newline +:+ newline.
Definition nonempty {A} (l : list A) : bool := match l with [] => false | _ => true end.
Definition nonempty_str (s : string) : bool := negb (bool_decide (s = EmptyString)).

Definition writeClientFiles (vol : beegfsVolume) (confTemplatePath : string) : io (result unit) :=
  let cfg := config vol in
  let file name := PathJoin [mountDirPath vol; name] in
  let? port := getEphemeralPortUDP catch err => fail (Wrap err "error selecting connClientPort") in
  let connClientPort := Itoa port in
  let? clientConfBytes := do (ReadFile confTemplatePath) catch err =>
    fail (Wrap err ("error loading beegfs-client.conf file at " +:+ confTemplatePath)) in
  match ini_Load clientConfBytes with
  | Err err => fail (Wrap err "error parsing template beegfs-client.conf file")
  | Ok f =>
  match setConfigValueIfKeyExists f "sysMgmtdHost" (sysMgmtdHost vol) with
  | Err err => fail err
  | Ok f =>
  match (match setConfigValueIfKeyExists f "connClientPort" connClientPort with
         | Ok f => Ok f
         | Err _ => setConfigValueIfKeyExists f "connClientPortUDP" connClientPort
         end) with
  | Err err => fail (ErrWrap "unable to set connClientPort (BeeGFS 8) or connClientPortUDP (BeeGFS 7): " err EmptyString)
  | Ok f =>
  kvs ← do (RangeMap (BeegfsClientConf cfg));
  match set_client_conf (proj1_sig kvs) EmptyString f with
  | Err err => fail err
  | Ok f =>
  let? f := write_conf_file (Some "connInterfacesFile") (file "connInterfacesFile") (lines (ConnInterfaces cfg))
              0x1a4 (nonempty (ConnInterfaces cfg)) "connInterfaces" f catch err => fail err in
  let? f := write_conf_file (Some "connAuthFile") (getConnAuthPath vol) (ConnAuth cfg)
              0x100 (nonempty_str (ConnAuth cfg)) "connAuth" f catch err => fail err in
  let? f := write_conf_file None (getTLSCertPath vol) (TLSCert cfg)
              0x100 (nonempty_str (TLSCert cfg)) "tlsCert" f catch err => fail err in
  let? f := write_conf_file (Some "connNetFilterFile") (file "connNetFilterFile") (lines (ConnNetFilter cfg))
              0x1a4 (nonempty (ConnNetFilter cfg)) "connNetFilter" f catch err => fail err in
  let? f := write_conf_file (Some "connTcpOnlyFilterFile") (file "connTcpOnlyFilterFile") (lines (ConnTcpOnlyFilter cfg))
              0x1a4 (nonempty (ConnTcpOnlyFilter cfg)) "connTcpOnlyFilter" f catch err => fail err in
  let? f := write_conf_file (Some "connRDMAInterfacesFile") (file "connRDMAInterfacesFile") (lines (ConnRDMAInterfaces cfg))
              0x1a4 (nonempty (ConnRDMAInterfaces cfg)) "connRDMAInterfaces" f catch err => fail err in
  let? _ := do (Create (clientConfPath vol)) catch err => fail (Wrap err "error creating beegfs-client.conf file") in
  let? _ := do (WriteTo (clientConfPath vol) (ini_Bytes f)) catch err =>
    fail (Wrap err "error writing beegfs-client.conf file") in
  ok tt
  end end end end.
End ClientFiles.
