(* ===== verification/ClientFilesFacts.v ===== *)
(** * ClientFilesFacts: what writeClientFiles writes, and where *)
From S2P Require Import Prelude GoStrings GoPath Prog Config ConfigFacts Volume World Sim Mounts ClientFiles.
Local Open Scope Z_scope.

Section Facts.
Context {INI : Ini}.

(** ** Where *)

(** The files a volume's settings ask for, with contents and permissions. *)
Definition settings_file (vol : beegfsVolume) (path content : string) (perm : Z) : Prop :=
  let cfg := config vol in
  let file name := PathJoin [mountDirPath vol; name] in
  (path = file "connInterfacesFile" ∧ content = lines (ConnInterfaces cfg) ∧ perm = 0x1a4)
  ∨ (path = file "connAuthFile" ∧ content = ConnAuth cfg ∧ perm = 0x100)
  ∨ (path = file "cert.pem" ∧ content = TLSCert cfg ∧ perm = 0x100)
  ∨ (path = file "connNetFilterFile" ∧ content = lines (ConnNetFilter cfg) ∧ perm = 0x1a4)
  ∨ (path = file "connTcpOnlyFilterFile" ∧ content = lines (ConnTcpOnlyFilter cfg) ∧ perm = 0x1a4)
  ∨ (path = file "connRDMAInterfacesFile" ∧ content = lines (ConnRDMAInterfaces cfg) ∧ perm = 0x1a4).

Definition client_event (vol : beegfsVolume) (template : string) (e : event) : Prop :=
  match e with
  | WriteFile path content perm => settings_file vol path content perm
  | Create path | WriteTo path _ => path = clientConfPath vol
  | ReadFile path => path = template
  | ListenPacket _ _ | ResolveUDPAddr _ _ | CloseConn | RangeMap _ => True
  | _ => False
  end.

Lemma write_conf_file_always vol template key path content perm present what f :
  settings_file vol path content perm →
  always (client_event vol template) (write_conf_file key path content perm present what f).
Proof. intros H. unfold write_conf_file. asteps; done. Qed.

Lemma getEphemeralPortUDP_always vol template : always (client_event vol template) getEphemeralPortUDP.
Proof. unfold getEphemeralPortUDP. asteps; done. Qed.

Lemma writeClientFiles_always vol template :
  always (client_event vol template) (writeClientFiles vol template).
Proof.
  assert (∀ key path content perm present what f, settings_file vol path content perm →
    always (client_event vol template) (write_conf_file key path content perm present what f)) as Hw
    by (intros; by apply write_conf_file_always).
  unfold writeClientFiles.
  repeat first [astep | apply getEphemeralPortUDP_always | apply Hw; unfold settings_file; tauto]; try done.
Qed.

(** C29: writeClientFiles touches nothing but the template it reads and files
    of the volume's mount directory; each secret goes only to its own file, which
    only its owner may read. *)
Theorem writeClientFiles_confined vol template tr o e :
  exec (writeClientFiles vol template) tr o → did e tr → client_event vol template e.
Proof.
  intros Hx (r & Hin). pose proof (always_exec _ _ _ _ (writeClientFiles_always vol template) Hx) as Hall.
  rewrite Forall_forall in Hall. exact (Hall _ Hin).
Qed.

(** ** What *)

Lemma setConfigValue_ok f k v f' :
  setConfigValueIfKeyExists f k v = Ok f' →
  f' = SetValue f k v ∧ HasKey f k = true ∧ ∀ k', HasKey f' k' = HasKey f k'.
Proof.
  unfold setConfigValueIfKeyExists. destruct (HasKey f k) eqn:E; [|done]. intros [= <-]. split_and!; [done..|].
  intros k'. rewrite HasKey_SetValue. case_bool_decide; [by subst|done].
Qed.

(** The two ports that version 8 replaced by one. *)
Definition deprecated (k : string) : bool := bool_decide (k = "connMgmtdPortTCP") || bool_decide (k = "connMgmtdPortUDP").

(** Does a key of the client configuration replace version 8's port, because the
    template does not know it? Does it give that port its value? *)
Definition replaces (f : ini_file) (k : string) : bool := deprecated k && negb (HasKey f k).
Definition gives_port (f : ini_file) (k : string) : bool := bool_decide (k = "connMgmtdPort") || replaces f k.

(** What the client configuration [conf] makes of the file [f]: each of its keys
    is one of the file's, or a deprecated port in a file that has version 8's;
    the keys of the file other than that port take its value. That port takes
    the value of one of the keys that give it, and the values that replace it
    agree unless one of them is empty. *)
Record conf_applied (conf : string → option string) (f f' : ini_file) : Prop := {
  conf_keys k : HasKey f' k = HasKey f k;
  conf_known k v : conf k = Some v → HasKey f k = true ∨ (deprecated k = true ∧ HasKey f "connMgmtdPort" = true);
  conf_values k : k ≠ "connMgmtdPort" → KeyValue f' k = default (KeyValue f k) (if HasKey f k then conf k else None);
  conf_port :
    (∃ k v, gives_port f k = true ∧ conf k = Some v ∧ KeyValue f' "connMgmtdPort" = v)
    ∨ ((∀ k, gives_port f k = true → conf k = None) ∧ KeyValue f' "connMgmtdPort" = KeyValue f "connMgmtdPort");
  conf_agree k1 k2 v1 v2 : replaces f k1 = true → replaces f k2 = true → conf k1 = Some v1 → conf k2 = Some v2 →
    v1 = v2 ∨ v1 = EmptyString ∨ v2 = EmptyString
}.

Lemma replaces_ext f f' k : (∀ k, HasKey f' k = HasKey f k) → replaces f' k = replaces f k.
Proof. intros H. unfold replaces. by rewrite H. Qed.
Lemma gives_port_ext f f' k : (∀ k, HasKey f' k = HasKey f k) → gives_port f' k = gives_port f k.
Proof. intros H. unfold gives_port. by rewrite (replaces_ext f f'). Qed.

Lemma conf_applied_ext conf conf' f f' :
  (∀ k, conf k = conf' k) → conf_applied conf f f' → conf_applied conf' f f'.
Proof.
  intros E [C1 C2 C3 C4 C5]. split.
  - done.
  - intros k v. rewrite <- E. apply C2.
  - intros k Hk. rewrite <- E. auto.
  - destruct C4 as [(k & v & ? & ? & ?)|[? ?]]; [left; exists k, v; by rewrite <- E|].
    right. split; [intros; rewrite <- E; auto|done].
  - intros k1 k2 v1 v2. rewrite <- !E. apply C5.
Qed.

(** One round of the loop, for a key that the rest does not have. *)
Definition with_key (k v : string) (conf : string → option string) (k' : string) : option string :=
  if bool_decide (k' = k) then Some v else conf k'.

(** What one round does to the file. *)
Definition round (k v : string) (f f1 : ini_file) : Prop :=
  (HasKey f k = true ∧ f1 = SetValue f k v)
  ∨ (replaces f k = true ∧ HasKey f "connMgmtdPort" = true ∧ f1 = SetValue f "connMgmtdPort" v).

Lemma round_keys k v f f1 : round k v f f1 → ∀ k', HasKey f1 k' = HasKey f k'.
Proof.
  intros [[H ->]|(_ & H & ->)] k'; rewrite HasKey_SetValue; case_bool_decide; by subst.
Qed.

Lemma round_port k v f f1 conf f' :
  conf k = None → round k v f f1 → conf_applied conf f1 f' →
  (∃ k' v', gives_port f k' = true ∧ with_key k v conf k' = Some v' ∧ KeyValue f' "connMgmtdPort" = v')
  ∨ ((∀ k', gives_port f k' = true → with_key k v conf k' = None)
     ∧ KeyValue f' "connMgmtdPort" = KeyValue f "connMgmtdPort").
Proof.
  intros Hk Hr Hc. pose proof (round_keys _ _ _ _ Hr) as Hkeys. unfold with_key.
  destruct (conf_port _ _ _ Hc) as [(k' & v' & Hg & Hv & HV)|[Hno HV]].
  { left. exists k', v'. rewrite (gives_port_ext _ _ _ Hkeys) in Hg. case_bool_decide; [congruence|done]. }
  destruct (gives_port f k) eqn:Eg.
  - left. exists k, v. rewrite bool_decide_eq_true_2 by done. split_and!; [done..|]. rewrite HV.
    destruct Hr as [[H ->]|(H & _ & ->)]; rewrite KeyValue_SetValue.
    + unfold gives_port, replaces in Eg. rewrite H, andb_false_r, orb_false_r in Eg. bools. subst.
      by rewrite bool_decide_eq_true_2.
    + by rewrite bool_decide_eq_true_2.
  - right. split.
    + intros k' Hg. case_bool_decide; [congruence|]. apply Hno. by rewrite (gives_port_ext _ _ _ Hkeys).
    + rewrite HV. apply orb_false_iff in Eg as [Ek Er]. bools.
      destruct Hr as [[H ->]|(H & _)]; [|congruence]. rewrite KeyValue_SetValue, bool_decide_eq_false_2 by done. done.
Qed.

Lemma round_applied k v f f1 conf f' :
  conf k = None → round k v f f1 → conf_applied conf f1 f' →
  (∀ k' v', replaces f k = true → replaces f k' = true → conf k' = Some v' → v = EmptyString ∨ v' = v) →
  conf_applied (with_key k v conf) f f'.
Proof.
  intros Hk Hr Hc Hagree. pose proof (round_keys _ _ _ _ Hr) as Hkeys. split.
  - intros k'. by rewrite (conf_keys _ _ _ Hc).
  - intros k' v'. unfold with_key. case_bool_decide as E; intros Hv.
    + subst. destruct Hr as [[H _]|(H & Hp & _)]; [by left|right]. by apply andb_true_iff in H as [H _].
    + destruct (conf_known _ _ _ Hc k' v' Hv) as [H|[H H']]; rewrite Hkeys in *; auto.
  - intros k' Hk'. rewrite (conf_values _ _ _ Hc k' Hk'), Hkeys. unfold with_key. case_bool_decide as E.
    + subst k'. rewrite Hk. replace (if HasKey f k then None else None) with (@None string) by (by destruct (HasKey f k)).
      cbn [default]. destruct Hr as [[-> ->]|(H & _ & ->)]; rewrite KeyValue_SetValue.
      * by rewrite bool_decide_eq_true_2.
      * apply andb_true_iff in H as [_ H%negb_true_iff]. rewrite H, bool_decide_eq_false_2 by congruence. done.
    + destruct Hr as [[_ ->]|(_ & _ & ->)]; rewrite KeyValue_SetValue, bool_decide_eq_false_2 by congruence; done.
  - by eapply round_port.
  - intros k1 k2 v1 v2 H1 H2. unfold with_key. repeat case_bool_decide; intros; simplify_eq; [by left|..].
    + destruct (Hagree k2 v2); auto.
    + destruct (Hagree k1 v1); auto.
    + eapply (conf_agree _ _ _ Hc k1 k2); rewrite ?(replaces_ext _ _ _ Hkeys); done.
Qed.

Lemma set_client_conf_applied kvs : ∀ p f f',
  NoDup kvs.*1 → set_client_conf kvs p f = Ok f' →
  conf_applied (λ k, (list_to_map kvs : gomap) !! k) f f'
  ∧ ∀ k v, replaces f k = true → (k, v) ∈ kvs → p = EmptyString ∨ v = p.
Proof.
  induction kvs as [|[k v] kvs IH]; intros p f f' Hnd; cbn [set_client_conf].
  { intros [= <-]. split; [|by intros k v _ []%elem_of_nil].
    split; [done|done|intros k _; by destruct (HasKey f k)|right; split; done|done]. }
  rewrite fmap_cons in Hnd. apply NoDup_cons in Hnd as [Hk Hnd]. cbn [fst] in Hk.
  assert ((list_to_map kvs : gomap) !! k = None) as Hnone by (by apply not_elem_of_list_to_map_1).
  assert (∀ p' f1, round k v f f1 → set_client_conf kvs p' f1 = Ok f' →
    (replaces f k = true → p' = v ∧ (p = EmptyString ∨ p = v)) → (replaces f k = false → p' = p) →
    conf_applied (λ k', (list_to_map ((k, v) :: kvs) : gomap) !! k') f f'
    ∧ ∀ k' v', replaces f k' = true → (k', v') ∈ (k, v) :: kvs → p = EmptyString ∨ v' = p) as Hround.
  { intros p' f1 Hr Hrun Hp1 Hp2. pose proof (round_keys _ _ _ _ Hr) as Hkeys.
    destruct (IH p' f1 f' Hnd Hrun) as [Hc Hp]. split.
    - apply (conf_applied_ext (with_key k v (λ k', (list_to_map kvs : gomap) !! k'))).
      + intros k'. unfold with_key. rewrite list_to_map_cons. case_bool_decide; [by subst; rewrite lookup_insert_eq|].
        by rewrite lookup_insert_ne.
      + eapply round_applied; [done..|]. intros k' v' Hrk Hrk' Hv'. destruct (Hp1 Hrk) as [-> _].
        apply (Hp k' v'); [by rewrite (replaces_ext _ _ _ Hkeys)|by apply elem_of_list_to_map_2].
    - intros k' v' Hrk [[= -> ->]|Hin]%elem_of_cons; [destruct (Hp1 Hrk) as [_ []]; auto|].
      assert (p' = EmptyString ∨ v' = p') as Hv' by (apply (Hp k'); [by rewrite (replaces_ext _ _ _ Hkeys)|done]).
      destruct (replaces f k); [|by rewrite <- (Hp2 eq_refl)]. destruct (Hp1 eq_refl) as [-> [->|Ep]]; [by left|].
      subst p. done. }
  destruct (setConfigValueIfKeyExists f k v) as [f1|err] eqn:E1.
  { apply setConfigValue_ok in E1 as (-> & Hh & _). intros Hrun. apply (Hround p (SetValue f k v)); [by left|done|..];
      unfold replaces; rewrite Hh, andb_false_r; done. }
  assert (HasKey f k = false) as Hh by (unfold setConfigValueIfKeyExists in E1; by destruct (HasKey f k)).
  fold (deprecated k). destruct (deprecated k) eqn:Ed; [|done].
  assert (replaces f k = true) as Hrep by (unfold replaces; by rewrite Ed, Hh).
  destruct (HasKey f "connMgmtdPort") eqn:Eh; [|done].
  destruct (bool_decide (p = EmptyString) || bool_decide (p = v)) eqn:Ep; [|done].
  unfold setConfigValueIfKeyExists. rewrite Eh. cbn. intros Hrun.
  apply (Hround v (SetValue f "connMgmtdPort" v)); [by right|done| |congruence]. intros _. split; [done|].
  apply orb_true_iff in Ep as [Ep|Ep]; bools; auto.
Qed.

(** Which key names the client's port: version 8's, or version 7's. *)
Definition port_key (f : ini_file) : string :=
  if HasKey f "connClientPort" then "connClientPort" else "connClientPortUDP".

(** The value of each key of the written beegfs-client.conf, but for the port that
    can be replaced. *)
Definition written_value (vol : beegfsVolume) (template : ini_file) (port : Z) (k : string) : string :=
  let cfg := config vol in
  let file name := PathJoin [mountDirPath vol; name] in
  if bool_decide (k = "connRDMAInterfacesFile") && nonempty (ConnRDMAInterfaces cfg) then file k
  else if bool_decide (k = "connTcpOnlyFilterFile") && nonempty (ConnTcpOnlyFilter cfg) then file k
  else if bool_decide (k = "connNetFilterFile") && nonempty (ConnNetFilter cfg) then file k
  else if bool_decide (k = "connAuthFile") && nonempty_str (ConnAuth cfg) then file k
  else if bool_decide (k = "connInterfacesFile") && nonempty (ConnInterfaces cfg) then file k
  else match (if HasKey template k then BeegfsClientConf cfg !! k else None) with
  | Some v => v
  | None =>
      if bool_decide (k = port_key template) then Itoa port
      else if bool_decide (k = "sysMgmtdHost") then sysMgmtdHost vol
      else KeyValue template k
  end.

Lemma write_conf_file_returned key path content perm present what f tr f' :
  exec (write_conf_file key path content perm present what f) tr (Returned (Ok f')) →
  ∀ k', KeyValue f' k' = if bool_decide (key = Some k') && present then path else KeyValue f k'.
Proof.
  unfold write_conf_file. destruct present; cbn [negb]; intros Hx k'; [|xret Hx; by rewrite andb_false_r].
  rewrite andb_true_r. destruct key as [k|]; cbn match in Hx.
  - destruct (setConfigValueIfKeyExists f k path) as [f1|] eqn:E; [|by xret Hx].
    xdo Hx r. destruct r; [|by xret Hx]. xret Hx. apply setConfigValue_ok in E as (-> & _).
    rewrite KeyValue_SetValue. repeat case_bool_decide; congruence.
  - xdo Hx r. destruct r; [|by xret Hx]. xret Hx. done.
Qed.

Lemma getEphemeralPortUDP_returned tr port :
  exec getEphemeralPortUDP tr (Returned (Ok port)) → ∃ conn, got (ResolveUDPAddr conn.1 conn.2) (Ok port) tr.
Proof.
  unfold getEphemeralPortUDP. intros Hx. xlet Hx conn Hc. xdo Hx res. xdo Hx closed.
  destruct closed; [|destruct res; by xret Hx]. xret Hx. exists conn. destruct res; simplify_eq. auto with trace.
Qed.

Lemma KeyValue_ports f h port f1 f2 :
  setConfigValueIfKeyExists f "sysMgmtdHost" h = Ok f1 →
  (match setConfigValueIfKeyExists f1 "connClientPort" port with
   | Ok f => Ok f
   | Err _ => setConfigValueIfKeyExists f1 "connClientPortUDP" port
   end) = Ok f2 →
  (∀ k, HasKey f2 k = HasKey f k)
  ∧ ∀ k, KeyValue f2 k = if bool_decide (k = port_key f) then port
                         else if bool_decide (k = "sysMgmtdHost") then h else KeyValue f k.
Proof.
  intros (-> & _ & Hh)%setConfigValue_ok.
  assert (∀ key f', key = port_key f → setConfigValueIfKeyExists (SetValue f "sysMgmtdHost" h) key port = Ok f' →
    (∀ k, HasKey f' k = HasKey f k) ∧ ∀ k, KeyValue f' k = if bool_decide (k = port_key f) then port
      else if bool_decide (k = "sysMgmtdHost") then h else KeyValue f k) as Hset.
  { intros key f' Hkey (-> & _ & Hh')%setConfigValue_ok. split; intros k; [by rewrite Hh', Hh|].
    rewrite !KeyValue_SetValue, Hkey. repeat case_bool_decide; congruence. }
  unfold port_key in *. destruct (setConfigValueIfKeyExists _ "connClientPort" port) eqn:E; intros Hf2.
  - simplify_eq. apply (Hset _ _) in E; [done|]. apply setConfigValue_ok in E as (_ & Hk & _).
    rewrite Hh in Hk. by rewrite Hk.
  - apply (Hset _ _) in Hf2; [done|]. unfold setConfigValueIfKeyExists in E. rewrite Hh in E.
    by destruct (HasKey f "connClientPort").
Qed.

(** The loop over a Go map, in whatever order it runs. *)
Lemma set_client_conf_map (m : gomap) (kvs : { l : list (string * string) | l ≡ₚ map_to_list m }) f f' :
  set_client_conf (proj1_sig kvs) EmptyString f = Ok f' → conf_applied (λ k, m !! k) f f'.
Proof.
  destruct kvs as [kvs Hp]. cbn [proj1_sig]. intros Hrun.
  assert (NoDup kvs.*1) as Hnd by (rewrite Hp; apply NoDup_fst_map_to_list).
  assert (m = list_to_map kvs) as -> by (apply list_to_map_flip; by symmetry).
  by apply set_client_conf_applied in Hrun as [Hrun _].
Qed.

(** The values of the file [f] that is written for a template [f0]. *)
Record written (vol : beegfsVolume) (f0 : ini_file) (port : Z) (f : ini_file) : Prop := {
  written_values k : k ≠ "connMgmtdPort" → KeyValue f k = written_value vol f0 port k;
  written_known k v : BeegfsClientConf (config vol) !! k = Some v →
    HasKey f0 k = true ∨ (deprecated k = true ∧ HasKey f0 "connMgmtdPort" = true);
  written_port :
    (∃ k v, gives_port f0 k = true ∧ BeegfsClientConf (config vol) !! k = Some v ∧ KeyValue f "connMgmtdPort" = v)
    ∨ ((∀ k, gives_port f0 k = true → BeegfsClientConf (config vol) !! k = None)
       ∧ KeyValue f "connMgmtdPort" = KeyValue f0 "connMgmtdPort");
  written_agree k1 k2 v1 v2 : replaces f0 k1 = true → replaces f0 k2 = true →
    BeegfsClientConf (config vol) !! k1 = Some v1 → BeegfsClientConf (config vol) !! k2 = Some v2 →
    v1 = v2 ∨ v1 = EmptyString ∨ v2 = EmptyString
}.

(** The files that the settings name, over the values of [f3]. *)
Definition with_files (vol : beegfsVolume) (k : string) (v : string) : string :=
  let cfg := config vol in
  let file name := PathJoin [mountDirPath vol; name] in
  if bool_decide (k = "connRDMAInterfacesFile") && nonempty (ConnRDMAInterfaces cfg) then file "connRDMAInterfacesFile"
  else if bool_decide (k = "connTcpOnlyFilterFile") && nonempty (ConnTcpOnlyFilter cfg) then file "connTcpOnlyFilterFile"
  else if bool_decide (k = "connNetFilterFile") && nonempty (ConnNetFilter cfg) then file "connNetFilterFile"
  else if bool_decide (k = "connAuthFile") && nonempty_str (ConnAuth cfg) then file "connAuthFile"
  else if bool_decide (k = "connInterfacesFile") && nonempty (ConnInterfaces cfg) then file "connInterfacesFile"
  else v.

Lemma written_of_applied vol f0 port f2 f3 f :
  (∀ k, HasKey f2 k = HasKey f0 k) →
  (∀ k, KeyValue f2 k = if bool_decide (k = port_key f0) then Itoa port
                        else if bool_decide (k = "sysMgmtdHost") then sysMgmtdHost vol else KeyValue f0 k) →
  conf_applied (λ k, BeegfsClientConf (config vol) !! k) f2 f3 →
  (∀ k, KeyValue f k = with_files vol k (KeyValue f3 k)) → written vol f0 port f.
Proof.
  intros Hk Hv Hc Hf.
  assert (KeyValue f "connMgmtdPort" = KeyValue f3 "connMgmtdPort") as Hport by (by rewrite Hf).
  split.
  - intros k Hne. rewrite Hf, (conf_values _ _ _ Hc k Hne), Hk, Hv. unfold written_value, with_files.
    repeat match goal with |- (if bool_decide (k = ?a) && ?b then _ else _) = _ =>
      destruct (bool_decide (k = a) && b) eqn:?; [bools; by subst|] end.
    by destruct (if HasKey f0 k then _ else _).
  - intros k v Hkv. rewrite <- !Hk. by eapply (conf_known _ _ _ Hc).
  - rewrite Hport. destruct (conf_port _ _ _ Hc) as [(k & v & Hg & H)|[Hno H]].
    + left. exists k, v. by rewrite (gives_port_ext _ _ _ Hk) in Hg.
    + right. split; [intros k Hg; apply Hno; by rewrite (gives_port_ext _ _ _ Hk)|]. rewrite H, Hv.
      rewrite (bool_decide_eq_false_2 (_ = port_key f0)); [done|]. unfold port_key. by destruct (HasKey f0 _).
  - intros k1 k2 v1 v2 H1 H2. apply (conf_agree _ _ _ Hc); by rewrite (replaces_ext _ _ _ Hk).
Qed.

(** C28: when writeClientFiles succeeds, the beegfs-client.conf it wrote has for
    every key but connMgmtdPort the value the settings give it: the file of a
    non-empty list or secret, else the client configuration's value if the template
    has the key, else the driver's own port and host, else the template's. Every
    key of the client configuration is one of the template's, or one of the
    deprecated connMgmtdPortTCP and connMgmtdPortUDP where the template has
    connMgmtdPort instead. That port gets the value of one of those the client
    configuration gives it, under its own name or a deprecated one that the
    template does not have, and keeps the template's if there is none; two
    deprecated ones agree, unless one is empty. *)
Theorem writeClientFiles_contents vol template tr :
  exec (writeClientFiles vol template) tr (Returned (Ok tt)) →
  ∃ text f0 conn port f,
    got (ReadFile template) (Ok text) tr ∧ ini_Load text = Ok f0
    ∧ got (ResolveUDPAddr conn.1 conn.2) (Ok port) tr
    ∧ got (WriteTo (clientConfPath vol) (ini_Bytes f)) (Ok tt) tr
    ∧ written vol f0 port f.
Proof.
  unfold writeClientFiles. cbv zeta. intros Hx.
  xlet Hx port Hport. apply getEphemeralPortUDP_returned in Hport as (conn & Hport).
  xlet Hx text Htext. apply exec_trigger in Htext as ->.
  destruct (ini_Load text) as [f0|] eqn:E0; [|by xret Hx].
  destruct (setConfigValueIfKeyExists f0 _ _) as [f1|] eqn:E1; [|by xret Hx].
  destruct (match setConfigValueIfKeyExists f1 _ _ with Ok _ => _ | Err _ => _ end) as [f2|] eqn:E2; [|by xret Hx].
  destruct (KeyValue_ports _ _ _ _ _ E1 E2) as [Hhas2 Hval2]. xdo Hx kvs.
  destruct (set_client_conf _ _ f2) as [f3|] eqn:E3; [|by xret Hx].
  xlet Hx f4 H4. xlet Hx f5 H5. xlet Hx f6 H6. xlet Hx f7 H7. xlet Hx f8 H8. xlet Hx f9 H9.
  xlet Hx u Hu. apply exec_trigger in Hu as ->. xlet Hx v Hv. apply exec_trigger in Hv as ->. destruct v.
  exists text, f0, conn, port, f9. split_and!; [by auto 20 with trace..|].
  apply set_client_conf_map in E3. apply (written_of_applied _ _ _ _ _ _ Hhas2 Hval2 E3). intros k.
  repeat match goal with H : exec (write_conf_file _ _ _ _ _ _ _) _ _ |- _ =>
    rewrite (write_conf_file_returned _ _ _ _ _ _ _ _ _ H k); clear H end.
  repeat match goal with |- context [bool_decide (Some ?a = Some k)] =>
    rewrite (bool_decide_ext (Some a = Some k) (k = a)) by (split; congruence) end.
  by rewrite (bool_decide_eq_false_2 (None = Some k)) by done.
Qed.

(** A client configuration that sets both version 8's management port and
    the deprecated TCP port gives, on a version 8 template, a port that depends
    on the order in which Go ranges over the map. *)
Theorem mgmtd_port_depends_on_order f a b :
  HasKey f "connMgmtdPort" = true → HasKey f "connMgmtdPortTCP" = false →
  let m : gomap := {[ "connMgmtdPort" := a; "connMgmtdPortTCP" := b ]} in
  ∃ l1 l2 f1 f2, l1 ≡ₚ map_to_list m ∧ l2 ≡ₚ map_to_list m
    ∧ set_client_conf l1 EmptyString f = Ok f1 ∧ set_client_conf l2 EmptyString f = Ok f2
    ∧ KeyValue f1 "connMgmtdPort" = b ∧ KeyValue f2 "connMgmtdPort" = a.
Proof.
  intros Hk Ht m. set (x := ("connMgmtdPort", a)). set (y := ("connMgmtdPortTCP", b)).
  assert (map_to_list m ≡ₚ [x; y]) as Hm.
  { subst m. unfold x, y. rewrite map_to_list_insert by done. by rewrite map_to_list_singleton. }
  exists [x; y], [y; x], (SetValue (SetValue f "connMgmtdPort" a) "connMgmtdPort" b),
    (SetValue (SetValue f "connMgmtdPort" b) "connMgmtdPort" a).
  split_and!; [by symmetry|rewrite Hm; by constructor| | |by rewrite KeyValue_SetValue..];
    unfold x, y; cbn [set_client_conf]; unfold setConfigValueIfKeyExists;
    repeat (rewrite ?HasKey_SetValue, ?Hk, ?Ht; cbn); done.
Qed.
End Facts.

Module Example.

Definition conf : layer :=
  mkBeegfsConfig EmptyString ["eth0"] ["10.0.0.0/8"] [] [] "secret" EmptyString {[ "tunePreferredMetaFile" := "none" ]}.
Definition vol : beegfsVolume := cs_volume_of "/csi" (mkPluginConfig conf []) "host" "/scratch" "vol".

(** A version 8 client configuration. *)
Definition template : gomap :=
  {[ "sysMgmtdHost" := EmptyString; "connClientPort" := "8004"; "connMgmtdPort" := "8008";
     "connInterfacesFile" := EmptyString; "connNetFilterFile" := EmptyString; "connAuthFile" := EmptyString;
     "tunePreferredMetaFile" := EmptyString ]}.
Definition ini : Ini := template_ini template.
Definition p : io (result unit) := writeClientFiles (INI := ini) vol "/etc/beegfs/beegfs-client.conf".

Lemma writeClientFiles_confined_witness :
  client_event vol "/etc/beegfs/beegfs-client.conf" (WriteFile "/csi/host_scratch_vol/connAuthFile" "secret" 0x100).
Proof.
  apply (writeClientFiles_confined (INI := ini) vol _ (sim_trace p sim0) (sim_ending p sim0)).
  - apply sim_exec.
  - exists (Ok tt). apply (list_elem_of_lookup_2 _ 6). vm_compute. reflexivity.
Defined.

(** A configuration for version 7, on the version 8 template. *)
Definition conf7 : layer :=
  mkBeegfsConfig EmptyString [] [] [] [] EmptyString EmptyString
    {[ "connMgmtdPortTCP" := "9008"; "connMgmtdPortUDP" := "9008" ]}.
Definition vol7 : beegfsVolume := cs_volume_of "/csi" (mkPluginConfig conf7 []) "host" "/scratch" "vol".
Definition p7 : io (result unit) := writeClientFiles (INI := ini) vol7 "/etc/beegfs/beegfs-client.conf".

Lemma writeClientFiles_contents_witness :
  ∃ text f0 conn port f,
    got (R := response) (ReadFile "/etc/beegfs/beegfs-client.conf") (Ok text) (sim_trace p7 sim0)
    ∧ ini_Load (Ini := ini) text = Ok f0
    ∧ got (R := response) (ResolveUDPAddr conn.1 conn.2) (Ok port) (sim_trace p7 sim0)
    ∧ got (R := response) (WriteTo (clientConfPath vol7) (ini_Bytes (Ini := ini) f)) (Ok tt) (sim_trace p7 sim0)
    ∧ written (INI := ini) vol7 f0 port f.
Proof.
  apply (writeClientFiles_contents (INI := ini)).
  assert (sim_ending p7 sim0 = Returned (Ok tt)) as <- by (vm_compute; reflexivity). apply sim_exec.
Defined.

Lemma mgmtd_port_depends_on_order_witness :
  ∃ l1 l2 f1 f2, l1 ≡ₚ l2
    ∧ set_client_conf (INI := ini) l1 EmptyString template = Ok f1
    ∧ set_client_conf (INI := ini) l2 EmptyString template = Ok f2
    ∧ KeyValue (Ini := ini) f1 "connMgmtdPort" = "8008" ∧ KeyValue (Ini := ini) f2 "connMgmtdPort" = "8009".
Proof.
  destruct (mgmtd_port_depends_on_order (INI := ini) template "8009" "8008") as (l1 & l2 & f1 & f2 & H1 & H2 & H);
    [reflexivity..|]. exists l1, l2, f1, f2. split; [by rewrite H1|exact H].
Defined.
End Example.
