(* ===== verification/Csi.v ===== *)
(** * Csi: the CSI messages the services exchange, and their errors

    The parts of the csi package's messages that the driver reads and fills, gRPC
    status codes, the errors handlers return (server.go, grpcError) and the
    capability checks of beegfs_util.go. *)
From S2P Require Import Prelude Prog Config World.
Local Open Scope Z_scope.

(** ** Errors *)

Inductive code := InvalidArgument | NotFound | Aborted | Unimplemented | Internal | Unavailable.

#[export] Instance code_eq_dec : EqDecision code.
Proof. solve_decision. Defined.

(** What google.golang.org/grpc/status makes: a code and a message. *)
Record status := mkStatus { status_code : code; status_msg : string }.

Record grpcError := mkGrpcError { statusErr : status; cause : goerr }.
Definition newGrpcErrorFromCause (c : code) (cause : goerr) : grpcError :=
  mkGrpcError (mkStatus c (error_text cause)) cause.

(** What a handler returns: a response, a status, or a [grpcError]. *)
Inductive reply (A : Type) :=
  | Reply (a : A)
  | StatusErr (s : status)
  | GrpcErr (e : grpcError).
Arguments Reply {A}.
Arguments StatusErr {A}.
Arguments GrpcErr {A}.

Definition respond {A} (a : A) : io (reply A) := mret (Reply a).
Definition status_Error {A} (c : code) (msg : string) : io (reply A) := mret (StatusErr (mkStatus c msg)).
Definition grpc_Error {A} (c : code) (err : goerr) : io (reply A) := mret (GrpcErr (newGrpcErrorFromCause c err)).

(** The code of an error. *)
Definition reply_code {A} (r : reply A) : option code :=
  match r with
  | Reply _ => None
  | StatusErr s => Some (status_code s)
  | GrpcErr e => Some (status_code (statusErr e))
  end.

(** ** Volume capabilities *)

Record MountVolume := mkMountVolume { FsType : string; MountFlags : list string }.
Inductive AccessType := AccessBlock | AccessMount (m : MountVolume).
Record VolumeCapability := mkVolumeCapability { access_type : option AccessType; access_mode : Z }.

(** The getters of a message accept a nil message. *)
Definition GetMount (c : option VolumeCapability) : option MountVolume :=
  match c ≫= access_type with Some (AccessMount m) => Some m | _ => None end.
Definition GetBlock (c : option VolumeCapability) : bool :=
  match c ≫= access_type with Some AccessBlock => true | _ => false end.

(** None, or the reason why a capability is not supported. *)
Fixpoint isValidVolumeCapabilities (volCaps : list (option VolumeCapability)) : option string :=
  match volCaps with
  | [] => None
  | c :: r =>
      match GetMount c, GetBlock c with
      | Some _, false => isValidVolumeCapabilities r
      | _, _ => Some "access_type must be MountVolume"
      end
  end.
Definition isValidVolumeCapability (volCap : option VolumeCapability) : option string :=
  isValidVolumeCapabilities [volCap].

Lemma isValidVolumeCapability_mount c : isValidVolumeCapability c = None ↔ ∃ m, GetMount c = Some m.
Proof.
  unfold isValidVolumeCapability. cbn [isValidVolumeCapabilities].
  unfold GetMount, GetBlock. destruct (c ≫= access_type) as [[]|]; naive_solver.
Qed.

(** ** Reasoning about handlers *)

Lemma exec_grpc_Error {A} c err tr (r : reply A) :
  exec (grpc_Error c err) tr (Returned r) → tr = [] ∧ r = GrpcErr (newGrpcErrorFromCause c err).
Proof. by intros [-> [= ->]]. Qed.

(** One statement of a handler that returned: it failed with an internal error,
    or the rest ran. *)
Lemma exec_or_internal {A B} (p : io (result A)) g (k : A → io (reply B)) tr r :
  exec (x ← p; match x with Err err => grpc_Error Internal (g err) | Ok a => k a end) tr (Returned r) →
  (∃ err, r = GrpcErr (newGrpcErrorFromCause Internal err))
  ∨ ∃ tr1 tr2 a, tr = tr1 ++ tr2 ∧ exec p tr1 (Returned (Ok a)) ∧ exec (k a) tr2 (Returned r).
Proof.
  intros (tr1 & tr2 & [a|err] & -> & H1 & H2)%exec_bind_returned; [by eauto 10|].
  left. apply exec_grpc_Error in H2 as [_ ->]. eauto.
Qed.
Ltac xtry H a Ha :=
  let tr := fresh "tr" in let tr' := fresh "tr" in
  first [apply exec_or_internal in H as [H|(tr & tr' & a & -> & Ha & H)]
    |apply (exec_or_internal _ (λ e, e)) in H as [H|(tr & tr' & a & -> & Ha & H)]]; [by eauto|].
