(* ===== verification/Footprint.v ===== *)
(** * Footprint: what an RPC may touch on behalf of a volume

    The events the helpers of beegfs_util.go, beegfs_ctl.go and
    controllerserver.go may cause for a volume. *)
From S2P Require Import Prelude GoStrings GoPath Prog Config Volume Params World Mounts BeegfsCtl BeegfsCtlFacts.
From S2P Require Import ClientFiles ClientFilesFacts Csi.
Local Open Scope Z_scope.

(** What an RPC is entitled to do for its volume: mount its file system, remove
    it, or create it with the parameters of the request. *)
Record rights := mkRights { may_mount : bool; may_delete : bool; creates : option reqParameters }.

(** The directory, seen from the root of the file system, that tracks the nodes
    that use a volume. *)
Definition nodes_dir (vol : beegfsVolume) : string := PathJoin [csiDirPathBeegfsRoot vol; "nodes"].

(** What it may ask the BeeGFS tools to do. Anyone may look at the volume's
    directory; only who creates the volume may make directories, with the
    requested permissions on the way to the volume's and with mode 0750 on the way
    to the tracking directory, and stripe the volume's as requested. *)
Definition op_ok (ri : rights) (vol : beegfsVolume) (op : ctl_op) : Prop :=
  match op with
  | OpDetect => True
  | OpInfo dir => dir = volDirPathBeegfsRoot vol ∨ (is_Some (creates ri) ∧ dir = nodes_dir vol)
  | OpCreate cfg dir => ∃ params, creates ri = Some params
      ∧ ((cfg = volPermissionsConfig params ∧ on_the_way (volDirPathBeegfsRoot vol) dir)
         ∨ (cfg = mkPermissions 0 0 0x1e8 ∧ on_the_way (nodes_dir vol) dir))
  | OpPattern cfg => ∃ params, creates ri = Some params ∧ cfg = volStripePatternConfig params
  end.

Section Footprint.
Context {SE : Selinux}.

(** The options the controller mounts with. *)
Definition default_options (vol : beegfsVolume) (opts : list string) : Prop :=
  let base := ["rw"; "relatime"; "cfgFile=" +:+ clientConfPath vol; "nosuid"] in
  opts = base ∨ opts = base ++ ["context=" +:+ context_Get defaultContext].

(** The events of an RPC for [vol]. *)
Definition footprint (ri : rights) (vol : beegfsVolume) (template : string) (e : event) : Prop :=
  let nodesPath := PathJoin [csiDirPath vol; "nodes"] in
  match e with
  | MkdirAll p perm => p = mountDirPath vol ∧ perm = 0x1e8
  | ReadFile _ | WriteFile _ _ _ | Create _ | WriteTo _ _ | ListenPacket _ _ | ResolveUDPAddr _ _ | CloseConn
  | RangeMap _ => client_event vol template e
  | RunCmd _ _ => ∃ op, ctl_cmd vol op e ∧ op_ok ri vol op
  | SelinuxGetEnabled | MountList => True
  | IsLikelyNotMountPoint p => may_mount ri = true ∧ p = mountPath vol
  | Mkdir p perm => may_mount ri = true ∧ p = mountPath vol ∧ perm = 0x1e8
  | Mount source target fstype opts =>
      may_mount ri = true ∧ source = "beegfs_nodev" ∧ target = mountPath vol ∧ fstype = "beegfs"
      ∧ default_options vol opts
  | Chmod p perm => ∃ params, creates ri = Some params ∧ hasSpecialPermissions (volPermissionsConfig params) = true
      ∧ p = volDirPath vol ∧ perm = goFileMode (volPermissionsConfig params)
  | CleanupMountPoint p _ => p = mountPath vol
  | RemoveAll p => p = mountDirPath vol ∨ (may_delete ri = true ∧ (p = csiDirPath vol ∨ p = volDirPath vol))
  | DirExists p | IsEmpty p | ReadDir p => may_delete ri = true ∧ p = nodesPath
  | TimeNow | Sleep _ => may_delete ri = true
  | ObtainLock s | ReleaseLock s | ReadStatus s => s = volumeID vol
  | WriteStatus s st => s = volumeID vol
      ∧ match st with statusCreated => is_Some (creates ri) | statusDeleted => may_delete ri = true end
  | Stat _ | Remove _ | Exists _ | IsMountPoint _ => False
  end.

(** The footprint of the code between obtaining and releasing the lock; code
    that [records] may write the volume's status. *)
Definition inside (ri : rights) (records : bool) (vol : beegfsVolume) (template : string) (e : event) : Prop :=
  footprint ri vol template e
  ∧ match e with
    | ObtainLock _ | ReleaseLock _ | ReadStatus _ => False
    | WriteStatus _ _ => records = true
    | _ => True
    end.
End Footprint.

(** A run that wrote a status, and code that does so only when [Q] holds at its
    end. *)
Definition recorded (tr : io_trace) : Prop := ∃ s st, did (WriteStatus s st) tr.
Definition quiet {A} (p : io A) : Prop := always (λ e, match e with WriteStatus _ _ => False | _ => True end) p.

Lemma recorded_app tr1 tr2 : recorded (tr1 ++ tr2) → recorded tr1 ∨ recorded tr2.
Proof. intros (s & st & H). apply did_app in H as [H|H]; [left|right]; by exists s, st. Qed.
Lemma quiet_exec {A} (p : io A) tr o : quiet p → exec p tr o → ¬ recorded tr.
Proof.
  intros Hq Hx (s & st & r & Hin). pose proof (always_exec _ _ _ _ Hq Hx) as Hall.
  rewrite Forall_forall in Hall. exact (Hall _ Hin).
Qed.
Lemma quiet_bind {A B} (p : io A) (f : A → io B) (Q : ending B → Prop) :
  quiet p → (∀ a, wlp (f a) (λ tr o, recorded tr → Q o)) → wlp (p ≫= f) (λ tr o, recorded tr → Q o).
Proof.
  intros Hp Hf tr o Hx Hr. apply exec_bind_inv in Hx as [(tr1 & tr2 & a & -> & H1 & H2)|(o' & H1 & _)].
  - apply recorded_app in Hr as [Hr|Hr]; [by apply (quiet_exec _ _ _ Hp) in H1|by eapply Hf].
  - by apply (quiet_exec _ _ _ Hp) in H1.
Qed.
Lemma quiet_wlp {A} (p : io A) (Q : ending A → Prop) : quiet p → wlp p (λ tr o, recorded tr → Q o).
Proof. intros Hp tr o Hx Hr. by apply (quiet_exec _ _ _ Hp) in Hx. Qed.
Lemma inside_quiet {SE : Selinux} {A} ri vol template (p : io A) : always (inside ri false vol template) p → quiet p.
Proof. apply always_mono. by intros [] [_ H]. Qed.

Section Helpers.
Context {INI : Ini} {SE : Selinux} (vol : beegfsVolume) (template : string) (ri : rights) (records : bool).
Local Abbreviation P := (inside ri records vol template).

Lemma client_inside : always P (writeClientFiles vol template).
Proof. eapply always_mono; [|apply writeClientFiles_always]. by intros []. Qed.

Lemma constructMountOptions_default tr opts :
  exec (constructMountOptions [] vol) tr (Returned opts) → default_options vol opts.
Proof.
  unfold constructMountOptions. intros Hx. xdo Hx enabled. apply exec_ret in Hx as [_ [= ->]].
  destruct enabled; [right|by left]. unfold addContextToMountOptionsIfNecessary. done.
Qed.

Lemma mount_inside : may_mount ri = true → always P (mountIfNecessary vol []).
Proof.
  intros Hm. unfold mountIfNecessary. apply always_bind_ret; [by split|]. intros tr opts Hopts.
  apply constructMountOptions_default in Hopts. unfold mount_beegfs. asteps; by repeat split.
Qed.

Lemma cleanUp_inside : always P (cleanUpIfNecessary vol true).
Proof. unfold cleanUpIfNecessary. cbn [negb]. asteps; split; [by left|done]. Qed.

Lemma unmount_inside : always P (unmountAndCleanUpIfNecessary vol true).
Proof.
  unfold unmountAndCleanUpIfNecessary. apply always_do; [by split|]. intros [ms|]; [|done].
  destruct (first_match (bind_mounted vol) ms); [done|]. apply always_do; [by split|]. intros [|]; [|done].
  apply always_bind; [apply cleanUp_inside|]. by intros [].
Qed.

Lemma delete_inside fuel timeout : may_delete ri = true → always P (deleteVolumeUntilWait fuel vol timeout).
Proof.
  intros Hd. unfold deleteVolumeUntilWait. apply always_do; [by split|]. intros start. apply always_bind.
  - induction fuel as [|fuel IH]; cbn [wait_unstaged]; asteps; try done; (split; [|done]); cbn; tauto.
  - intros [|]; asteps; split; [|done]. right. tauto.
Qed.

(** A command that asks for something allowed. *)
Lemma cmd_inside op e : ctl_cmd vol op e → op_ok ri vol op → P e.
Proof. intros He Hop. assert (∃ name args, e = RunCmd name args) as (? & ? & ->) by (destruct He as [->| ->]; eauto). by split; [exists op|]. Qed.

Context (ctl : beegfsCtlExecutorInterface) {CTL : RunsCtl ctl}.

Lemma stat_inside : always P (statDirectoryForVolume ctl vol (volDirPathBeegfsRoot vol)).
Proof.
  eapply always_mono, stat_runs. cbn beta. intros e [He|He]; eapply cmd_inside; [exact He|done|exact He|by left].
Qed.
Lemma create_inside params cfg dir :
  creates ri = Some params →
  (cfg = volPermissionsConfig params ∧ dir = volDirPathBeegfsRoot vol)
  ∨ (cfg = mkPermissions 0 0 0x1e8 ∧ dir = nodes_dir vol) →
  always P (createDirectoryForVolume ctl vol dir cfg).
Proof.
  intros Hc Hd. eapply always_mono, create_runs. cbn beta. intros e [He|[He|(d & Hw & He)]]; eapply cmd_inside; try exact He.
  - done.
  - cbn. rewrite Hc. destruct Hd as [[_ ->]|[_ ->]]; [by left|right; by split; [eexists|]].
  - exists params. split; [done|]. destruct Hd as [[-> ->]|[-> ->]]; [left|right]; by split.
Qed.
Lemma pattern_inside params :
  creates ri = Some params → always P (setPatternForVolume ctl vol (volStripePatternConfig params)).
Proof.
  intros Hc. eapply always_mono, pattern_runs. cbn beta. intros e [He|He]; eapply cmd_inside; [exact He|done|exact He|].
  by exists params.
Qed.
End Helpers.
