(* ===== verification/ControllerServer.v ===== *)
(** * ControllerServer: the controller service (controllerserver.go)

    Each RPC is a program of the events of World.v; what the code defers runs
    after its body, in reverse order. The tables [volumeIDsInFlight] and
    [volumeStatusMap] are shared by the requests the server runs at the same
    time, so they are not part of the record but are reached by events. *)
From S2P Require Import Prelude GoStrings GoPath Prog Config ConfigFacts Volume Params World ThreadSafe Mounts BeegfsCtl.
From S2P Require Import ClientFiles Csi.
Local Open Scope Z_scope.

Record controllerServer := mkControllerServer {
  cs_ctlExec : beegfsCtlExecutorInterface;
  cs_nodeID : string;
  cs_pluginConfig : PluginConfig gomap;
  cs_clientConfTemplatePath : string;
  csDataDir : string;
  nodeUnstageTimeout : Z
}.

(** The server and its two tables. *)
Definition newControllerServer (nodeID : string) (pluginConfig : PluginConfig gomap)
    (clientConfTemplatePath csDataDir : string) (nodeUnstageTimeout : Z)
    : io (result (controllerServer * threadSafeStringLock * threadSafeStatusMap)) :=
  let? executor := newBeeGFSCtlExecutor catch err => fail err in
  ok (mkControllerServer executor nodeID pluginConfig clientConfTemplatePath csDataDir nodeUnstageTimeout,
      newThreadSafeStringLock, newThreadSafeStatusMap).

Definition newControllerServerSanity (nodeID : string) (pluginConfig : PluginConfig gomap)
    (clientConfTemplatePath csDataDir : string) (nodeUnstageTimeout : Z)
    : controllerServer * threadSafeStringLock * threadSafeStatusMap :=
  (mkControllerServer fakeBeegfsCtlExecutor nodeID pluginConfig clientConfTemplatePath csDataDir nodeUnstageTimeout,
   newThreadSafeStringLock, newThreadSafeStatusMap).

(** ** Messages *)

Record CreateVolumeRequest := mkCreateVolumeRequest {
  cv_Name : string;
  cv_VolumeCapabilities : list (option VolumeCapability);
  cv_Parameters : gomap
}.
Record ValidateVolumeCapabilitiesRequest := mkValidateRequest {
  vv_VolumeId : string;
  vv_VolumeCapabilities : list (option VolumeCapability);
  vv_Parameters : gomap
}.
Inductive ValidateVolumeCapabilitiesResponse :=
  | Confirmed (caps : list (option VolumeCapability)) (params : gomap)
  | Message (reason : string).
Record CapacityRange := mkCapacityRange { RequiredBytes : Z; LimitBytes : Z }.
Record ControllerExpandVolumeRequest := mkExpandRequest {
  ev_VolumeId : string;
  ev_CapacityRange : option CapacityRange
}.
Record ControllerExpandVolumeResponse := mkExpandResponse { CapacityBytes : Z; NodeExpansionRequired : bool }.

Definition in_use_msg (id : string) : string :=
  "volumeID " +:+ id +:+ " is in use by another request; check BeeGFS network configuration if this problem persists".

Section ControllerServer.
Context {INI : Ini} {SE : Selinux} {RO : RangeOrder}.

(** ** CreateVolume *)

(** What CreateVolume does while it holds the volume, before the deferred calls. *)
Definition create_volume (cs : controllerServer) (vol : beegfsVolume) (params : reqParameters) : io (reply string) :=
  r ← do (MkdirAll (mountDirPath vol) 0x1e8);
  match r with Err err => grpc_Error Internal (WithStack err) | Ok _ =>
  r ← writeClientFiles vol (cs_clientConfTemplatePath cs);
  match r with Err err => grpc_Error Internal err | Ok _ =>
  r ← createDirectoryForVolume (cs_ctlExec cs) vol (volDirPathBeegfsRoot vol) (volPermissionsConfig params);
  match r with Err err => grpc_Error Internal err | Ok _ =>
  r ← setPatternForVolume (cs_ctlExec cs) vol (volStripePatternConfig params);
  match r with Err err => grpc_Error Internal err | Ok _ =>
  r ← (if hasSpecialPermissions (volPermissionsConfig params) then
         let? _ := mountIfNecessary vol [] catch err => fail err in
         do (Chmod (volDirPath vol) (goFileMode (volPermissionsConfig params)))
       else ok tt);
  match r with Err err => grpc_Error Internal err | Ok _ =>
  _ ← (if 0 <? nodeUnstageTimeout cs then
         createDirectoryForVolume (cs_ctlExec cs) vol (PathJoin [csiDirPathBeegfsRoot vol; "nodes"])
           (mkPermissions 0 0 0x1e8)
       else ok tt);
  _ ← do (WriteStatus (volumeID vol) statusCreated);
  respond (volumeID vol)
  end end end end end.

Definition CreateVolume (cs : controllerServer) (req : CreateVolumeRequest) : io (reply string) :=
  if bool_decide (cv_Name req = EmptyString) then status_Error InvalidArgument "Volume name not provided" else
  if bool_decide (length (cv_VolumeCapabilities req) = 0%nat) then
    status_Error InvalidArgument "Volume capabilities not provided" else
  match isValidVolumeCapabilities (cv_VolumeCapabilities req) with
  | Some reason => status_Error InvalidArgument ("Volume capabilities not supported: " +:+ reason)
  | None =>
  if bool_decide (cv_Parameters req = ∅) then status_Error InvalidArgument "Parameters not provided" else
  match validateReqParams (cv_Parameters req) with
  | Err err => grpc_Error InvalidArgument err
  | Ok (params, _) =>
  vol ← cs_newBeegfsVolume (csDataDir cs) (cs_pluginConfig cs) (req_sysMgmtdHost params)
          (req_volDirBasePathBeegfsRoot params) (cv_Name req);
  status ← do (ReadStatus (volumeID vol));
  if bool_decide (status = Some statusCreated) then respond (volumeID vol) else
  locked ← do (ObtainLock (volumeID vol));
  if negb locked then status_Error Aborted (in_use_msg (volumeID vol)) else
  resp ← create_volume cs vol params;
  (* deferred; a failure to clean up is only logged *)
  _ ← unmountAndCleanUpIfNecessary vol true;
  _ ← do (ReleaseLock (volumeID vol));
  mret resp
  end end.

(** ** DeleteVolume *)

Definition delete_volume (fuel : nat) (cs : controllerServer) (vol : beegfsVolume) : io (reply unit) :=
  r ← do (MkdirAll (mountDirPath vol) 0x1e8);
  match r with Err err => grpc_Error Internal (WithStack err) | Ok _ =>
  r ← writeClientFiles vol (cs_clientConfTemplatePath cs);
  match r with Err err => grpc_Error Internal err | Ok _ =>
  r ← mountIfNecessary vol [];
  match r with Err err => grpc_Error Internal err | Ok _ =>
  r ← deleteVolumeUntilWait fuel vol (nodeUnstageTimeout cs);
  match r with Err err => grpc_Error Internal err | Ok _ => respond tt
  end end end end.

(** The first deferred function: a failure to clean up replaces success, and
    success is recorded. *)
Definition delete_cleanup (vol : beegfsVolume) (resp : reply unit) : io (reply unit) :=
  cleanup ← unmountAndCleanUpIfNecessary vol true;
  let resp := match cleanup, resp with
              | Err cleanupErr, Reply _ => GrpcErr (newGrpcErrorFromCause Internal cleanupErr)
              | _, _ => resp
              end in
  match resp with
  | Reply _ => _ ← do (WriteStatus (volumeID vol) statusDeleted); mret resp
  | _ => mret resp
  end.

Definition DeleteVolume (fuel : nat) (cs : controllerServer) (id : string) : io (reply unit) :=
  if bool_decide (id = EmptyString) then status_Error InvalidArgument "Volume ID not provided" else
  r ← cs_newBeegfsVolumeFromID (csDataDir cs) (cs_pluginConfig cs) id;
  match r with
  | Err _ => respond tt
  | Ok vol =>
  status ← do (ReadStatus (volumeID vol));
  if bool_decide (status = Some statusDeleted) then respond tt else
  locked ← do (ObtainLock (volumeID vol));
  if negb locked then status_Error Aborted (in_use_msg (volumeID vol)) else
  resp ← delete_volume fuel cs vol;
  resp ← delete_cleanup vol resp;
  _ ← do (ReleaseLock (volumeID vol));
  mret resp
  end.

(** ** ValidateVolumeCapabilities *)

Definition validate_capabilities (cs : controllerServer) (vol : beegfsVolume)
    (volCaps : list (option VolumeCapability)) (params : gomap) : io (reply ValidateVolumeCapabilitiesResponse) :=
  r ← do (MkdirAll (mountDirPath vol) 0x1e8);
  match r with Err err => grpc_Error Internal (WithStack err) | Ok _ =>
  r ← writeClientFiles vol (cs_clientConfTemplatePath cs);
  match r with Err err => grpc_Error Internal err | Ok _ =>
  r ← statDirectoryForVolume (cs_ctlExec cs) vol (volDirPathBeegfsRoot vol);
  match r with
  | Err err => if errors_as CtlNotExist err then grpc_Error NotFound err else grpc_Error Internal err
  | Ok _ =>
      match isValidVolumeCapabilities volCaps with
      | None => respond (Confirmed volCaps params)
      | Some reason => respond (Message reason)
      end
  end end end.

(** [params] is the request's own map, from which validateReqParams deletes. *)
Definition ValidateVolumeCapabilities (cs : controllerServer) (req : ValidateVolumeCapabilitiesRequest)
    : io (reply ValidateVolumeCapabilitiesResponse) :=
  if bool_decide (vv_VolumeId req = EmptyString) then status_Error InvalidArgument "Volume ID not provided" else
  if bool_decide (length (vv_VolumeCapabilities req) = 0%nat) then
    status_Error InvalidArgument "Volume capabilities not provided" else
  match (if bool_decide (vv_Parameters req = ∅) then Ok (vv_Parameters req)
         else '(_, params) ← validateReqParams (vv_Parameters req); Ok params) with
  | Err err => status_Error InvalidArgument (error_text err)
  | Ok params =>
  r ← cs_newBeegfsVolumeFromID (csDataDir cs) (cs_pluginConfig cs) (vv_VolumeId req);
  match r with
  | Err err => grpc_Error NotFound (Wrap err "volume ID is invalid or the volume does not exist")
  | Ok vol =>
  locked ← do (ObtainLock (volumeID vol));
  if negb locked then status_Error Aborted (in_use_msg (volumeID vol)) else
  resp ← validate_capabilities cs vol (vv_VolumeCapabilities req) params;
  _ ← cleanUpIfNecessary vol true;
  _ ← do (ReleaseLock (volumeID vol));
  mret resp
  end end.
End ControllerServer.

(** ** The other RPCs *)

(** [req.CapacityRange.RequiredBytes] of a request without a range is a nil
    dereference. *)
Definition ControllerExpandVolume (req : ControllerExpandVolumeRequest) : io (reply ControllerExpandVolumeResponse) :=
  if bool_decide (ev_VolumeId req = EmptyString) then status_Error InvalidArgument "Volume ID not provided" else
  match ev_CapacityRange req with
  | None => Panic "invalid memory address or nil pointer dereference"
  | Some range => respond (mkExpandResponse (RequiredBytes range) false)
  end.

Inductive ControllerServiceCapability_RPC_Type := CREATE_DELETE_VOLUME | EXPAND_VOLUME.
Inductive ControllerServiceCapability := CapabilityRpc (type : ControllerServiceCapability_RPC_Type).
Definition controllerCaps : list ControllerServiceCapability_RPC_Type := [CREATE_DELETE_VOLUME; EXPAND_VOLUME].
Definition getControllerServiceCapabilities (cl : list ControllerServiceCapability_RPC_Type)
    : list ControllerServiceCapability :=
  foldl (λ csc cap, csc ++ [CapabilityRpc cap]) [] cl.
Definition ControllerGetCapabilities : io (reply (list ControllerServiceCapability)) :=
  respond (getControllerServiceCapabilities controllerCaps).

Inductive unimplemented_rpc :=
  | ControllerPublishVolume | ControllerUnpublishVolume | GetCapacity | ListVolumes | CreateSnapshot
  | DeleteSnapshot | ListSnapshots | ControllerGetVolume | ControllerModifyVolume.
Definition unimplemented (rpc : unimplemented_rpc) : io (reply unit) := status_Error Unimplemented EmptyString.
