(* ===== verification/ControllerFacts.v ===== *)
(** * ControllerFacts: what the controller service's RPCs do *)
From S2P Require Import Prelude GoStrings GoPath Prog Config ConfigFacts Volume VolumeFacts Params World ThreadSafe Sim.
From S2P Require Import Mounts MountsFacts BeegfsCtl BeegfsCtlFacts ClientFiles ClientFilesFacts Csi Footprint ControllerServer.
Local Open Scope Z_scope.

Section Facts.
Context {INI : Ini} {SE : Selinux} {RO : RangeOrder}.
Context (cs : controllerServer) {CTL : RunsCtl (cs_ctlExec cs)}.

(** ** The bodies stay inside their volume *)

Lemma always_match_result {A B} P (r : result A) (h : goerr → io B) (k : A → io B) :
  (∀ e, always P (h e)) → (∀ a, always P (k a)) →
  always P (match r with Err e => h e | Ok a => k a end).
Proof. by destruct r. Qed.

(** What each request is entitled to; only special permission bits take a mount
    to set. *)
Definition create_rights (params : reqParameters) : rights :=
  mkRights (hasSpecialPermissions (volPermissionsConfig params)) false (Some params).
Definition delete_rights : rights := mkRights true true None.
Definition validate_rights : rights := mkRights false false None.

Lemma create_volume_inside vol params :
  always (inside (create_rights params) true vol (cs_clientConfTemplatePath cs)) (create_volume cs vol params).
Proof.
  unfold create_volume. apply always_do; [done|]. intros r. apply always_match_result; [done|intros _].
  apply always_bind; [apply client_inside|]. intros r1. apply always_match_result; [done|intros _].
  apply always_bind; [by eapply create_inside; [..|left]|]. intros r2. apply always_match_result; [done|intros _].
  apply always_bind; [by apply pattern_inside|]. intros r3. apply always_match_result; [done|intros _].
  apply always_bind.
  { destruct (hasSpecialPermissions (volPermissionsConfig params)) eqn:E; [|done].
    apply always_bind; [by apply mount_inside|]. intros []; [|done]. do 2 (split; [|done]). by exists params. }
  intros r4. apply always_match_result; [done|intros _].
  apply always_bind; [case_match; [by eapply create_inside; [..|right]|done]|].
  intros _. by repeat split; eexists.
Qed.

Lemma delete_volume_inside fuel vol :
  always (inside delete_rights false vol (cs_clientConfTemplatePath cs)) (delete_volume fuel cs vol).
Proof.
  unfold delete_volume. apply always_do; [done|]. intros r. apply always_match_result; [done|intros _].
  apply always_bind; [apply client_inside|]. intros r1. apply always_match_result; [done|intros _].
  apply always_bind; [by apply mount_inside|]. intros r2. apply always_match_result; [done|intros _].
  apply always_bind; [by apply delete_inside|]. by intros [].
Qed.

Lemma delete_cleanup_inside vol resp :
  always (inside delete_rights true vol (cs_clientConfTemplatePath cs)) (delete_cleanup vol resp).
Proof.
  unfold delete_cleanup. apply always_bind; [apply unmount_inside|].
  intros [|]; destruct resp; by repeat split.
Qed.

Lemma validate_inside vol caps params :
  always (inside validate_rights false vol (cs_clientConfTemplatePath cs)) (validate_capabilities cs vol caps params).
Proof.
  unfold validate_capabilities. apply always_do; [done|]. intros r. apply always_match_result; [done|intros _].
  apply always_bind; [apply client_inside|]. intros r1. apply always_match_result; [done|intros _].
  apply always_bind; [by apply stat_inside|]. intros [|err]; [by case_match|by case_match].
Qed.

(** The volume a request is about. *)
Definition create_target (req : CreateVolumeRequest) (params : reqParameters) : beegfsVolume :=
  cs_volume_of (csDataDir cs) (cs_pluginConfig cs) (req_sysMgmtdHost params)
    (req_volDirBasePathBeegfsRoot params) (cv_Name req).

(** A request CreateVolume takes on. *)
Definition create_args (req : CreateVolumeRequest) : option reqParameters :=
  if bool_decide (cv_Name req = EmptyString) then None else
  if bool_decide (length (cv_VolumeCapabilities req) = 0%nat) then None else
  match isValidVolumeCapabilities (cv_VolumeCapabilities req), validateReqParams (cv_Parameters req) with
  | None, Ok (params, _) => Some params
  | _, _ => None
  end.

Lemma validateReqParams_empty : is_ok (validateReqParams ∅) = false.
Proof. done. Qed.

Lemma CreateVolume_cases req :
  match create_args req with
  | None => ∃ r, CreateVolume cs req = mret r ∧ reply_code r = Some InvalidArgument
  | Some params =>
      let vol := create_target req params in
      CreateVolume cs req =
        (status ← do (ReadStatus (volumeID vol));
         if bool_decide (status = Some statusCreated) then respond (volumeID vol) else
         locked ← do (ObtainLock (volumeID vol));
         if negb locked then status_Error Aborted (in_use_msg (volumeID vol)) else
         resp ← create_volume cs vol params;
         _ ← unmountAndCleanUpIfNecessary vol true;
         _ ← do (ReleaseLock (volumeID vol));
         mret resp)
  end.
Proof.
  unfold create_args, CreateVolume. case_bool_decide; [by eexists|]. case_bool_decide; [by eexists|].
  destruct (isValidVolumeCapabilities (cv_VolumeCapabilities req)); [by eexists|].
  case_bool_decide as Hp.
  - rewrite Hp. pose proof validateReqParams_empty as He.
    destruct (validateReqParams ∅) as [[? ?]|]; [done|by eexists].
  - destruct (validateReqParams (cv_Parameters req)) as [[? ?]|]; [|by eexists]. by rewrite cs_newBeegfsVolume_run.
Qed.

(** ** CreateVolume *)

(** The work of CreateVolume was done: the directory was made with its owner
    and mode, striped, and its special permission bits were set on a mount. *)
Definition created (vol : beegfsVolume) (params : reqParameters) (tr : io_trace) : Prop :=
  let perms := volPermissionsConfig params in
  ran (createDirectoryForVolume (cs_ctlExec cs) vol (volDirPathBeegfsRoot vol) perms) (Ok tt) tr
  ∧ ran (setPatternForVolume (cs_ctlExec cs) vol (volStripePatternConfig params)) (Ok tt) tr
  ∧ (hasSpecialPermissions perms = true →
     ran (mountIfNecessary vol []) (Ok tt) tr ∧ got (Chmod (volDirPath vol) (goFileMode perms)) (Ok tt) tr).

Lemma create_volume_returned vol params tr r :
  exec (create_volume cs vol params) tr (Returned r) →
  (∃ err, r = GrpcErr (newGrpcErrorFromCause Internal err))
  ∨ (r = Reply (volumeID vol) ∧ created vol params tr ∧ did (WriteStatus (volumeID vol) statusCreated) tr).
Proof.
  unfold create_volume. intros Hx.
  xtry Hx u0 H0. xtry Hx u1 H1. xtry Hx u2 H2. xtry Hx u3 H3. xtry Hx u4 H4. destruct u2, u3, u4.
  xbind Hx u5 H5. xdo Hx u6. apply exec_ret in Hx as [-> [= ->]]. right. split; [done|]. split.
  - split_and!; [by auto 12 with trace..|]. intros E. rewrite E in H4. xlet H4 u7 H7.
    apply exec_trigger in H4 as ->. destruct u7. auto 20 with trace.
  - eapply got_did. auto 20 with trace.
Qed.

Lemma created_app vol params tr tr' tr'' : created vol params tr → created vol params (tr' ++ tr ++ tr'').
Proof. intros (H1 & H2 & H3). split_and!; [auto with trace..|]. intros E. destruct (H3 E). auto with trace. Qed.

(** C1: CreateVolume answers with the ID of the volume the request asks for,
    and only if it remembers to have created it or, holding the volume, it made
    the directory with its owner, mode and stripe pattern and set its special
    permission bits; in the latter case it records the volume as created. *)
Theorem CreateVolume_success req tr id :
  exec (CreateVolume cs req) tr (Returned (Reply id)) →
  ∃ params, create_args req = Some params ∧
    let vol := create_target req params in
    id = volumeID vol ∧
    (tr = [existT (ReadStatus id) (Some statusCreated)]
     ∨ (got (ObtainLock id) true tr ∧ created vol params tr ∧ did (WriteStatus id statusCreated) tr)).
Proof.
  intros Hx. pose proof (CreateVolume_cases req) as Hc. destruct (create_args req) as [params|]; [|].
  2: { destruct Hc as (r & E & Hr). rewrite E in Hx. by apply exec_ret in Hx as [-> [= <-]]. }
  cbv zeta in Hc. rewrite Hc in Hx. clear Hc. exists params. split; [done|]. cbv zeta.
  set (vol := create_target req params) in *. xdo Hx st. case_bool_decide as Hst.
  { apply exec_ret in Hx as [-> [= ->]]. rewrite Hst. auto. }
  xdo Hx locked. destruct locked; [|by apply exec_ret in Hx as [_ [=]]]. cbn [negb] in Hx.
  xbind Hx resp Hr. xbind Hx u Hu. xdo Hx v. apply exec_ret in Hx as [-> [= <-]].
  apply create_volume_returned in Hr as [(err & [=])|([= ->] & Hcr & Hw)]. split; [done|]. right.
  split_and!; [by auto with trace| |rewrite !did_cons, did_app; tauto].
  by apply (created_app _ _ _ [_; _]).
Qed.

Lemma quiet_or_internal {A B} (p : io (result A)) g (k : A → io (reply B)) Q :
  quiet p → (∀ a, wlp (k a) (λ tr o, recorded tr → Q o)) →
  wlp (x ← p; match x with Err err => grpc_Error Internal (g err) | Ok a => k a end) (λ tr o, recorded tr → Q o).
Proof. intros Hp Hk. apply quiet_bind; [done|]. intros [a|err]; [done|]. by apply quiet_wlp. Qed.

Lemma create_volume_recorded vol params tr r :
  exec (create_volume cs vol params) tr (Returned r) → recorded tr → ∃ id, r = Reply id.
Proof.
  pose proof (λ A, inside_quiet (A := A) (mkRights true false (Some params)) vol (cs_clientConfTemplatePath cs)) as Hq.
  assert (wlp (create_volume cs vol params) (λ tr o, recorded tr → ∀ r, o = Returned r → ∃ id, r = Reply id)) as H.
  { unfold create_volume. apply quiet_or_internal; [done|]. intros _.
    apply (quiet_or_internal _ (λ e, e)); [apply Hq, client_inside|]. intros _.
    apply (quiet_or_internal _ (λ e, e)); [by eapply Hq, create_inside; [..|left]|]. intros _.
    apply (quiet_or_internal _ (λ e, e)); [by apply Hq, pattern_inside|]. intros _.
    apply (quiet_or_internal _ (λ e, e)).
    { case_match; [|done]. apply always_bind; [by apply Hq, mount_inside|]. by intros []. }
    intros _. apply quiet_bind; [case_match; [by eapply Hq, create_inside; [..|right]|done]|]. intros _.
    intros tr' o Hx _ r' ->. xdo Hx u. apply exec_ret in Hx as [_ [= ->]]. eauto. }
  intros Hx Hr. by apply (H _ _ Hx Hr).
Qed.

(** C7: when CreateVolume fails it has recorded nothing, and the code says why:
    invalid arguments, in which case it did nothing at all; a volume another
    request holds, in which case it only looked at the two tables; or an internal
    error, after which it has released the volume. *)
Theorem CreateVolume_failure req tr r c :
  exec (CreateVolume cs req) tr (Returned r) → reply_code r = Some c →
  ¬ recorded tr ∧
  match create_args req with
  | None => c = InvalidArgument ∧ tr = []
  | Some params =>
      let id := volumeID (create_target req params) in
      (c = Aborted ∧ ∃ st, tr = [existT (ReadStatus id) st; existT (ObtainLock id) false])
      ∨ (c = Internal ∧ got (ObtainLock id) true tr ∧ last tr = Some (existT (ReleaseLock id) tt))
  end.
Proof.
  intros Hx Hcode. pose proof (CreateVolume_cases req) as Hc. destruct (create_args req) as [params|].
  2: { destruct Hc as (r' & E & Hr). rewrite E in Hx. apply exec_ret in Hx as [-> [= ->]].
       split; [|by simplify_eq]. intros (s & st & H). by trace_inv. }
  cbv zeta in Hc |- *. rewrite Hc in Hx. clear Hc. set (vol := create_target req params) in *.
  xdo Hx st. case_bool_decide; [by apply exec_ret in Hx as [-> [= ->]]|]. xdo Hx locked. destruct locked; cbn [negb] in Hx.
  2: { apply exec_ret in Hx as [-> [= ->]]. cbn in Hcode. split; [intros (s & st' & Hd); by trace_inv|].
       left. split; [congruence|]. by exists st. }
  xbind Hx resp Hr. xbind Hx u Hu. xdo Hx v. destruct v. apply exec_ret in Hx as [-> [= ->]]. split.
  - intros (s & st' & Hd). trace_inv.
    + destruct (create_volume_recorded _ _ _ _ Hr) as (id & ->); [by exists s, st'|done].
    + apply (quiet_exec _ _ _ (inside_quiet _ _ _ _ (unmount_inside vol EmptyString validate_rights false))) in Hu.
      apply Hu. by exists s, st'.
  - right. apply create_volume_returned in Hr as [(err & ->)|(-> & _)]; [|done]. cbn in Hcode.
    split_and!; [congruence|auto with trace|]. by rewrite !app_comm_cons, app_assoc, last_snoc.
Qed.

(** ** DeleteVolume *)

Local Abbreviation target id := (cs_volume_of_id (csDataDir cs) (cs_pluginConfig cs) id).

(** The work of DeleteVolume was done. *)
Definition deleted (fuel : nat) (vol : beegfsVolume) (tr : io_trace) : Prop :=
  ran (mountIfNecessary vol []) (Ok tt) tr
  ∧ ran (deleteVolumeUntilWait fuel vol (nodeUnstageTimeout cs)) (Ok tt) tr
  ∧ ran (unmountAndCleanUpIfNecessary vol true) (Ok tt) tr.

Lemma delete_volume_returned fuel vol tr r :
  exec (delete_volume fuel cs vol) tr (Returned r) →
  (∃ err, r = GrpcErr (newGrpcErrorFromCause Internal err))
  ∨ (r = Reply tt ∧ ran (mountIfNecessary vol []) (Ok tt) tr
     ∧ ran (deleteVolumeUntilWait fuel vol (nodeUnstageTimeout cs)) (Ok tt) tr).
Proof.
  unfold delete_volume. intros Hx.
  xtry Hx u0 H0. xtry Hx u1 H1. xtry Hx u2 H2. xtry Hx u3 H3. destruct u2, u3.
  apply exec_ret in Hx as [-> [= ->]]. right. auto 12 with trace.
Qed.

Lemma delete_cleanup_returned vol resp tr r :
  exec (delete_cleanup vol resp) tr (Returned r) →
  (r = Reply tt ∧ resp = Reply tt ∧ ran (unmountAndCleanUpIfNecessary vol true) (Ok tt) tr
   ∧ did (WriteStatus (volumeID vol) statusDeleted) tr)
  ∨ (¬ recorded tr ∧ (r = resp ∧ reply_code r ≠ None ∨ ∃ err, r = GrpcErr (newGrpcErrorFromCause Internal err))).
Proof.
  unfold delete_cleanup. intros Hx. xbind Hx cleanup Hu.
  assert (¬ recorded tr0) as Hq
    by (eapply quiet_exec, Hu; apply (inside_quiet validate_rights vol EmptyString), unmount_inside).
  destruct cleanup as [[]|err], resp as [[]|s|e].
  1: { xdo Hx u. apply exec_ret in Hx as [-> [= ->]]. left. split_and!; [done..|by auto with trace|].
       eapply got_did. auto with trace. }
  all: apply exec_ret in Hx as [-> [= ->]]; right; rewrite app_nil_r; split; [done|]; eauto.
Qed.

Lemma DeleteVolume_cases fuel id vol tr r :
  id ≠ EmptyString → target id = Ok vol → exec (DeleteVolume fuel cs id) tr (Returned r) →
  (r = Reply tt ∧ tr = [existT (ReadStatus (volumeID vol)) (Some statusDeleted)])
  ∨ (reply_code r = Some Aborted ∧ ¬ recorded tr)
  ∨ ∃ st trd trc resp, tr = existT (ReadStatus (volumeID vol)) st :: existT (ObtainLock (volumeID vol)) true
        :: trd ++ trc ++ [existT (ReleaseLock (volumeID vol)) tt]
      ∧ exec (delete_volume fuel cs vol) trd (Returned resp) ∧ exec (delete_cleanup vol resp) trc (Returned r).
Proof.
  intros Hne Hv Hx. unfold DeleteVolume in Hx. rewrite bool_decide_eq_false_2, cs_newBeegfsVolumeFromID_run, ret_bind, Hv in Hx by done.
  xdo Hx st. case_bool_decide as Hst; [apply exec_ret in Hx as [-> [= ->]]; rewrite Hst; by left|].
  xdo Hx locked. destruct locked; cbn [negb] in Hx.
  - right. right. xbind Hx resp Hr. xbind Hx resp' Hc. xdo Hx u. destruct u. apply exec_ret in Hx as [-> [= ->]].
    eauto 12.
  - apply exec_ret in Hx as [-> [= ->]]. right. left. split; [done|]. intros (s & st' & H). by trace_inv.
Qed.

(** C2: DeleteVolume reports success only for an ID that is no volume's, for a
    volume it remembers to have deleted, or after it mounted the file system,
    deleted the volume's directories once the nodes were done, and unmounted and
    cleaned up; then it records the volume as deleted. *)
Theorem DeleteVolume_success fuel id tr :
  exec (DeleteVolume fuel cs id) tr (Returned (Reply tt)) →
  match target id with
  | Err _ => tr = []
  | Ok vol =>
      tr = [existT (ReadStatus (volumeID vol)) (Some statusDeleted)]
      ∨ (got (ObtainLock (volumeID vol)) true tr ∧ deleted fuel vol tr
         ∧ did (WriteStatus (volumeID vol) statusDeleted) tr)
  end.
Proof.
  intros Hx. destruct (decide (id = EmptyString)) as [->|Hne]; [by apply exec_ret in Hx as [_ [=]]|].
  destruct (target id) as [vol|] eqn:Hv.
  2: { unfold DeleteVolume in Hx. rewrite bool_decide_eq_false_2, cs_newBeegfsVolumeFromID_run, ret_bind, Hv in Hx by done.
       by apply exec_ret in Hx as [-> _]. }
  destruct (DeleteVolume_cases _ _ _ _ _ Hne Hv Hx) as [[_ ->]|[[[=] _]|(st & trd & trc & resp & -> & Hd & Hc)]]; [by left|].
  right. apply delete_cleanup_returned in Hc as [(_ & -> & Hu & Hw)|[_ [[_ []]|(err & [=])]]]; [|done].
  apply delete_volume_returned in Hd as [(err & [=])|(_ & Hm & Hdel)].
  split_and!; [by auto with trace|split_and!; auto 12 with trace|].
  rewrite !did_cons, !did_app. tauto.
Qed.

(** C8: when DeleteVolume fails it has recorded nothing, whatever it has
    removed by then. *)
Theorem DeleteVolume_failure fuel id tr r c :
  exec (DeleteVolume fuel cs id) tr (Returned r) → reply_code r = Some c →
  ¬ recorded tr ∧ (c = InvalidArgument ∧ id = EmptyString ∨ c = Aborted ∨ c = Internal).
Proof.
  intros Hx Hcode. destruct (decide (id = EmptyString)) as [->|Hne].
  { apply exec_ret in Hx as [-> [= ->]]. cbn in Hcode. split; [intros (s & st & H); by trace_inv|].
    left. split; congruence. }
  destruct (target id) as [vol|] eqn:Hv.
  2: { unfold DeleteVolume in Hx. rewrite bool_decide_eq_false_2, cs_newBeegfsVolumeFromID_run, ret_bind, Hv in Hx by done.
       by apply exec_ret in Hx as [-> [= ->]]. }
  destruct (DeleteVolume_cases _ _ _ _ _ Hne Hv Hx) as [[-> _]|[[Ha Hq]|(st & trd & trc & resp & -> & Hd & Hc)]];
    [done|split; [done|]; right; left; congruence|].
  apply delete_cleanup_returned in Hc as [(-> & _)|[Hqc Hr]]; [done|]. split.
  - intros (s & st' & H). trace_inv; [|apply Hqc; by exists s, st'].
    apply (quiet_exec _ _ _ (inside_quiet _ _ _ _ (delete_volume_inside fuel vol)) Hd). by exists s, st'.
  - right. right. destruct Hr as [[-> Hne']|(err & ->)]; [|cbn in Hcode; congruence].
    apply delete_volume_returned in Hd as [(err & ->)|(-> & _)]; [cbn in Hcode; congruence|done].
Qed.

(** ** ValidateVolumeCapabilities *)

Lemma validate_capabilities_returned vol caps params tr caps' params' :
  exec (validate_capabilities cs vol caps params) tr (Returned (Reply (Confirmed caps' params'))) →
  caps' = caps ∧ params' = params ∧ isValidVolumeCapabilities caps = None
  ∧ ∃ out, ran (statDirectoryForVolume (cs_ctlExec cs) vol (volDirPathBeegfsRoot vol)) (Ok out) tr.
Proof.
  unfold validate_capabilities. intros Hx.
  xbind Hx r0 H0. destruct r0; [|by apply exec_grpc_Error in Hx as [_ [=]]].
  xbind Hx r1 H1. destruct r1; [|by apply exec_grpc_Error in Hx as [_ [=]]].
  xbind Hx r2 H2. destruct r2 as [out|err]; [|by case_match; apply exec_grpc_Error in Hx as [_ [=]]].
  destruct (isValidVolumeCapabilities caps); apply exec_ret in Hx as [-> [= -> ->]].
  split_and!; [done..|]. exists out. auto with trace.
Qed.

(** ValidateVolumeCapabilities confirms exactly the capabilities of the
    request, all of them mounts, of a volume whose directory it found; but the
    parameters it confirms are always empty, although the request's were valid:
    validateReqParams has deleted them from the map that it answers with. *)
Theorem ValidateVolumeCapabilities_confirmed req tr caps params :
  exec (ValidateVolumeCapabilities cs req) tr (Returned (Reply (Confirmed caps params))) →
  caps = vv_VolumeCapabilities req ∧ isValidVolumeCapabilities caps = None
  ∧ params = ∅
  ∧ ∃ vol out, target (vv_VolumeId req) = Ok vol
      ∧ ran (statDirectoryForVolume (cs_ctlExec cs) vol (volDirPathBeegfsRoot vol)) (Ok out) tr.
Proof.
  unfold ValidateVolumeCapabilities. case_bool_decide; [by intros [_ [=]]|]. case_bool_decide; [by intros [_ [=]]|].
  destruct (if bool_decide (vv_Parameters req = ∅) then _ else _) as [rest|] eqn:Ep; [|by intros [_ [=]]].
  assert (rest = ∅) as ->.
  { revert Ep. case_bool_decide as E; [intros [= <-]; done|]. cbn.
    destruct (validateReqParams (vv_Parameters req)) as [[ps rest']|] eqn:Ev; [|done]. cbn. intros [= <-].
    by apply validateReqParams_iff in Ev as [_ ->]. }
  rewrite cs_newBeegfsVolumeFromID_run, ret_bind.
  destruct (target (vv_VolumeId req)) as [vol|]; [|by intros [_ [=]]]. intros Hx.
  xdo Hx locked. destruct locked; [|by apply exec_ret in Hx as [_ [=]]]. cbn [negb] in Hx.
  xbind Hx resp Hr. xbind Hx u Hu. xdo Hx v. apply exec_ret in Hx as [-> [= <-]].
  apply validate_capabilities_returned in Hr as (-> & -> & Hc & out & Hran).
  split_and!; [done..|]. exists vol, out. auto with trace.
Qed.

(** ** Any request *)

Inductive controller_rpc :=
  | RpcCreate (req : CreateVolumeRequest)
  | RpcDelete (id : string)
  | RpcValidate (req : ValidateVolumeCapabilitiesRequest).

(** The handler of a request. *)
Definition serve_rpc (fuel : nat) (rpc : controller_rpc) : io unit :=
  match rpc with
  | RpcCreate req => _ ← CreateVolume cs req; mret tt
  | RpcDelete id => _ ← DeleteVolume fuel cs id; mret tt
  | RpcValidate req => _ ← ValidateVolumeCapabilities cs req; mret tt
  end.

(** The volume a request is about, if it is well-formed. *)
Definition rpc_volume (rpc : controller_rpc) : option beegfsVolume :=
  match rpc with
  | RpcCreate req => create_target req <$> create_args req
  | RpcDelete id => match target id with Ok vol => Some vol | Err _ => None end
  | RpcValidate req => match target (vv_VolumeId req) with Ok vol => Some vol | Err _ => None end
  end.
Definition rpc_rights (rpc : controller_rpc) : rights :=
  match rpc with
  | RpcCreate req => from_option create_rights validate_rights (create_args req)
  | RpcDelete _ => delete_rights
  | RpcValidate _ => validate_rights
  end.

Lemma always_serve {A} P (p : io A) : always P p → always P (_ ← p; mret tt).
Proof. intros H. by apply always_bind. Qed.

Lemma inside_footprint {A} ri records vol template (p : io A) :
  always (inside ri records vol template) p → always (footprint ri vol template) p.
Proof. apply always_mono. by intros e []. Qed.

Lemma DeleteVolume_footprint fuel id vol :
  target id = Ok vol → always (footprint delete_rights vol (cs_clientConfTemplatePath cs)) (DeleteVolume fuel cs id).
Proof.
  intros Hv. unfold DeleteVolume. case_bool_decide; [done|]. rewrite cs_newBeegfsVolumeFromID_run, ret_bind, Hv.
  apply always_do; [done|]. intros st. case_bool_decide; [done|]. apply always_do; [done|]. intros []; [|done].
  apply always_bind; [eapply inside_footprint, delete_volume_inside|]. intros resp.
  apply always_bind; [eapply inside_footprint, delete_cleanup_inside|]. by repeat split.
Qed.

Lemma serve_footprint fuel rpc :
  always (λ e, ∃ vol, rpc_volume rpc = Some vol
    ∧ footprint (rpc_rights rpc) vol (cs_clientConfTemplatePath cs) e) (serve_rpc fuel rpc).
Proof.
  destruct rpc as [req|id|req]; cbn [serve_rpc rpc_volume rpc_rights]; apply always_serve.
  - pose proof (CreateVolume_cases req) as Hc. destruct (create_args req) as [ps|]; [|by destruct Hc as (r & -> & _)].
    cbv zeta in Hc. rewrite Hc. set (vol := create_target req ps).
    apply (always_mono (footprint (create_rights ps) vol (cs_clientConfTemplatePath cs))); [by intros e He; exists vol|].
    apply always_do; [done|]. intros st. case_bool_decide; [done|]. apply always_do; [done|]. intros []; [|done].
    apply always_bind; [eapply inside_footprint, create_volume_inside|].
    intros resp. apply always_bind; [eapply inside_footprint, (unmount_inside _ _ _ true)|]. by repeat split.
  - destruct (target id) as [vol|] eqn:Hv.
    + eapply always_mono, (DeleteVolume_footprint fuel _ _ Hv). by intros e He; exists vol.
    + unfold DeleteVolume. case_bool_decide; [done|]. by rewrite cs_newBeegfsVolumeFromID_run, ret_bind, Hv.
  - unfold ValidateVolumeCapabilities. do 2 (case_bool_decide; [done|]).
    destruct (if bool_decide (vv_Parameters req = ∅) then _ else _) as [rest|]; [|done].
    rewrite cs_newBeegfsVolumeFromID_run, ret_bind. destruct (target (vv_VolumeId req)) as [vol|]; [|done].
    apply (always_mono (footprint validate_rights vol (cs_clientConfTemplatePath cs))); [by intros e' He; exists vol|].
    apply always_do; [done|]. intros []; [|done].
    apply always_bind; [eapply inside_footprint, validate_inside|]. intros resp.
    apply always_bind; [eapply inside_footprint, (cleanUp_inside _ _ _ true)|]. by repeat split.
Qed.

(** C6: a controller RPC touches nothing but what belongs to the volume of its
    request: its own mount directory and the two tables at its ID. The commands
    it has the BeeGFS tools run, all of them against the volume's own file
    system, look at the volume's directory and, only in CreateVolume, make the
    directories on the way to it with the requested permissions and those on the
    way to its tracking directory, and stripe it as requested. Only DeleteVolume
    removes a volume's directories, only DeleteVolume and a CreateVolume with
    special permission bits mount, with the default options, and only the latter
    changes a mode. A request that names no volume has no effect at all. *)
Theorem controller_stays_in_volume fuel rpc tr o e :
  exec (serve_rpc fuel rpc) tr o → did e tr →
  ∃ vol, rpc_volume rpc = Some vol
    ∧ footprint (rpc_rights rpc) vol (cs_clientConfTemplatePath cs) e.
Proof.
  intros Hx (r & Hin). pose proof (always_exec _ _ _ _ (serve_footprint fuel rpc) Hx) as Hall.
  rewrite Forall_forall in Hall. exact (Hall _ Hin).
Qed.
End Facts.

Module Example.

#[local] Existing Instance list_order.
#[local] Instance ini : Ini := template_ini ClientFilesFacts.Example.template.
#[local] Instance selinux : Selinux := colon_selinux.

Definition cs : controllerServer :=
  mkControllerServer beegfsCtlDispatcher "node1" (mkPluginConfig no_layer []) "/etc/beegfs/beegfs-client.conf" "/csi" 0.
#[local] Instance cs_RunsCtl : RunsCtl (cs_ctlExec cs) := dispatcher_RunsCtl.

Definition mount_cap : option VolumeCapability :=
  Some (mkVolumeCapability (Some (AccessMount (mkMountVolume EmptyString []))) 5).
(** A volume with the set group ID bit. *)
Definition request : gomap :=
  {[ "sysMgmtdHost" := "host"; "volDirBasePath" := "/scratch"; "permissions/mode" := "2770" ]}.
Definition req : CreateVolumeRequest := mkCreateVolumeRequest "pvc-1" [mount_cap] request.
Definition id : string := "beegfs://host/scratch/pvc-1".
Definition vreq : ValidateVolumeCapabilitiesRequest := mkValidateRequest id [mount_cap] request.

(** A host where unmounting reports busy. *)
Definition busy_handle (e : event) (w : sim) : response e * sim :=
  match e with
  | CleanupMountPoint _ _ => (Err (ErrMsg "target is busy"), w)
  | e => sim_handle e w
  end.

(** Create the volume, fail to clean up after deleting it, create it again. *)
Definition first := run busy_handle (CreateVolume cs req) sim0.
Definition second := run busy_handle (DeleteVolume 1 cs id) first.2.
Definition third := run busy_handle (CreateVolume cs req) second.2.

Lemma CreateVolume_success_witness :
  ∃ params, create_args req = Some params ∧
    let vol := create_target cs req params in
    id = volumeID vol ∧
    (sim_trace (CreateVolume cs req) sim0 = [existT (ReadStatus id) (Some statusCreated)]
     ∨ (got (R := response) (ObtainLock id) true (sim_trace (CreateVolume cs req) sim0)
        ∧ created cs vol params (sim_trace (CreateVolume cs req) sim0)
        ∧ did (WriteStatus id statusCreated) (sim_trace (CreateVolume cs req) sim0))).
Proof.
  apply (CreateVolume_success cs req). assert (sim_ending (CreateVolume cs req) sim0 = Returned (Reply id)) as <-
    by (vm_compute; reflexivity). apply sim_exec.
Defined.

Lemma CreateVolume_failure_witness :
  ¬ recorded (sim_trace (CreateVolume cs req) (set_locks (mkLock {[ id ]}) sim0)).
Proof.
  refine (proj1 (CreateVolume_failure cs req _ (StatusErr (mkStatus Aborted (in_use_msg id))) Aborted _ _)); [|reflexivity].
  assert (sim_ending (CreateVolume cs req) (set_locks (mkLock {[ id ]}) sim0)
    = Returned (StatusErr (mkStatus Aborted (in_use_msg id)))) as <- by (vm_compute; reflexivity).
  apply sim_exec.
Defined.

Lemma DeleteVolume_success_witness :
  ∃ vol, cs_volume_of_id (csDataDir cs) (cs_pluginConfig cs) id = Ok vol ∧
    (sim_trace (DeleteVolume 1 cs id) sim0 = [existT (ReadStatus (volumeID vol)) (Some statusDeleted)]
     ∨ (got (R := response) (ObtainLock (volumeID vol)) true (sim_trace (DeleteVolume 1 cs id) sim0)
        ∧ deleted cs 1 vol (sim_trace (DeleteVolume 1 cs id) sim0)
        ∧ did (WriteStatus (volumeID vol) statusDeleted) (sim_trace (DeleteVolume 1 cs id) sim0))).
Proof.
  eexists. split; [vm_compute; reflexivity|]. apply (DeleteVolume_success cs 1 id).
  assert (sim_ending (DeleteVolume 1 cs id) sim0 = Returned (Reply tt)) as <- by (vm_compute; reflexivity).
  apply sim_exec.
Defined.

Lemma DeleteVolume_failure_witness : ¬ recorded second.1.1.
Proof.
  apply (DeleteVolume_failure cs 1 id _
    (GrpcErr (newGrpcErrorFromCause Internal (WithStack (ErrMsg "target is busy")))) Internal); [|reflexivity].
  assert (second.1.2 = Returned (GrpcErr (newGrpcErrorFromCause Internal (WithStack (ErrMsg "target is busy"))))) as <-
    by (vm_compute; reflexivity).
  apply run_exec.
Defined.

Lemma ValidateVolumeCapabilities_confirmed_witness :
  request !! "sysMgmtdHost" = Some "host" ∧ isValidVolumeCapabilities [mount_cap] = None.
Proof.
  split; [reflexivity|].
  refine (proj1 (proj2 (ValidateVolumeCapabilities_confirmed cs vreq
    (sim_trace (ValidateVolumeCapabilities cs vreq) sim0) [mount_cap] ∅ _))).
  assert (sim_ending (ValidateVolumeCapabilities cs vreq) sim0 = Returned (Reply (Confirmed [mount_cap] ∅))) as <-
    by (vm_compute; reflexivity).
  apply sim_exec.
Defined.

Lemma controller_stays_in_volume_witness :
  ∃ vol, rpc_volume cs (RpcDelete id) = Some vol
    ∧ footprint delete_rights vol "/etc/beegfs/beegfs-client.conf" (RemoveAll "/csi/host_scratch_pvc-1/mount/scratch/pvc-1").
Proof.
  apply (controller_stays_in_volume cs 1 (RpcDelete id) (sim_trace (serve_rpc cs 1 (RpcDelete id)) sim0)
    (sim_ending (serve_rpc cs 1 (RpcDelete id)) sim0)); [apply sim_exec|].
  exists (Ok tt). apply (list_elem_of_lookup_2 _ 15). vm_compute. reflexivity.
Defined.

(** A DeleteVolume that removed the volume's directory but could not
    clean up fails, and leaves the volume recorded as created: the next
    CreateVolume reports success without making the directory. *)
Theorem failed_cleanup_then_create :
  first.1.2 = Returned (Reply id)
  ∧ got (R := response) (RemoveAll "/csi/host_scratch_pvc-1/mount/scratch/pvc-1") (Ok tt) second.1.1
  ∧ reply_code <$> match second.1.2 with Returned r => Some r | _ => None end = Some (Some Internal)
  ∧ third.1 = ([existT (ReadStatus id) (Some statusCreated)], Returned (Reply id)).
Proof.
  split_and!; try (vm_compute; reflexivity). apply (list_elem_of_lookup_2 _ 15). vm_compute. reflexivity.
Qed.
End Example.
