(* ===== verification/Concurrency.v ===== *)
(** * Concurrency: controller requests that run at the same time

    gRPC serves every request in a goroutine of its own. A pool of requests
    interleaves at the events of their programs; the lock table and the status map
    are shared, every other event may answer anything. *)
From S2P Require Import Prelude GoStrings Prog Config ConfigFacts Volume Params World ThreadSafe Sim Mounts BeegfsCtl.
From S2P Require Import BeegfsCtlFacts ClientFiles ClientFilesFacts Csi Footprint ControllerServer ControllerFacts.
Local Open Scope Z_scope.

(** ** The locking discipline of one request *)

(** An event that reaches outside the two tables. *)
Definition external (e : event) : bool :=
  match e with ObtainLock _ | ReleaseLock _ | ReadStatus _ | WriteStatus _ _ => false | _ => true end.

(** Whether the lock on [vid] is held after an event, and None if the event
    breaks the discipline: work and status updates need the lock, it is obtained
    when it is not held and released when it is. *)
Definition next_held (vid : string) (held : bool) (e : event) : response e → option bool :=
  match e with
  | ObtainLock s => λ r, if bool_decide (s = vid) && negb held then Some r else None
  | ReleaseLock s => λ _, if bool_decide (s = vid) && held then Some false else None
  | ReadStatus s => λ _, if bool_decide (s = vid) then Some held else None
  | WriteStatus s _ => λ _, if bool_decide (s = vid) && held then Some held else None
  | _ => λ _, if held then Some held else None
  end.

(** A program that keeps the discipline, and does not hold the lock when it
    returns. *)
Fixpoint disciplined {A} (vid : string) (held : bool) (p : io A) : Prop :=
  match p with
  | Ret _ => held = false
  | Vis e k => ∀ r, match next_held vid held e r with Some h => disciplined vid h (k r) | None => False end
  | Panic _ | OutOfFuel => True
  end.

Lemma disciplined_inside {SE : Selinux} {A B} ri records vol template (p : io A) (f : A → io B) :
  always (inside ri records vol template) p →
  (∀ a, disciplined (volumeID vol) true (f a)) → disciplined (volumeID vol) true (p ≫= f).
Proof.
  intros Hp Hf. induction p as [a|e k IH|m|]; [apply Hf| |done..].
  destruct Hp as [[He Hin] Hk]. intros r. specialize (IH r (Hk r)).
  destruct e; cbn [next_held]; try done. destruct He as [He _]. by rewrite bool_decide_eq_true_2 by done.
Qed.

Lemma disciplined_serve {A} vid held (p : io A) : disciplined vid held p → disciplined vid held (_ ← p; mret tt).
Proof.
  revert held. induction p as [a|e k IH|m|]; intros held; [done| |done..].
  intros H r. specialize (H r). cbn in *. destruct (next_held vid held e r); [by apply IH|done].
Qed.

Lemma disciplined_obtain {A} vid (k : bool → io A) :
  disciplined vid false (k false) → disciplined vid true (k true) → disciplined vid false (do (ObtainLock vid) ≫= k).
Proof. intros Hf Ht r. cbn. rewrite bool_decide_eq_true_2 by done. by destruct r. Qed.
Lemma disciplined_read {A} vid held (k : option volumeStatus → io A) :
  (∀ st, disciplined vid held (k st)) → disciplined vid held (do (ReadStatus vid) ≫= k).
Proof. intros H r. cbn. by rewrite bool_decide_eq_true_2. Qed.
Lemma disciplined_release {A} vid (a : A) : disciplined vid true (_ ← do (ReleaseLock vid); mret a).
Proof. intros r. cbn. by rewrite bool_decide_eq_true_2. Qed.

Section Pool.
Context {INI : Ini} {SE : Selinux} {RO : RangeOrder}.
Context (cs : controllerServer) {CTL : RunsCtl (cs_ctlExec cs)}.

(** The ID a request locks. *)
Definition rpc_id (rpc : controller_rpc) : string := from_option volumeID EmptyString (rpc_volume cs rpc).

Lemma serve_disciplined fuel rpc : disciplined (rpc_id rpc) false (serve_rpc cs fuel rpc).
Proof.
  destruct rpc as [req|id|req]; unfold rpc_id; cbn [serve_rpc rpc_volume]; apply disciplined_serve.
  - pose proof (CreateVolume_cases cs req) as Hc. destruct (create_args req) as [ps|]; [|by destruct Hc as (r & -> & _)].
    cbv zeta in Hc. rewrite Hc. cbn [fmap option_fmap option_map from_option]. set (vol := create_target cs req ps).
    apply disciplined_read. intros st. case_bool_decide; [done|]. apply disciplined_obtain; [done|]. cbn [negb].
    eapply disciplined_inside; [apply (create_volume_inside cs vol ps)|]. intros resp.
    eapply disciplined_inside; [apply (unmount_inside vol EmptyString validate_rights true)|]. intros _. apply disciplined_release.
  - unfold DeleteVolume. case_bool_decide; [done|]. rewrite cs_newBeegfsVolumeFromID_run, ret_bind. case_match; [|done]. cbn [from_option].
    apply disciplined_read. intros st. case_bool_decide; [done|]. apply disciplined_obtain; [done|]. cbn [negb].
    eapply disciplined_inside; [apply delete_volume_inside|]. intros resp.
    eapply disciplined_inside; [apply (delete_cleanup_inside cs)|]. intros resp'. apply disciplined_release.
  - unfold ValidateVolumeCapabilities. do 2 (case_bool_decide; [done|]).
    destruct (if bool_decide (vv_Parameters req = ∅) then _ else _) as [rest|]; [|done].
    rewrite cs_newBeegfsVolumeFromID_run, ret_bind. case_match; [|done]. cbn [from_option].
    apply disciplined_obtain; [done|]. cbn [negb].
    eapply disciplined_inside; [apply (validate_inside cs)|]. intros resp.
    eapply disciplined_inside; [apply (cleanUp_inside _ EmptyString validate_rights true)|]. intros _. apply disciplined_release.
Qed.

(** ** The pool *)

Record pool := mkPool {
  threads : list (controller_rpc * io unit);
  locks : threadSafeStringLock;
  statuses : threadSafeStatusMap
}.

(** What an event answers and does to the tables. *)
Definition table_step (e : event)
    : response e → threadSafeStringLock * threadSafeStatusMap → threadSafeStringLock * threadSafeStatusMap → Prop :=
  match e with
  | ObtainLock s => λ r t t', t' = ((obtainLockOnString s t.1).2, t.2) ∧ r = (obtainLockOnString s t.1).1
  | ReleaseLock s => λ _ t t', t' = (releaseLockOnString s t.1, t.2)
  | ReadStatus s => λ r t t', t' = t ∧ r = readStatus s t.2
  | WriteStatus s st => λ _ t t', t' = (t.1, writeStatus s st t.2)
  | _ => λ _ t t', t' = t
  end.

(** A request arrives, or one of the requests takes a step. *)
Inductive step : pool → pool → Prop :=
  | step_arrives rpc fuel ts l st :
      step (mkPool ts l st) (mkPool (ts ++ [(rpc, serve_rpc cs fuel rpc)]) l st)
  | step_event i rpc e k r ts l st l' st' :
      ts !! i = Some (rpc, Vis e k) → table_step e r (l, st) (l', st') →
      step (mkPool ts l st) (mkPool (<[i := (rpc, k r)]> ts) l' st').

Definition start : pool := mkPool [] newThreadSafeStringLock newThreadSafeStatusMap.
Definition reachable (p : pool) : Prop := rtc step start p.

(** ** The invariant: every locked ID has one owner, who keeps the discipline *)

Record owned (owner : gmap string nat) (p : pool) : Prop := {
  owned_items : dom owner = lock_items (locks p);
  owned_threads i rpc q : threads p !! i = Some (rpc, q) →
    disciplined (rpc_id rpc) (bool_decide (owner !! rpc_id rpc = Some i)) q;
  owned_owner s i : owner !! s = Some i → ∃ rpc q, threads p !! i = Some (rpc, q) ∧ rpc_id rpc = s
}.

Lemma start_owned : owned ∅ start.
Proof. by split. Qed.

Lemma arrives_owned owner ts l st rpc fuel :
  owned owner (mkPool ts l st) → owned owner (mkPool (ts ++ [(rpc, serve_rpc cs fuel rpc)]) l st).
Proof.
  intros [Hi Ht Ho]. cbn in *. split; cbn.
  - done.
  - intros i rpc' q [H|[Hi' H]]%lookup_app_Some; [by apply Ht|].
    apply list_lookup_singleton_Some in H as [Hz [= <- <-]].
    rewrite bool_decide_eq_false_2; [apply serve_disciplined|].
    intros (? & ? & H & _)%Ho. apply lookup_lt_Some in H. lia.
  - intros s i (rpc' & q & H & E)%Ho. exists rpc', q. split; [by apply lookup_app_l_Some|done].
Qed.

(** The other threads' ownership is as before the step, and the thread that took
    it keeps the discipline. *)
Lemma owned_update owner owner' ts l l' st st' i rpc e k r :
  owned owner (mkPool ts l st) → ts !! i = Some (rpc, Vis e k) →
  dom owner' = lock_items l' →
  (∀ s, s ≠ rpc_id rpc → owner' !! s = owner !! s) →
  (∀ j, j ≠ i → owner' !! rpc_id rpc = Some j ↔ owner !! rpc_id rpc = Some j) →
  disciplined (rpc_id rpc) (bool_decide (owner' !! rpc_id rpc = Some i)) (k r) →
  owned owner' (mkPool (<[i := (rpc, k r)]> ts) l' st').
Proof.
  intros [Hi Ht Ho] Hts Hdom Hother Hsame Hk. cbn in *.
  assert (∀ s j, j ≠ i → owner' !! s = Some j ↔ owner !! s = Some j) as Hj.
  { intros s j Hne. destruct (decide (s = rpc_id rpc)) as [->|Hs]; [by apply Hsame|by rewrite Hother]. }
  split; cbn.
  - done.
  - intros j rpc' q [(<- & [= <- <-] & _)|[Hne H]]%list_lookup_insert_Some; [done|].
    specialize (Ht _ _ _ H). erewrite bool_decide_ext; [exact Ht|]. by apply Hj.
  - intros s j Hs. destruct (decide (j = i)) as [->|Hne].
    + exists rpc, (k r). split; [apply list_lookup_insert_eq; by eapply lookup_lt_Some|].
      destruct (decide (s = rpc_id rpc)) as [->|Hne]; [done|]. rewrite Hother in Hs by done.
      apply Ho in Hs as (rpc' & q & H & E). by simplify_eq.
    + apply Hj in Hs as (rpc' & q & H & E)%Ho; [|done]. exists rpc', q.
      split; [by rewrite list_lookup_insert_ne|done].
Qed.

Lemma event_owned owner ts l st l' st' i rpc e k r :
  owned owner (mkPool ts l st) → ts !! i = Some (rpc, Vis e k) → table_step e r (l, st) (l', st') →
  ∃ owner', owned owner' (mkPool (<[i := (rpc, k r)]> ts) l' st').
Proof.
  intros HI Hts Hstep. pose proof (owned_items _ _ HI) as Hi. cbn in Hi.
  pose proof (owned_threads _ _ HI i rpc _ Hts r) as Hd. destruct (next_held _ _ e r) as [h|] eqn:En; [|done].
  set (id := rpc_id rpc) in *.
  assert (h = bool_decide (owner !! id = Some i) → l' = l → ∃ owner', owned owner' (mkPool (<[i := (rpc, k r)]> ts) l' st'))
    as Hsame by (intros -> ->; exists owner; by eapply owned_update).
  destruct e; cbn [next_held table_step] in En, Hstep; try (
    destruct (bool_decide (owner !! id = Some i)); simplify_eq; by apply Hsame).
  - (* ObtainLock *)
    destruct (bool_decide (s = id)) eqn:Es; [|done]. bools. subst s. destruct Hstep as [[= -> ->] ->].
    destruct (bool_decide (owner !! id = Some i)) eqn:Eo; [done|]. injection En as <-.
    cbn [fst snd] in *. destruct (obtainLockOnString id l) as [b l1] eqn:Eob. cbn [fst snd] in *.
    unfold obtainLockOnString in Eob. destruct (bool_decide (id ∈ lock_items l)) eqn:Hl; injection Eob as <- <-;
      [by apply Hsame|]. bools. rewrite <- Hi in Hl. apply not_elem_of_dom in Hl. exists (<[id := i]> owner).
    eapply owned_update; [done..| | | |]; fold id.
    + cbn. by rewrite dom_insert_L, Hi.
    + intros s Hs. by rewrite lookup_insert_ne.
    + intros j Hne. rewrite lookup_insert_eq, Hl. split; congruence.
    + by rewrite lookup_insert_eq, bool_decide_eq_true_2.
  - (* ReleaseLock *)
    destruct (bool_decide (s = id)) eqn:Es; [|done]. bools. subst s. injection Hstep as -> ->.
    destruct (bool_decide (owner !! id = Some i)) eqn:Eo; [|done]. bools. injection En as <-.
    exists (delete id owner). eapply owned_update; [done..| | | |]; fold id.
    + cbn. by rewrite dom_delete_L, Hi.
    + intros s Hs. by rewrite lookup_delete_ne.
    + intros j Hne. rewrite lookup_delete_eq, Eo. split; congruence.
    + by rewrite lookup_delete_eq, bool_decide_eq_false_2.
  - (* ReadStatus *)
    destruct (bool_decide (volumeID = id)); [|done]. injection En as <-. destruct Hstep as [[= -> ->] _]. by apply Hsame.
  - (* WriteStatus *)
    destruct (bool_decide (volumeID = id)); [|done]. injection Hstep as -> ->.
    destruct (bool_decide (owner !! id = Some i)); [|done]. injection En as <-. by apply Hsame.
Qed.

Lemma reachable_owned p : reachable p → ∃ owner, owned owner p.
Proof.
  unfold reachable. intros H. apply (rtc_ind_r (λ p, ∃ owner, owned owner p) start) in H; [done| |].
  - exists ∅. apply start_owned.
  - intros p1 p2 _ [rpc fuel ts l st|i rpc e k r ts l st l' st' Hts Hs] (owner & HI).
    + exists owner. by apply arrives_owned.
    + by eapply event_owned.
Qed.

Lemma external_held owner p i rpc e k :
  owned owner p → threads p !! i = Some (rpc, Vis e k) → external e = true → owner !! rpc_id rpc = Some i.
Proof.
  intros HI Hts He. pose proof (owned_threads _ _ HI _ _ _ Hts (sim_handle e sim0).1) as Hd.
  destruct (bool_decide (owner !! rpc_id rpc = Some i)) eqn:E; [by bools|].
  destruct e; done.
Qed.

(** C3: whatever requests arrive and however they interleave, no two requests
    work on the same volume at the same time: between its locking a volume and
    releasing it, a request is the only one that reaches outside the server on
    behalf of that volume ID. *)
Theorem controller_mutual_exclusion p i j rpc1 rpc2 e1 e2 k1 k2 :
  reachable p → i ≠ j →
  threads p !! i = Some (rpc1, Vis e1 k1) → threads p !! j = Some (rpc2, Vis e2 k2) →
  external e1 = true → external e2 = true → rpc_id rpc1 ≠ rpc_id rpc2.
Proof.
  intros (owner & HI)%reachable_owned Hne H1 H2 He1 He2 Heq.
  pose proof (external_held _ _ _ _ _ _ HI H1 He1) as Ho1.
  pose proof (external_held _ _ _ _ _ _ HI H2 He2) as Ho2. congruence.
Qed.

(** C4: no lock outlives its request: a volume ID that is locked belongs to a
    request in the pool that has not returned. In particular a volume whose requests
    have all returned can be locked again. *)
Theorem controller_lock_has_owner p id :
  reachable p → id ∈ lock_items (locks p) →
  ∃ i rpc q, threads p !! i = Some (rpc, q) ∧ rpc_id rpc = id ∧ ∀ u, q ≠ Ret u.
Proof.
  intros (owner & HI)%reachable_owned Hid. rewrite <- (owned_items _ _ HI) in Hid.
  apply elem_of_dom in Hid as [i Hi]. destruct (owned_owner _ _ HI _ _ Hi) as (rpc & q & Hts & <-).
  exists i, rpc, q. split_and!; [done..|]. intros u ->.
  pose proof (owned_threads _ _ HI _ _ _ Hts) as Hd. cbn in Hd. by rewrite bool_decide_eq_true_2 in Hd.
Qed.
End Pool.

(** ** Running a pool *)

(** Let thread [i] take a step, in the host of Sim.v. *)
Definition advance (i : nat) (p : pool) : pool :=
  match threads p !! i with
  | Some (rpc, Vis e k) =>
      let '(r, w) := sim_handle e (set_status (statuses p) (set_locks (locks p) sim0)) in
      mkPool (<[i := (rpc, k r)]> (threads p)) (sim_locks w) (sim_status w)
  | _ => p
  end.

Lemma sim_table_step e w :
  table_step e (sim_handle e w).1 (sim_locks w, sim_status w)
    (sim_locks (sim_handle e w).2, sim_status (sim_handle e w).2).
Proof. destruct e; cbn; try done. by destruct (obtainLockOnString s (sim_locks w)). Qed.

Section Advance.
Context {INI : Ini} {SE : Selinux} {RO : RangeOrder} (cs : controllerServer).

Lemma advance_reachable i p : reachable cs p → reachable cs (advance i p).
Proof.
  intros Hp. unfold advance. destruct (threads p !! i) as [[rpc [u|e k|m|]]|] eqn:E; try done.
  set (w := set_status (statuses p) (set_locks (locks p) sim0)).
  pose proof (sim_table_step e w) as Ht. destruct (sim_handle e w) as [r w']. cbn [fst snd] in Ht.
  eapply rtc_r; [exact Hp|]. destruct p as [ts l st]. by eapply step_event.
Qed.
Lemma arrive_reachable fuel rpc p :
  reachable cs p → reachable cs (mkPool (threads p ++ [(rpc, serve_rpc cs fuel rpc)]) (locks p) (statuses p)).
Proof. intros Hp. eapply rtc_r; [exact Hp|]. destruct p. apply step_arrives. Qed.
End Advance.

Module Example.
Import ControllerFacts.Example.
#[local] Existing Instances list_order ini selinux cs_RunsCtl.

Definition other : string := "beegfs://host/scratch/pvc-2".
Definition arrive (rpc : controller_rpc) (p : pool) : pool :=
  mkPool (threads p ++ [(rpc, serve_rpc cs 5 rpc)]) (locks p) (statuses p).
(** Two requests, both at work. *)
Definition working : pool :=
  advance 1 (advance 1 (advance 0 (advance 0 (arrive (RpcDelete other) (arrive (RpcDelete id) start))))).

Lemma working_reachable : reachable cs working.
Proof. do 4 apply advance_reachable. do 2 apply arrive_reachable. apply rtc_refl. Qed.

Lemma controller_mutual_exclusion_witness : rpc_id cs (RpcDelete id) ≠ rpc_id cs (RpcDelete other).
Proof.
  eapply (controller_mutual_exclusion cs working 0 1); [apply working_reachable|lia|reflexivity|reflexivity|reflexivity..].
Defined.

Lemma controller_lock_has_owner_witness :
  ∃ i rpc q, threads working !! i = Some (rpc, q) ∧ rpc_id cs rpc = other ∧ ∀ u, q ≠ Ret u.
Proof.
  apply (controller_lock_has_owner cs working other working_reachable).
  assert (bool_decide (other ∈ lock_items (locks working)) = true) as E by (vm_compute; reflexivity).
  by bools.
Defined.
End Example.
