(* ===== verification/ControllerHistory.v ===== *)
(** * ControllerHistory: what the controller's status map knows

    The pool of requests of Concurrency with the log of everything its requests
    did. The status map answers for requests that have long returned: it says
    that a volume was created or deleted. Here it is shown to say so only of work
    that some request in the log really did, in any interleaving. *)
From S2P Require Import Prelude GoStrings Prog Config ConfigFacts Volume Params World ThreadSafe Sim Mounts BeegfsCtl.
From S2P Require Import BeegfsCtlFacts ClientFiles ClientFilesFacts Csi Footprint ControllerServer ControllerFacts Concurrency.
Local Open Scope Z_scope.

(** ** Before every write of a status *)

(** At each write of a status, [Q] holds of what the program did before, [tr]
    included. *)
Fixpoint writes_after {A} (Q : io_trace → string → volumeStatus → Prop) (tr : io_trace) (p : io A) : Prop :=
  match p with
  | Vis e k =>
      match e with WriteStatus s st => Q tr s st | _ => True end ∧ ∀ r, writes_after Q (tr ++ [existT e r]) (k r)
  | _ => True
  end.

Lemma writes_after_quiet {A B} Q tr (p : io A) (f : A → io B) :
  quiet p → (∀ tr' a, exec p tr' (Returned a) → writes_after Q (tr ++ tr') (f a)) → writes_after Q tr (p ≫= f).
Proof.
  revert tr. induction p as [a|e k IH|m|]; intros tr Hp Hf; [|split|done..].
  - specialize (Hf [] a (conj eq_refl eq_refl)). by rewrite app_nil_r in Hf.
  - by destruct e, Hp.
  - intros r. apply IH; [apply Hp|]. intros tr' a Hx. rewrite <- app_assoc. apply Hf. by exists r, tr'.
Qed.

Lemma quiet_writes_after {A} Q tr (p : io A) : quiet p → writes_after Q tr p.
Proof.
  revert tr. induction p as [a|e k IH|m|]; intros tr Hp; [done| |done..]. split; [by destruct e, Hp|].
  intros r. apply IH, Hp.
Qed.

Lemma writes_after_do {A} Q tr e (k : response e → io A) :
  match e with WriteStatus s st => Q tr s st | _ => True end →
  (∀ r, writes_after Q (tr ++ [existT e r]) (k r)) → writes_after Q tr (do e ≫= k).
Proof. intros He Hk. split; [done|]. exact Hk. Qed.

(** One statement of a handler. *)
Lemma writes_after_or {A B} Q tr (p : io (result A)) h (k : A → io B) :
  quiet p → (∀ err, quiet (h err : io B)) → (∀ tr' a, exec p tr' (Returned (Ok a)) → writes_after Q (tr ++ tr') (k a)) →
  writes_after Q tr (x ← p; match x with Err err => h err | Ok a => k a end).
Proof.
  intros Hp Hh Hk. apply writes_after_quiet; [done|]. intros tr' [a|err] Hx; [by apply Hk|]. apply quiet_writes_after, Hh.
Qed.

(** A program in the middle of its run. *)
Inductive reaches {A} : io A → io_trace → io A → Prop :=
  | reaches_nil p : reaches p [] p
  | reaches_cons e k r tr q : reaches (k r) tr q → reaches (Vis e k) (existT e r :: tr) q.

Lemma reaches_snoc {A} (p : io A) tr e k r : reaches p tr (Vis e k) → reaches p (tr ++ [existT e r]) (k r).
Proof.
  intros H. remember (Vis e k) as q eqn:Hq. induction H as [p|e' k' r' tr q H IH]; subst; cbn.
  - apply reaches_cons, reaches_nil.
  - apply reaches_cons, IH, eq_refl.
Qed.

Lemma writes_after_reaches {A} Q tr (p q : io A) tr' : reaches p tr' q → writes_after Q tr p → writes_after Q (tr ++ tr') q.
Proof.
  intros H. revert tr. induction H as [p|e k r tr' q H IH]; intros tr Hp; [by rewrite app_nil_r|].
  destruct Hp as [_ Hp]. specialize (IH _ (Hp r)). by rewrite <- app_assoc in IH.
Qed.

Section History.
Context {INI : Ini} {SE : Selinux} {RO : RangeOrder}.
Context (cs : controllerServer) {CTL : RunsCtl (cs_ctlExec cs)}.

(** The work that a request with the history [tr] records. *)
Definition justifies (rpc : controller_rpc) (tr : io_trace) (s : string) (st : volumeStatus) : Prop :=
  got (ObtainLock s) true tr ∧
  match rpc, st with
  | RpcCreate req, statusCreated =>
      ∃ params, create_args req = Some params ∧ s = volumeID (create_target cs req params)
        ∧ created cs (create_target cs req params) params tr
  | RpcDelete id, statusDeleted =>
      ∃ fuel vol, cs_volume_of_id (csDataDir cs) (cs_pluginConfig cs) id = Ok vol ∧ s = volumeID vol
        ∧ deleted cs fuel vol tr
  | _, _ => False
  end.

Lemma create_volume_writes vol params Q tr0 :
  (∀ tr, created cs vol params tr → Q (tr0 ++ tr) (volumeID vol) statusCreated) →
  writes_after Q tr0 (create_volume cs vol params).
Proof.
  intros HQ. pose proof (λ A, inside_quiet (A := A) (mkRights true false (Some params)) vol (cs_clientConfTemplatePath cs)) as Hq.
  unfold create_volume.
  apply writes_after_or; [done|done|]. intros tr1 u1 _.
  apply (writes_after_or _ _ _ (λ e, _ e)); [apply Hq, client_inside|done|]. intros tr2 u2 _.
  apply (writes_after_or _ _ _ (λ e, _ e)); [by eapply Hq, create_inside; [..|left]|done|]. intros tr3 [] H3.
  apply (writes_after_or _ _ _ (λ e, _ e)); [by apply Hq, pattern_inside|done|]. intros tr4 [] H4.
  apply (writes_after_or _ _ _ (λ e, _ e)); [|done|].
  { case_match; [|done]. apply always_bind; [by apply Hq, mount_inside|]. by intros []. }
  intros tr5 [] H5. apply writes_after_quiet.
  { destruct (0 <? nodeUnstageTimeout cs); [by eapply Hq, create_inside; [..|right]|done]. }
  intros tr6 u6 _.
  split; [|done]. rewrite <- !app_assoc. apply HQ. split_and!; [by auto 12 with trace..|].
  intros E. rewrite E in H5. xlet H5 u7 H7. apply exec_trigger in H5 as ->. destruct u7. auto 20 with trace.
Qed.

Lemma delete_cleanup_writes vol fuel tr1 resp Q tr0 :
  exec (delete_volume fuel cs vol) tr1 (Returned resp) →
  (∀ tr, deleted cs fuel vol (tr1 ++ tr) → Q (tr0 ++ tr1 ++ tr) (volumeID vol) statusDeleted) →
  writes_after Q (tr0 ++ tr1) (delete_cleanup vol resp).
Proof.
  intros Hd HQ. unfold delete_cleanup.
  apply writes_after_quiet; [apply (inside_quiet validate_rights vol EmptyString), unmount_inside|].
  intros tr2 cleanup Hu. apply delete_volume_returned in Hd as [(err & ->)|(-> & Hm & Hw)]; [by destruct cleanup|].
  destruct cleanup as [[]|err]; [|done]. split; [|done]. rewrite <- app_assoc. apply HQ.
  split_and!; auto 12 with trace.
Qed.

Lemma writes_after_serve {A} Q tr (p : io A) : writes_after Q tr p → writes_after Q tr (_ ← p; mret tt).
Proof.
  revert tr. induction p as [a|e k IH|m|]; intros tr; [done| |done..]. intros [He Hk]. split; [done|].
  intros r. apply IH, Hk.
Qed.

Lemma writes_after_bind {A B} Q tr (p : io A) (f : A → io B) :
  writes_after Q tr p → (∀ tr' a, exec p tr' (Returned a) → writes_after Q (tr ++ tr') (f a)) → writes_after Q tr (p ≫= f).
Proof.
  revert tr. induction p as [a|e k IH|m|]; intros tr Hp Hf; [|split|done..].
  - specialize (Hf [] a (conj eq_refl eq_refl)). by rewrite app_nil_r in Hf.
  - apply Hp.
  - intros r. apply IH; [apply Hp|]. intros tr' a Hx. rewrite <- app_assoc. apply Hf. by exists r, tr'.
Qed.

(** Every request writes a status only after the work it records. *)
Lemma serve_writes fuel rpc : writes_after (justifies rpc) [] (serve_rpc cs fuel rpc).
Proof.
  destruct rpc as [req|id|req]; cbn [serve_rpc]; apply writes_after_serve.
  - pose proof (CreateVolume_cases cs req) as Hc. destruct (create_args req) as [ps|] eqn:Ha; [|by destruct Hc as (r & -> & _)].
    cbv zeta in Hc. rewrite Hc. set (vol := create_target cs req ps).
    apply writes_after_do; [done|]. intros st. case_bool_decide; [done|].
    apply writes_after_do; [done|]. intros [|]; [|done]. cbn [negb].
    apply writes_after_bind.
    { apply create_volume_writes. intros tr Hcr. split; [auto with trace|]. exists ps. split_and!; [done..|].
      rewrite <- (app_nil_r tr), app_assoc. by rewrite <- (app_assoc _ tr []); apply created_app. }
    intros tr resp _. apply quiet_writes_after, always_bind; [|done].
    apply (inside_quiet validate_rights vol EmptyString), unmount_inside.
  - unfold DeleteVolume. case_bool_decide; [done|]. rewrite cs_newBeegfsVolumeFromID_run, ret_bind.
    destruct (cs_volume_of_id (csDataDir cs) (cs_pluginConfig cs) id) as [vol|] eqn:Hv; [|done].
    apply writes_after_do; [done|]. intros st. case_bool_decide; [done|].
    apply writes_after_do; [done|]. intros [|]; [|done]. cbn [negb].
    apply writes_after_quiet; [apply (inside_quiet _ _ _ _ (delete_volume_inside cs fuel vol))|]. intros tr1 resp Hd.
    apply writes_after_bind; [|intros; by apply quiet_writes_after].
    apply (delete_cleanup_writes _ _ _ _ _ _ Hd). intros tr Hdel. split; [auto with trace|].
    exists fuel, vol. split_and!; [done..|]. destruct Hdel as (H1 & H2 & H3). split_and!; auto with trace.
  - apply quiet_writes_after. unfold ValidateVolumeCapabilities. do 2 (case_bool_decide; [done|]).
    destruct (if bool_decide (vv_Parameters req = ∅) then _ else _) as [rest|]; [|done].
    rewrite cs_newBeegfsVolumeFromID_run, ret_bind.
    destruct (cs_volume_of_id (csDataDir cs) (cs_pluginConfig cs) (vv_VolumeId req)) as [vol|]; [|done].
    apply always_do; [done|]. intros [|]; [|done]. cbn [negb].
    apply always_bind; [apply (inside_quiet _ _ _ _ (validate_inside cs vol _ _))|]. intros resp.
    apply always_bind; [apply (inside_quiet validate_rights vol EmptyString), cleanUp_inside|]. done.
Qed.

(** ** The log of a pool *)

(** Which request did what, and the answer it got. *)
Abbreviation entry := (nat * sigT response)%type.
Definition own (i : nat) (log : list entry) : io_trace := (filter (λ x, x.1 = i) log).*2.

Inductive hstep : pool * list entry → pool * list entry → Prop :=
  | hstep_arrives rpc fuel ts l st log :
      hstep (mkPool ts l st, log) (mkPool (ts ++ [(rpc, serve_rpc cs fuel rpc)]) l st, log)
  | hstep_event i rpc e k r ts l st l' st' log :
      ts !! i = Some (rpc, Vis e k) → table_step e r (l, st) (l', st') →
      hstep (mkPool ts l st, log) (mkPool (<[i := (rpc, k r)]> ts) l' st', log ++ [(i, existT e r)]).
Definition hreachable (x : pool * list entry) : Prop := rtc hstep (start, []) x.

(** The log changes nothing: it can be kept for every run of the pool. *)
Lemma reachable_log p : reachable cs p ↔ ∃ log, hreachable (p, log).
Proof.
  split.
  - intros H. apply (rtc_ind_r (λ p, ∃ log, hreachable (p, log)) start) in H; [done|exists []; apply rtc_refl|].
    intros p1 p2 _ [rpc fuel ts l st|i rpc e k r ts l st l' st' Hts Hs] (log & Hr).
    + exists log. eapply rtc_r; [exact Hr|]. apply hstep_arrives.
    + exists (log ++ [(i, existT e r)]). eapply rtc_r; [exact Hr|]. by eapply hstep_event.
  - intros (log & H). unfold hreachable in H. change p with (p, log).1.
    apply (rtc_ind_r (λ x, reachable cs x.1) (start, [])) in H; [done|apply rtc_refl|].
    intros x1 x2 _ [rpc fuel ts l st log'|i rpc e k r ts l st l' st' log' Hts Hs] Hr; cbn in *.
    + eapply rtc_r; [exact Hr|]. apply step_arrives.
    + eapply rtc_r; [exact Hr|]. by eapply step_event.
Qed.

(** The status map that the writes of a log leave. *)
Definition apply_write (m : threadSafeStatusMap) (x : entry) : threadSafeStatusMap :=
  match projT1 x.2 with WriteStatus s st => writeStatus s st m | _ => m end.
Definition statuses_of (log : list entry) : threadSafeStatusMap := foldl apply_write newThreadSafeStatusMap log.

Lemma own_snoc i log x : own i (log ++ [x]) = own i log ++ (if decide (x.1 = i) then [x.2] else []).
Proof. unfold own. rewrite filter_app, fmap_app. cbn [filter list_filter]. by case_decide. Qed.

(** The answer of a look at the status map. *)
Definition status_answer (x : sigT response) : option (string * option volumeStatus) :=
  match x with
  | existT e r => match e return response e → option (string * option volumeStatus) with ReadStatus s => λ r, Some (s, r) | _ => λ _, None end r
  end.

(** What holds of a pool and its log. *)
Record history_ok (x : pool * list entry) : Prop := {
  history_threads i rpc q : threads x.1 !! i = Some (rpc, q) → ∃ fuel, reaches (serve_rpc cs fuel rpc) (own i x.2) q;
  history_bound y : y ∈ x.2 → (y.1 < length (threads x.1))%nat;
  history_statuses : statuses x.1 = statuses_of x.2;
  history_writes pre i s st u post : x.2 = pre ++ (i, existT (WriteStatus s st) u) :: post →
    ∃ rpc q, threads x.1 !! i = Some (rpc, q) ∧ justifies rpc (own i pre) s st;
  history_reads pre i s r post : x.2 = pre ++ (i, existT (ReadStatus s) r) :: post → r = readStatus s (statuses_of pre)
}.

(** A position in a longer log is the last one, or a position in the shorter. *)
Lemma snoc_position {A} (log pre post : list A) x y :
  log ++ [y] = pre ++ x :: post → (log = pre ∧ y = x ∧ post = []) ∨ ∃ post', log = pre ++ x :: post' ∧ post = post' ++ [y].
Proof.
  intros H. destruct post as [|z post _] using rev_ind.
  - apply app_inj_tail in H as [-> ->]. by left.
  - right. exists post. rewrite app_comm_cons, app_assoc in H. by apply app_inj_tail in H as [-> ->].
Qed.

Lemma start_history : history_ok (start, []).
Proof.
  split; cbn; try done.
  - intros y []%elem_of_nil.
  - intros pre i s st u post H. by destruct pre.
  - intros pre i s r post H. by destruct pre.
Qed.

Lemma own_none i log : (∀ y, y ∈ log → y.1 ≠ i) → own i log = [].
Proof.
  unfold own. induction log as [|y log IH]; intros H; [done|]. rewrite filter_cons, decide_False by (apply H; by left).
  apply IH. intros z Hz. apply H. by right.
Qed.

Lemma arrives_history rpc fuel ts l st log :
  history_ok (mkPool ts l st, log) → history_ok (mkPool (ts ++ [(rpc, serve_rpc cs fuel rpc)]) l st, log).
Proof.
  intros [Ht Hb Hs Hw Hr]. cbn [fst snd threads statuses] in *. split; cbn [fst snd threads statuses]; [| |done| |done].
  - intros i rpc' q [H|[Hi H]]%lookup_app_Some; [by apply Ht|].
    apply list_lookup_singleton_Some in H as [Hz [= <- <-]]. exists fuel.
    rewrite own_none; [apply reaches_nil|]. intros y Hy%Hb. lia.
  - intros y Hy%Hb. rewrite length_app. lia.
  - intros pre i s st' u post Hlog. destruct (Hw _ _ _ _ _ _ Hlog) as (rpc' & q & Hi & Hj).
    exists rpc', q. split; [by apply lookup_app_l_Some|done].
Qed.

Lemma event_history i rpc e k r ts l st l' st' log :
  history_ok (mkPool ts l st, log) → ts !! i = Some (rpc, Vis e k) → table_step e r (l, st) (l', st') →
  history_ok (mkPool (<[i := (rpc, k r)]> ts) l' st', log ++ [(i, existT e r)]).
Proof.
  intros [Ht Hb Hs Hw Hr] Hi Hstep. cbn [fst snd threads statuses] in *.
  destruct (Ht _ _ _ Hi) as [fuel Hreach].
  split; cbn [fst snd threads statuses].
  - intros j rpc' q [(<- & [= <- <-] & _)|[Hne H]]%list_lookup_insert_Some; rewrite own_snoc; cbn [fst snd].
    + exists fuel. rewrite decide_True by done. by apply reaches_snoc.
    + rewrite decide_False, app_nil_r by done. by apply Ht.
  - intros y [Hy|Hy]%elem_of_app; rewrite length_insert; [by apply Hb|].
    apply list_elem_of_singleton in Hy as ->. by eapply lookup_lt_Some.
  - unfold statuses_of. rewrite foldl_app. fold (statuses_of log). rewrite <- Hs. cbn [foldl]. unfold apply_write.
    destruct e; cbn in *; first [by injection Hstep | by destruct Hstep as [[= _ ->] _]].
  - assert (∀ j rpc0 q, ts !! j = Some (rpc0, q) → ∃ q', <[i := (rpc, k r)]> ts !! j = Some (rpc0, q')) as Hkeep.
    { intros j rpc0 q Hj. destruct (decide (j = i)) as [->|Hne]; [|exists q; by rewrite list_lookup_insert_ne].
      rewrite Hi in Hj. injection Hj as <- <-. exists (k r). apply list_lookup_insert_eq. by eapply lookup_lt_Some. }
    intros pre j s st0 u post [(<- & Hy & ->)|(post' & Hlog & ->)]%snoc_position.
    + injection Hy as <- -> Hu. destruct (Hkeep _ _ _ Hi) as [q' Hq']. exists rpc, q'. split; [done|].
      pose proof (writes_after_reaches _ [] _ _ _ Hreach (serve_writes fuel rpc)) as [H _]. exact H.
    + destruct (Hw _ _ _ _ _ _ Hlog) as (rpc0 & q & Hj & Hjust). destruct (Hkeep _ _ _ Hj) as [q' Hq']. eauto.
  - intros pre j s r0 post [(<- & Hy & ->)|(post' & Hlog & ->)]%snoc_position; [|by eapply Hr].
    rewrite <- Hs. apply (f_equal (λ y, status_answer y.2)) in Hy. cbn [snd status_answer] in Hy.
    destruct e; try discriminate Hy. injection Hy as -> ->. by destruct Hstep as [_ ->].
Qed.

Lemma hreachable_history x : hreachable x → history_ok x.
Proof.
  intros H. apply (rtc_ind_r history_ok (start, [])) in H; [done|apply start_history|].
  intros x1 x2 _ [rpc fuel ts l st log|i rpc e k r ts l st l' st' log Hts Hs] Hok.
  - by apply arrives_history.
  - by eapply event_history.
Qed.

(** The status that a log leaves is that of its last write. *)
Definition writes_id (id : string) (x : entry) : Prop := ∃ st, projT1 x.2 = WriteStatus id st.
Lemma last_write log id st :
  readStatus id (statuses_of log) = Some st →
  ∃ pre i u post, log = pre ++ (i, existT (WriteStatus id st) u) :: post ∧ Forall (λ x, ¬ writes_id id x) post.
Proof.
  induction log as [|[i [e r]] log IH] using rev_ind; [done|]. unfold statuses_of. rewrite foldl_app.
  fold (statuses_of log). cbn [foldl]. intros H.
  assert (¬ writes_id id (i, existT e r) → readStatus id (statuses_of log) = Some st →
    ∃ pre j u post, log ++ [(i, existT e r)] = pre ++ (j, existT (WriteStatus id st) u) :: post
      ∧ Forall (λ x, ¬ writes_id id x) post) as Hold.
  { intros Hn (pre & j & u & post & -> & Hpost)%IH. exists pre, j, u, (post ++ [(i, existT e r)]).
    split; [by rewrite <- app_assoc|]. apply Forall_app. split; [done|by constructor]. }
  destruct e; try (apply Hold; [by intros [? [=]]|exact H]).
  unfold apply_write, readStatus, writeStatus in H. cbn in H.
  destruct (decide (volumeID = id)) as [->|Hne].
  - rewrite lookup_insert_eq in H. injection H as ->. exists log, i, r, []. by split.
  - rewrite lookup_insert_ne in H by done. apply Hold; [|exact H]. intros [st' [= -> _]]. done.
Qed.

(** C5: the status map never answers for work that was not done. In every
    interleaving of requests, whenever a request is told that a volume has been
    created (deleted), an earlier request wrote that as the volume's last status,
    and this request was a CreateVolume (DeleteVolume) for this volume that
    had locked it and had made the directory with its owner, mode, pattern and
    permission bits (had deleted the directories and cleaned up). So the answers
    that CreateVolume and DeleteVolume give from the map alone are backed. *)
Theorem remembered_work_was_done p pre j id st post :
  hreachable (p, pre ++ (j, existT (ReadStatus id) (Some st)) :: post) →
  ∃ pre1 i u pre2 rpc q,
    pre = pre1 ++ (i, existT (WriteStatus id st) u) :: pre2 ∧ Forall (λ x, ¬ writes_id id x) pre2
    ∧ threads p !! i = Some (rpc, q) ∧ justifies rpc (own i pre1) id st.
Proof.
  intros Hok%hreachable_history.
  pose proof (history_reads _ Hok pre j id (Some st) post eq_refl) as Hread. symmetry in Hread.
  apply last_write in Hread as (pre1 & i & u & pre2 & -> & Hpre2).
  destruct (history_writes _ Hok pre1 i id st u (pre2 ++ (j, existT (ReadStatus id) (Some st)) :: post)) as (rpc & q & Hi & Hj).
  { cbn [snd]. by rewrite <- app_assoc. }
  by exists pre1, i, u, pre2, rpc, q.
Qed.
End History.

(** ** Running a pool with its log *)

Section Advance.
Context {INI : Ini} {SE : Selinux} {RO : RangeOrder} (cs : controllerServer).

Definition log_advance (i : nat) (x : pool * list (nat * sigT response)) : pool * list (nat * sigT response) :=
  match threads x.1 !! i with
  | Some (rpc, Vis e k) =>
      let '(r, w) := sim_handle e (set_status (statuses x.1) (set_locks (locks x.1) sim0)) in
      (mkPool (<[i := (rpc, k r)]> (threads x.1)) (sim_locks w) (sim_status w), x.2 ++ [(i, existT e r)])
  | _ => x
  end.

Lemma log_advance_reachable i x : hreachable cs x → hreachable cs (log_advance i x).
Proof.
  intros Hx. unfold log_advance. destruct (threads x.1 !! i) as [[rpc [u|e k|m|]]|] eqn:E; try done.
  set (w := set_status (statuses x.1) (set_locks (locks x.1) sim0)).
  pose proof (sim_table_step e w) as Ht. destruct (sim_handle e w) as [r w']. cbn [fst snd] in Ht.
  eapply rtc_r; [exact Hx|]. destruct x as [[ts l st] log]. by eapply hstep_event.
Qed.
Lemma iter_reachable n i x : hreachable cs x → hreachable cs (Nat.iter n (log_advance i) x).
Proof. intros Hx. induction n as [|n IH]; [done|]. by apply log_advance_reachable. Qed.
Lemma log_read_reachable i x rpc s k :
  hreachable cs x → threads x.1 !! i = Some (rpc, Vis (ReadStatus s) k) →
  ∃ p, hreachable cs (p, x.2 ++ [(i, existT (ReadStatus s) (readStatus s (statuses x.1)))]).
Proof. intros Hx Hi. destruct x as [[ts l st] log]. eexists. eapply rtc_r; [exact Hx|]. by eapply hstep_event. Qed.
Lemma log_arrive_reachable fuel rpc x :
  hreachable cs x →
  hreachable cs (mkPool (threads x.1 ++ [(rpc, serve_rpc cs fuel rpc)]) (locks x.1) (statuses x.1), x.2).
Proof. intros Hx. eapply rtc_r; [exact Hx|]. destruct x as [[ts l st] log]. apply hstep_arrives. Qed.
End Advance.

Module Example.
Import ControllerFacts.Example.
#[local] Existing Instances list_order ini selinux cs_RunsCtl.

(** A CreateVolume that has returned, and then another one for the volume, which
    is told that it has been created. *)
Definition created_once : pool * list (nat * sigT response) :=
  Nat.iter 100 (log_advance 0) (mkPool [(RpcCreate req, serve_rpc cs 0 (RpcCreate req))]
    newThreadSafeStringLock newThreadSafeStatusMap, []).
Definition arrived : pool :=
  mkPool (threads created_once.1 ++ [(RpcCreate req, serve_rpc cs 0 (RpcCreate req))])
    (locks created_once.1) (statuses created_once.1).

Lemma arrived_reachable : hreachable cs (arrived, created_once.2).
Proof.
  refine (log_arrive_reachable cs 0 (RpcCreate req) created_once _). refine (iter_reachable cs 100 0 _ _).
  refine (log_arrive_reachable cs 0 (RpcCreate req) (start, []) _). apply rtc_refl.
Qed.

Lemma told_created : readStatus id (statuses arrived) = Some statusCreated ∧ length (threads created_once.1) = 1%nat.
Proof. split; vm_compute; reflexivity. Qed.

Lemma remembered_work_was_done_witness :
  ∃ p pre1 i u pre2 rpc q,
    created_once.2 = pre1 ++ (i, existT (WriteStatus id statusCreated) u) :: pre2
    ∧ threads p !! i = Some (rpc, q) ∧ justifies cs rpc (own i pre1) id statusCreated.
Proof.
  destruct told_created as [Htold Hlen].
  assert (∃ p, hreachable cs (p, created_once.2 ++ [(1%nat, existT (ReadStatus id) (Some statusCreated))])) as [p Hp].
  { rewrite <- Htold. refine (log_read_reachable cs 1 (arrived, created_once.2) (RpcCreate req) id _ arrived_reachable _).
    unfold arrived. cbn [fst threads]. rewrite (lookup_app_r (threads created_once.1)) by (rewrite Hlen; lia).
    rewrite Hlen. reflexivity. }
  destruct (remembered_work_was_done cs p created_once.2 1 id statusCreated [] Hp)
    as (pre1 & i & u & pre2 & rpc & q & Hpre & _ & Hi & Hj).
  exists p, pre1, i, u, pre2, rpc, q. split; [exact Hpre|]. split; [exact Hi|exact Hj].
Defined.
End Example.
