(* ===== verification/NodeServer.v ===== *)
(** * NodeServer: the node service (nodeserver.go)

    A volume is staged by mounting its file system below the staging path, and
    published by bind mounting the volume's directory onto the target path. *)
From S2P Require Import Prelude GoStrings GoPath Prog Config ConfigFacts Volume World Mounts BeegfsCtl ClientFiles Csi.
Local Open Scope Z_scope.

Record nodeServer := mkNodeServer {
  ns_ctlExec : beegfsCtlExecutorInterface;
  ns_nodeID : string;
  ns_pluginConfig : PluginConfig gomap;
  ns_clientConfTemplatePath : string
}.

Definition newNodeServer (nodeID : string) (pluginConfig : PluginConfig gomap) (clientConfTemplatePath : string)
    : io (result nodeServer) :=
  let? executor := newBeeGFSCtlExecutor catch err => fail err in
  ok (mkNodeServer executor nodeID pluginConfig clientConfTemplatePath).
Definition newNodeServerSanity (nodeID : string) (pluginConfig : PluginConfig gomap) (clientConfTemplatePath : string)
    : nodeServer := mkNodeServer fakeBeegfsCtlExecutor nodeID pluginConfig clientConfTemplatePath.

Record NodePublishVolumeRequest := mkPublishRequest {
  np_VolumeId : string;
  np_StagingTargetPath : string;
  np_TargetPath : string;
  np_VolumeCapability : option VolumeCapability;
  np_Readonly : bool
}.
Record NodeStageVolumeRequest := mkStageRequest {
  nst_VolumeId : string;
  nst_StagingTargetPath : string;
  nst_VolumeCapability : option VolumeCapability
}.

(** [volCap.GetMount().MountFlags]: a capability without a mount is a nil
    dereference. *)
Definition mount_flags (volCap : option VolumeCapability) : io (list string) :=
  match GetMount volCap with
  | Some m => mret (MountFlags m)
  | None => Panic "invalid memory address or nil pointer dereference"
  end.

Definition provided (s : string) : bool := negb (bool_decide (s = EmptyString)).

Section NodeServer.
Context {INI : Ini} {SE : Selinux} {RO : RangeOrder}.

Definition stat_error {A} (err : goerr) : io (reply A) :=
  if errors_as CtlNotExist err then grpc_Error NotFound err else grpc_Error Internal err.

Definition NodePublishVolume (ns : nodeServer) (req : NodePublishVolumeRequest) : io (reply unit) :=
  let volCap := np_VolumeCapability req in
  let targetPath := np_TargetPath req in
  if negb (provided (np_VolumeId req)) then status_Error InvalidArgument "Volume ID not provided" else
  if negb (provided (np_StagingTargetPath req)) then
    status_Error InvalidArgument "Staging target path not provided" else
  if negb (provided targetPath) then status_Error InvalidArgument "Target path not provided" else
  match volCap with None => status_Error InvalidArgument "Volume capability not provided" | Some _ =>
  match isValidVolumeCapability volCap with
  | Some reason => status_Error InvalidArgument ("Volume capability not supported: " +:+ reason)
  | None =>
  r ← newBeegfsVolumeFromID (np_StagingTargetPath req) (np_VolumeId req) (ns_pluginConfig ns);
  match r with
  | Err err => grpc_Error Internal err
  | Ok vol =>
  r ← statDirectoryForVolume (ns_ctlExec ns) vol (volDirPathBeegfsRoot vol);
  match r with Err err => stat_error err | Ok _ =>
  r ← do (IsMountPoint targetPath);
  isMnt ← (match r with
           | Ok isMnt => ok isMnt
           | Err err =>
               if os_IsNotExist err then
                 let? _ := do (MkdirAll targetPath 0x1e8) catch err => fail (WithStack err) in ok false
               else fail (WithStack err)
           end);
  match isMnt with
  | Err err => grpc_Error Internal err
  | Ok true => respond tt
  | Ok false =>
      flags ← mount_flags volCap;
      let opts := flags ++ ["bind"] in
      let opts := if np_Readonly req then opts ++ ["ro"] else opts in
      let opts := removeInvalidMountOptions opts in
      r ← do (Mount (volDirPath vol) targetPath "beegfs" opts);
      match r with Err err => grpc_Error Internal (WithStack err) | Ok _ => respond tt end
  end end end end end.

Definition NodeUnpublishVolume (id targetPath : string) : io (reply unit) :=
  if negb (provided id) then status_Error InvalidArgument "Volume ID not provided" else
  if negb (provided targetPath) then status_Error InvalidArgument "Target path not provided" else
  r ← do (CleanupMountPoint targetPath true);
  match r with Err err => grpc_Error Internal (WithStack err) | Ok _ => respond tt end.

(** The directory that tracks the nodes that use a volume, and a node's file in it. *)
Definition nodes_path (vol : beegfsVolume) : string := PathJoin [csiDirPath vol; "nodes"].
Definition node_path (ns : nodeServer) (vol : beegfsVolume) : string := PathJoin [nodes_path vol; ns_nodeID ns].

Definition NodeStageVolume (ns : nodeServer) (req : NodeStageVolumeRequest) : io (reply unit) :=
  let volCap := nst_VolumeCapability req in
  if negb (provided (nst_VolumeId req)) then status_Error InvalidArgument "Volume ID not provided" else
  if negb (provided (nst_StagingTargetPath req)) then
    status_Error InvalidArgument "Staging target path not provided" else
  match volCap with None => status_Error InvalidArgument "Volume capability not provided" | Some _ =>
  match isValidVolumeCapability volCap with
  | Some reason => status_Error InvalidArgument ("Volume capability not supported: " +:+ reason)
  | None =>
  r ← newBeegfsVolumeFromID (nst_StagingTargetPath req) (nst_VolumeId req) (ns_pluginConfig ns);
  match r with
  | Err err => grpc_Error Internal err
  | Ok vol =>
  r ← do (Stat (mountDirPath vol));
  match r with Err err => grpc_Error Internal (WithStack err) | Ok _ =>
  r ← writeClientFiles vol (ns_clientConfTemplatePath ns);
  match r with Err err => grpc_Error Internal err | Ok _ =>
  mountOptions ← mount_flags volCap;
  r ← statDirectoryForVolume (ns_ctlExec ns) vol (volDirPathBeegfsRoot vol);
  match r with Err err => stat_error err | Ok _ =>
  r ← mountIfNecessary vol mountOptions;
  match r with Err err => grpc_Error Internal err | Ok _ =>
  (* best effort: failures are only logged *)
  r ← do (DirExists (nodes_path vol));
  _ ← (match r with Ok true => do (WriteFile (node_path ns vol) EmptyString 0x1a0) | _ => ok tt end);
  respond tt
  end end end end end end end.

Definition NodeUnstageVolume (ns : nodeServer) (id stagingTargetPath : string) : io (reply unit) :=
  if negb (provided id) then status_Error InvalidArgument "Volume ID not provided" else
  if negb (provided stagingTargetPath) then status_Error InvalidArgument "Staging target path not provided" else
  r ← newBeegfsVolumeFromID stagingTargetPath id (ns_pluginConfig ns);
  match r with
  | Err err => grpc_Error Internal err
  | Ok vol =>
  (* best effort: failures are only logged *)
  r ← do (Exists (node_path ns vol));
  _ ← (match r with Ok true => do (Remove (node_path ns vol)) | _ => ok tt end);
  r ← unmountAndCleanUpIfNecessary vol false;
  match r with Err err => grpc_Error Internal err | Ok _ => respond tt end
  end.
End NodeServer.

Definition NodeGetInfo (ns : nodeServer) : io (reply string) := respond (ns_nodeID ns).

Inductive NodeServiceCapability_RPC_Type := STAGE_UNSTAGE_VOLUME.
Inductive NodeServiceCapability := NodeCapabilityRpc (type : NodeServiceCapability_RPC_Type).
Definition nodeCaps : list NodeServiceCapability_RPC_Type := [STAGE_UNSTAGE_VOLUME].
Definition NodeGetCapabilities : io (reply (list NodeServiceCapability)) :=
  respond (foldl (λ caps cap, caps ++ [NodeCapabilityRpc cap]) [] nodeCaps).

Definition NodeGetVolumeStats : io (reply unit) := status_Error Unimplemented EmptyString.
Definition NodeExpandVolume : io (reply unit) := status_Error Unimplemented EmptyString.
