(* ===== verification/Totality.v ===== *)
(** * Totality: the RPCs return

    The handlers of the controller and the node service answer their requests,
    whatever the file system, the mount table and the BeeGFS tools say: the
    configuration is squashed without writing to a nil map, the mount flags are
    read only of a capability that has them, and the loops end. *)
From S2P Require Import Prelude GoStrings GoPath Prog Config ConfigFacts Volume VolumeFacts Params World ThreadSafe Sim.
From S2P Require Import Mounts BeegfsCtl BeegfsCtlFacts ClientFiles Csi ControllerServer NodeServer.
Local Open Scope Z_scope.

(** One branch or one statement of a [total] goal; all of them. *)
Ltac tstep :=
  match goal with
  | |- ∀ _, _ => intro
  | |- total (mret _) => exact I
  | |- total (ok _) => exact I
  | |- total (fail _) => exact I
  | |- total (respond _) => exact I
  | |- total (status_Error _ _) => exact I
  | |- total (grpc_Error _ _) => exact I
  | |- total (do _) => intro; exact I
  | |- total (match ?x with _ => _ end) => destruct x eqn:?
  | |- total (mbind _ _) => apply total_bind
  end.
Ltac tsteps := repeat tstep.

(** ** The helpers *)

Section Helpers.
Context {INI : Ini} {SE : Selinux} {RO : RangeOrder}.

Lemma newBeegfsVolumeFromID_total path id pc : total (newBeegfsVolumeFromID path id pc).
Proof. by rewrite newBeegfsVolumeFromID_run. Qed.
Lemma cs_newBeegfsVolumeFromID_total dir pc id : total (cs_newBeegfsVolumeFromID dir pc id).
Proof. by rewrite cs_newBeegfsVolumeFromID_run. Qed.

(** The guard that the handlers check before they read the flags. *)
Lemma mount_flags_total c : isValidVolumeCapability c = None → total (mount_flags c).
Proof. intros [m E]%isValidVolumeCapability_mount. unfold mount_flags. by rewrite E. Qed.

Lemma getEphemeralPortUDP_total : total getEphemeralPortUDP.
Proof. unfold getEphemeralPortUDP. tsteps. Qed.

Lemma write_conf_file_total key path content perm present what f :
  total (write_conf_file key path content perm present what f).
Proof. unfold write_conf_file. tsteps. Qed.
Lemma writeClientFiles_total vol path : total (writeClientFiles vol path).
Proof. unfold writeClientFiles. repeat (apply getEphemeralPortUDP_total || apply write_conf_file_total || tstep). Qed.

Lemma mountIfNecessary_total vol opts : total (mountIfNecessary vol opts).
Proof.
  unfold mountIfNecessary, mount_beegfs, constructMountOptions, addContextToMountOptionsIfNecessary. tsteps.
Qed.

Lemma remove_entries_total dir names : total (remove_entries dir names).
Proof. induction names as [|d r IH]; cbn [remove_entries]; tsteps; done. Qed.
Lemma cleanUpIfNecessary_total vol rmDir : total (cleanUpIfNecessary vol rmDir).
Proof. unfold cleanUpIfNecessary. repeat (apply remove_entries_total || tstep). Qed.
Lemma unmountAndCleanUpIfNecessary_total vol rmDir : total (unmountAndCleanUpIfNecessary vol rmDir).
Proof. unfold unmountAndCleanUpIfNecessary. repeat (apply cleanUpIfNecessary_total || tstep). Qed.
End Helpers.

(** ** The BeeGFS tools *)

(** Making a directory returns if its path is rooted, the other calls always. *)
Class TotalCtl (ctl : beegfsCtlExecutorInterface) : Prop := {
  create_total vol dir cfg : is_rooted dir = true → total (createDirectoryForVolume ctl vol dir cfg);
  stat_total vol dir : total (statDirectoryForVolume ctl vol dir);
  set_pattern_total vol cfg : total (setPatternForVolume ctl vol cfg)
}.

Lemma execBeeGFSCmd_total name args : total (execBeeGFSCmd name args).
Proof. unfold execBeeGFSCmd. tsteps. Qed.
Lemma execute_V8_total vol args : total (execute_V8 vol args).
Proof. unfold execute_V8. case_bool_decide; apply execBeeGFSCmd_total. Qed.
Lemma execute_V7_total conf args : total (execute_V7 conf args).
Proof. apply execBeeGFSCmd_total. Qed.

Lemma create_dirs_total execute args id dirs :
  (∀ a, total (execute a)) → total (create_dirs execute args id dirs).
Proof. intros He. induction dirs as [|d r IH]; cbn [create_dirs]; repeat (apply He || apply IH || tstep). Qed.
Lemma create_directory_total stat execute args vol dir :
  total stat → (∀ a, total (execute a)) → is_rooted dir = true → total (create_directory stat execute args vol dir).
Proof.
  intros Hs He Hr. unfold create_directory. apply total_bind; [done|]. intros [out|err]; [exact I|].
  case_match; [|exact I]. destruct (dirs_to_make_rooted dir Hr) as [dirs ->]. by apply create_dirs_total.
Qed.
Lemma set_pattern_cmd_total execute v8 vol cfg : (∀ a, total (execute a)) → total (set_pattern execute v8 vol cfg).
Proof. intros He. unfold set_pattern. repeat (apply He || tstep). Qed.

#[export] Instance V8_total : TotalCtl beegfsCtlExecutorV8.
Proof.
  split; intros; cbn [createDirectoryForVolume statDirectoryForVolume setPatternForVolume beegfsCtlExecutorV8].
  - apply create_directory_total; [apply execute_V8_total..|done].
  - apply execute_V8_total.
  - apply set_pattern_cmd_total, execute_V8_total.
Qed.
#[export] Instance V7_total : TotalCtl beegfsCtlExecutorV7.
Proof.
  split; intros; cbn [createDirectoryForVolume statDirectoryForVolume setPatternForVolume beegfsCtlExecutorV7].
  - apply create_directory_total; [apply execute_V7_total|intros; apply execute_V7_total|done].
  - apply execute_V7_total.
  - apply set_pattern_cmd_total. intros. apply execute_V7_total.
Qed.
#[export] Instance fake_total : TotalCtl fakeBeegfsCtlExecutor.
Proof. by split. Qed.

Lemma dispatch_total {A} vol (f : beegfsCtlExecutorInterface → io (result A)) :
  total (f beegfsCtlExecutorV8) → total (f beegfsCtlExecutorV7) → total (dispatch vol f).
Proof.
  intros H8 H7. unfold dispatch. apply total_bind_ret.
  - unfold detectCTLVersion. repeat (apply execute_V8_total || apply execute_V7_total || tstep).
  - intros tr [ctl|err] Hx; [|exact I]. unfold detectCTLVersion in Hx. xbind Hx r8 H. destruct r8; [by xret Hx|].
    xbind Hx r7 H'. by destruct r7; xret Hx.
Qed.
#[export] Instance dispatcher_total : TotalCtl beegfsCtlDispatcher.
Proof.
  split; intros; cbn [createDirectoryForVolume statDirectoryForVolume setPatternForVolume beegfsCtlDispatcher];
    apply dispatch_total; first [by apply create_total|apply stat_total|apply set_pattern_total].
Qed.

(** ** The services *)

Lemma PathJoin_is_rooted p l : is_rooted p = true → is_rooted (PathJoin (p :: l)) = true.
Proof.
  intros [s ->]%is_rooted_inv. unfold PathJoin. rewrite join_raw_cons, append_cons, bool_decide_eq_false_2 by done.
  destruct (Clean_rooted _ (is_rooted_cons (s +:+ foldr (λ e acc, "/" +:+ e +:+ acc) EmptyString l))) as [-> _].
  apply is_rooted_abs.
Qed.
Lemma Dir_is_rooted p : is_rooted p = true → is_rooted (Dir p) = true.
Proof. intros [H _]%Split_rooted. unfold Dir. destruct (Clean_rooted _ H) as [-> _]. apply is_rooted_abs. Qed.

Section Controller.
Context {INI : Ini} {SE : Selinux} {RO : RangeOrder}.
Context (cs : controllerServer) {CTL : TotalCtl (cs_ctlExec cs)}.

Lemma create_volume_total vol params :
  is_rooted (volDirPathBeegfsRoot vol) = true → is_rooted (csiDirPathBeegfsRoot vol) = true →
  total (create_volume cs vol params).
Proof.
  intros H1 H2. unfold create_volume.
  repeat (apply writeClientFiles_total || (by apply create_total) || apply set_pattern_total || apply mountIfNecessary_total
    || (by apply create_total, PathJoin_is_rooted) || tstep).
Qed.

Lemma CreateVolume_total req : total (CreateVolume cs req).
Proof.
  unfold CreateVolume. repeat (case_bool_decide; [exact I|]). case_match; [exact I|]. case_bool_decide; [exact I|].
  destruct (validateReqParams _) as [[params m']|err] eqn:Hp; [|exact I].
  apply params_rooted in Hp. rewrite cs_newBeegfsVolume_run, ret_bind. set (vol := cs_volume_of _ _ _ _ _).
  assert (is_rooted (volDirPathBeegfsRoot vol) = true) as Hvol by (by apply PathJoin_is_rooted).
  assert (is_rooted (csiDirPathBeegfsRoot vol) = true) as Hcsi.
  { apply PathJoin_is_rooted, Dir_is_rooted, Hvol. }
  repeat ((by apply create_volume_total) || apply unmountAndCleanUpIfNecessary_total || tstep).
Qed.

Lemma ValidateVolumeCapabilities_total req : total (ValidateVolumeCapabilities cs req).
Proof.
  unfold ValidateVolumeCapabilities, validate_capabilities.
  repeat (apply cs_newBeegfsVolumeFromID_total || apply cleanUpIfNecessary_total || apply writeClientFiles_total
    || apply stat_total || tstep).
Qed.

(** The only loop that may go on is the wait for the nodes: a run that did not
    end has slept once for each unit of fuel. *)
Definition is_sleep (s : sigT response) : bool := match projT1 s with Sleep _ => true | _ => false end.
Definition sleeps (tr : io_trace) : nat := length (List.filter is_sleep tr).
Definition returned_or_slept {A} (fuel : nat) (p : io A) : Prop :=
  wlp p (λ tr o, (∃ a, o = Returned a) ∨ (o = Unfinished ∧ (fuel ≤ sleeps tr)%nat)).

Lemma sleeps_app tr1 tr2 : sleeps (tr1 ++ tr2) = (sleeps tr1 + sleeps tr2)%nat.
Proof. unfold sleeps. by rewrite List.filter_app, length_app. Qed.

Lemma slept_total {A} fuel (p : io A) : total p → returned_or_slept fuel p.
Proof. intros Hp tr o Hx. left. by eapply total_exec. Qed.
Lemma slept_bind {A B} fuel (p : io A) (f : A → io B) :
  returned_or_slept fuel p → (∀ a, returned_or_slept fuel (f a)) → returned_or_slept fuel (p ≫= f).
Proof.
  intros Hp Hf. apply wlp_bind. intros tr o Hx. destruct (Hp tr o Hx) as [(a & ->)|[-> Hs]].
  - intros tr' o' Hx'. destruct (Hf a tr' o' Hx') as [H|[-> Hs]]; [by left|right]. split; [done|]. rewrite sleeps_app. lia.
  - by right.
Qed.

(** A step before the loop goes on. *)
Lemma slept_sleep {A} fuel d (p : io A) :
  returned_or_slept fuel p → returned_or_slept (S fuel) (_ ← do (Sleep d); p).
Proof.
  intros Hp tr o (r & tr' & -> & Hx). destruct (Hp tr' o Hx) as [H|[-> Hs]]; [by left|right].
  split; [done|]. unfold sleeps in *. cbn. lia.
Qed.

Lemma wait_unstaged_slept fuel vol start waitTime : returned_or_slept fuel (wait_unstaged fuel vol start waitTime).
Proof.
  induction fuel as [|fuel IH]; cbn [wait_unstaged]; [intros tr o [-> ->]; right; split; [done|unfold sleeps; cbn; lia]|].
  apply slept_bind; [apply slept_total; tsteps|]. intros [[]|]; [|by apply slept_total..].
  apply slept_bind; [apply slept_total; tsteps|]. intros [[]|]; cbn [negb]; [by apply slept_total; tsteps| |by apply slept_total].
  apply slept_bind; [apply slept_total; tsteps|]. intros now. case_match; [|by apply slept_total; tsteps].
  apply slept_bind; [apply slept_total; tsteps|]. intros _. by apply slept_sleep.
Qed.

Lemma delete_volume_slept fuel vol : returned_or_slept fuel (delete_volume fuel cs vol).
Proof.
  unfold delete_volume. apply slept_bind; [apply slept_total; tsteps|]. intros []; [|by apply slept_total].
  apply slept_bind; [apply slept_total, writeClientFiles_total|]. intros []; [|by apply slept_total].
  apply slept_bind; [apply slept_total, mountIfNecessary_total|]. intros []; [|by apply slept_total].
  apply slept_bind; [|intros []; by apply slept_total]. unfold deleteVolumeUntilWait.
  apply slept_bind; [apply slept_total; tsteps|]. intros start.
  apply slept_bind; [apply wait_unstaged_slept|]. intros []; apply slept_total; tsteps.
Qed.

Lemma DeleteVolume_slept fuel id : returned_or_slept fuel (DeleteVolume fuel cs id).
Proof.
  unfold DeleteVolume. case_bool_decide; [by apply slept_total|].
  rewrite cs_newBeegfsVolumeFromID_run, ret_bind. case_match; [|by apply slept_total].
  apply slept_bind; [apply slept_total; tsteps|]. intros status. case_bool_decide; [by apply slept_total|].
  apply slept_bind; [apply slept_total; tsteps|]. intros []; cbn [negb]; [|by apply slept_total].
  apply slept_bind; [apply delete_volume_slept|]. intros resp. apply slept_total. unfold delete_cleanup.
  repeat (apply unmountAndCleanUpIfNecessary_total || tstep).
Qed.
End Controller.

Section Node.
Context {INI : Ini} {SE : Selinux} {RO : RangeOrder}.
Context (ns : nodeServer) {CTL : TotalCtl (ns_ctlExec ns)}.

Lemma NodePublishVolume_total req : total (NodePublishVolume ns req).
Proof.
  unfold NodePublishVolume, stat_error.
  repeat (apply newBeegfsVolumeFromID_total || (by apply mount_flags_total) || apply stat_total || tstep).
Qed.
Lemma NodeStageVolume_total req : total (NodeStageVolume ns req).
Proof.
  unfold NodeStageVolume, stat_error.
  repeat (apply newBeegfsVolumeFromID_total || (by apply mount_flags_total) || apply stat_total
    || apply writeClientFiles_total || apply mountIfNecessary_total || tstep).
Qed.
Lemma NodeUnstageVolume_total id path : total (NodeUnstageVolume ns id path).
Proof.
  unfold NodeUnstageVolume.
  repeat (apply newBeegfsVolumeFromID_total || apply unmountAndCleanUpIfNecessary_total || tstep).
Qed.
Lemma NodeUnpublishVolume_total id path : total (NodeUnpublishVolume id path).
Proof. unfold NodeUnpublishVolume. tsteps. Qed.
End Node.

Lemma ControllerExpandVolume_panics req tr o :
  exec (ControllerExpandVolume req) tr o →
  if bool_decide (ev_VolumeId req ≠ EmptyString ∧ ev_CapacityRange req = None)
  then o = Panicked "invalid memory address or nil pointer dereference" else ∃ r, o = Returned r.
Proof.
  unfold ControllerExpandVolume. destruct (decide (ev_VolumeId req = EmptyString)) as [E|E].
  - rewrite bool_decide_eq_true_2, bool_decide_eq_false_2 by naive_solver. intros [_ ->]. by eexists.
  - rewrite bool_decide_eq_false_2 by done. destruct (ev_CapacityRange req).
    + rewrite bool_decide_eq_false_2 by naive_solver. intros [_ ->]. by eexists.
    + rewrite bool_decide_eq_true_2 by done. by intros [_ ->].
Qed.

(** C9: CreateVolume, ValidateVolumeCapabilities, DeleteVolume and the node
    service's stage, unstage, publish and unpublish return an answer or an error,
    whatever the file system, the mount table and the BeeGFS tools say: they
    never write to a nil map when they squash the configuration, never read the
    flags of a capability without a mount, and the only loop that can go on is
    DeleteVolume's wait for the nodes, which sleeps in every round.
    ControllerExpandVolume panics on a request with a volume ID and without a
    capacity range, and returns on any other. *)
Theorem rpcs_return {INI : Ini} {SE : Selinux} {RO : RangeOrder} cs ns :
  TotalCtl (cs_ctlExec cs) → TotalCtl (ns_ctlExec ns) →
  (∀ req tr o, exec (CreateVolume cs req) tr o → ∃ r, o = Returned r)
  ∧ (∀ req tr o, exec (ValidateVolumeCapabilities cs req) tr o → ∃ r, o = Returned r)
  ∧ (∀ fuel id tr o, exec (DeleteVolume fuel cs id) tr o →
       (∃ r, o = Returned r) ∨ (o = Unfinished ∧ (fuel ≤ sleeps tr)%nat))
  ∧ (∀ req tr o, exec (NodeStageVolume ns req) tr o → ∃ r, o = Returned r)
  ∧ (∀ id path tr o, exec (NodeUnstageVolume ns id path) tr o → ∃ r, o = Returned r)
  ∧ (∀ req tr o, exec (NodePublishVolume ns req) tr o → ∃ r, o = Returned r)
  ∧ (∀ id path tr o, exec (NodeUnpublishVolume id path) tr o → ∃ r, o = Returned r)
  ∧ (∀ req tr o, exec (ControllerExpandVolume req) tr o →
       if bool_decide (ev_VolumeId req ≠ EmptyString ∧ ev_CapacityRange req = None)
       then o = Panicked "invalid memory address or nil pointer dereference" else ∃ r, o = Returned r).
Proof.
  intros Hcs Hns. split_and!; intros; try (eapply total_exec; [|eassumption]; []).
  - by apply CreateVolume_total.
  - by apply ValidateVolumeCapabilities_total.
  - by eapply DeleteVolume_slept.
  - by apply NodeStageVolume_total.
  - by apply NodeUnstageVolume_total.
  - by apply NodePublishVolume_total.
  - apply NodeUnpublishVolume_total.
  - by eapply ControllerExpandVolume_panics.
Qed.

Module Example.
#[local] Existing Instance list_order.
#[local] Instance ini : Ini := template_ini ∅.
#[local] Instance selinux : Selinux := colon_selinux.
Definition cs : controllerServer :=
  mkControllerServer beegfsCtlDispatcher "node1" (mkPluginConfig no_layer []) "/etc/beegfs/beegfs-client.conf" "/csi" 0.
Definition ns : nodeServer :=
  mkNodeServer beegfsCtlDispatcher "node1" (mkPluginConfig no_layer []) "/etc/beegfs/beegfs-client.conf".

Lemma rpcs_return_witness :
  ∃ r, (run sim_handle (NodeUnstageVolume ns "beegfs://host/vol" "/staging") sim0).1.2 = Returned r.
Proof.
  exact (proj1 (proj2 (proj2 (proj2 (proj2 (rpcs_return cs ns dispatcher_total dispatcher_total)))))
    "beegfs://host/vol" "/staging" _ _ (run_exec sim_handle (NodeUnstageVolume ns "beegfs://host/vol" "/staging") sim0)).
Defined.
End Example.
