(* ===== verification/NodeFacts.v ===== *)
(** * NodeFacts: what the node service's RPCs do *)
From S2P Require Import Prelude GoStrings GoPath Prog Config ConfigFacts Volume VolumeFacts World Sim Mounts MountsFacts.
From S2P Require Import BeegfsCtl BeegfsCtlFacts ClientFiles ClientFilesFacts Csi NodeServer.
Local Open Scope Z_scope.

Section Facts.
Context {INI : Ini} {SE : Selinux} {RO : RangeOrder}.
Context (ns : nodeServer) {CTL : RunsCtl (ns_ctlExec ns)}.

Local Abbreviation target staging id := (volume_of_id staging id (ns_pluginConfig ns)).

(** The volume's directory was found by the BeeGFS tools. *)
Definition found (vol : beegfsVolume) (tr : io_trace) : Prop :=
  ∃ out, ran (statDirectoryForVolume (ns_ctlExec ns) vol (volDirPathBeegfsRoot vol)) (Ok out) tr.

Lemma exec_stat_error {A} err tr (r : reply A) :
  exec (stat_error err) tr (Returned r) →
  tr = [] ∧ (reply_code r = Some NotFound ∨ reply_code r = Some Internal).
Proof. unfold stat_error. by case_match; intros [-> [= ->]]; auto. Qed.

Lemma exec_status_Error {A} c msg tr (r : reply A) :
  exec (status_Error c msg) tr (Returned r) → tr = [] ∧ reply_code r = Some c.
Proof. by intros [-> [= ->]]. Qed.

(** A handler that answered with success passed its guards. *)
Ltac guards Hx :=
  repeat match type of Hx with
  | exec (if ?b then status_Error _ _ else _) _ _ =>
      destruct b eqn:?; [by apply exec_status_Error in Hx as [_ Hx]|]
  | exec (match ?x with None => status_Error _ _ | Some _ => _ end) _ _ =>
      destruct x eqn:?; [|by apply exec_status_Error in Hx as [_ Hx]]
  | exec (match ?x with Some _ => status_Error _ _ | None => _ end) _ _ =>
      destruct x eqn:?; [by apply exec_status_Error in Hx as [_ Hx]|]
  end.

(** The flags of a capability that was found valid. *)
Definition flags_of (volCap : option VolumeCapability) : list string := from_option MountFlags [] (GetMount volCap).

Lemma mount_flags_run c : isValidVolumeCapability c = None → mount_flags c = mret (flags_of c).
Proof. intros [m E]%isValidVolumeCapability_mount. unfold mount_flags, flags_of. by rewrite E. Qed.

(** The end of NodeStageVolume: the node's file is written if the volume has a
    tracking directory, whether that works or not. *)
Definition tracked (vol : beegfsVolume) (tr : io_trace) : Prop :=
  ∃ dirExists rest, tr = existT (DirExists (nodes_path vol)) dirExists :: rest
    ∧ match dirExists with
      | Ok true => ∃ written, rest = [existT (WriteFile (node_path ns vol) EmptyString 0x1a0) written]
      | _ => rest = []
      end.

Lemma stage_tail_tracked vol tr r :
  exec (d ← do (DirExists (nodes_path vol));
        _ ← (match d with Ok true => do (WriteFile (node_path ns vol) EmptyString 0x1a0) | _ => ok tt end);
        respond tt) tr (Returned r) → tracked vol tr.
Proof.
  intros Hx. xdo Hx d. eexists d, _. split; [done|]. xbind Hx w Hw. apply exec_ret in Hx as [-> _]. rewrite app_nil_r.
  destruct d as [[]|]; [|by apply exec_ok in Hw as [-> _]..]. apply exec_trigger in Hw as ->. by exists w.
Qed.

Lemma NodeStageVolume_staged req tr :
  exec (NodeStageVolume ns req) tr (Returned (Reply tt)) →
  ∃ vol flags out trw trs trm trt,
    target (nst_StagingTargetPath req) (nst_VolumeId req) = Ok vol
    ∧ GetMount (nst_VolumeCapability req) ≠ None ∧ flags = flags_of (nst_VolumeCapability req)
    ∧ tr = existT (Stat (mountDirPath vol)) (Ok tt) :: trw ++ trs ++ trm ++ trt
    ∧ exec (writeClientFiles vol (ns_clientConfTemplatePath ns)) trw (Returned (Ok tt))
    ∧ exec (statDirectoryForVolume (ns_ctlExec ns) vol (volDirPathBeegfsRoot vol)) trs (Returned (Ok out))
    ∧ mounted vol flags trm ∧ tracked vol trt.
Proof.
  unfold NodeStageVolume. intros Hx. cbv zeta in Hx. guards Hx.
  rewrite newBeegfsVolumeFromID_run, ret_bind in Hx.
  destruct (target _ _) as [vol|]; [|by apply exec_grpc_Error in Hx as [_ [=]]].
  exists vol, (flags_of (nst_VolumeCapability req)).
  xdo Hx r0. destruct r0 as [[]|]; [|by apply exec_grpc_Error in Hx as [_ [=]]].
  xbind Hx r1 H1. destruct r1 as [[]|]; [|by apply exec_grpc_Error in Hx as [_ [=]]].
  assert (isValidVolumeCapability (nst_VolumeCapability req) = None) as Hcap by congruence.
  rewrite mount_flags_run, ret_bind in Hx by congruence.
  xbind Hx r2 H2. destruct r2 as [out|]; [|apply exec_stat_error in Hx as [_ [Hx|Hx]]; done].
  xbind Hx r3 H3. destruct r3 as [[]|]; [|by apply exec_grpc_Error in Hx as [_ [=]]].
  apply stage_tail_tracked in Hx. apply mountIfNecessary_mounted in H3.
  apply isValidVolumeCapability_mount in Hcap as [m Hm].
  eexists out, _, _, _, _. rewrite <- Heqo in *. split_and!; [done|congruence|done..].
Qed.

(** C25: NodeStageVolume reports success only after, in this order, it found the
    staging directory, wrote the volume's client configuration, had the BeeGFS
    tools find the volume's directory, and mounted the file system with the
    request's flags and the volume's own client configuration. When the mount
    path is a mount point already it mounts nothing, and the flags of the request
    have no effect. At last it writes the node's file if the volume has a
    tracking directory. *)
Theorem NodeStageVolume_success req tr :
  exec (NodeStageVolume ns req) tr (Returned (Reply tt)) →
  ∃ vol flags out trw trs trm trt,
    target (nst_StagingTargetPath req) (nst_VolumeId req) = Ok vol
    ∧ GetMount (nst_VolumeCapability req) ≠ None ∧ flags = flags_of (nst_VolumeCapability req)
    ∧ tr = existT (Stat (mountDirPath vol)) (Ok tt) :: trw ++ trs ++ trm ++ trt
    ∧ exec (writeClientFiles vol (ns_clientConfTemplatePath ns)) trw (Returned (Ok tt))
    ∧ exec (statDirectoryForVolume (ns_ctlExec ns) vol (volDirPathBeegfsRoot vol)) trs (Returned (Ok out))
    ∧ mounted vol flags trm ∧ tracked vol trt.
Proof. apply NodeStageVolume_staged. Qed.

(** The options of a bind mount. *)
Definition bind_options (req : NodePublishVolumeRequest) (opts : list string) : Prop :=
  NoDup opts ∧ "bind" ∈ opts ∧ (np_Readonly req = true → "ro" ∈ opts)
  ∧ Forall (λ o, mentions_cfgFile o = false) opts
  ∧ ∀ o, o ∈ opts → o ∈ flags_of (np_VolumeCapability req) ∨ o = "bind" ∨ o = "ro".

Lemma publish_options req :
  bind_options req (removeInvalidMountOptions
    (if np_Readonly req then (flags_of (np_VolumeCapability req) ++ ["bind"]) ++ ["ro"]
     else flags_of (np_VolumeCapability req) ++ ["bind"])).
Proof.
  set (flags := flags_of (np_VolumeCapability req)).
  set (opts := if np_Readonly req then (flags ++ ["bind"]) ++ ["ro"] else flags ++ ["bind"]).
  destruct (remove_invalid_spec opts [] ltac:(constructor)) as [Hnd Hin].
  assert (∀ o, o ∈ removeInvalidMountOptions opts ↔ o ∈ opts ∧ mentions_cfgFile o = false) as Hspec
    by (intros o; unfold removeInvalidMountOptions; rewrite Hin, elem_of_nil; naive_solver).
  assert (∀ o, o ∈ opts ↔ o ∈ flags ∨ o = "bind" ∨ (np_Readonly req = true ∧ o = "ro")) as Hopts.
  { intros o. unfold opts. destruct (np_Readonly req); rewrite !elem_of_app, !list_elem_of_singleton; naive_solver. }
  split_and!.
  - done.
  - apply Hspec. rewrite Hopts. auto.
  - intros Hr. apply Hspec. rewrite Hopts. auto.
  - apply Forall_forall. by intros o [_ Ho]%Hspec.
  - intros o [Ho _]%Hspec. apply Hopts in Ho. tauto.
Qed.

(** What NodePublishVolume promises of a run and its reply. *)
Definition published (req : NodePublishVolumeRequest) (tr : io_trace) (r : reply unit) : Prop :=
  (∀ s t f o, did (Mount s t f o) tr →
    ∃ vol, target (np_StagingTargetPath req) (np_VolumeId req) = Ok vol
      ∧ s = volDirPath vol ∧ t = np_TargetPath req ∧ f = "beegfs" ∧ bind_options req o ∧ found vol tr
      ∧ (got (IsMountPoint t) (Ok false) tr ∨ got (MkdirAll t 0x1e8) (Ok tt) tr))
  ∧ (r = Reply tt → got (IsMountPoint (np_TargetPath req)) (Ok true) tr
     ∨ ∃ s o, got (Mount s (np_TargetPath req) "beegfs" o) (Ok tt) tr).

Lemma published_failed req tr r :
  reply_code r ≠ None → (∀ s t f o, ¬ did (Mount s t f o) tr) → published req tr r.
Proof. intros Hr Hno. split; [intros s t f o H; by apply Hno in H|]. by intros ->. Qed.

Lemma stat_no_mount vol dir tr o s t f opts :
  exec (statDirectoryForVolume (ns_ctlExec ns) vol dir) tr o → ¬ did (Mount s t f opts) tr.
Proof.
  intros Hx (r & Hin). pose proof (always_exec _ _ _ _ (stat_runs vol dir) Hx) as Hall.
  rewrite Forall_forall in Hall. by destruct (Hall _ Hin) as [[[=]|[=]]|[[=]|[=]]].
Qed.

Lemma mount_point_returned (im : result bool) path tr isMnt :
  exec (match im with
        | Ok isMnt => ok isMnt
        | Err err =>
            if os_IsNotExist err then
              let? _ := do (MkdirAll path 0x1e8) catch err => fail (WithStack err) in ok false
            else fail (WithStack err)
        end) tr (Returned isMnt) →
  (∀ s t f o, ¬ did (Mount s t f o) tr)
  ∧ match isMnt with
    | Ok true => im = Ok true
    | Ok false => im = Ok false ∨ got (MkdirAll path 0x1e8) (Ok tt) tr
    | Err _ => True
    end.
Proof.
  destruct im as [b|err]; [|destruct (os_IsNotExist err)]; intros Hx.
  - xret Hx. split; [intros s t f o H; by trace_inv|]. destruct b; auto.
  - xdo Hx r. destruct r as [[]|]; xret Hx; (split; [intros s t f o H; by trace_inv|]); auto with trace.
  - xret Hx. split; [intros s t f o H; by trace_inv|done].
Qed.

(** C26: NodePublishVolume mounts at most the volume's directory, onto the target
    path, and only after the BeeGFS tools found that directory and the target was
    found not to be a mount point or was just created; the options are the
    request's without any client configuration, with bind, and with ro for a
    read-only request. When it reports success the target was a mount point
    already or the mount succeeded. *)
Theorem NodePublishVolume_published req tr r :
  exec (NodePublishVolume ns req) tr (Returned r) → published req tr r.
Proof.
  unfold NodePublishVolume. intros Hx. cbv zeta in Hx.
  assert (∀ c msg, exec (status_Error c msg) tr (Returned r) → published req tr r) as Hearly.
  { intros c msg [-> Hc]%exec_status_Error. apply published_failed; [congruence|]. intros s t f o H. by trace_inv. }
  do 3 (case_match; [by eapply Hearly|]). case_match; [|by eapply Hearly].
  case_match eqn:Hcap; [by eapply Hearly|]. clear Hearly. rewrite newBeegfsVolumeFromID_run, ret_bind in Hx.
  destruct (target _ _) as [vol|] eqn:Hv.
  2: { apply exec_grpc_Error in Hx as [-> ->]. apply published_failed; [done|]. intros s t f o H'. by trace_inv. }
  xbind Hx st Hst. pose proof (λ s t f o, stat_no_mount _ _ _ _ s t f o Hst) as Hno.
  destruct st as [out|err].
  2: { apply exec_stat_error in Hx as [-> Hc]. rewrite app_nil_r. apply published_failed; [destruct Hc; congruence|done]. }
  xdo Hx im. apply exec_bind_returned in Hx as (trm & tre & isMnt & -> & Him & Hx).
  apply mount_point_returned in Him as [Hno' Him]. destruct isMnt as [[]|err]; cbv beta iota in Hx.
  - apply exec_ret in Hx as [-> [= ->]]. subst im. split; [|left; auto with trace].
    intros s t f o H'. trace_inv; [by apply Hno in H'|by apply Hno' in H'].
  - rewrite mount_flags_run, ret_bind in Hx by congruence. apply exec_do in Hx as (r1 & tr2 & -> & Hx). split.
    + intros s t f o H'. trace_inv; [by apply Hno in H'|by apply Hno' in H'| |].
      * exists vol. do 4 (split; [done|]). split; [rewrite <- H2; apply publish_options|].
        split; [exists out; auto with trace|]. destruct Him as [->|Him]; auto 12 with trace.
      * destruct r1; apply exec_ret in Hx as [-> _]; by trace_inv.
    + intros ->. right. destruct r1 as [[]|]; apply exec_ret in Hx as [-> [=]]. eauto 12 with trace.
  - apply exec_grpc_Error in Hx as [-> ->]. apply published_failed; [done|].
    intros s t f o H'. trace_inv; [by apply Hno in H'|by apply Hno' in H'].
Qed.

(** ** Unstaging *)

Lemma NodeUnstageVolume_returned id staging vol tr r :
  provided id = true → provided staging = true → target staging id = Ok vol →
  exec (NodeUnstageVolume ns id staging) tr (Returned r) →
  ∃ exists_ trr tru u, tr = existT (Exists (node_path ns vol)) exists_ :: trr ++ tru
    ∧ exec (unmountAndCleanUpIfNecessary vol false) tru (Returned u)
    ∧ r = match u with Ok _ => Reply tt | Err err => GrpcErr (newGrpcErrorFromCause Internal err) end
    ∧ match exists_ with
      | Ok true => ∃ removed, trr = [existT (Remove (node_path ns vol)) removed]
      | _ => trr = []
      end.
Proof.
  intros Hid Hs Hv Hx. unfold NodeUnstageVolume in Hx.
  rewrite Hid, Hs, newBeegfsVolumeFromID_run in Hx. cbn [negb] in Hx. rewrite ret_bind, Hv in Hx.
  xdo Hx exi. apply exec_bind_returned in Hx as (trr & tru & a & -> & Hr & Hx).
  apply exec_bind_returned in Hx as (tru' & tr2 & u & -> & Hu & Hx).
  assert (tr2 = [] ∧ r = match u with Ok _ => Reply tt | Err err => GrpcErr (newGrpcErrorFromCause Internal err) end)
    as [-> ->] by (destruct u; by apply exec_ret in Hx as [-> [= ->]]).
  exists exi, trr, tru', u. rewrite app_nil_r. split_and!; [done..|].
  destruct exi as [[]|]; [|by apply exec_ok in Hr as [-> _]..].
  apply exec_trigger in Hr as ->. by exists a.
Qed.

(** NodeUnstageVolume reports success only after it unmounted the volume
    and cleaned up, and it unmounts only when the mount table shows no bind mount
    of the volume's file system outside the staging path. *)
Theorem NodeUnstageVolume_success id staging tr :
  exec (NodeUnstageVolume ns id staging) tr (Returned (Reply tt)) →
  ∃ vol, target staging id = Ok vol ∧ ran (unmountAndCleanUpIfNecessary vol false) (Ok tt) tr
    ∧ ∃ mounts, got MountList (Ok mounts) tr ∧ Forall (λ m, bind_mounted vol m = false) mounts.
Proof.
  intros Hx. destruct (provided id) eqn:Hid; [|unfold NodeUnstageVolume in Hx; rewrite Hid in Hx; by destruct Hx].
  destruct (provided staging) eqn:Hs; [|unfold NodeUnstageVolume in Hx; rewrite Hid, Hs in Hx; by destruct Hx].
  destruct (target staging id) as [vol|] eqn:Hv;
    [|unfold NodeUnstageVolume in Hx; rewrite Hid, Hs, newBeegfsVolumeFromID_run in Hx; cbn [negb] in Hx;
      rewrite ret_bind, Hv in Hx; by destruct Hx].
  destruct (NodeUnstageVolume_returned _ _ _ _ _ Hid Hs Hv Hx) as (exi & trr & tru & u & -> & Hu & Hr & _).
  destruct u as [[]|]; [|done]. exists vol. split_and!; [done|by auto with trace|].
  apply unmount_returned in Hu as (ms & Hg & Hm). exists ms. auto with trace.
Qed.

(** NodeUnstageVolume drops the node from the volume's tracking directory
    before it looks at the mount table: when it then refuses to unmount because
    the volume is still in use on the node, it fails, unmounts nothing, but the node
    is no longer tracked, so that DeleteVolume will not wait for it. *)
Theorem refused_unstage_is_untracked id staging vol tr r mounts entry :
  provided id = true → provided staging = true → target staging id = Ok vol →
  exec (NodeUnstageVolume ns id staging) tr (Returned r) →
  head tr = Some (existT (Exists (node_path ns vol)) (Ok true)) →
  got MountList (Ok mounts) tr → entry ∈ mounts → bind_mounted vol entry = true →
  reply_code r = Some Internal ∧ did (Remove (node_path ns vol)) tr
  ∧ ∀ e, did e tr → e = Exists (node_path ns vol) ∨ e = Remove (node_path ns vol) ∨ e = MountList.
Proof.
  intros Hid Hs Hv Hx Hex Hms Hin Hb.
  destruct (NodeUnstageVolume_returned _ _ _ _ _ Hid Hs Hv Hx) as (exi & trr & tru & u & -> & Hu & -> & Htr).
  destruct (unmount_refuses _ _ _ _ Hu) as [Href _].
  cbn [head] in Hex. assert (exi = Ok true) as -> by (apply step_inj; congruence). destruct Htr as (removed & ->).
  trace_inv. apply got_other in Hms; [|by intros [=]]. destruct (Href _ _ Hms Hin Hb) as [(err & [= ->]) Honly].
  split_and!; [done|eapply got_did; auto with trace|]. intros e He. trace_inv; [tauto..|].
  right. right. by apply Honly.
Qed.
End Facts.

Module Example.

#[local] Existing Instance list_order.
#[local] Instance ini : Ini := template_ini ClientFilesFacts.Example.template.
#[local] Instance selinux : Selinux := colon_selinux.

Definition ns : nodeServer :=
  mkNodeServer beegfsCtlDispatcher "node1" (mkPluginConfig no_layer []) "/etc/beegfs/beegfs-client.conf".
#[local] Instance ns_RunsCtl : RunsCtl (ns_ctlExec ns) := dispatcher_RunsCtl.

Definition id : string := "beegfs://host/scratch/pvc-1".
Definition staging : string := "/plugins/pv/globalmount".
Definition cap : option VolumeCapability :=
  Some (mkVolumeCapability (Some (AccessMount (mkMountVolume EmptyString ["noatime"]))) 5).
Definition stage_req : NodeStageVolumeRequest := mkStageRequest id staging cap.
Definition publish_req : NodePublishVolumeRequest := mkPublishRequest id staging "/pods/1/mount" cap true.
Definition vol : beegfsVolume := volume_of staging "host" "/scratch/pvc-1" (ns_pluginConfig ns).

(** A pod still uses the volume. *)
Definition pod_mount : MountPoint :=
  mkMountPoint "beegfs_nodev" "/pods/1/mount" "beegfs" ["rw"; "cfgFile=" +:+ clientConfPath vol].
Definition in_use : sim :=
  mkSim 0 [pod_mount] (Ok true) None (λ _ _, mkCmd EmptyString EmptyString None) (Ok EmptyString)
    (sim_locks sim0) (sim_status sim0).

Lemma NodeStageVolume_success_witness :
  ∃ vol flags out trw trs trm trt, volume_of_id staging id (ns_pluginConfig ns) = Ok vol
    ∧ GetMount cap ≠ None ∧ flags = ["noatime"]
    ∧ sim_trace (NodeStageVolume ns stage_req) sim0
      = existT (P := response) (Stat (mountDirPath vol)) (Ok tt) :: trw ++ trs ++ trm ++ trt
    ∧ exec (writeClientFiles vol (ns_clientConfTemplatePath ns)) trw (Returned (Ok tt))
    ∧ exec (statDirectoryForVolume (ns_ctlExec ns) vol (volDirPathBeegfsRoot vol)) trs (Returned (Ok out))
    ∧ mounted vol flags trm ∧ tracked ns vol trt.
Proof.
  apply (NodeStageVolume_success ns stage_req).
  assert (sim_ending (NodeStageVolume ns stage_req) sim0 = Returned (Reply tt)) as <- by (vm_compute; reflexivity).
  apply sim_exec.
Defined.

Lemma NodePublishVolume_published_witness :
  published ns publish_req (sim_trace (NodePublishVolume ns publish_req) sim0) (Reply tt).
Proof.
  apply (NodePublishVolume_published ns publish_req).
  assert (sim_ending (NodePublishVolume ns publish_req) sim0 = Returned (Reply tt)) as <- by (vm_compute; reflexivity).
  apply sim_exec.
Defined.

Lemma NodeUnstageVolume_success_witness :
  ∃ vol, volume_of_id staging id (ns_pluginConfig ns) = Ok vol
    ∧ ran (unmountAndCleanUpIfNecessary vol false) (Ok tt) (sim_trace (NodeUnstageVolume ns id staging) sim0)
    ∧ ∃ mounts, got (R := response) MountList (Ok mounts) (sim_trace (NodeUnstageVolume ns id staging) sim0)
        ∧ Forall (λ m, bind_mounted vol m = false) mounts.
Proof.
  apply (NodeUnstageVolume_success ns).
  assert (sim_ending (NodeUnstageVolume ns id staging) sim0 = Returned (Reply tt)) as <- by (vm_compute; reflexivity).
  apply sim_exec.
Defined.

Lemma refused_unstage_is_untracked_witness :
  ∃ r, sim_ending (NodeUnstageVolume ns id staging) in_use = Returned r ∧ reply_code r = Some Internal
    ∧ did (Remove (node_path ns vol)) (sim_trace (NodeUnstageVolume ns id staging) in_use).
Proof.
  destruct (sim_ending (NodeUnstageVolume ns id staging) in_use) as [r|m|] eqn:E; [|vm_compute in E; discriminate..].
  exists r. split; [reflexivity|].
  destruct (refused_unstage_is_untracked ns id staging vol (sim_trace (NodeUnstageVolume ns id staging) in_use)
    r [pod_mount] pod_mount) as (H1 & H2 & _); [reflexivity|reflexivity|reflexivity| |reflexivity| |by left|reflexivity|].
  - rewrite <- E. apply sim_exec.
  - apply (list_elem_of_lookup_2 _ 2). vm_compute. reflexivity.
  - by split.
Defined.
End Example.
