(* ===== verification/Tracking.v ===== *)
(** * Tracking: the controller and the nodes meet in one directory

    DeleteVolume waits for the nodes that use a volume, by way of a directory of
    the BeeGFS file system next to the volume's own: CreateVolume makes it, the
    nodes keep a file in it while the volume is staged, and the controller looks
    at it through its own mount. *)
From S2P Require Import Prelude GoStrings GoPath Prog Config ConfigFacts Volume VolumeFacts Params World Sim.
From S2P Require Import Mounts MountsFacts BeegfsCtl BeegfsCtlFacts ClientFiles ClientFilesFacts Csi Footprint.
From S2P Require Import ControllerServer ControllerFacts NodeServer NodeFacts.
Local Open Scope Z_scope.

(** ** The paths *)

(** The tracking directory of the volume in the directory [l ++ [n]], from the
    root of the file system. *)
Definition tracking_dir (l : list string) (n : string) : list string := l ++ [".csi"; "volumes"; n; "nodes"].

Lemma nodes_dir_abs m host pc l n :
  normals (l ++ [n]) → nodes_dir (volume_of m host (abs (l ++ [n])) pc) = abs (tracking_dir l n).
Proof.
  intros Hl. destruct (volume_of_layout [] _ host pc ltac:(constructor) Hl) as (_ & _ & _ & L).
  destruct (L l n eq_refl) as (_ & B & _). unfold nodes_dir.
  change (csiDirPathBeegfsRoot (volume_of m host (abs (l ++ [n])) pc))
    with (csiDirPathBeegfsRoot (volume_of (abs []) host (abs (l ++ [n])) pc)). rewrite B.
  apply normals_app in Hl as [Hl Hn]. rewrite PathJoin_normal.
  - unfold tracking_dir. by rewrite <- app_assoc.
  - apply normals_app. split; [done|]. by do 2 (constructor; [done|]).
  - done.
Qed.

Lemma mounted_paths m host pc l n :
  normals m → normals (l ++ [n]) →
  let vol := volume_of (abs m) host (abs (l ++ [n])) pc in
  mountPath vol = abs (m ++ ["mount"]) ∧ nodes_path vol = abs (m ++ ["mount"] ++ tracking_dir l n).
Proof.
  intros Hm Hl vol. destruct (volume_of_layout m _ host pc Hm Hl) as (M & _ & _ & L). split; [exact M|].
  destruct (L l n eq_refl) as (C & _). unfold nodes_path. fold vol in C. rewrite C.
  apply normals_app in Hl as [Hl Hn]. rewrite PathJoin_normal.
  - unfold tracking_dir. f_equal. by rewrite <- !app_assoc.
  - apply normals_app. split; [done|]. constructor; [done|]. apply normals_app. split; [done|].
    by do 2 (constructor; [done|]).
  - done.
Qed.

Lemma node_file_path ns m host pc l n :
  normals m → normals (l ++ [n]) → normal (ns_nodeID ns) = true →
  node_path ns (volume_of (abs m) host (abs (l ++ [n])) pc) = abs (m ++ ["mount"] ++ tracking_dir l n ++ [ns_nodeID ns]).
Proof.
  intros Hm Hl Hid. unfold node_path. destruct (mounted_paths m host pc l n Hm Hl) as [_ ->].
  rewrite PathJoin_normal; [by rewrite <- !app_assoc| |done].
  apply normals_app in Hl as [Hl Hn]. apply normals_app. split; [done|]. constructor; [done|].
  apply normals_app. split; [done|]. do 2 (constructor; [done|]). constructor; [by inversion Hn|]. by constructor.
Qed.

(** ** The runs *)

Section Runs.
Context {INI : Ini} {SE : Selinux} {RO : RangeOrder}.
Context (cs : controllerServer) {CTL : RunsCtl (cs_ctlExec cs)} (ns : nodeServer).

Lemma create_volume_tracks vol params tr id :
  0 < nodeUnstageTimeout cs → exec (create_volume cs vol params) tr (Returned (Reply id)) →
  ∃ r, ran (createDirectoryForVolume (cs_ctlExec cs) vol (nodes_dir vol) (mkPermissions 0 0 0x1e8)) r tr.
Proof.
  intros Ht Hx. unfold create_volume in Hx.
  do 5 (apply exec_bind_returned in Hx as (? & ? & [] & -> & _ & Hx);
    [|by apply exec_grpc_Error in Hx as [_ [=]]]).
  rewrite (proj2 (Z.ltb_lt 0 (nodeUnstageTimeout cs)) Ht) in Hx. xbind Hx r Hr. exists r. auto 20 with trace.
Qed.

(** CreateVolume makes the tracking directory, unless it remembers the volume. *)
Lemma CreateVolume_tracks req params l n tr id :
  normals (l ++ [n]) → create_args req = Some params →
  PathJoin [req_volDirBasePathBeegfsRoot params; cv_Name req] = abs (l ++ [n]) → 0 < nodeUnstageTimeout cs →
  exec (CreateVolume cs req) tr (Returned (Reply id)) →
  tr = [existT (ReadStatus id) (Some statusCreated)]
  ∨ ∃ r, ran (createDirectoryForVolume (cs_ctlExec cs) (create_target cs req params) (abs (tracking_dir l n))
          (mkPermissions 0 0 0x1e8)) r tr.
Proof.
  intros Hl Ha Hp Ht Hx. pose proof (CreateVolume_cases cs req) as Hc. rewrite Ha in Hc. cbv zeta in Hc.
  rewrite Hc in Hx. clear Hc. set (vol := create_target cs req params) in *. xdo Hx st. case_bool_decide as Hst.
  { apply exec_ret in Hx as [-> [= ->]]. rewrite Hst. by left. }
  xdo Hx locked. destruct locked; [|by apply exec_ret in Hx as [_ [=]]]. cbn [negb] in Hx.
  xbind Hx resp Hr. xbind Hx u Hu. xdo Hx v. apply exec_ret in Hx as [-> [= <-]]. right.
  destruct (create_volume_tracks _ _ _ _ Ht Hr) as (r & Hran). exists r.
  assert (nodes_dir vol = abs (tracking_dir l n)) as <-; [|auto 20 with trace].
  unfold vol, create_target, cs_volume_of. rewrite Hp. by apply nodes_dir_abs.
Qed.

Lemma deleteVolumeUntilWait_looks fuel vol timeout tr :
  exec (deleteVolumeUntilWait fuel vol timeout) tr (Returned (Ok tt)) → did (DirExists (nodes_path vol)) tr.
Proof.
  unfold deleteVolumeUntilWait. intros Hx. xdo Hx start. xlet Hx u Hw. destruct fuel as [|fuel]; [by destruct Hw|].
  cbn [wait_unstaged] in Hw. destruct Hw as (r & tr' & -> & _). eapply got_did. auto with trace.
Qed.

(** What DeleteVolume, with the mount directory [abs m], does to look at the
    tracking directory. *)
Definition looks_at (m l : list string) (n : string) (e : event) : Prop :=
  match e with
  | DirExists p | IsEmpty p | ReadDir p => p = abs (m ++ ["mount"] ++ tracking_dir l n)
  | Mount source target fstype _ => source = "beegfs_nodev" ∧ target = abs (m ++ ["mount"]) ∧ fstype = "beegfs"
  | _ => True
  end.

Lemma DeleteVolume_looks fuel id host m l n tr r :
  normals m → normals (l ++ [n]) → parseBeegfsURL id = Ok (host, abs (l ++ [n])) →
  cs_mountDirPath (csDataDir cs) id = abs m →
  exec (DeleteVolume fuel cs id) tr (Returned r) →
  (∀ e, did e tr → looks_at m l n e)
  ∧ (r = Reply tt → (∃ s, tr = [existT (ReadStatus s) (Some statusDeleted)])
     ∨ did (DirExists (abs (m ++ ["mount"] ++ tracking_dir l n))) tr).
Proof.
  intros Hm Hl Hp Hd Hx. destruct (mounted_paths m host (cs_pluginConfig cs) l n Hm Hl) as [M N].
  assert (cs_volume_of_id (csDataDir cs) (cs_pluginConfig cs) id
    = Ok (volume_of (abs m) host (abs (l ++ [n])) (cs_pluginConfig cs))) as Hv
    by (unfold cs_volume_of_id, volume_of_id; by rewrite Hp, Hd).
  assert (id ≠ EmptyString) as Hne by (intros ->; vm_compute in Hp; discriminate).
  revert M N Hv. generalize (volume_of (abs m) host (abs (l ++ [n])) (cs_pluginConfig cs)). intros vol M N Hv. split.
  - intros e (x & Hin). pose proof (always_exec _ _ _ _ (DeleteVolume_footprint cs fuel id vol Hv) Hx) as Hall.
    rewrite Forall_forall in Hall. specialize (Hall _ Hin). cbn [projT1] in Hall.
    unfold nodes_path in N. destruct e; try done; cbn [looks_at footprint] in *; rewrite <- ?N, <- ?M; tauto.
  - intros ->. destruct (DeleteVolume_cases _ _ _ _ _ _ Hne Hv Hx)
      as [[_ ->]|[[[=] _]|(st & trd & trc & resp & -> & Hdel & Hc)]]; [left; eauto|right].
    apply delete_cleanup_returned in Hc as [(_ & -> & _)|[_ [[_ []]|(err & [=])]]]; [|done].
    apply delete_volume_returned in Hdel as [(err & [=])|(_ & _ & t1 & t2 & t3 & -> & Hw)].
    apply deleteVolumeUntilWait_looks in Hw. rewrite N in Hw. rewrite !did_cons, !did_app. tauto.
Qed.

Context (staging l : list string) (n host : string).
Hypothesis staging_normal : normals staging.
Hypothesis path_normal : normals (l ++ [n]).
Hypothesis node_normal : normal (ns_nodeID ns) = true.

(** The node's file, seen through the staging mount. *)
Definition node_file : string := abs (staging ++ ["mount"] ++ tracking_dir l n ++ [ns_nodeID ns]).

Lemma NodeStageVolume_tracks req tr :
  nst_StagingTargetPath req = abs staging → parseBeegfsURL (nst_VolumeId req) = Ok (host, abs (l ++ [n])) →
  exec (NodeStageVolume ns req) tr (Returned (Reply tt)) →
  ∃ exists_, got (DirExists (abs (staging ++ ["mount"] ++ tracking_dir l n))) exists_ tr
    ∧ (exists_ = Ok true → did (WriteFile node_file EmptyString 0x1a0) tr).
Proof.
  intros Hs Hp Hx. apply NodeStageVolume_staged in Hx as (vol & fl & out & trw & trs & trm & trt & Hv & _ & _ & -> & _ & _ & _ & Ht).
  unfold volume_of_id in Hv. rewrite Hp, Hs in Hv. injection Hv as <-. destruct Ht as (d & rest & -> & Hrest).
  destruct (mounted_paths staging host (ns_pluginConfig ns) l n staging_normal path_normal) as [_ N].
  exists d. rewrite <- N. split; [auto 12 with trace|]. intros ->. destruct Hrest as (w & ->).
  unfold node_file. rewrite <- (node_file_path ns staging host (ns_pluginConfig ns) l n) by done.
  eapply got_did. auto 12 with trace.
Qed.

Lemma NodeUnstageVolume_untracks id tr r :
  parseBeegfsURL id = Ok (host, abs (l ++ [n])) → exec (NodeUnstageVolume ns id (abs staging)) tr (Returned r) →
  ∃ exists_, head tr = Some (existT (Exists node_file) exists_) ∧ (exists_ = Ok true → did (Remove node_file) tr).
Proof.
  intros Hp Hx. assert (volume_of_id (abs staging) id (ns_pluginConfig ns)
    = Ok (volume_of (abs staging) host (abs (l ++ [n])) (ns_pluginConfig ns))) as Hv
    by (unfold volume_of_id; by rewrite Hp).
  assert (provided id = true) as Hid by (by destruct id).
  destruct (NodeUnstageVolume_returned ns id (abs staging) _ _ _ Hid eq_refl Hv Hx) as (ex & trr & tru & u & -> & _ & _ & Hrem).
  rewrite (node_file_path ns staging host (ns_pluginConfig ns) l n) in * by done. fold node_file in *. exists ex.
  split; [done|]. intros ->. destruct Hrem as (w & ->). eapply got_did. auto with trace.
Qed.
End Runs.

(** C27: for a volume in the directory [l/n] of its file system, all of this
    happens in the directory [l/.csi/volumes/n/nodes] of that file system. A
    CreateVolume that succeeds, of a driver with a timeout, asks to make it unless
    it remembers the volume. A node that stages the volume looks whether it exists,
    through the mount below its staging path, and then writes the node's file in
    it; a node that unstages it removes that file. DeleteVolume looks at nothing
    else before it deletes, through the mount below its own mount directory, and
    does look unless it remembers to have deleted the volume. *)
Theorem tracking_directory_shared {INI : Ini} {SE : Selinux} {RO : RangeOrder} cs ns host l n :
  RunsCtl (cs_ctlExec cs) → normals (l ++ [n]) → normal (ns_nodeID ns) = true →
  (∀ req params tr id, create_args req = Some params →
     PathJoin [req_volDirBasePathBeegfsRoot params; cv_Name req] = abs (l ++ [n]) → 0 < nodeUnstageTimeout cs →
     exec (CreateVolume cs req) tr (Returned (Reply id)) →
     tr = [existT (ReadStatus id) (Some statusCreated)]
     ∨ ∃ r, ran (createDirectoryForVolume (cs_ctlExec cs) (create_target cs req params) (abs (tracking_dir l n))
             (mkPermissions 0 0 0x1e8)) r tr)
  ∧ (∀ staging req tr, normals staging → nst_StagingTargetPath req = abs staging →
       parseBeegfsURL (nst_VolumeId req) = Ok (host, abs (l ++ [n])) →
       exec (NodeStageVolume ns req) tr (Returned (Reply tt)) →
       ∃ exists_, got (DirExists (abs (staging ++ ["mount"] ++ tracking_dir l n))) exists_ tr
         ∧ (exists_ = Ok true → did (WriteFile (node_file ns staging l n) EmptyString 0x1a0) tr))
  ∧ (∀ staging id tr r, normals staging → parseBeegfsURL id = Ok (host, abs (l ++ [n])) →
       exec (NodeUnstageVolume ns id (abs staging)) tr (Returned r) →
       ∃ exists_, head tr = Some (existT (Exists (node_file ns staging l n)) exists_)
         ∧ (exists_ = Ok true → did (Remove (node_file ns staging l n)) tr))
  ∧ (∀ fuel id m tr r, normals m → parseBeegfsURL id = Ok (host, abs (l ++ [n])) →
       cs_mountDirPath (csDataDir cs) id = abs m → exec (DeleteVolume fuel cs id) tr (Returned r) →
       (∀ e, did e tr → looks_at m l n e)
       ∧ (r = Reply tt → (∃ s, tr = [existT (ReadStatus s) (Some statusDeleted)])
          ∨ did (DirExists (abs (m ++ ["mount"] ++ tracking_dir l n))) tr)).
Proof.
  intros Hcs Hl Hid. split_and!; intros.
  - by eapply CreateVolume_tracks.
  - by eapply NodeStageVolume_tracks.
  - by eapply NodeUnstageVolume_untracks.
  - by eapply DeleteVolume_looks.
Qed.

Module Example.

#[local] Existing Instance list_order.
#[local] Instance ini : Ini := template_ini ClientFilesFacts.Example.template.
#[local] Instance selinux : Selinux := colon_selinux.

Definition cs : controllerServer :=
  mkControllerServer beegfsCtlDispatcher "node1" (mkPluginConfig no_layer []) "/etc/beegfs/beegfs-client.conf" "/csi" 60.
Definition ns : nodeServer := NodeFacts.Example.ns.
Definition id : string := "beegfs://host/scratch/pvc-1".

(** One volume through its life: the runs of the four RPCs and the paths they
    meet at. *)
Definition create_run := sim_trace (CreateVolume cs ControllerFacts.Example.req) sim0.
Definition stage_run := sim_trace (NodeStageVolume ns NodeFacts.Example.stage_req) sim0.
Definition unstage_run := sim_trace (NodeUnstageVolume ns id "/plugins/pv/globalmount") sim0.
Definition delete_run := sim_trace (DeleteVolume 1 cs id) sim0.

Lemma tracking_directory_shared_witness :
  (∃ params r, ran (createDirectoryForVolume (cs_ctlExec cs) (create_target cs ControllerFacts.Example.req params)
      "/scratch/.csi/volumes/pvc-1/nodes" (mkPermissions 0 0 0x1e8)) r create_run)
  ∧ did (R := response) (DirExists "/plugins/pv/globalmount/mount/scratch/.csi/volumes/pvc-1/nodes") stage_run
  ∧ did (R := response) (Exists "/plugins/pv/globalmount/mount/scratch/.csi/volumes/pvc-1/nodes/node1") unstage_run
  ∧ did (R := response) (DirExists "/csi/host_scratch_pvc-1/mount/scratch/.csi/volumes/pvc-1/nodes") delete_run.
Proof.
  destruct (tracking_directory_shared cs ns "host" ["scratch"] "pvc-1") as (HC & HS & HU & HD);
    [exact dispatcher_RunsCtl|by repeat constructor|reflexivity|].
  split_and!.
  - destruct (create_args ControllerFacts.Example.req) as [params|] eqn:E; [|vm_compute in E; discriminate].
    exists params. destruct (HC ControllerFacts.Example.req params create_run id E) as [H|H]; [..|exact H].
    + vm_compute in E. injection E as <-. reflexivity.
    + reflexivity.
    + assert (sim_ending (CreateVolume cs ControllerFacts.Example.req) sim0 = Returned (Reply id)) as <-
        by (vm_compute; reflexivity). apply sim_exec.
    + apply (f_equal length) in H. vm_compute in H. discriminate.
  - destruct (HS ["plugins"; "pv"; "globalmount"] NodeFacts.Example.stage_req stage_run) as (e & He & _);
      [by repeat constructor|reflexivity..| |by exists e].
    assert (sim_ending (NodeStageVolume ns NodeFacts.Example.stage_req) sim0 = Returned (Reply tt)) as <-
      by (vm_compute; reflexivity). apply sim_exec.
  - destruct (HU ["plugins"; "pv"; "globalmount"] id unstage_run (Reply tt)) as (e & He & _);
      [by repeat constructor|reflexivity| |exists e; by apply head_Some_elem_of].
    assert (sim_ending (NodeUnstageVolume ns id "/plugins/pv/globalmount") sim0 = Returned (Reply tt)) as <-
      by (vm_compute; reflexivity). apply sim_exec.
  - destruct (HD 1%nat id ["csi"; "host_scratch_pvc-1"] delete_run (Reply tt)) as [_ H];
      [by repeat constructor|reflexivity..| |].
    { assert (sim_ending (DeleteVolume 1 cs id) sim0 = Returned (Reply tt)) as <- by (vm_compute; reflexivity).
      apply sim_exec. }
    destruct (H eq_refl) as [(s & E)|E]; [apply (f_equal length) in E; vm_compute in E; discriminate|exact E].
Defined.
End Example.
