(* ===== verification/Server.v ===== *)
(** * Server: serving RPCs (server.go) and the identity service (identityserver.go)

    Errors on the wire, request IDs, what the interceptor logs about a call, the
    server's socket, its goroutines and the wait group between them, and the
    identity service. *)
From S2P Require Import Prelude GoStrings Prog World Csi.
Local Open Scope Z_scope.

(** ** Errors on the wire *)

(** The text of a status error. *)
Definition code_String (c : code) : string :=
  match c with
  | InvalidArgument => "InvalidArgument" | NotFound => "NotFound" | Aborted => "Aborted"
  | Unimplemented => "Unimplemented" | Internal => "Internal" | Unavailable => "Unavailable"
  end.
Definition status_text (s : status) : string :=
  "rpc error: code = " +:+ code_String (status_code s) +:+ " desc = " +:+ status_msg s.

Definition grpcError_Error (e : grpcError) : string := status_text (statusErr e).
Definition Cause (e : grpcError) : goerr := cause e.
Definition Unwrap (e : grpcError) : goerr := cause e.
Definition GetStatusErr (e : grpcError) : status := statusErr e.

(** What [Format] writes: texts, and an error with its stack trace (%+v). *)
Inductive written := WriteText (s : string) | WriteDetailed (e : goerr).
Definition Format (e : grpcError) (plus : bool) (verb : ascii) : list written :=
  if bool_decide (verb = "v"%char) && plus then
    [WriteDetailed (Cause e); WriteText (str1 (byte_of 10)); WriteText (grpcError_Error e)]
  else if bool_decide (verb = "v"%char ∨ verb = "s"%char ∨ verb = "q"%char) then [WriteText (grpcError_Error e)]
  else [].

(** ** Logging *)

(** A context: nil, or one that may carry a request ID. *)
Inductive context := NilContext | Context_ (reqID : option string).
Definition TODO : context := Context_ None.

(** A line of the log: its verbosity (none for an error), its message, and its
    keys and values. *)
Inductive log_value := LText (s : string) | LError (e : list written).
Record log_line := mkLog { log_V : option Z; log_msg : string; log_values : list (string * log_value) }.

Definition logLevelDebug : Z := 3.
Definition logLevelVerbose : Z := 5.
Definition ctxRequestIDKey : string := "reqID".

Definition logger (ctx : context) : list (string * log_value) :=
  match ctx with
  | NilContext => [("goroutine", LText "main")]
  | Context_ (Some id) => [(ctxRequestIDKey, LText id)]
  | Context_ None => []
  end.
Definition LogDebug (ctx : context) (msg : string) (kvs : list (string * log_value)) : log_line :=
  mkLog (Some logLevelDebug) msg (logger ctx ++ kvs).
Definition LogVerbose (ctx : context) (msg : string) (kvs : list (string * log_value)) : log_line :=
  mkLog (Some logLevelVerbose) msg (logger ctx ++ kvs).
(** [err] is given by what %+v writes of it. *)
Definition LogError (ctx : context) (err : list written) (msg : string) (kvs : list (string * log_value)) : log_line :=
  mkLog None msg (logger ctx ++ [("fullError", LError err)] ++ kvs).

(** ** Requests *)

(** The context of a request: [atomic.AddUint32] wraps at 2^32. *)
Definition generateRequestContext (requestIDCounter : Z) : context * Z :=
  let n := (requestIDCounter + 1) mod 2 ^ 32 in
  (Context_ (Some (fmt_pad 4 16 (n mod 0x10000))), n).

Definition detailed (s : status) : list written := [WriteText (status_text s)].

(** The interceptor: the request and the response are given with their secrets
    stripped (protosanitizer). It returns what gRPC gets, in which a
    [grpcError] is replaced by its status, the lines of the log and the counter. *)
Definition logGRPC {A} (requestIDCounter : Z) (FullMethod req : string) (show : A → string)
    (handler : context → io (reply A)) : io ((A + status) * list log_line * Z) :=
  let '(reqCtx, n) := generateRequestContext requestIDCounter in
  let log := if bool_decide (FullMethod = "/csi.v1.Identity/Probe" ∨ FullMethod = "/csi.v1.Node/NodeGetCapabilities")
             then LogVerbose else LogDebug in
  let call := log reqCtx "GRPC call" [("method", LText FullMethod); ("request", LText req)] in
  let failed err := LogError reqCtx err "GRPC error" [("method", LText FullMethod); ("request", LText req)] in
  r ← handler reqCtx;
  mret (match r with
        | Reply a =>
            (inl a, [call; log reqCtx "GRPC response" [("response", LText (show a)); ("method", LText FullMethod)]], n)
        | StatusErr s => (inr s, [call; failed (detailed s)], n)
        | GrpcErr e => (inr (GetStatusErr e), [call; failed (Format e true "v")], n)
        end).

(** ** Endpoints *)

Definition parseEndpoint (ep : string) : result (string * string) :=
  let invalid := Err (ErrMsg ("invalid endpoint: " +:+ ep)) in
  if HasPrefix (ToLower ep) "unix://" || HasPrefix (ToLower ep) "tcp://" then
    match SplitN2 ep "://" with
    | [s0; s1] => if bool_decide (s1 = EmptyString) then invalid else Ok (s0, s1)
    | _ => invalid
    end
  else invalid.

(** ** nonBlockingGRPCServer *)

Inductive service := IdentityService | ControllerService | NodeService.
Inductive server_event :=
  | RemoveSocket (addr : string)
  | Listen (network addr : string)
  | NewServer
  | Register (s : service)
  | Serve.
Inductive serve_error := ErrServerStopped | ServeFailed (err : goerr).
Definition server_response (e : server_event) : Type :=
  match e with
  | RemoveSocket _ | Listen _ _ => result unit
  | NewServer | Register _ => unit
  | Serve => option serve_error
  end.
Abbreviation server_io := (prog server_event server_response).

(** [LogFatal] ends the process. *)
Definition LogFatal {A} (err : goerr) (msg : string) : server_io A := Panic ("Fatal: " +:+ msg +:+ error_text err).

Fixpoint register (services : list service) : server_io unit :=
  match services with
  | [] => mret tt
  | s :: r => _ ← trigger (Register s); register r
  end.

(** [serve], of the services that are not nil. *)
Definition serve (endpoint : string) (services : list service) : server_io unit :=
  match parseEndpoint endpoint with
  | Err err => LogFatal err "Error parsing endpoint"
  | Ok (proto, addr) =>
      let run addr : server_io unit :=
        r ← trigger (Listen proto addr);
        match r with
        | Err err => LogFatal (WithStack err) "Failed to listen"
        | Ok _ =>
            _ ← trigger NewServer;
            _ ← register services;
            r ← trigger Serve;
            match r with
            | Some (ServeFailed err) => LogFatal err "Fatal error"
            | _ => mret tt
            end
        end in
      if bool_decide (proto = "unix") then
        let addr := String "/" addr in
        r ← trigger (RemoveSocket addr);
        match r with
        | Err err => if os_IsNotExist err then run addr else LogFatal (WithStack err) "Failed to remove address"
        | Ok _ => run addr
        end
      else run addr
  end.

(** *** The goroutines of the server

    [Start] counts a goroutine in the wait group and starts it, [Wait] returns
    when the count is zero. The process is the calls that the main goroutine
    has still to make and the goroutines that serve; it ends when the main
    goroutine returns, when a goroutine exits it ([LogFatal]) or when a nil
    pointer is dereferenced. *)

Record nonBlockingGRPCServer := mkServer { wg : Z; server : bool }.
Definition newNonBlockingGRPCServer : nonBlockingGRPCServer := mkServer 0 false.

Inductive method :=
  | Start (endpoint : string) (services : list service)
  | Wait
  | Stop
  | ForceStop.
Inductive process :=
  | Running (s : nonBlockingGRPCServer) (main : list method) (goroutines : list (server_io unit))
  | Exited (status : Z)
  | Crashed.

(** A call that does not block; [None] is a nil pointer dereference. *)
Definition call (m : method) (s : nonBlockingGRPCServer) (gs : list (server_io unit))
    : option (nonBlockingGRPCServer * list (server_io unit)) :=
  match m with
  | Start endpoint services => Some (mkServer (wg s + 1) (server s), serve endpoint services :: gs)
  | Wait => Some (s, gs)
  | Stop | ForceStop => if server s then Some (s, gs) else None
  end.
(** [serve] assigns the server it makes. *)
Definition after (e : server_event) (s : nonBlockingGRPCServer) : nonBlockingGRPCServer :=
  match e with NewServer => mkServer (wg s) true | _ => s end.

Inductive pstep : process → process → Prop :=
  | step_call m ms s gs s' gs' :
      (m = Wait → wg s = 0) → call m s gs = Some (s', gs') → pstep (Running s (m :: ms) gs) (Running s' ms gs')
  | step_nil m ms s gs : call m s gs = None → pstep (Running s (m :: ms) gs) Crashed
  | step_event s ms gs1 e k r gs2 :
      pstep (Running s ms (gs1 ++ Vis e k :: gs2)) (Running (after e s) ms (gs1 ++ k r :: gs2))
  | step_done s ms gs1 gs2 : pstep (Running s ms (gs1 ++ Ret tt :: gs2)) (Running s ms (gs1 ++ gs2))
  | step_fatal s ms gs1 msg gs2 : pstep (Running s ms (gs1 ++ Panic msg :: gs2)) (Exited 255)
  | step_return s gs : pstep (Running s [] gs) (Exited 0).

(** ** The identity service *)

Record identityServer := newIdentityServer { ids_name : string; ids_version : string }.
Inductive PluginCapability := CONTROLLER_SERVICE | VolumeExpansion_ONLINE.

Definition GetPluginInfo (ids : identityServer) : io (reply (string * string)) :=
  if bool_decide (ids_name ids = EmptyString) then status_Error Unavailable "Driver name not configured" else
  if bool_decide (ids_version ids = EmptyString) then status_Error Unavailable "Driver is missing version" else
  respond (ids_name ids, ids_version ids).
Definition Probe : io (reply unit) := respond tt.
Definition GetPluginCapabilities : io (reply (list PluginCapability)) :=
  respond [CONTROLLER_SERVICE; VolumeExpansion_ONLINE].

(** ** Facts *)

Lemma ToLower_ascii c s : (byte_val c <? 128) = true → ToLower (String c s) = String (lower_byte c) (ToLower s).
Proof.
  intros Hc. assert ((byte_val c =? 196) = false ∧ (byte_val c =? 226) = false) as [H1 H2] by lia.
  destruct s as [|c1 [|c2 t]]; cbn [ToLower]; rewrite ?H1, ?H2; done.
Qed.

(** An endpoint unix://path or tcp://address is taken apart into the
    network and the address; the network's name is recognised in any
    capitalisation but passed on as it was written, and then only the lower-case
    unix has its stale socket removed and its path made absolute. *)
Theorem parseEndpoint_spec a :
  a ≠ EmptyString →
  parseEndpoint ("unix://" +:+ a) = Ok ("unix", a) ∧ parseEndpoint ("tcp://" +:+ a) = Ok ("tcp", a)
  ∧ parseEndpoint ("UNIX://" +:+ a) = Ok ("UNIX", a)
  ∧ (∀ services tr o, exec (serve ("unix://" +:+ a) services) tr o →
      ∃ r, head tr = Some (existT (RemoveSocket (String "/" a)) r))
  ∧ (∀ services tr o, exec (serve ("UNIX://" +:+ a) services) tr o →
      ∃ r, head tr = Some (existT (Listen "UNIX" a) r)).
Proof.
  intros Ha.
  assert (∀ p, p = "unix" ∨ p = "tcp" ∨ p = "UNIX" → parseEndpoint (p +:+ "://" +:+ a) = Ok (p, a)) as H.
  { intros p Hp. unfold parseEndpoint, SplitN2.
    assert (HasPrefix (ToLower (p +:+ "://" +:+ a)) "unix://" || HasPrefix (ToLower (p +:+ "://" +:+ a)) "tcp://" = true) as ->.
    { apply orb_true_iff. rewrite !HasPrefix_spec.
      destruct Hp as [-> | [-> | ->]]; [left|right|left]; exists (ToLower a);
        rewrite !append_cons, !append_nil_l, !ToLower_ascii by done; reflexivity. }
    assert (Cut (p +:+ "://" +:+ a) "://" = Some (p, a)) as ->.
    { pose proof (Cut_here "://" a) as Hc. destruct Hp as [-> | [-> | ->]];
        rewrite !append_cons, !append_nil_l in *; rewrite !Cut_skip by done; by rewrite Hc. }
    by rewrite bool_decide_eq_false_2. }
  pose proof (H "unix" ltac:(auto)) as H1. pose proof (H "tcp" ltac:(auto)) as H2. pose proof (H "UNIX" ltac:(auto)) as H3.
  split_and!; [exact H1|exact H2|exact H3| |]; intros services tr o Hx.
  - change ("unix://" +:+ a) with ("unix" +:+ "://" +:+ a) in Hx. unfold serve in Hx. rewrite H1 in Hx.
    cbn match in Hx. rewrite bool_decide_eq_true_2 in Hx by done. destruct Hx as (r & tr' & -> & _). by exists r.
  - change ("UNIX://" +:+ a) with ("UNIX" +:+ "://" +:+ a) in Hx. unfold serve in Hx. rewrite H3 in Hx.
    cbn match in Hx. rewrite bool_decide_eq_false_2 in Hx by done. destruct Hx as (r & tr' & -> & _). by exists r.
Qed.

Lemma parseEndpoint_spec_witness : parseEndpoint "unix:///csi/csi.sock" = Ok ("unix", "/csi/csi.sock").
Proof. apply (parseEndpoint_spec "/csi/csi.sock"). discriminate. Defined.

(** ** Requests *)

(** The counter before the [i]-th request since the start, and its context. *)
Definition counter_before (i : nat) : Z := Nat.iter i (λ c, (generateRequestContext c).2) 0.
Definition request_context (i : nat) : context := (generateRequestContext (counter_before i)).1.

Lemma counter_before_spec i : counter_before i = Z.of_nat i mod 2 ^ 32.
Proof.
  induction i as [|i IH]; [done|].
  change (counter_before (S i)) with ((counter_before i + 1) mod 2 ^ 32). rewrite IH, Nat2Z.inj_succ.
  by rewrite Zplus_mod_idemp_l.
Qed.

(** C36: request IDs repeat with period 65536 and not earlier: two requests
    since the start have the same ID exactly if their numbers differ by a
    multiple of 65536. The wrap of the 32-bit counter does not disturb this. *)
Theorem request_ids_period i j :
  request_context i = request_context j ↔ (Z.of_nat i - Z.of_nat j) mod 65536 = 0.
Proof.
  unfold request_context, generateRequestContext. cbn [fst]. rewrite !counter_before_spec, !Zplus_mod_idemp_l.
  assert (∀ n, (n + 1) mod 2 ^ 32 mod 65536 = (n + 1) mod 65536) as Hm.
  { intros n. apply Z.mod_mod_divide. exists (2 ^ 16). reflexivity. }
  rewrite !Hm. split; intros H.
  - assert ((Z.of_nat i + 1) mod 65536 = (Z.of_nat j + 1) mod 65536) as He.
    { apply (fmt_pad_inj 4 16); [lia|apply Z.mod_pos_bound; lia|apply Z.mod_pos_bound; lia|congruence]. }
    replace (Z.of_nat i - Z.of_nat j) with ((Z.of_nat i + 1) - (Z.of_nat j + 1)) by lia.
    by rewrite Zminus_mod, He, Z.sub_diag.
  - do 3 f_equal. apply Z.mod_divide in H as [k Hk]; [|lia].
    replace (Z.of_nat i + 1) with (Z.of_nat j + 1 + k * 65536) by lia. by rewrite Z_mod_plus_full.
Qed.

(** What a client is told of a handler's reply. *)
Definition on_the_wire {A} (r : reply A) : A + status :=
  match r with Reply a => inl a | StatusErr s => inr s | GrpcErr e => inr (statusErr e) end.

(** The interceptor passes the handler's response on; of an error the client
    gets the status only, never the cause or its stack trace; every line it logs
    carries the request's ID, and a line at the error level is logged exactly
    for a failure. *)
Theorem logGRPC_spec {A} c FullMethod req (show : A → string) handler tr out lines n :
  exec (logGRPC c FullMethod req show handler) tr (Returned (out, lines, n)) →
  ∃ id r, generateRequestContext c = (Context_ (Some id), n)
    ∧ exec (handler (Context_ (Some id))) tr (Returned r) ∧ out = on_the_wire r
    ∧ Forall (λ l, head (log_values l) = Some (ctxRequestIDKey, LText id)) lines
    ∧ ((∃ l, l ∈ lines ∧ log_V l = None) ↔ ∃ s, out = inr s).
Proof.
  intros Hx. unfold logGRPC, generateRequestContext in *. set (id := fmt_pad 4 16 _) in *. cbv beta iota zeta in Hx.
  apply exec_bind_returned in Hx as (tr1 & tr2 & r & -> & Hr & Hx). exists id, r.
  assert (tr2 = []) as -> by (by destruct Hx as [-> _]).
  rewrite app_nil_r. destruct Hx as [_ Hx]. injection Hx as Hx.
  destruct (bool_decide _), r as [a|s|e]; injection Hx as -> -> ->;
    (split_and!; [done|exact Hr|done|by repeat constructor|];
     split; [intros (l & Hl & HV); repeat (apply elem_of_cons in Hl as [->|Hl]; [first [discriminate HV|by eauto]|]);
             by apply elem_of_nil in Hl
            |intros [s' Hs]; first [discriminate Hs|eexists; split; [right; by left|done]]]).
Qed.

(** ** The process *)

(** The main goroutine of a process that started one server and waits for it. *)
Definition waits (p : process) : Prop :=
  match p with
  | Running s ms gs => (∃ ep services, ms = [Start ep services; Wait] ∧ wg s = 0 ∧ gs = []) ∨ (ms = [Wait] ∧ wg s = 1)
  | Exited status => status = 255
  | Crashed => False
  end.

Lemma waits_step p p' : pstep p p' → waits p → waits p'.
Proof.
  intros Hs. destruct Hs as [m ms s gs s' gs' Hw Hc|m ms s gs Hc|s ms gs1 e k r gs2|s ms gs1 gs2|s ms gs1 msg gs2|s gs]; cbn.
  - intros [(ep & services & [= -> ->] & Hwg & ->)|([= -> ->] & Hwg)]; cbn in Hc.
    + injection Hc as <- <-. right. cbn. split; [done|lia].
    + specialize (Hw eq_refl). lia.
  - intros [(ep & services & [= -> ->] & _)|([= -> ->] & _)]; discriminate Hc.
  - intros [(ep & services & _ & _ & Hnil)|(-> & Hwg)]; [by destruct gs1|]. right. by destruct e.
  - intros [(ep & services & _ & _ & Hnil)|(-> & Hwg)]; [by destruct gs1|]. by right.
  - done.
  - intros [(ep & services & [=] & _)|([=] & _)].
Qed.

Lemma waits_reachable p p' : rtc pstep p p' → waits p → waits p'.
Proof. induction 1; eauto using waits_step. Qed.

(** A goroutine that returns leaves the wait group as it is. *)
Lemma goroutine_ends (g : server_io unit) tr s ms : exec g tr (Returned tt) →
  ∃ s', rtc pstep (Running s ms [g]) (Running s' ms []) ∧ wg s' = wg s.
Proof.
  revert tr s. induction g as [[]|e k IH|msg|]; intros tr s Hx; cbn in Hx.
  - exists s. split; [|done]. apply rtc_once. apply (step_done s ms [] []).
  - destruct Hx as (r & tr' & -> & Hx). destruct (IH r tr' (after e s) Hx) as (s' & Hs & Hwg).
    exists s'. split; [|by rewrite Hwg; destruct e]. eapply rtc_l; [apply (step_event s ms [] e k r [])|exact Hs].
  - by destruct Hx.
  - by destruct Hx.
Qed.

(** C35: a process that calls Start and then Wait, as Run does, never gets past
    Wait: it serves until it is killed or until serving fails fatally, and then
    exits with status 255, never with 0. In particular, nothing counts the
    goroutine down: when Serve returns because the server was stopped, the
    process is left waiting with nothing that runs. *)
Theorem Wait_never_returns ep services p :
  rtc pstep (Running newNonBlockingGRPCServer [Start ep services; Wait] []) p →
  (∀ s gs, p ≠ Running s [] gs) ∧ p ≠ Exited 0 ∧ p ≠ Crashed
  ∧ (∀ tr, exec (serve ep services) tr (Returned tt) →
       ∃ s, rtc pstep (Running newNonBlockingGRPCServer [Start ep services; Wait] []) (Running s [Wait] [])
            ∧ ∀ p', ¬ pstep (Running s [Wait] []) p').
Proof.
  intros Hp. assert (waits p) as Hw by (eapply waits_reachable; [exact Hp|]; left; eauto 10).
  split_and!.
  - intros s gs ->. destruct Hw as [(? & ? & [=] & _)|([=] & _)].
  - by intros ->.
  - by intros ->.
  - intros tr Hx. destruct (goroutine_ends _ tr (mkServer 1 false) [Wait] Hx) as (s & Hs & Hwg). exists s. split.
    + eapply rtc_l; [by apply (step_call (Start ep services))|exact Hs].
    + intros p' Hstep. inversion Hstep as [m ms s0 gs s' gs' Hwait Hc| |? ? gs1|? ? gs1|? ? gs1|]; subst.
      * specialize (Hwait eq_refl). cbn in Hwg. lia.
      * discriminate.
      * by destruct gs1.
      * by destruct gs1.
      * by destruct gs1.
Qed.

(** A server that is stopped once: Serve returns ErrServerStopped. *)
Definition stopped (e : server_event) (w : unit) : server_response e * unit :=
  match e with
  | RemoveSocket _ | Listen _ _ => (Ok tt, w)
  | NewServer | Register _ => (tt, w)
  | Serve => (Some ErrServerStopped, w)
  end.

Lemma Wait_never_returns_witness :
  ∃ s, rtc pstep (Running newNonBlockingGRPCServer [Start "unix:///csi.sock" [IdentityService]; Wait] []) (Running s [Wait] []).
Proof.
  destruct (Wait_never_returns "unix:///csi.sock" [IdentityService] _ (rtc_refl _ _)) as (_ & _ & _ & H).
  destruct (H (run stopped (serve "unix:///csi.sock" [IdentityService]) tt).1.1) as (s & Hs & _).
  - assert ((run stopped (serve "unix:///csi.sock" [IdentityService]) tt).1.2 = Returned tt) as Ho by (vm_compute; reflexivity).
    rewrite <- Ho. apply run_exec.
  - exists s. exact Hs.
Defined.
