(* ===== verification/Driver.v ===== *)
(** * Driver: starting the driver (beegfs.go, cmd/beegfs-csi-driver/main.go)

    [NewBeegfsDriver] checks the host, reads the files its arguments name and
    makes the services. The YAML decoder is a parameter; the configuration is
    parsed on a heap of its own, which nothing else refers to afterwards. *)
From S2P Require Import Prelude GoStrings GoPath Prog Config ConfigFacts ConfigParse Volume World ThreadSafe Sim.
From S2P Require Import Mounts MountsFacts BeegfsCtl BeegfsCtlFacts Csi ControllerServer NodeServer Server.
Local Open Scope Z_scope.

(** The command line. *)
Record driver_args := mkArgs {
  connAuthPath : string;
  tlsCertsPath : string;
  configPath : string;
  arg_csDataDir : string;
  arg_driverName : string;
  arg_endpoint : string;
  arg_nodeID : string;
  arg_clientConfTemplatePath : string;
  arg_version : string;
  arg_nodeUnstageTimeout : Z
}.

Record beegfs := mkBeegfs {
  driverName : string;
  nodeID : string;
  version : string;
  endpoint : string;
  pluginConfig : PluginConfig gomap;
  clientConfTemplatePath : string;
  b_csDataDir : string;
  ids : identityServer
}.

(** ** The client configuration template *)

Definition defaultPaths : list string :=
  ["/etc/beegfs/beegfs-client.conf"; "/host/etc/beegfs/beegfs-client.conf";
   "/var/lib/kubelet/plugins/beegfs.csi.netapp.com/client/beegfs-client.conf";
   "/host/var/lib/kubelet/plugins/beegfs.csi.netapp.com/client/beegfs-client.conf"].
Fixpoint first_readable (paths : list string) : io string :=
  match paths with
  | [] => mret EmptyString
  | path :: r => res ← do (ReadFile path); if is_ok res then mret path else first_readable r
  end.
Definition getDefaultClientConfTemplatePath : io string := first_readable defaultPaths.

Section Driver.
Context {RO : RangeOrder}.
Context (UnmarshalConfig : string → result (PluginConfigFromFile yaml_conf)).
Context (UnmarshalConnAuth : string → result (list ConnAuthConfig)).
Context (UnmarshalTLSCerts : string → result (list TLSCertConfig)).

(** ** The configuration *)

Definition read_config (path nodeID : string) : io (result (PluginConfig mapref * heap)) :=
  if bool_decide (path = EmptyString) then ok (mkPluginConfig zero_config [], ∅) else
  file ← do (ReadFile path);
  match parseConfigFromFile UnmarshalConfig file nodeID ∅ with
  | Done cfg h => ok (cfg, h)
  | Fails err => fail (Wrap err "failed to handle configuration file")
  | Panics => Panic "assignment to entry in nil map"
  end.
Definition read_connAuth (path : string) (cfg : PluginConfig mapref) : io (result (PluginConfig mapref)) :=
  if bool_decide (path = EmptyString) then ok cfg else
  file ← do (ReadFile path);
  match parseConnAuthFromFile UnmarshalConnAuth file cfg with
  | Ok cfg => ok cfg
  | Err err => fail (Wrap err "failed to handle connAuth file")
  end.
Definition read_tlsCerts (path : string) (cfg : PluginConfig mapref) : io (result (PluginConfig mapref)) :=
  if bool_decide (path = EmptyString) then ok cfg else
  file ← do (ReadFile path);
  match parseTLSCertsFromFile UnmarshalTLSCerts file cfg with
  | Ok cfg => ok cfg
  | Err err => fail (Wrap err "failed to handle tlsCerts file")
  end.

(** ** The driver *)

Definition vendorVersion (version : string) : string := if bool_decide (version = EmptyString) then "dev" else version.

Definition find_template (path : string) : io (result string) :=
  if bool_decide (path = EmptyString) then
    path ← getDefaultClientConfTemplatePath;
    if bool_decide (path = EmptyString) then
      fail (ErrMsg "failed to get valid default client configuration template file")
    else ok path
  else
    let? _ := do (ReadFile path) catch err => fail (Wrap err "failed to read client configuration template file") in
    ok path.

Definition newBeegfsDriver (a : driver_args) : io (result beegfs) :=
  if bool_decide (arg_driverName a = EmptyString) then fail (ErrMsg "no driver name provided") else
  if bool_decide (arg_nodeID a = EmptyString) then fail (ErrMsg "no node id provided") else
  if bool_decide (arg_endpoint a = EmptyString) then fail (ErrMsg "no driver endpoint provided") else
  let? template := find_template (arg_clientConfTemplatePath a) catch err => fail err in
  let? cfg := read_config (configPath a) (arg_nodeID a) catch err => fail err in
  let? plugin := read_connAuth (connAuthPath a) cfg.1 catch err => fail err in
  let? plugin := read_tlsCerts (tlsCertsPath a) plugin catch err => fail err in
  if bool_decide (arg_csDataDir a = EmptyString) then
    fail (ErrMsg "no controller service data directory path provided") else
  let? _ := do (MkdirAll (arg_csDataDir a) 0x1e8) catch err => fail (Wrap err "failed to create csDataDir") in
  let version := vendorVersion (arg_version a) in
  ok (mkBeegfs (arg_driverName a) (arg_nodeID a) version (arg_endpoint a) (pden cfg.2 plugin) template
        (arg_csDataDir a) (newIdentityServer (arg_driverName a) version)).

(** The driver with its node service and its controller service and tables. *)
Definition NewBeegfsDriver (a : driver_args)
    : io (result (beegfs * nodeServer * (controllerServer * threadSafeStringLock * threadSafeStatusMap))) :=
  let? _ := verifyBeegfsClientModuleIsAvailable catch err => fail err in
  let? driver := newBeegfsDriver a catch err => fail err in
  let? ns := newNodeServer (nodeID driver) (pluginConfig driver) (clientConfTemplatePath driver) catch err => fail err in
  let? cs := newControllerServer (nodeID driver) (pluginConfig driver) (clientConfTemplatePath driver)
               (b_csDataDir driver) (arg_nodeUnstageTimeout a) catch err => fail err in
  ok (driver, ns, cs).

Definition NewBeegfsDriverSanity (a : driver_args)
    : io (result (beegfs * nodeServer * (controllerServer * threadSafeStringLock * threadSafeStatusMap))) :=
  let? driver := newBeegfsDriver a catch err => fail err in
  ok (driver, newNodeServerSanity (nodeID driver) (pluginConfig driver) (clientConfTemplatePath driver),
      newControllerServerSanity (nodeID driver) (pluginConfig driver) (clientConfTemplatePath driver)
        (b_csDataDir driver) (arg_nodeUnstageTimeout a)).
End Driver.

(** What the main goroutine calls. *)
Definition Run (b : beegfs) : list method := [Start (endpoint b) [IdentityService; ControllerService; NodeService]; Wait].
