(* ===== verification/DriverFacts.v ===== *)
(** * DriverFacts: what a started driver has been given *)
From S2P Require Import Prelude GoStrings GoRegexp Prog Config ConfigFacts ConfigParse Volume World ThreadSafe Sim Mounts MountsFacts.
From S2P Require Import BeegfsCtl BeegfsCtlFacts Csi ControllerServer NodeServer Server Driver.
Local Open Scope Z_scope.

(** ** Secrets cannot come from the configuration file *)

(** The fields connAuth and tlsCert are not decoded from the file (json:"-"). *)
Definition file_no_secret {N} (t : PluginConfigFromFile N) : Prop :=
  no_secret (RawPluginConfig t) ∧ Forall (λ n, no_secret (NodeConfig n)) (NodeSpecificConfigs t).

Lemma no_secret_map {N N'} (f : N → N') c : no_secret (plugin_map f c) ↔ no_secret c.
Proof. unfold no_secret, plugin_map. cbn. setoid_rewrite Forall_fmap. split; intros H []; apply (H AuthSecret) || apply (H CertSecret). Qed.

Lemma get_overwrite k a b : get_secret k (overwrite a b) = or_str (get_secret k b) (get_secret k a).
Proof. by destruct k. Qed.

Lemma no_secret_overwrite_fs k l c :
  Forall (λ f, get_secret k (Config f) = EmptyString) l → get_secret k (Config c) = EmptyString →
  Forall (λ f, get_secret k (Config f) = EmptyString) (overwrite_fs l c).
Proof.
  intros Hl Hc. unfold overwrite_fs. destruct (existsb _ l).
  - apply Forall_fmap. eapply Forall_impl; [exact Hl|]. intros f Hf. cbn. case_bool_decide; [|done].
    cbn [Config]. unfold or_str. by rewrite get_overwrite, Hc, Hf.
  - apply Forall_app. split; [done|]. by constructor.
Qed.

Lemma no_secret_nodes nodeID nodes : ∀ c,
  no_secret c → Forall (λ n, no_secret (NodeConfig n)) nodes → no_secret (foldl (apply_node_pure nodeID) c nodes).
Proof.
  induction nodes as [|n nodes IH]; intros c Hc Hn; [done|]. cbn [foldl].
  apply Forall_cons in Hn as [Hn1 Hn]. apply IH; [|done]. unfold apply_node_pure.
  destruct (applies_to nodeID n); [|done]. intros k. destruct (Hn1 k) as [Hd Hf]. destruct (Hc k) as [Hcd Hcf].
  split; cbn [DefaultConfig FileSystemSpecificConfigs].
  - rewrite get_overwrite, Hd, Hcd. done.
  - clear Hn IH Hd Hcd Hn1 Hc. revert Hcf. generalize (FileSystemSpecificConfigs c) as l.
    induction (FileSystemSpecificConfigs (NodeConfig n)) as [|f fs IHf]; intros l Hl; [done|].
    apply Forall_cons in Hf as [Hf1 Hf]. cbn [foldl]. apply IHf; [done|]. by apply no_secret_overwrite_fs.
Qed.

Section Facts.
Context {RO : RangeOrder}.
Context (UnmarshalConfig : string → result (PluginConfigFromFile yaml_conf)).
Context (UnmarshalConnAuth : string → result (list ConnAuthConfig)).
Context (UnmarshalTLSCerts : string → result (list TLSCertConfig)).
Local Abbreviation new_driver := (newBeegfsDriver UnmarshalConfig UnmarshalConnAuth UnmarshalTLSCerts).

(** ** Inversion *)

Lemma first_readable_returned paths : ∀ tr path,
  exec (first_readable paths) tr (Returned path) →
  path = EmptyString ∨ ∃ text, got (ReadFile path) (Ok text) tr.
Proof.
  induction paths as [|p paths IH]; intros tr path Hx; cbn [first_readable] in Hx.
  - apply exec_ret in Hx as [_ [= ->]]. by left.
  - xdo Hx r. destruct r as [text|err]; cbn [is_ok] in Hx.
    + apply exec_ret in Hx as [-> [= ->]]. right. exists text. auto with trace.
    + apply IH in Hx as [->|(text & H)]; [by left|]. right. exists text. auto with trace.
Qed.

Lemma find_template_returned path tr template :
  exec (find_template path) tr (Returned (Ok template)) → ∃ text, got (ReadFile template) (Ok text) tr.
Proof.
  unfold find_template. case_bool_decide; intros Hx.
  - xbind Hx p Hp. case_bool_decide; [by xret Hx|]. xret Hx.
    apply first_readable_returned in Hp as [->|(text & H')]; [done|]. exists text. auto with trace.
  - xlet Hx text Ht. apply exec_trigger in Ht as ->. xret Hx. exists text. auto with trace.
Qed.

Lemma read_config_returned path nodeID tr cfg h :
  path ≠ EmptyString → exec (read_config UnmarshalConfig path nodeID) tr (Returned (Ok (cfg, h))) →
  ∃ bytes tree, got (ReadFile path) (Ok bytes) tr ∧ UnmarshalConfig bytes = Ok tree
    ∧ parseConfigFromFile UnmarshalConfig (Ok bytes) nodeID ∅ = Done cfg h.
Proof.
  intros Hp Hx. unfold read_config in Hx. rewrite bool_decide_eq_false_2 in Hx by done. xdo Hx file.
  destruct (parseConfigFromFile UnmarshalConfig file nodeID ∅) as [c h'| |] eqn:E; [|by xret Hx|by destruct Hx].
  xret Hx. unfold parseConfigFromFile in E. destruct file as [bytes|]; [|done].
  destruct (UnmarshalConfig bytes) as [tree|] eqn:Et; [|by destruct (match_search _ _)].
  exists bytes, tree. split_and!; [by auto with trace|done|].
  unfold parseConfigFromFile. rewrite Et. exact E.
Qed.

(** What a started driver has: the stages of newBeegfsDriver, each of which
    succeeded. *)
Lemma newBeegfsDriver_returned a tr d :
  exec (new_driver a) tr (Returned (Ok d)) →
  ∃ tr1 tr2 tr3 tr4 cfg h auth plugin,
    arg_driverName a ≠ EmptyString ∧ arg_nodeID a ≠ EmptyString ∧ arg_endpoint a ≠ EmptyString
    ∧ arg_csDataDir a ≠ EmptyString
    ∧ tr = tr1 ++ tr2 ++ tr3 ++ tr4 ++ [existT (MkdirAll (arg_csDataDir a) 0x1e8) (Ok tt)]
    ∧ exec (find_template (arg_clientConfTemplatePath a)) tr1 (Returned (Ok (clientConfTemplatePath d)))
    ∧ exec (read_config UnmarshalConfig (configPath a) (arg_nodeID a)) tr2 (Returned (Ok (cfg, h)))
    ∧ exec (read_connAuth UnmarshalConnAuth (connAuthPath a) cfg) tr3 (Returned (Ok auth))
    ∧ exec (read_tlsCerts UnmarshalTLSCerts (tlsCertsPath a) auth) tr4 (Returned (Ok plugin))
    ∧ d = mkBeegfs (arg_driverName a) (arg_nodeID a) (vendorVersion (arg_version a)) (arg_endpoint a)
            (pden h plugin) (clientConfTemplatePath d) (arg_csDataDir a)
            (newIdentityServer (arg_driverName a) (vendorVersion (arg_version a))).
Proof.
  unfold newBeegfsDriver. intros Hx.
  case_bool_decide as Hn; [by xret Hx|]. case_bool_decide as Hi; [by xret Hx|]. case_bool_decide as He; [by xret Hx|].
  apply exec_let in Hx as (tr1 & ? & template & -> & H1 & Hx).
  apply exec_let in Hx as (tr2 & ? & [cfg h] & -> & H2 & Hx).
  apply exec_let in Hx as (tr3 & ? & auth & -> & H3 & Hx).
  apply exec_let in Hx as (tr4 & ? & plugin & -> & H4 & Hx).
  case_bool_decide as Hc; [by xret Hx|]. apply exec_let in Hx as (tr5 & ? & u & -> & H5 & Hx).
  apply exec_trigger in H5 as ->. destruct u. xret Hx.
  exists tr1, tr2, tr3, tr4, cfg, h, auth, plugin. by split_and!.
Qed.

Lemma newBeeGFSCtlExecutor_returned tr ctl :
  exec newBeeGFSCtlExecutor tr (Returned (Ok ctl)) → ctl = beegfsCtlDispatcher.
Proof.
  unfold newBeeGFSCtlExecutor. intros Hx. xbind Hx r8 H8. xbind Hx r7 H7.
  destruct r8, (match r7 with Ok _ => _ | Err _ => _ end); by xret Hx.
Qed.

(** C32: a driver that started found the BeeGFS client module loaded or
    installed, has a name, a node ID and an endpoint, read the client
    configuration template both services use, made its data directory, and
    identifies itself by its name and version; both services run the BeeGFS tools
    through the dispatcher with the same configuration, and the controller's tables
    are empty. *)
Theorem driver_ready a tr d ns cs locks statuses :
  exec (NewBeegfsDriver UnmarshalConfig UnmarshalConnAuth UnmarshalTLSCerts a) tr
    (Returned (Ok (d, ns, (cs, locks, statuses)))) →
  ((∃ c, got (RunCmd "lsmod" []) c tr ∧ cmd_err c = None ∧ Contains (cmd_stdout c) "beegfs" = true)
   ∨ (∃ c, got (RunCmd "modprobe" ["-R"; "beegfs"]) c tr ∧ cmd_err c = None))
  ∧ driverName d ≠ EmptyString ∧ nodeID d ≠ EmptyString ∧ endpoint d ≠ EmptyString
  ∧ (∃ text, got (ReadFile (clientConfTemplatePath d)) (Ok text) tr)
  ∧ got (MkdirAll (b_csDataDir d) 0x1e8) (Ok tt) tr
  ∧ GetPluginInfo (ids d) = respond (driverName d, version d)
  ∧ ns = mkNodeServer beegfsCtlDispatcher (nodeID d) (pluginConfig d) (clientConfTemplatePath d)
  ∧ cs = mkControllerServer beegfsCtlDispatcher (nodeID d) (pluginConfig d) (clientConfTemplatePath d)
           (b_csDataDir d) (arg_nodeUnstageTimeout a)
  ∧ locks = newThreadSafeStringLock ∧ statuses = newThreadSafeStatusMap.
Proof.
  unfold NewBeegfsDriver. intros Hx.
  apply exec_let in Hx as (trv & ? & u & -> & Hv & Hx). destruct u.
  apply exec_let in Hx as (trd & ? & d' & -> & Hd & Hx).
  apply exec_let in Hx as (trn & ? & ns' & -> & Hns & Hx). apply exec_let in Hx as (trc & ? & cs' & -> & Hcs & Hx).
  xret Hx. unfold newNodeServer in Hns. xlet Hns ctl Hctl. apply newBeeGFSCtlExecutor_returned in Hctl as ->. xret Hns.
  unfold newControllerServer in Hcs. xlet Hcs ctl Hctl. apply newBeeGFSCtlExecutor_returned in Hctl as ->. xret Hcs.
  apply verifyBeegfsClientModule_spec in Hv as [Hv _]. specialize (Hv eq_refl).
  apply newBeegfsDriver_returned in Hd as
    (tr1 & tr2 & tr3 & tr4 & cfg & h & auth & plugin & Hn & Hi & He & Hc & -> & H1 & _ & _ & _ & Hd).
  apply find_template_returned in H1 as (text & Ht). split; [|split_and!; try done; rewrite Hd; cbn; try done].
  - destruct Hv as [(c & Hg & Hc')|(c & Hg & Hc')]; [left|right]; exists c; auto with trace.
  - exists text. auto 12 with trace.
  - auto 20 with trace.
  - unfold GetPluginInfo, vendorVersion. cbn. rewrite bool_decide_eq_false_2 by done.
    by destruct (bool_decide (arg_version a = EmptyString)) eqn:E; bools; rewrite ?bool_decide_eq_false_2.
Qed.

(** The documented behaviour of the decoder that matters here. *)
Definition secrets_not_decoded : Prop := ∀ bytes tree, UnmarshalConfig bytes = Ok tree → file_no_secret tree.

(** What the configuration file that the arguments name, if any, gives a host. *)
Definition file_settings (a : driver_args) (tr : io_trace) (base : string → layer) : Prop :=
  (configPath a = EmptyString ∧ ∀ host, base host = no_layer)
  ∨ ∃ bytes tree, got (ReadFile (configPath a)) (Ok bytes) tr ∧ UnmarshalConfig bytes = Ok tree
      ∧ ∀ host, base host = conf_map strip (compose (layers_for (arg_nodeID a) host tree)).
(** The entries of a file of secrets, if one is named. *)
Definition file_entries {A} (Unmarshal : string → result (list A)) (path : string) (tr : io_trace) (l : list A) : Prop :=
  (path = EmptyString ∧ l = []) ∨ ∃ bytes, got (ReadFile path) (Ok bytes) tr ∧ Unmarshal bytes = Ok l.

Lemma read_config_settings a tr cfg h :
  secrets_not_decoded → exec (read_config UnmarshalConfig (configPath a) (arg_nodeID a)) tr (Returned (Ok (cfg, h))) →
  no_secret cfg ∧ file_settings a tr (λ host, squash host (pden h cfg)).
Proof.
  intros Hns Hx. destruct (decide (configPath a = EmptyString)) as [E|E].
  { unfold read_config in Hx. rewrite bool_decide_eq_true_2 in Hx by done. xret Hx.
    split; [by intros []|]. left. split; [done|]. intros host. reflexivity. }
  apply read_config_returned in Hx as (bytes & tree & Hg & Hu & Hp); [|done].
  destruct (parse_done _ _ _ _ _ _ _ Hu Hp) as (_ & _ & Hpd). split.
  - apply (no_secret_map (deref h)). change (plugin_map (deref h) cfg) with (pden h cfg). rewrite Hpd.
    destruct (Hns _ _ Hu) as [Hraw Hnodes]. apply no_secret_map, no_secret_nodes; [by apply no_secret_map|].
    apply Forall_fmap. eapply Forall_impl; [exact Hnodes|]. intros n Hn. by apply no_secret_map.
  - right. exists bytes, tree. split_and!; [done..|]. intros host. by rewrite Hpd, squash_strip, squash_nodes.
Qed.

Lemma read_connAuth_entries path cfg tr c :
  exec (read_connAuth UnmarshalConnAuth path cfg) tr (Returned (Ok c)) →
  ∃ auths, file_entries UnmarshalConnAuth path tr auths ∧ apply_ConnAuths auths cfg = Ok c.
Proof.
  unfold read_connAuth, file_entries. case_bool_decide as E; intros Hx; [xret Hx; exists []; auto|].
  xdo Hx file. destruct file as [bytes|]; cbn [parseConnAuthFromFile] in Hx; [|by xret Hx].
  destruct (UnmarshalConnAuth bytes) as [auths|] eqn:Eu; [|by xret Hx].
  destruct (apply_ConnAuths auths cfg) eqn:Ea; [|by xret Hx]. xret Hx. exists auths. split; [|done].
  right. exists bytes. auto with trace.
Qed.
Lemma read_tlsCerts_entries path cfg tr c :
  exec (read_tlsCerts UnmarshalTLSCerts path cfg) tr (Returned (Ok c)) →
  ∃ certs, file_entries UnmarshalTLSCerts path tr certs
    ∧ c = foldl (λ c t, set_or_append (tls_SysMgmtdHost t) (set_TLSCert (tls_TLSCert t +:+ newline)) c) cfg certs.
Proof.
  unfold read_tlsCerts, file_entries. case_bool_decide as E; intros Hx; [xret Hx; exists []; auto|].
  xdo Hx file. destruct file as [bytes|]; cbn [parseTLSCertsFromFile] in Hx; [|by xret Hx].
  destruct (UnmarshalTLSCerts bytes) as [certs|] eqn:Eu; [|by xret Hx]. xret Hx. exists certs. split; [|done].
  right. exists bytes. auto with trace.
Qed.

Lemma file_entries_app {A} (U : string → result (list A)) path tr tr' tr'' l :
  file_entries U path tr l → file_entries U path (tr' ++ tr ++ tr'') l.
Proof. intros [H|(bytes & Hg & Hu)]; [by left|right]. exists bytes. auto with trace. Qed.

(** C33: a volume that a started driver makes gets the settings that the layers
    of the configuration file give its file system on the node, in the order of
    the code, or none if no file is named; the secret of the last entry that the
    connAuth file has for its management host; and that host's last certificate of
    the tlsCerts file. A file that is not named gives no secret. The decoder is
    assumed not to read secrets from the configuration file, in which they are
    not fields. *)
Theorem driver_settings a tr d :
  secrets_not_decoded → exec (new_driver a) tr (Returned (Ok d)) →
  ∃ base auths certs,
    file_settings a tr base
    ∧ file_entries UnmarshalConnAuth (connAuthPath a) tr auths
    ∧ file_entries UnmarshalTLSCerts (tlsCertsPath a) tr certs
    ∧ ∀ dir host path, newBeegfsVolume dir host path (pluginConfig d)
        = mret (make_volume dir host path
            (set_TLSCert (default EmptyString (file_cert host certs))
               (set_ConnAuth (default EmptyString (file_secret host auths)) (base host)))).
Proof.
  intros Hns (tr1 & tr2 & tr3 & tr4 & cfg & h & auth & plugin & _ & _ & _ & _ & -> & _ & H2 & H3 & H4 & Hd)
    %newBeegfsDriver_returned.
  apply (read_config_settings _ _ _ _ Hns) in H2 as [Hsec Hset].
  apply read_connAuth_entries in H3 as (auths & Ha & Hauth). apply read_tlsCerts_entries in H4 as (certs & Ht & ->).
  exists (λ host, squash host (pden h cfg)), auths, certs. split_and!.
  - destruct Hset as [H|(bytes & tree & Hg & H)]; [by left|right]. exists bytes, tree. split; [auto with trace|done].
  - rewrite (app_assoc tr1). by apply file_entries_app.
  - rewrite (app_assoc tr1), (app_assoc (tr1 ++ tr2)). by apply file_entries_app.
  - intros dir host path. rewrite newBeegfsVolume_run. unfold volume_of. rewrite Hd. cbn [pluginConfig].
    by rewrite (secrets_squash _ _ _ _ _ _ Hsec Hauth).
Qed.
End Facts.

Module Example.

#[local] Existing Instance list_order.

Definition args : driver_args :=
  mkArgs "/auth.yaml" "/certs.yaml" "/config.yaml" "/csi" "beegfs.csi.netapp.com" "unix://tmp/csi.sock" "node1"
    EmptyString "v1.8.0" 30.
Definition decode_config (_ : string) : result (PluginConfigFromFile yaml_conf) := Ok ConfigParse.Example.tree.
Definition decode_auth (_ : string) : result (list ConnAuthConfig) := Ok ConfigParse.Example.auths.
Definition decode_certs (_ : string) : result (list TLSCertConfig) := Ok [mkTLSCertConfig "127.0.0.1" "cert"].

Definition p := newBeegfsDriver decode_config decode_auth decode_certs args.
Definition q := NewBeegfsDriver decode_config decode_auth decode_certs args.

Definition started {A} (o : ending (result A)) : bool := match o with Returned (Ok _) => true | _ => false end.

Lemma driver_settings_witness :
  ∃ d base auths certs, sim_ending p sim0 = Returned (Ok d)
    ∧ file_settings decode_config args (sim_trace p sim0) base
    ∧ newBeegfsVolume "/csi" "127.0.0.1" "/vol" (pluginConfig d)
      = mret (make_volume "/csi" "127.0.0.1" "/vol"
          (set_TLSCert (default EmptyString (file_cert "127.0.0.1" certs))
             (set_ConnAuth (default EmptyString (file_secret "127.0.0.1" auths)) (base "127.0.0.1")))).
Proof.
  assert (started (sim_ending p sim0) = true) as Hs by (vm_compute; reflexivity).
  destruct (sim_ending p sim0) as [[d|]| |] eqn:E; [|discriminate Hs..]. exists d.
  destruct (driver_settings decode_config decode_auth decode_certs args (sim_trace p sim0) d)
    as (base & auths & certs & Hb & _ & _ & Hall).
  - intros bytes tree [= <-]. split; [intros []; by repeat constructor|].
    constructor; [intros []; by repeat constructor|constructor].
  - rewrite <- E. apply sim_exec.
  - exists base, auths, certs. split; [reflexivity|]. split; [exact Hb|apply Hall].
Defined.

Lemma driver_ready_witness :
  ∃ d ns cs, sim_ending q sim0 = Returned (Ok (d, ns, cs)) ∧ driverName d ≠ EmptyString
    ∧ ns = mkNodeServer beegfsCtlDispatcher (nodeID d) (pluginConfig d) (clientConfTemplatePath d).
Proof.
  assert (started (sim_ending q sim0) = true) as Hs by (vm_compute; reflexivity).
  destruct (sim_ending q sim0) as [[[[d ns] [[cs l] st]]|]| |] eqn:E; [|discriminate Hs..]. exists d, ns, (cs, l, st).
  destruct (driver_ready decode_config decode_auth decode_certs args (sim_trace q sim0) d ns cs l st)
    as (_ & Hn & _ & _ & _ & _ & _ & Hns & _); [rewrite <- E; apply sim_exec|].
  split; [reflexivity|]. split; [exact Hn|exact Hns].
Defined.
End Example.
