(* ===== verification/CommandLine.v ===== *)
(** * CommandLine: the driver's command line (cmd/beegfs-csi-driver/main.go)

    From the arguments of the process to the arguments of NewBeegfsDriver. klog
    registers flags of its own with package flag; they are a parameter. *)
From S2P Require Import Prelude GoStrings GoFlag GoPath Prog World Csi ControllerServer NodeServer Server Driver.
Local Open Scope Z_scope.

(** ** The flags *)

Definition driver_flags : FlagSet := list_to_map
  [("connauth-path", FString EmptyString);
   ("tlscerts-path", FString EmptyString);
   ("config-path", FString EmptyString);
   ("cs-data-dir", FString "/tmp/beegfs-csi-data-dir");
   ("driver-name", FString "beegfs.csi.netapp.com");
   ("endpoint", FString "unix://tmp/csi.sock");
   ("node-id", FString EmptyString);
   ("version", FBool false);
   ("client-conf-template-path", FString EmptyString);
   ("node-unstage-timeout", FUint64 0)].

(** The arguments that [handle] passes to NewBeegfsDriver. *)
Definition flag_args (version : string) (fs : FlagSet) : driver_args :=
  mkArgs (get_string fs "connauth-path") (get_string fs "tlscerts-path") (get_string fs "config-path")
    (get_string fs "cs-data-dir") (get_string fs "driver-name") (get_string fs "endpoint") (get_string fs "node-id")
    (get_string fs "client-conf-template-path") version (get_uint64 fs "node-unstage-timeout").

(** ** main *)

Inductive main_action :=
  | ExitWith (status : Z)
  | PrintVersion (line : string)
  | Handle (args : driver_args).

(** [main] up to the call of [handle]; the process exits with 0 after it, and
    after printing the version. [LogFatal] exits with 255. *)
Definition main (klog_flags : FlagSet) (version : string) (Args : list string) : main_action :=
  match Set_ (klog_flags ∪ driver_flags) "logtostderr" "true" with
  | None => ExitWith 255
  | Some fs =>
      match Parse fs (tail Args) with
      | ErrHelp => ExitWith 0
      | ParseError => ExitWith 2
      | Parsed fs _ =>
          if get_bool fs "version" then PrintVersion (Base (default EmptyString (head Args)) +:+ " " +:+ version)
          else Handle (flag_args version fs)
      end
  end.

(** [handle], with the result of NewBeegfsDriver: the process it makes. *)
Definition handle (r : result beegfs) : process :=
  match r with
  | Err err => Exited 255
  | Ok driver => Running newNonBlockingGRPCServer (Run driver) []
  end.

(** ** Facts *)

(** A command line that gives every argument. *)
Definition command_line (a : driver_args) : list string :=
  ["--connauth-path=" +:+ connAuthPath a; "--tlscerts-path=" +:+ tlsCertsPath a; "--config-path=" +:+ configPath a;
   "--cs-data-dir=" +:+ arg_csDataDir a; "--driver-name=" +:+ arg_driverName a; "--endpoint=" +:+ arg_endpoint a;
   "--node-id=" +:+ arg_nodeID a; "--client-conf-template-path=" +:+ arg_clientConfTemplatePath a;
   "--node-unstage-timeout=" +:+ FormatUint (arg_nodeUnstageTimeout a) 10].

(** What klog documents: a boolean flag logtostderr, and no name of the driver's. *)
Definition klog_ok (klog_flags : FlagSet) : Prop :=
  klog_flags ##ₘ driver_flags ∧ ∃ b, klog_flags !! "logtostderr" = Some (FBool b).

Lemma Parse_set fs arg name v f f' rest :
  shape arg = FlagArg name (Some v) → fs !! name = Some f → set_flag f v = Some f' →
  Parse fs (arg :: rest) = Parse (<[name := f']> fs) rest.
Proof. intros Hs Hf Hset. cbn [Parse]. rewrite Hs, Hf. cbn. rewrite Hset. by destruct (IsBoolFlag f). Qed.

Lemma driver_flag klog_flags name f :
  klog_ok klog_flags → driver_flags !! name = Some f → (klog_flags ∪ driver_flags) !! name = Some f.
Proof. intros [Hd _] Hf. by apply lookup_union_Some_r. Qed.

Ltac find_flag := rewrite ?lookup_insert_ne by discriminate;
  first [apply lookup_insert_eq|apply driver_flag; [done|reflexivity]].

(** C34: the driver is started with exactly the arguments that its command line
    gives: each flag reaches its parameter of NewBeegfsDriver, whatever text or
    64-bit number it has. With the flag version as well it prints the version
    and starts nothing. *)
Theorem command_line_roundtrip klog_flags prog_ a :
  klog_ok klog_flags → 0 <= arg_nodeUnstageTimeout a < 2 ^ 64 →
  main klog_flags (arg_version a) (prog_ :: command_line a) = Handle a
  ∧ main klog_flags (arg_version a) (prog_ :: command_line a ++ ["--version"])
    = PrintVersion (Base prog_ +:+ " " +:+ arg_version a).
Proof.
  intros Hk Ht. pose proof Hk as [_ [b Hb]]. unfold main.
  assert (Set_ (klog_flags ∪ driver_flags) "logtostderr" "true"
          = Some (<["logtostderr" := FBool true]> (klog_flags ∪ driver_flags))) as ->.
  { unfold Set_. by rewrite (lookup_union_Some_l _ _ _ _ Hb). }
  unfold command_line. cbn [tail app].
  assert (∀ rest, ∃ fs, flag_args (arg_version a) fs = a ∧ fs !! "version" = Some (FBool false)
    ∧ Parse (<["logtostderr" := FBool true]> (klog_flags ∪ driver_flags)) (command_line a ++ rest) = Parse fs rest) as H.
  { intros rest. eexists. unfold command_line. cbn [app]. split_and!; last first.
    { do 8 (erewrite (Parse_set _ _ _ _ (FString _)); [|reflexivity|find_flag|reflexivity]).
      erewrite (Parse_set _ _ _ (FormatUint (arg_nodeUnstageTimeout a) 10) (FUint64 _) (FUint64 (arg_nodeUnstageTimeout a)));
        [reflexivity|reflexivity|find_flag|]. unfold set_flag. by rewrite ParseUint0_FormatUint. }
    { find_flag. }
    destruct a as [p1 p2 p3 p4 p5 p6 p7 p8 p9 p10]. unfold flag_args, get_string, get_uint64. cbn [connAuthPath tlsCertsPath configPath arg_csDataDir arg_driverName
      arg_endpoint arg_nodeID arg_clientConfTemplatePath arg_version arg_nodeUnstageTimeout].
    repeat (rewrite lookup_insert_eq || rewrite lookup_insert_ne by discriminate). reflexivity. }
  split.
  - destruct (H []) as (fs & Ha & Hv & Hp). unfold command_line in Hp. cbn [app] in Hp. rewrite Hp. cbn [Parse].
    unfold get_bool. by rewrite Hv, Ha.
  - destruct (H ["--version"]) as (fs & Ha & Hv & Hp). unfold command_line in Hp. cbn [app] in Hp. rewrite Hp.
    assert (Parse fs ["--version"] = Parsed (<["version" := FBool true]> fs) []) as ->.
    { cbn [Parse]. change (shape "--version") with (FlagArg "version" None). cbn. by rewrite Hv. }
    unfold get_bool. by rewrite lookup_insert_eq.
Qed.

Definition example_args : driver_args :=
  mkArgs EmptyString EmptyString "/config.yaml" "/csi" "beegfs" "unix:///csi.sock" "node1" EmptyString "v1" 18446744073709551615.

Lemma command_line_roundtrip_witness :
  main {["logtostderr" := FBool false]} "v1" ("/bin/beegfs-csi-driver" :: command_line example_args) = Handle example_args.
Proof.
  destruct (command_line_roundtrip {["logtostderr" := FBool false]} "/bin/beegfs-csi-driver" example_args) as [H _].
  - split; [|by exists false]. apply map_disjoint_singleton_l. reflexivity.
  - split; vm_compute; congruence.
  - exact H.
Defined.
