(* ===== verification/Chwrap.v ===== *)
(** * Chwrap: running a host's binary from the container (cmd/chwrap/main.go)

    The container's beegfs-ctl, lsmod and so on are links to chwrap, which looks
    for the binary of the same name in the host's file system, mounted at /host,
    and runs it there. *)
From S2P Require Import Prelude GoStrings Prog.
Local Open Scope Z_scope.

Inductive chwrap_event :=
  | Lstat (path : string)
  | Chroot (path : string)
  | Chdir (path : string)
  | Exec (argv0 : string) (argv env : list string).
(** The mode of a file, if it can be read; the error of a call, if any. *)
Definition chwrap_response (e : chwrap_event) : Type :=
  match e with Lstat _ => option Z | _ => option goerr end.
Abbreviation chwrap_io := (prog chwrap_event chwrap_response).

(** ** Finding the binary *)

Definition S_IFMT : Z := 0xf000.
Definition S_IFREG : Z := 0x8000.
Definition S_IFLNK : Z := 0xa000.
Definition S_IRUSR : Z := 0x100.
Definition S_IXUSR : Z := 0x40.

(** What [validBinary] makes of the answer of Lstat. *)
Definition valid_stat (stat : option Z) : bool :=
  match stat with
  | None => false
  | Some mode =>
      if negb (Z.land mode S_IFMT =? S_IFREG) && negb (Z.land mode S_IFMT =? S_IFLNK) then false
      else if (Z.land mode S_IRUSR =? 0) || (Z.land mode S_IXUSR =? 0) then false
      else true
  end.
Definition validBinary (path : string) : chwrap_io bool :=
  stat ← trigger (Lstat path); mret (valid_stat stat).

(** The paths [findBinary] tries, in its order. *)
Definition candidates (binary : string) : list string :=
  part1 ← ["var/lib/kubelet/plugins/beegfs.csi.netapp.com/client/"; "usr/local/"; "usr/"; EmptyString];
  part2 ← ["sbin"; "bin"];
  ["/" +:+ part1 +:+ part2 +:+ "/" +:+ binary].
Fixpoint find_in (prefix : string) (paths : list string) : chwrap_io string :=
  match paths with
  | [] => mret EmptyString
  | path :: r =>
      valid ← validBinary (prefix +:+ path);
      if valid : bool then mret path else find_in prefix r
  end.
Definition findBinary (prefix binary : string) : chwrap_io string := find_in prefix (candidates binary).

(** ** Running it *)

Definition host_path : string :=
  "PATH=/var/lib/kubelet/plugins/beegfs.csi.netapp.com/client/sbin:" +:+
  "/usr/local/sbin:/usr/local/bin:/usr/sbin:/usr/bin:/sbin:/bin".
Definition modifyEnv (oldEnv : list string) : list string :=
  foldl (λ newEnv e, if negb (HasPrefix e "PATH=") then newEnv ++ [e] else newEnv) [] oldEnv ++ [host_path].

(** How the process ends when none of its calls fails. *)
Inductive exit := Exit (status : Z) | Replaced.

(** [main] once it has found the binary. *)
Definition exec_on_host (argv0 : string) (args environ : list string) : chwrap_io exit :=
  err ← trigger (Chroot "/host");
  match err with Some e => Panic (error_text e) | None =>
  err ← trigger (Chdir "/");
  match err with Some e => Panic (error_text e) | None =>
  err ← trigger (Exec argv0 args (modifyEnv environ));
  match err with Some e => Panic (error_text e) | None => mret Replaced end
  end end.
Definition main (args environ : list string) : chwrap_io exit :=
  match args with
  | [] => Panic "index out of range"
  | arg0 :: _ =>
      let binary := match cut_last_byte "/"%char arg0 with Some (_, b) => b | None => arg0 end in
      argv0 ← findBinary "/host" binary;
      if bool_decide (argv0 = EmptyString) then mret (Exit 127) else
      exec_on_host argv0 args environ
  end.

(** ** Facts *)

Lemma modifyEnv_filter env : modifyEnv env = filter (λ e, HasPrefix e "PATH=" = false) env ++ [host_path].
Proof.
  unfold modifyEnv. f_equal.
  assert (∀ acc, foldl (λ newEnv e, if negb (HasPrefix e "PATH=") then newEnv ++ [e] else newEnv) acc env
    = acc ++ filter (λ e, HasPrefix e "PATH=" = false) env) as H; [|by rewrite H].
  induction env as [|e env IH]; intros acc; [by rewrite app_nil_r|]. cbn [foldl]. rewrite filter_cons.
  destruct (HasPrefix e "PATH="); cbn [negb]; rewrite IH; [by rewrite decide_False|].
  rewrite decide_True by done. by rewrite <- app_assoc.
Qed.

Lemma find_in_returned prefix paths : ∀ tr path,
  exec (find_in prefix paths) tr (Returned path) →
  (path = EmptyString ∧ Forall (λ p, ∃ st, got (Lstat (prefix +:+ p)) st tr ∧ valid_stat st = false) paths)
  ∨ ∃ l1 l2 st, paths = l1 ++ path :: l2 ∧ got (Lstat (prefix +:+ path)) st tr ∧ valid_stat st = true
      ∧ Forall (λ p, ∃ st, got (Lstat (prefix +:+ p)) st tr ∧ valid_stat st = false) l1.
Proof.
  induction paths as [|p paths IH]; intros tr path Hx; cbn [find_in] in Hx.
  { destruct Hx as [-> [= ->]]. left. by split. }
  apply exec_bind_returned in Hx as (tr1 & tr2 & valid & -> & (st & tr0 & -> & [-> [= ->]]) & Hx).
  assert (∀ l, Forall (λ p, ∃ st, got (Lstat (prefix +:+ p)) st tr2 ∧ valid_stat st = false) l →
    Forall (λ q, ∃ st', got (Lstat (prefix +:+ q)) st' ([existT (Lstat (prefix +:+ p)) st] ++ tr2)
      ∧ valid_stat st' = false) l) as Hmono.
  { intros l Hl. eapply Forall_impl; [exact Hl|]. intros q (st' & Hg & Hs). exists st'. split; [by right|done]. }
  destruct (valid_stat st) eqn:Hv.
  - destruct Hx as [-> [= ->]]. right. exists [], paths, st. split_and!; [done|by left|done|constructor].
  - apply IH in Hx as [(-> & Hall)|(l1 & l2 & st' & -> & Hg & Hs & Hall)].
    + left. split; [done|]. constructor; [exists st; split; [by left|done]|by apply Hmono].
    + right. exists (p :: l1), l2, st'. split_and!; [done|by right|done|].
      constructor; [exists st; split; [by left|done]|by apply Hmono].
Qed.

Lemma find_in_always prefix paths : always (λ e, ∃ p, e = Lstat p) (find_in prefix paths).
Proof.
  induction paths as [|p paths IH]; cbn [find_in]; [done|]. split; [by eexists|]. intros st. cbn.
  by destruct (valid_stat st).
Qed.

Lemma find_in_returns prefix paths : ∀ tr o, exec (find_in prefix paths) tr o → ∃ path, o = Returned path.
Proof.
  induction paths as [|p paths IH]; intros tr o Hx; [destruct Hx as [_ ->]; by eexists|].
  destruct Hx as (st & tr' & -> & Hx). cbn in Hx. destruct (valid_stat st); [destruct Hx as [_ ->]; by eexists|eauto].
Qed.

Lemma candidates_absolute binary : EmptyString ∉ candidates binary.
Proof. cbn. set_solver. Qed.

Lemma exec_on_host_spec argv0 args env tr o :
  exec (exec_on_host argv0 args env) tr o →
  ∀ a av e, did (Exec a av e) tr →
    Exec a av e = Exec argv0 args (modifyEnv env) ∧ got (Chroot "/host") None tr ∧ got (Chdir "/") None tr.
Proof.
  intros Hx a av e (r & Hin).
  destruct Hx as ([e1|] & tr3 & -> & Hx); cbn in Hx.
  { destruct Hx as [-> _]. by apply elem_of_cons in Hin as [Hin|Hin%elem_of_nil]. }
  apply elem_of_cons in Hin as [Hin|Hin]; [done|]. destruct Hx as ([e2|] & tr4 & -> & Hx); cbn in Hx.
  { destruct Hx as [-> _]. by apply elem_of_cons in Hin as [Hin|Hin%elem_of_nil]. }
  apply elem_of_cons in Hin as [Hin|Hin]; [done|]. destruct Hx as (e3 & tr5 & -> & Hx); cbn in Hx.
  assert (tr5 = []) as -> by (by destruct e3, Hx).
  apply elem_of_cons in Hin as [Hin|Hin%elem_of_nil]; [|done].
  split_and!; [exact (f_equal (@projT1 _ _) Hin)|by left|right; by left].
Qed.

(** C37: chwrap runs nothing but the first of its candidate paths that is a
    file or link of the host with the owner's read and execute bits, after it
    entered the host's root, with its own arguments and an environment in
    which PATH, and nothing else, is replaced. Without such a path it runs
    nothing and exits with status 127. *)
Theorem chwrap_runs_host_binary arg0 args env tr o :
  exec (main (arg0 :: args) env) tr o →
  let binary := match cut_last_byte "/"%char arg0 with Some (_, b) => b | None => arg0 end in
  let invalid p := ∃ st, got (Lstat ("/host" +:+ p)) st tr ∧ valid_stat st = false in
  (Forall invalid (candidates binary) ∧ o = Returned (Exit 127) ∧ ∀ a av e, ¬ did (Exec a av e) tr)
  ∨ ∃ l1 argv0 l2 st,
      candidates binary = l1 ++ argv0 :: l2 ∧ Forall invalid l1
      ∧ got (Lstat ("/host" +:+ argv0)) st tr ∧ valid_stat st = true
      ∧ ∀ a av e, did (Exec a av e) tr →
          a = argv0 ∧ av = arg0 :: args ∧ e = filter (λ v, HasPrefix v "PATH=" = false) env ++ [host_path]
          ∧ got (Chroot "/host") None tr ∧ got (Chdir "/") None tr.
Proof.
  intros Hx binary invalid. unfold main in Hx. fold binary in Hx.
  apply exec_bind_inv in Hx as [(tr1 & tr2 & argv0 & -> & Hf & Hx)|(o' & Hf & Hr & _)].
  2: { apply find_in_returns in Hf as (path & ->). by destruct (Hr path). }
  assert (∀ a av e, ¬ did (Exec a av e) tr1) as Hno.
  { intros a av e (r & Hin). pose proof (always_exec _ _ _ _ (find_in_always _ _) Hf) as Hall.
    rewrite Forall_forall in Hall. destruct (Hall _ Hin) as (p & [=]). }
  assert (∀ l, Forall (λ p, ∃ st, got (Lstat ("/host" +:+ p)) st tr1 ∧ valid_stat st = false) l →
    Forall invalid l) as Hmono.
  { intros l Hl. eapply Forall_impl; [exact Hl|]. intros p (st & Hg & Hs). exists st.
    split; [apply elem_of_app; by left|done]. }
  apply find_in_returned in Hf as [[-> Hall]|(l1 & l2 & st & Hl & Hg & Hs & Hall)].
  { left. destruct Hx as [-> ->]. split_and!; [auto|done|]. by rewrite app_nil_r. }
  right. exists l1, argv0, l2, st. rewrite bool_decide_false in Hx.
  2: { intros ->. apply (candidates_absolute binary). rewrite Hl. apply elem_of_app. right. by left. }
  split_and!; [done|auto|apply elem_of_app; by left|done|]. intros a av e (r & Hin).
  apply elem_of_app in Hin as [Hin|Hin]; [destruct (Hno a av e); by exists r|].
  destruct (exec_on_host_spec _ _ _ _ _ Hx a av e) as ([= -> -> ->] & Hc & Hd); [by exists r|].
  split_and!; [done..|apply modifyEnv_filter|apply elem_of_app; by right|apply elem_of_app; by right].
Qed.

Module Example.

(** A host whose beegfs-ctl is linked from /usr/local/bin. *)
Definition host (e : chwrap_event) (w : unit) : chwrap_response e * unit :=
  match e with
  | Lstat p => (if bool_decide (p = "/host/usr/local/bin/beegfs-ctl") then Some 0xa1ff else None, w)
  | Chroot _ | Chdir _ | Exec _ _ _ => (None, w)
  end.
Definition p := main ["/usr/bin/beegfs-ctl"; "--help"] ["HOME=/root"; "PATH=/bin"].

Lemma chwrap_runs_host_binary_witness :
  got (R := chwrap_response) (Exec "/usr/local/bin/beegfs-ctl" ["/usr/bin/beegfs-ctl"; "--help"]
    ["HOME=/root"; host_path]) None (run host p tt).1.1
  ∧ got (R := chwrap_response) (Chroot "/host") None (run host p tt).1.1.
Proof.
  assert (got (R := chwrap_response) (Exec "/usr/local/bin/beegfs-ctl" ["/usr/bin/beegfs-ctl"; "--help"]
    ["HOME=/root"; host_path]) None (run host p tt).1.1) as Hd.
  { apply (list_elem_of_lookup_2 _ 6). vm_compute. reflexivity. }
  split; [exact Hd|].
  destruct (chwrap_runs_host_binary "/usr/bin/beegfs-ctl" ["--help"] ["HOME=/root"; "PATH=/bin"] (run host p tt).1.1
    (run host p tt).1.2 (run_exec host p tt)) as [(_ & _ & Hno)|(l1 & argv0 & l2 & st & _ & _ & _ & _ & H)].
  - exfalso. exact (Hno _ _ _ (ex_intro _ None Hd)).
  - exact (proj1 (proj2 (proj2 (proj2 (H _ _ _ (ex_intro _ None Hd)))))).
Defined.
End Example.
