(* ===== verification/FilterJunit.v ===== *)
(** * FilterJunit: merging and filtering test reports (release-tools/filter-junit.go)

    The command reads JUnit files, keeps the test cases whose names match a
    regular expression, one per name, and writes them as one file. Reading and
    writing of files are events. Between bytes and elements, encoding/xml is a
    parameter ([parse_xml], [print_xml]), as is the compiler of regular
    expressions; between elements and the structs of the program, what
    encoding/xml does with their tags is modelled. *)
From S2P Require Import Prelude GoStrings GoFlag Prog.
Local Open Scope nat_scope.

(** ** Elements *)

Inductive node :=
  | Text (s : string)
  | Elem (name : string) (attrs : list (string * string)) (content : list node).
Definition element : Type := string * list (string * string) * list node.

(** The character data of an element, without that of the elements in it. *)
Fixpoint chardata (content : list node) : string :=
  match content with
  | [] => EmptyString
  | Text s :: r => s +:+ chardata r
  | Elem _ _ _ :: r => chardata r
  end.

(** ** Test reports *)

Definition SkipReason : Type := string.
Record TestCase := mkTestCase {
  Name : string;
  Time : string;
  SystemOut : string;
  SystemErr : string;
  Failure : string;
  Skipped : SkipReason
}.
#[export] Instance TestCase_eq_dec : EqDecision TestCase.
Proof. solve_decision. Defined.
(** The [XMLName] fields only carry the tags with the elements' names. *)
Record TestSuite := mkTestSuite { TestCases : list TestCase }.
Record TestResults := mkTestResults { TestSuite_ : TestSuite }.

Definition UnmarshalText (text : string) : SkipReason :=
  if bool_decide (text = EmptyString) then " " else text.
Definition MarshalText (s : SkipReason) : string :=
  if bool_decide (s = " ") then EmptyString else s.

(** *** Decoding: attributes and elements without a field are skipped *)

Definition set_attr (t : TestCase) (a : string * string) : TestCase :=
  if bool_decide (a.1 = "name") then mkTestCase a.2 (Time t) (SystemOut t) (SystemErr t) (Failure t) (Skipped t) else
  if bool_decide (a.1 = "time") then mkTestCase (Name t) a.2 (SystemOut t) (SystemErr t) (Failure t) (Skipped t) else t.
Definition set_child (t : TestCase) (n : node) : TestCase :=
  match n with
  | Text _ => t
  | Elem name _ content =>
      let s := chardata content in
      if bool_decide (name = "system-out") then mkTestCase (Name t) (Time t) s (SystemErr t) (Failure t) (Skipped t) else
      if bool_decide (name = "system-err") then mkTestCase (Name t) (Time t) (SystemOut t) s (Failure t) (Skipped t) else
      if bool_decide (name = "failure") then mkTestCase (Name t) (Time t) (SystemOut t) (SystemErr t) s (Skipped t) else
      if bool_decide (name = "skipped") then
        mkTestCase (Name t) (Time t) (SystemOut t) (SystemErr t) (Failure t) (UnmarshalText s)
      else t
  end.
Definition zero_TestCase : TestCase := mkTestCase EmptyString EmptyString EmptyString EmptyString EmptyString EmptyString.
Definition decode_TestCase (attrs : list (string * string)) (content : list node) : TestCase :=
  foldl set_child (foldl set_attr zero_TestCase attrs) content.

(** A field that is a slice gets another element, a struct is decoded in place. *)
Definition add_TestCase (s : TestSuite) (n : node) : TestSuite :=
  match n with
  | Elem name attrs content =>
      if bool_decide (name = "testcase") then mkTestSuite (TestCases s ++ [decode_TestCase attrs content]) else s
  | Text _ => s
  end.
Definition mismatch (want have : string) : goerr :=
  ErrMsg ("expected element type <" +:+ want +:+ "> but have <" +:+ have +:+ ">").
Definition decode_TestSuite (e : element) (s : TestSuite) : result TestSuite :=
  if bool_decide (e.1.1 = "testsuite") then Ok (foldl add_TestCase s e.2) else Err (mismatch "testsuite" e.1.1).
Definition add_TestSuite (s : TestSuite) (n : node) : TestSuite :=
  match n with
  | Elem name _ content => if bool_decide (name = "testsuite") then foldl add_TestCase s content else s
  | Text _ => s
  end.
Definition decode_TestResults (e : element) (r : TestResults) : result TestResults :=
  if bool_decide (e.1.1 = "testsuites") then Ok (mkTestResults (foldl add_TestSuite (TestSuite_ r) e.2))
  else Err (mismatch "testsuites" e.1.1).

(** *** Encoding, indented by two blanks *)

Definition newline (depth : nat) : node := Text (String "010" (Nat.iter depth (λ s, "  " +:+ s) EmptyString)).
Definition indented (depth : nat) (children : list node) : list node :=
  match children with
  | [] => []
  | _ => concat ((λ n, [newline (S depth); n]) <$> children) ++ [newline depth]
  end.
Definition text_of (s : string) : list node := if bool_decide (s = EmptyString) then [] else [Text s].
(** A field that is tagged omitempty. *)
Definition omitempty (name value : string) (marshal : string → string) : list node :=
  if bool_decide (value = EmptyString) then [] else [Elem name [] (text_of (marshal value))].
Definition encode_TestCase (t : TestCase) : node :=
  Elem "testcase" [("name", Name t); ("time", Time t)]
    (indented 1 (omitempty "system-out" (SystemOut t) id ++ omitempty "system-err" (SystemErr t) id
      ++ omitempty "failure" (Failure t) id ++ omitempty "skipped" (Skipped t) MarshalText)).
Definition encode_TestSuite (s : TestSuite) : element :=
  ("testsuite", [], indented 0 (encode_TestCase <$> TestCases s)).

(** ** The command *)

Inductive junit_event :=
  | ReadFile (path : string)
  | ReadStdin (len : nat)
  | WriteStdout (data : string)
  | WriteFile (path data : string).
Definition junit_response (e : junit_event) : Type :=
  match e with
  | ReadFile _ | ReadStdin _ => result string
  | WriteStdout _ | WriteFile _ _ => result unit
  end.
Abbreviation junit_io := (prog junit_event junit_response).

(** The loop that keeps one test case per matching name. *)
Definition keep (matches : string → bool) (filtered : gmap string TestCase) (testcase : TestCase) : gmap string TestCase :=
  if negb (matches (Name testcase)) then filtered else
  match filtered !! Name testcase with
  | None => <[Name testcase := testcase]> filtered
  | Some entry =>
      if negb (bool_decide (Skipped entry = EmptyString)) && bool_decide (Skipped testcase = EmptyString)
      then <[Name testcase := testcase]> filtered else filtered
  end.

Section Command.
Context (parse_xml : string → result element) (print_xml : element → result string).
Context (Compile : string → option (string → bool)).
Context (range : gmap string TestCase → list (string * TestCase)).

(** Reading into a slice: up to its length, and nothing into an empty one. *)
Definition read_stdin (data : string) : junit_io (result string) :=
  if bool_decide (data = EmptyString) then mret (Ok data) else
  r ← trigger (ReadStdin (String.length data));
  mret (match r with
        | Err err => Err err
        | Ok s => let n := Nat.min (String.length s) (String.length data) in
                  Ok (String.substring 0 n s +:+ String.substring n (String.length data - n) data)
        end).

(** What an input adds to the report; on an error the command panics. *)
Definition add_report (data : string) (junit : TestSuite) : result TestSuite :=
  match e ← parse_xml data; decode_TestSuite e junit with
  | Ok junit => Ok junit
  | Err err =>
      if bool_decide (error_text err = "expected element type <testsuite> but have <testsuites>") then
        junitv2 ← (e ← parse_xml data; decode_TestResults e (mkTestResults (mkTestSuite [])));
        Ok (mkTestSuite (TestCases junit ++ TestCases (TestSuite_ junitv2)))
      else Err err
  end.
Fixpoint read_inputs (inputs : list string) (data : string) (junit : TestSuite) : junit_io TestSuite :=
  match inputs with
  | [] => mret junit
  | input :: r =>
      data ← (if bool_decide (input = "-") then read_stdin data else trigger (ReadFile input));
      match data with
      | Err err => Panic (error_text err)
      | Ok data =>
          match add_report data junit with
          | Err err => Panic (error_text err)
          | Ok junit => read_inputs r data junit
          end
      end
  end.
Definition write_output (output data : string) : junit_io unit :=
  r ← (if bool_decide (output = "-") then trigger (WriteStdout data) else trigger (WriteFile output data));
  match r with Err err => Panic (error_text err) | Ok _ => mret tt end.

(** [main] after its flags have been parsed. *)
Definition filter_junit (output tests : string) (args : list string) : junit_io unit :=
  match Compile tests with
  | None => Panic "regexp: Compile"
  | Some re =>
      junit ← read_inputs args EmptyString (mkTestSuite []);
      let filtered := foldl (keep re) ∅ (TestCases junit) in
      match print_xml (encode_TestSuite (mkTestSuite (range filtered).*2)) with
      | Err err => Panic (error_text err)
      | Ok data => write_output output data
      end
  end.

(** [main]: the status the command exits with. *)
Definition junit_flags : FlagSet := list_to_map [("o", FString "-"); ("t", FString EmptyString)].
Definition main (Args : list string) : junit_io Z :=
  match Parse junit_flags (tail Args) with
  | ErrHelp => mret 0%Z
  | ParseError => mret 2%Z
  | Parsed fs args => _ ← filter_junit (get_string fs "o") (get_string fs "t") args; mret 0%Z
  end.
End Command.

(** ** Facts *)

(** *** Decoding what was encoded *)

Lemma foldl_indented {A} (f : A → node → A) d l : ∀ a,
  (∀ a s, f a (Text s) = a) → foldl f a (indented d l) = foldl f a l.
Proof.
  intros a Hf. unfold indented. destruct l as [|n0 l0] eqn:Hl; [done|]. rewrite <- Hl. clear Hl n0 l0.
  rewrite foldl_app. cbn [foldl newline]. unfold newline at 2. rewrite Hf.
  revert a. induction l as [|n l IH]; intros a; [done|]. cbn. unfold newline at 1. rewrite Hf. apply IH.
Qed.

Lemma chardata_text_of s : chardata (text_of s) = s.
Proof.
  unfold text_of. case_bool_decide as Hs; [done|]. cbn. apply append_nil_r.
Qed.

(** A skipped test case stays skipped, also without a reason. *)
Lemma SkipReason_roundtrip s : s ≠ EmptyString → UnmarshalText (MarshalText s) = s.
Proof. unfold UnmarshalText, MarshalText. intros Hs. repeat case_bool_decide; congruence. Qed.

Lemma set_system_out t a c : set_child t (Elem "system-out" a c)
  = mkTestCase (Name t) (Time t) (chardata c) (SystemErr t) (Failure t) (Skipped t).
Proof. reflexivity. Qed.
Lemma set_system_err t a c : set_child t (Elem "system-err" a c)
  = mkTestCase (Name t) (Time t) (SystemOut t) (chardata c) (Failure t) (Skipped t).
Proof. reflexivity. Qed.
Lemma set_failure t a c : set_child t (Elem "failure" a c)
  = mkTestCase (Name t) (Time t) (SystemOut t) (SystemErr t) (chardata c) (Skipped t).
Proof. reflexivity. Qed.
Lemma set_skipped t a c : set_child t (Elem "skipped" a c)
  = mkTestCase (Name t) (Time t) (SystemOut t) (SystemErr t) (Failure t) (UnmarshalText (chardata c)).
Proof. reflexivity. Qed.

Lemma decode_encode_TestCase s t : add_TestCase s (encode_TestCase t) = mkTestSuite (TestCases s ++ [t]).
Proof.
  change (add_TestCase s (encode_TestCase t)) with
    (mkTestSuite (TestCases s ++ [decode_TestCase [("name", Name t); ("time", Time t)]
      (indented 1 (omitempty "system-out" (SystemOut t) id ++ omitempty "system-err" (SystemErr t) id
        ++ omitempty "failure" (Failure t) id ++ omitempty "skipped" (Skipped t) MarshalText))])).
  do 3 f_equal. unfold decode_TestCase. rewrite foldl_indented by done.
  change (foldl set_attr _ _) with (mkTestCase (Name t) (Time t) EmptyString EmptyString EmptyString EmptyString).
  destruct t as [n tm so se fl sk]. cbn [Name Time SystemOut SystemErr Failure Skipped]. unfold omitempty.
  repeat case_bool_decide; subst; cbn [app foldl];
    rewrite ?set_system_out, ?set_system_err, ?set_failure, ?set_skipped, ?chardata_text_of, ?SkipReason_roundtrip by done;
    done.
Qed.

(** A report that is written and read again is the same report: names, times,
    outputs, failures and skip marks of all test cases, also a skip mark without
    a reason and empty outputs. *)
Theorem report_roundtrip s : decode_TestSuite (encode_TestSuite s) (mkTestSuite []) = Ok s.
Proof.
  unfold decode_TestSuite, encode_TestSuite. cbn [fst snd]. rewrite bool_decide_eq_true_2 by done.
  rewrite foldl_indented by done. f_equal.
  assert (∀ l s0, foldl add_TestCase s0 (encode_TestCase <$> l) = mkTestSuite (TestCases s0 ++ l)) as H.
  { induction l as [|t l IH]; intros s0; [by destruct s0; rewrite app_nil_r|].
    rewrite fmap_cons. cbn [foldl]. rewrite decode_encode_TestCase, IH. cbn. by rewrite <- app_assoc. }
  rewrite H. by destruct s.
Qed.

(** *** One test case per name *)

(** Of the test cases with a name, the first that ran, or else the first. *)
Definition chosen (cases : list TestCase) (name : string) : option TestCase :=
  let named := filter (λ t, Name t = name) cases in
  head (filter (λ t, Skipped t = EmptyString) named ++ named).

Lemma chosen_snoc cases t name :
  chosen (cases ++ [t]) name =
    if bool_decide (Name t = name) then
      match chosen cases name with
      | None => Some t
      | Some entry => if negb (bool_decide (Skipped entry = EmptyString)) && bool_decide (Skipped t = EmptyString)
                      then Some t else Some entry
      end
    else chosen cases name.
Proof.
  unfold chosen. rewrite filter_app. cbn [filter list_filter]. case_bool_decide as Hn.
  2: { rewrite decide_False by done. by rewrite app_nil_r. }
  rewrite decide_True by done. set (l := filter (λ t, Name t = name) cases). rewrite filter_app.
  assert (∀ x, head (filter (λ t, Skipped t = EmptyString) l) = Some x → Skipped x = EmptyString) as Hran.
  { intros x Hx. apply (list_elem_of_filter (λ t, Skipped t = EmptyString) l x). destruct (filter _ l); [done|].
    injection Hx as ->. by left. }
  destruct (filter (λ t, Skipped t = EmptyString) l) as [|x lf] eqn:Hf.
  - destruct l as [|y l'] eqn:Hl; cbn [app head].
    + destruct (decide (Skipped t = EmptyString)) as [Ht|Ht]; cbn; by rewrite ?decide_True, ?decide_False by done.
    + assert (Skipped y ≠ EmptyString) as Hy.
      { intros Hy. rewrite filter_cons, decide_True in Hf by done. discriminate. }
      rewrite bool_decide_eq_false_2 by done. cbn [negb andb].
      rewrite filter_cons, filter_nil. case_decide; [rewrite bool_decide_eq_true_2|rewrite bool_decide_eq_false_2]; done.
  - cbn [app head]. rewrite bool_decide_eq_true_2 by (by apply Hran). done.
Qed.

Lemma keep_spec matches cases name :
  foldl (keep matches) ∅ cases !! name = if matches name then chosen cases name else None.
Proof.
  induction cases as [|t cases IH] using rev_ind; [by destruct (matches name)|].
  rewrite foldl_app. cbn [foldl]. rewrite chosen_snoc. unfold keep at 1. set (m := foldl (keep matches) ∅ cases) in *.
  destruct (decide (Name t = name)) as [<-|Hn];
    [rewrite (bool_decide_eq_true_2 (Name t = Name t)) by done|rewrite (bool_decide_eq_false_2 _ Hn)].
  - destruct (matches (Name t)); cbn [negb]; [|done]. rewrite IH.
    destruct (chosen cases (Name t)) as [entry|]; [|apply lookup_insert_eq].
    destruct (negb _ && _); [apply lookup_insert_eq|done].
  - destruct (matches (Name t)); cbn [negb]; [|done].
    destruct (m !! Name t); [destruct (negb _ && _)|]; rewrite ?lookup_insert_ne by done; done.
Qed.

Lemma chosen_name cases name t : chosen cases name = Some t → Name t = name.
Proof.
  unfold chosen. intros Hh. assert (t ∈ filter (λ t, Name t = name) cases) as Hin.
  { destruct (filter (λ t, Skipped t = EmptyString) (filter (λ t, Name t = name) cases) ++ _) as [|x l] eqn:Hl; [done|].
    injection Hh as ->. assert (t ∈ t :: l) as Ht by left. rewrite <- Hl in Ht.
    apply elem_of_app in Ht as [Ht|Ht]; [by apply list_elem_of_filter in Ht as [_ Ht]|done]. }
  by apply list_elem_of_filter in Hin as [? _].
Qed.

(** *** The command *)

Section CommandFacts.
Context (parse_xml : string → result element) (print_xml : element → result string).
Context (Compile : string → option (string → bool)).
Context (range : gmap string TestCase → list (string * TestCase)).
Context (range_any : ∀ m, range m ≡ₚ map_to_list m).

(** The test cases of one input, in either of the two formats. *)
Definition report_cases (data : string) : result (list TestCase) :=
  s ← add_report parse_xml data (mkTestSuite []); Ok (TestCases s).

Lemma add_TestCases l : ∀ s, foldl add_TestCase s l = mkTestSuite (TestCases s ++ TestCases (foldl add_TestCase (mkTestSuite []) l)).
Proof.
  induction l as [|n l IH]; intros s; cbn [foldl]; [by destruct s; cbn; rewrite app_nil_r|].
  rewrite IH, (IH (add_TestCase (mkTestSuite []) n)). cbn [TestCases]. f_equal. rewrite app_assoc. f_equal.
  destruct n as [|name attrs content]; cbn; [by rewrite app_nil_r|]. case_bool_decide; cbn; by rewrite ?app_nil_r.
Qed.

Lemma add_report_appends data s s' :
  add_report parse_xml data s = Ok s' →
  ∃ cs, report_cases data = Ok cs ∧ TestCases s' = TestCases s ++ cs.
Proof.
  unfold report_cases, add_report. destruct (parse_xml data) as [e|err]; cbn.
  2: { case_bool_decide; done. }
  unfold decode_TestSuite. case_bool_decide as He.
  - intros [= <-]. eexists. split; [done|]. by rewrite (add_TestCases e.2 s).
  - case_bool_decide as Hm; [|done]. unfold decode_TestResults. case_bool_decide; [|done].
    intros [= <-]. cbn. eauto.
Qed.

Lemma read_inputs_cases args : ∀ data junit tr junit',
  "-" ∉ args → exec (read_inputs parse_xml args data junit) tr (Returned junit') →
  ∃ contents cases,
    tr = zip_with (λ arg c, existT (ReadFile arg) (Ok c)) args contents
    ∧ Forall2 (λ c cs, report_cases c = Ok cs) contents cases ∧ length contents = length args
    ∧ TestCases junit' = TestCases junit ++ concat cases.
Proof.
  induction args as [|arg args IH]; intros data junit tr junit' Hargs Hx; cbn [read_inputs] in Hx.
  { destruct Hx as [-> [= ->]]. exists [], []. cbn. by rewrite app_nil_r. }
  apply not_elem_of_cons in Hargs as [Harg Hargs]. rewrite bool_decide_eq_false_2 in Hx by done.
  destruct Hx as (r & tr' & -> & Hx). cbn in Hx. destruct r as [c|err]; [|by destruct Hx].
  destruct (add_report parse_xml c junit) as [junit1|err] eqn:Hr; [|by destruct Hx].
  destruct (IH _ _ _ _ Hargs Hx) as (contents & cases & -> & HF & Hlen & Hj).
  apply add_report_appends in Hr as (cs & Hcs & Hj1). exists (c :: contents), (cs :: cases).
  split_and!; [done|by constructor|cbn; by f_equal|]. rewrite Hj, Hj1. cbn. by rewrite app_assoc.
Qed.

(** C38: when the command ends normally it has read each of its input files once, in
    order, and has written one report. The report holds, for every name that
    the regular expression matches and that occurs in an input of either
    format, exactly one test case of that name: the first that was not skipped,
    or if all were skipped the first. *)
Theorem filter_junit_output output tests args tr :
  "-" ∉ args → exec (filter_junit parse_xml print_xml Compile range output tests args) tr (Returned tt) →
  ∃ re contents cases kept data,
    Compile tests = Some re ∧ length contents = length args
    ∧ Forall2 (λ c cs, report_cases c = Ok cs) contents cases
    ∧ NoDup (Name <$> kept)
    ∧ (∀ t, t ∈ kept ↔ re (Name t) = true ∧ chosen (concat cases) (Name t) = Some t)
    ∧ print_xml (encode_TestSuite (mkTestSuite kept)) = Ok data
    ∧ tr = zip_with (λ arg c, existT (ReadFile arg) (Ok c)) args contents
           ++ [if bool_decide (output = "-") then existT (WriteStdout data) (Ok tt)
               else existT (WriteFile output data) (Ok tt)].
Proof.
  intros Hargs Hx. unfold filter_junit in Hx. destruct (Compile tests) as [re|]; [|by destruct Hx].
  apply exec_bind_returned in Hx as (tr1 & tr2 & junit & -> & Hr & Hx).
  apply read_inputs_cases in Hr as (contents & cases & -> & HF & Hlen & Hj); [|done]. cbn in Hj. rewrite Hj in Hx.
  set (m := foldl (keep re) ∅ (concat cases)) in *.
  destruct (print_xml _) as [data|err] eqn:Hp; [|by destruct Hx].
  assert (∀ k t, (k, t) ∈ range m ↔ m !! k = Some t) as Hm by (intros; by rewrite range_any, elem_of_map_to_list).
  assert (∀ k t, m !! k = Some t ↔ re k = true ∧ chosen (concat cases) k = Some t) as Hk.
  { intros k t. unfold m. rewrite keep_spec. destruct (re k); [tauto|]. split; [done|by intros []]. }
  exists re, contents, cases, (range m).*2, data. split_and!; [done..| | |exact Hp|].
  - assert (Name <$> (range m).*2 = (range m).*1) as ->.
    { rewrite <- list_fmap_compose. apply list_fmap_ext. intros i [k t] Hi. cbn.
      apply list_elem_of_lookup_2, Hm, Hk in Hi as [_ Hc]. by eapply chosen_name. }
    rewrite range_any. apply NoDup_fst_map_to_list.
  - intros t. rewrite list_elem_of_fmap. split.
    + intros ([k t'] & -> & Hin). apply Hm, Hk in Hin as [Hre Hc]. cbn. by rewrite (chosen_name _ _ _ Hc).
    + intros [Hre Hc]. exists (Name t, t). split; [done|]. by apply Hm, Hk.
  - f_equal. unfold write_output in Hx.
    case_bool_decide; destruct Hx as (r & tr' & -> & Hx); cbn in Hx; destruct r as [[]|err]; destruct Hx as [-> [=]]; done.
Qed.

(** A first argument - is never read: the buffer that it would be read into has
    no length, and the command panics on the empty text it then decodes. *)
Theorem stdin_is_not_read output tests args tr o :
  parse_xml EmptyString = Err (ErrMsg "EOF") →
  exec (filter_junit parse_xml print_xml Compile range output tests ("-" :: args)) tr o → tr = [] ∧ ∃ msg, o = Panicked msg.
Proof.
  intros Heof Hx. unfold filter_junit in Hx. destruct (Compile tests) as [re|]; [|destruct Hx as [-> ->]; eauto].
  cbn [read_inputs] in Hx. rewrite (bool_decide_eq_true_2 ("-" = "-")) in Hx by done.
  unfold read_stdin in Hx. rewrite bool_decide_eq_true_2 in Hx by done. cbn in Hx.
  unfold add_report in Hx. rewrite Heof in Hx. cbn in Hx. destruct Hx as [-> ->]. eauto.
Qed.
End CommandFacts.

Module Example.

(** Two reports, one of each format: a test case that was skipped in the first
    and ran in the second, one that is skipped in both, one that does not match. *)
Definition case_ (name : string) (children : list node) : node := Elem "testcase" [("name", name); ("time", "1.5")] children.
Definition old_report : element := ("testsuite", [], [case_ "mount" [Elem "skipped" [] []]; Text " "; case_ "other" []]).
Definition new_report : element :=
  ("testsuites", [], [Elem "testsuite" [] [case_ "mount" []; case_ "move" [Elem "skipped" [] [Text "slow"]]]]).
Definition parse_xml (data : string) : result element :=
  if bool_decide (data = "old") then Ok old_report else
  if bool_decide (data = "new") then Ok new_report else Err (ErrMsg "EOF").
Definition print_xml (e : element) : result string := Ok e.1.1.
Definition Compile (tests : string) : option (string → bool) := Some (λ name, HasPrefix name tests).
Definition files (e : junit_event) (w : unit) : junit_response e * unit :=
  match e with
  | ReadFile path => (Ok path, w)
  | ReadStdin _ => (Err (ErrMsg "EOF"), w)
  | WriteStdout _ | WriteFile _ _ => (Ok tt, w)
  end.
Definition p := filter_junit parse_xml print_xml Compile map_to_list "-" "mo" ["old"; "new"].

Lemma filter_junit_output_witness :
  ∃ contents cases kept, Forall2 (λ c cs, report_cases parse_xml c = Ok cs) contents cases
    ∧ NoDup (Name <$> kept) ∧ length contents = 2.
Proof.
  destruct (filter_junit_output parse_xml print_xml Compile map_to_list ltac:(reflexivity) "-" "mo" ["old"; "new"]
    (run files p tt).1.1) as (re & contents & cases & kept & data & _ & Hlen & HF & Hnd & _).
  - set_solver.
  - assert ((run files p tt).1.2 = Returned tt) as Ho by (vm_compute; reflexivity). rewrite <- Ho.
    apply (run_exec files p tt).
  - exists contents, cases, kept. split; [exact HF|]. split; [exact Hnd|exact Hlen].
Defined.
End Example.
