(* ===== verification/Kube.v ===== *)
(** * Kube: Kubernetes objects and the API server, as the operator uses them

    The objects have the fields that the operator reads or writes; what it only
    carries from the manifests to the API server is kept as text ([yaml]). The
    functions of the Kubernetes libraries are the class [Kube], what is
    documented of them is [KubeLaws]. The API server is the environment of the
    operator's programs ([api_event]). *)
From S2P Require Import Prelude GoStrings Config Prog.
Local Open Scope Z_scope.

(** A part of an object that the operator copies without looking at it. *)
Abbreviation yaml := string.

(** ** Objects *)

Record ObjectMeta := mkMeta {
  Name : string;
  Namespace : string;
  ResourceVersion : string;
  Finalizers : list string;
  DeletionTimestamp : option Z;
  OwnerReferences : yaml
}.
Definition set_namespace (ns : string) (m : ObjectMeta) : ObjectMeta :=
  mkMeta (Name m) ns (ResourceVersion m) (Finalizers m) (DeletionTimestamp m) (OwnerReferences m).

(** A quantity as it is written, 500m or 256Mi. A nil map is [None]. *)
Abbreviation Quantity := string.
Abbreviation ResourceList := (option (gmap string Quantity)).
Record ResourceRequirements := mkResources { Limits : ResourceList; Requests : ResourceList }.
Record EnvVar := mkEnvVar { env_Name : string; env_Value : string; env_ValueFrom : yaml }.
Record Container := mkContainer {
  c_Name : string;
  c_Image : string;
  c_Env : list EnvVar;
  c_Resources : ResourceRequirements;
  c_other : yaml
}.
Definition NodeAffinity : Type := yaml.
Record Affinity := mkAffinity { aff_NodeAffinity : option NodeAffinity; aff_other : yaml }.
Record PodSpec := mkPodSpec { Containers : list Container; pod_Affinity : option Affinity; pod_other : yaml }.
Record PodTemplateSpec := mkTemplate { Annotations : option (gmap string string); t_Spec : PodSpec; t_other : yaml }.
(** The specification of a stateful set or a daemon set. *)
Record WorkloadSpec := mkWorkload { Template : PodTemplateSpec; w_other : yaml }.

Record ConfigMap := mkConfigMap { cm_meta : ObjectMeta; cm_Data : gmap string string }.
Record Secret := mkSecret { s_meta : ObjectMeta; s_Data : gmap string string }.
Record ServiceAccount := mkServiceAccount { sa_meta : ObjectMeta; sa_other : yaml }.
Record Subject := mkSubject { sub_Namespace : string; sub_other : yaml }.
Record RoleR := mkRole { r_meta : ObjectMeta; Rules : yaml }.
Record RoleBindingR := mkRoleBinding { rb_meta : ObjectMeta; Subjects : list Subject; RoleRef : yaml }.
Record CSIDriver := mkCSIDriver { csi_meta : ObjectMeta; csi_Spec : yaml }.
Record StatefulSet := mkStatefulSet {
  sts_meta : ObjectMeta; sts_Spec : WorkloadSpec; Replicas : Z; ReadyReplicas : Z }.
Record DaemonSet := mkDaemonSet {
  ds_meta : ObjectMeta; ds_Spec : WorkloadSpec; DesiredNumberScheduled : Z; NumberReady : Z }.

(** ** The custom resource (operator/api/v1/beegfsdriver_types.go) *)

Record Condition := mkCondition {
  Type_ : string;
  cond_Status : bool;
  Reason : string;
  Message : string;
  LastTransitionTime : Z
}.
Record ContainerImageOverride := mkImage { Image : string; Tag : string }.
Record ContainerImageOverrides := mkImages {
  BeegfsCsiDriver : ContainerImageOverride;
  CsiNodeDriverRegistrar : ContainerImageOverride;
  CsiProvisioner : ContainerImageOverride;
  CsiResizer : ContainerImageOverride;
  LivenessProbe : ContainerImageOverride
}.
Record ContainerResourceOverrides := mkResourceOverrides {
  ControllerBeegfsResources : ResourceRequirements;
  ControllerCsiProvisionerResources : ResourceRequirements;
  NodeBeegfsResources : ResourceRequirements;
  NodeDriverRegistrarResources : ResourceRequirements;
  NodeLivenessProbeResources : ResourceRequirements
}.
Record BeegfsDriverSpec := mkDriverSpec {
  spec_ImageOverrides : ContainerImageOverrides;
  spec_ResourceOverrides : ContainerResourceOverrides;
  LogLevel : option Z;
  NodeAffinityControllerService : NodeAffinity;
  NodeAffinityNodeService : NodeAffinity;
  spec_PluginConfig : PluginConfigFromFile yaml_conf
}.
Record BeegfsDriver := mkDriver {
  d_meta : ObjectMeta;
  d_Spec : BeegfsDriverSpec;
  Conditions : list Condition
}.
Definition set_conditions (cs : list Condition) (d : BeegfsDriver) : BeegfsDriver := mkDriver (d_meta d) (d_Spec d) cs.

(** ** Kinds *)

Inductive kind :=
  | KConfigMap | KSecret | KServiceAccount | KClusterRole | KClusterRoleBinding | KRole | KRoleBinding
  | KCSIDriver | KStatefulSet | KDaemonSet | KBeegfsDriver.
#[export] Instance kind_eq_dec : EqDecision kind.
Proof. solve_decision. Defined.

Definition kobject (k : kind) : Type :=
  match k with
  | KConfigMap => ConfigMap
  | KSecret => Secret
  | KServiceAccount => ServiceAccount
  | KClusterRole | KRole => RoleR
  | KClusterRoleBinding | KRoleBinding => RoleBindingR
  | KCSIDriver => CSIDriver
  | KStatefulSet => StatefulSet
  | KDaemonSet => DaemonSet
  | KBeegfsDriver => BeegfsDriver
  end.
(** An object of any kind, as a Go interface value holds it. *)
Definition object : Type := sigT kobject.

Definition meta_of {k} : kobject k → ObjectMeta :=
  match k with
  | KConfigMap => cm_meta
  | KSecret => s_meta
  | KServiceAccount => sa_meta
  | KClusterRole | KRole => r_meta
  | KClusterRoleBinding | KRoleBinding => rb_meta
  | KCSIDriver => csi_meta
  | KStatefulSet => sts_meta
  | KDaemonSet => ds_meta
  | KBeegfsDriver => d_meta
  end.
Definition set_meta {k} (m : ObjectMeta) : kobject k → kobject k :=
  match k return kobject k → kobject k with
  | KConfigMap => λ o, mkConfigMap m (cm_Data o)
  | KSecret => λ o, mkSecret m (s_Data o)
  | KServiceAccount => λ o, mkServiceAccount m (sa_other o)
  | KClusterRole | KRole => λ o, mkRole m (Rules o)
  | KClusterRoleBinding | KRoleBinding => λ o, mkRoleBinding m (Subjects o) (RoleRef o)
  | KCSIDriver => λ o, mkCSIDriver m (csi_Spec o)
  | KStatefulSet => λ o, mkStatefulSet m (sts_Spec o) (Replicas o) (ReadyReplicas o)
  | KDaemonSet => λ o, mkDaemonSet m (ds_Spec o) (DesiredNumberScheduled o) (NumberReady o)
  | KBeegfsDriver => λ o, mkDriver m (d_Spec o) (Conditions o)
  end.

Lemma meta_set_meta {k} m (o : kobject k) : meta_of (set_meta m o) = m.
Proof. by destruct k. Qed.

(** Objects of these kinds belong to the cluster, not to a namespace. *)
Definition cluster_scoped (k : kind) : bool :=
  match k with KClusterRole | KClusterRoleBinding | KCSIDriver => true | _ => false end.
(** The namespace an object of the kind is stored under. *)
Definition scope (k : kind) (ns : string) : string := if cluster_scoped k then EmptyString else ns.

(** ** The API server *)

(** The answer to a request for an object: the object, an error on which
    [errors.IsNotFound] holds, or another error. *)
Inductive answer (A : Type) :=
  | Found (a : A)
  | NotFound (e : goerr)
  | Failed (e : goerr).
Arguments Found {A}.
Arguments NotFound {A}.
Arguments Failed {A}.

(** [Create], [Update] and [Status().Update] decode the object that the server
    stored into their argument: the answer is that object. *)
Inductive api_event :=
  | Get (k : kind) (namespace name : string)
  | Create (k : kind) (o : kobject k)
  | Update (k : kind) (o : kobject k)
  | UpdateStatus (d : BeegfsDriver)
  | Delete (k : kind) (o : kobject k).
Definition api_response (e : api_event) : Type :=
  match e with
  | Get k _ _ => answer (kobject k)
  | Create k _ | Update k _ => result (kobject k)
  | UpdateStatus _ => result BeegfsDriver
  | Delete _ _ => answer unit
  end.
Abbreviation api_io := (prog api_event api_response).
Abbreviation api_trace := (trace api_response).
Definition api (e : api_event) : api_io (api_response e) := trigger e.

(** [x, err := p; if err != nil { return err }; k] *)
Notation "'let!' x := p 'in' k" :=
  (mbind (M := api_io) (λ r_, match r_ with Ok x => k | Err e_ => mret (Err e_) end) p)
  (at level 10, x pattern, p at level 100, k at level 200, format "'let!'  x  :=  p  'in' '//' k").
Definition lift {A} (r : result A) : api_io (result A) := mret r.

(** ** The libraries *)

#[export] Instance Subject_eq_dec : EqDecision Subject.
Proof. solve_decision. Defined.
#[export] Instance Condition_eq_dec : EqDecision Condition.
Proof. solve_decision. Defined.
#[export] Instance ResourceRequirements_eq_dec : EqDecision ResourceRequirements.
Proof. solve_decision. Defined.
#[export] Instance EnvVar_eq_dec : EqDecision EnvVar.
Proof. solve_decision. Defined.
#[export] Instance Container_eq_dec : EqDecision Container.
Proof. solve_decision. Defined.
#[export] Instance Affinity_eq_dec : EqDecision Affinity.
Proof. solve_decision. Defined.
#[export] Instance PodSpec_eq_dec : EqDecision PodSpec.
Proof. solve_decision. Defined.
#[export] Instance PodTemplateSpec_eq_dec : EqDecision PodTemplateSpec.
Proof. solve_decision. Defined.
#[export] Instance WorkloadSpec_eq_dec : EqDecision WorkloadSpec.
Proof. solve_decision. Defined.

Class Kube := {
  (* k8s.io/apimachinery/pkg/api/meta *)
  SetStatusCondition : list Condition → Condition → list Condition;
  FindStatusCondition : list Condition → string → option Condition;
  (* k8s.io/apimachinery/pkg/api/equality, Semantic *)
  DeepEqual {A} `{EqDecision A} : A → A → bool;
  DeepDerivative {A} `{EqDecision A} : A → A → bool;
  (* sigs.k8s.io/controller-runtime *)
  SetControllerReference : ObjectMeta → ObjectMeta → result ObjectMeta;
  AddFinalizer : ObjectMeta → string → ObjectMeta;
  RemoveFinalizer : ObjectMeta → string → ObjectMeta;
  (* sigs.k8s.io/yaml *)
  yaml_Marshal : PluginConfigFromFile yaml_conf → result string
}.

(** A condition that was set is found with its status, reason and message, the
    others are as before; equal values compare equal, and
    lists of conditions that compare equal have the same reasons; the finalizer functions
    change nothing but the finalizers; an owner reference changes nothing but
    the owners, and can be set on an object of the owner's namespace that has
    no owner yet. *)
Class KubeLaws (KB : Kube) := {
  find_set cs c : ∃ c', FindStatusCondition (SetStatusCondition cs c) (Type_ c) = Some c'
    ∧ cond_Status c' = cond_Status c ∧ Reason c' = Reason c ∧ Message c' = Message c;
  find_set_other cs c t : t ≠ Type_ c →
    FindStatusCondition (SetStatusCondition cs c) t = FindStatusCondition cs t;
  DeepEqual_refl {A} `{EqDecision A} (x : A) : DeepEqual x x = true;
  DeepEqual_data (d1 d2 : gmap string string) : DeepEqual d1 d2 = true → d1 = d2;
  DeepEqual_conditions cs1 cs2 t : DeepEqual cs1 cs2 = true →
    Reason <$> FindStatusCondition cs1 t = Reason <$> FindStatusCondition cs2 t;
  DeepDerivative_refl {A} `{EqDecision A} (x : A) : DeepDerivative x x = true;
  AddFinalizer_spec m f : f ∈ Finalizers (AddFinalizer m f)
    ∧ AddFinalizer m f = mkMeta (Name m) (Namespace m) (ResourceVersion m) (Finalizers (AddFinalizer m f))
                           (DeletionTimestamp m) (OwnerReferences m);
  RemoveFinalizer_spec m f : f ∉ Finalizers (RemoveFinalizer m f)
    ∧ RemoveFinalizer m f = mkMeta (Name m) (Namespace m) (ResourceVersion m) (Finalizers (RemoveFinalizer m f))
                              (DeletionTimestamp m) (OwnerReferences m);
  SetControllerReference_spec owner m m' : SetControllerReference owner m = Ok m' →
    Name m' = Name m ∧ Namespace m' = Namespace m ∧ ResourceVersion m' = ResourceVersion m;
  SetControllerReference_owned owner m :
    OwnerReferences m = EmptyString → Namespace owner = Namespace m → is_ok (SetControllerReference owner m) = true
}.
