(* ===== verification/Operator.v ===== *)
(** * Operator: deploying the driver (operator/controllers, deploy/k8s/deploy.go)

    [Reconcile] brings the cluster's objects to what the BeegfsDriver resource
    and the embedded manifests ask for. It is a program over the events of the
    API server ([Kube.api_event]); the decoder of the manifests is a parameter
    of [read_manifests], whose result is an argument of [Reconcile]. *)
From S2P Require Import Prelude GoStrings Config Prog Kube.
Local Open Scope Z_scope.

(** ** The manifests (deploy/k8s/deploy.go) *)

Definition ContainerNameBeegfsCsiDriver := "beegfs".
Definition ContainerNameCsiNodeDriverRegistrar := "node-driver-registrar".
Definition ContainerNameCsiProvisioner := "csi-provisioner".
Definition ContainerNameCsiResizer := "csi-resizer".
Definition ContainerNameLivenessProbe := "liveness-probe".
Definition ResourceNameConfigMap := "csi-beegfs-config".
Definition ResourceNameSecret := "csi-beegfs-connauth".
Definition ResourceNameTLS := "csi-beegfs-tlscerts".
Definition KeyNameConfigMap := "csi-beegfs-config.yaml".
Definition KeyNameSecret := "csi-beegfs-connauth.yaml".
Definition KeyNameTLS := "csi-beegfs-tlscerts.yaml".

Record manifests := mkManifests {
  m_sts : StatefulSet;
  m_ds : DaemonSet;
  m_rbac : list object;
  m_driver : CSIDriver
}.

Section Deploy.
(** [yaml.UnmarshalStrict] into a new object: the object, and an error if the
    text does not describe one. *)
Context (UnmarshalStrict : ∀ k, string → kobject k * option goerr).

Fixpoint decode_documents (docs : list string) (objects : list object) : list object * option goerr :=
  match docs with
  | [] => (objects, None)
  | doc :: r =>
      let decode k := match UnmarshalStrict k doc with
                      | (_, Some e) => (objects, Some e)
                      | (o, None) => decode_documents r (objects ++ [existT k o])
                      end in
      if Contains doc "kind: ClusterRoleBinding" then decode KClusterRoleBinding
      else if Contains doc "kind: ClusterRole" then decode KClusterRole
      else if Contains doc "kind: RoleBinding" then decode KRoleBinding
      else if Contains doc "kind: Role" then decode KRole
      else if Contains doc "kind: ServiceAccount" then decode KServiceAccount
      else (objects, Some (ErrMsg "unexpected document found in RBAC manifest"))
  end.
Definition GetRBAC (rbacBytes : string) : list object * option goerr :=
  decode_documents (Split rbacBytes "---") [].
Definition GetControllerServiceStatefulSet (csBytes : string) : StatefulSet * option goerr :=
  UnmarshalStrict KStatefulSet csBytes.
Definition GetCSIDriver (driverBytes : string) : CSIDriver * option goerr := UnmarshalStrict KCSIDriver driverBytes.
Definition GetNodeServiceDaemonSet (dsBytes : string) : DaemonSet * option goerr := UnmarshalStrict KDaemonSet dsBytes.

(** What [Reconcile] reads of them: it ignores the errors. *)
Definition read_manifests (csBytes dsBytes rbacBytes driverBytes : string) : manifests :=
  mkManifests (GetControllerServiceStatefulSet csBytes).1 (GetNodeServiceDaemonSet dsBytes).1
    (GetRBAC rbacBytes).1 (GetCSIDriver driverBytes).1.
End Deploy.

(** ** Filling in the pod templates *)

Definition getImageStringWithOverride (imageWithTag : string) (override : ContainerImageOverride) : string :=
  let imageSlice := SplitN2 imageWithTag ":" in
  let image := default EmptyString (imageSlice !! 0%nat) in
  let tag := default EmptyString (imageSlice !! 1%nat) in
  let image := if bool_decide (Image override ≠ EmptyString) then Image override else image in
  let tag := if bool_decide (Tag override ≠ EmptyString) then Tag override else tag in
  image +:+ ":" +:+ tag.

Definition set_image (image : string) (c : Container) : Container :=
  mkContainer (c_Name c) image (c_Env c) (c_Resources c) (c_other c).
Definition containerNameToImageOverrideMap (o : ContainerImageOverrides) : gmap string ContainerImageOverride :=
  <[ContainerNameBeegfsCsiDriver := BeegfsCsiDriver o]>
  (<[ContainerNameCsiNodeDriverRegistrar := CsiNodeDriverRegistrar o]>
  (<[ContainerNameCsiProvisioner := CsiProvisioner o]>
  (<[ContainerNameCsiResizer := CsiResizer o]>
  (<[ContainerNameLivenessProbe := LivenessProbe o]> ∅)))).
Definition setImages (containers : list Container) (overrides : ContainerImageOverrides) : list Container :=
  (λ c, match containerNameToImageOverrideMap overrides !! c_Name c with
        | Some v =>
            if bool_decide (Image v ≠ EmptyString) || bool_decide (Tag v ≠ EmptyString)
            then set_image (getImageStringWithOverride (c_Image c) v) c
            else c
        | None => c
        end) <$> containers.

Definition set_resources (r : ResourceRequirements) (c : Container) : Container :=
  mkContainer (c_Name c) (c_Image c) (c_Env c) r (c_other c).
(** Assigning to a nil map panics ([None]). *)
Definition override_one (over : ResourceList) (key : string) (m : ResourceList) : option ResourceList :=
  match default ∅ over !! key with
  | Some v => match m with Some m => Some (Some (<[key := v]> m)) | None => None end
  | None => Some m
  end.
Definition override_list (over m : ResourceList) : option ResourceList :=
  if bool_decide (0 < size (default ∅ over))%nat then
    m ← override_one over "cpu" m;
    override_one over "memory" m
  else Some m.
Definition override_resources (over : ResourceRequirements) (c : Container) : option Container :=
  limits ← override_list (Limits over) (Limits (c_Resources c));
  requests ← override_list (Requests over) (Requests (c_Resources c));
  Some (set_resources (mkResources limits requests) c).
Definition setNodeResources (overrides : ContainerResourceOverrides) (containers : list Container)
    : option (list Container) :=
  mapM (λ c,
    if bool_decide (c_Name c = "beegfs") then override_resources (NodeBeegfsResources overrides) c
    else if bool_decide (c_Name c = "node-driver-registrar") then
      override_resources (NodeDriverRegistrarResources overrides) c
    else if bool_decide (c_Name c = "liveness-probe") then
      override_resources (NodeLivenessProbeResources overrides) c
    else Some c) containers.
Definition setControllerResources (overrides : ContainerResourceOverrides) (containers : list Container)
    : option (list Container) :=
  mapM (λ c,
    if bool_decide (c_Name c = "beegfs") then override_resources (ControllerBeegfsResources overrides) c
    else if bool_decide (c_Name c = "csi-provisioner") then
      override_resources (ControllerCsiProvisionerResources overrides) c
    else Some c) containers.

Definition setLogLevel (level : option Z) (containers : list Container) : list Container :=
  match level with
  | None => containers
  | Some level =>
      (λ c, mkContainer (c_Name c) (c_Image c)
              ((λ e, if bool_decide (env_Name e = "LOG_LEVEL")
                     then mkEnvVar (env_Name e) (Itoa level) (env_ValueFrom e) else e) <$> c_Env c)
              (c_Resources c) (c_other c)) <$> containers
  end.

Definition setNodeAffinity (affinity : option NodeAffinity) (spec : PodSpec) : PodSpec :=
  match affinity with
  | None => spec
  | Some affinity =>
      let a := default (mkAffinity None EmptyString) (pod_Affinity spec) in
      mkPodSpec (Containers spec) (Some (mkAffinity (Some affinity) (aff_other a))) (pod_other spec)
  end.

Definition annotationConfigMapVersion := "beegfs.csi.netapp.com/configMapVersion".
Definition annotationConnauthSecretVersion := "beegfs.csi.netapp.com/connauthSecretVersion".
Definition annotationTLSCertsSecretVersion := "beegfs.csi.netapp.com/tlscertsSecretVersion".
Definition name_and_version (m : ObjectMeta) : string := Name m +:+ "/" +:+ ResourceVersion m.
Definition setResourceVersionAnnotations (cm : ConfigMap) (s t : option Secret) (podTemplate : PodTemplateSpec)
    : PodTemplateSpec :=
  let a := default ∅ (Annotations podTemplate) in
  let a := <[annotationConfigMapVersion := name_and_version (cm_meta cm)]> a in
  let a := match s with Some s => <[annotationConnauthSecretVersion := name_and_version (s_meta s)]> a | None => a end in
  let a := match t with Some t => <[annotationTLSCertsSecretVersion := name_and_version (s_meta t)]> a | None => a end in
  mkTemplate (Some a) (t_Spec podTemplate) (t_other podTemplate).

(** What [Reconcile] does to the template of either service, in its order. *)
Definition fill_template (cm : ConfigMap) (s t : Secret) (spec : BeegfsDriverSpec) (affinity : NodeAffinity)
    (setResources : ContainerResourceOverrides → list Container → option (list Container))
    (podTemplate : PodTemplateSpec) : option PodTemplateSpec :=
  let podTemplate := setResourceVersionAnnotations cm (Some s) (Some t) podTemplate in
  let pod := t_Spec podTemplate in
  let containers := setImages (Containers pod) (spec_ImageOverrides spec) in
  let containers := setLogLevel (LogLevel spec) containers in
  let pod := setNodeAffinity (Some affinity) (mkPodSpec containers (pod_Affinity pod) (pod_other pod)) in
  containers ← setResources (spec_ResourceOverrides spec) (Containers pod);
  Some (mkTemplate (Annotations podTemplate) (mkPodSpec containers (pod_Affinity pod) (pod_other pod))
          (t_other podTemplate)).

(** ** The status conditions *)

Definition ConditionControllerServiceReady := "ControllerServiceReady".
Definition ConditionNodeServiceReady := "NodeServiceReady".
Definition ReasonServiceNotCreated := "ServiceNotCreated".
Definition ReasonPodsNotScheduled := "PodsNotScheduled".
Definition ReasonPodsNotReady := "PodsNotReady".
Definition ReasonPodsReady := "PodsReady".

(** The conditions for what the API server answered, if it knows. *)
Definition controller_condition (sts : option StatefulSet) : Condition :=
  match sts with
  | None => mkCondition ConditionControllerServiceReady false ReasonServiceNotCreated
              "controller service stateful set has not been created" 0
  | Some sts =>
      if Replicas sts <? 1 then
        mkCondition ConditionControllerServiceReady false ReasonPodsNotScheduled
          "0/1 controller service pods have been scheduled" 0
      else if ReadyReplicas sts <? 1 then
        mkCondition ConditionControllerServiceReady false ReasonPodsNotReady
          "0/1 controller service pods are ready" 0
      else
        mkCondition ConditionControllerServiceReady true ReasonPodsReady
          "1/1 controller service pods are ready" 0
  end.
Definition node_pods (ds : DaemonSet) : string :=
  Itoa (NumberReady ds) +:+ "/" +:+ Itoa (DesiredNumberScheduled ds) +:+ " node service pods are ready".
Definition node_condition (ds : option DaemonSet) : Condition :=
  match ds with
  | None => mkCondition ConditionNodeServiceReady false ReasonServiceNotCreated
              "node service daemon set has not been created" 0
  | Some ds =>
      if DesiredNumberScheduled ds <? 1 then
        mkCondition ConditionNodeServiceReady false ReasonPodsNotScheduled
          "0 node service pods have been scheduled" 0
      else if NumberReady ds <? DesiredNumberScheduled ds then
        mkCondition ConditionNodeServiceReady false ReasonPodsNotReady (node_pods ds) 0
      else
        mkCondition ConditionNodeServiceReady true ReasonPodsReady (node_pods ds) 0
  end.

(** ** Objects of its own *)

Fixpoint containsString (slice : list string) (s : string) : bool :=
  match slice with
  | [] => false
  | item :: r => if bool_decide (item = s) then true else containsString r s
  end.
Definition finalizerClusterResourceDeletion := "beegfs.csi.netapp.com/clusterResourceDeletion".

Definition named (name : string) : ObjectMeta := mkMeta name EmptyString EmptyString [] None EmptyString.
Definition newSecret : Secret := mkSecret (named ResourceNameSecret) {[KeyNameSecret := EmptyString]}.
Definition newTLS : Secret := mkSecret (named ResourceNameTLS) {[KeyNameTLS := EmptyString]}.

(** What the markers at [Reconcile] ask the cluster to permit. *)
Definition granted (e : api_event) : bool :=
  match e with
  | Get _ _ _ | Create _ _ | UpdateStatus _ => true
  | Update k _ => bool_decide (k ∈ [KBeegfsDriver; KClusterRole; KStatefulSet; KDaemonSet])
  | Delete k _ => bool_decide (k ∈ [KBeegfsDriver; KClusterRole; KClusterRoleBinding; KRole; KRoleBinding; KCSIDriver])
  end.

Section Reconcile.
Context {KB : Kube}.

Definition config_warning :=
  "# This file is managed by the BeeGFS CSI driver operator. Do not modify it directly.".
Definition newConfigMap (driver : BeegfsDriver) : result ConfigMap :=
  data ← yaml_Marshal (spec_PluginConfig (d_Spec driver));
  Ok (mkConfigMap (named ResourceNameConfigMap)
        {[KeyNameConfigMap := config_warning +:+ String "010"%char data]}).

Definition setCommonObjectMetadata {k} (ns : string) (driver : BeegfsDriver) (o : kobject k) : result (kobject k) :=
  m ← SetControllerReference (d_meta driver) (set_namespace ns (meta_of o));
  Ok (set_meta m o).

(** ** Bringing one object up to date *)

(** Get the object, create it if there is none, replace it if what is there is
    not [current]. The result is the object as the cluster has it. *)
Definition ensure (k : kind) (ns : string) (o : kobject k) (current : kobject k → bool) : api_io (result (kobject k)) :=
  a ← api (Get k ns (Name (meta_of o)));
  match a with
  | Failed err => mret (Err err)
  | NotFound _ => api (Create k o)
  | Found fromCluster => if current fromCluster then mret (Ok fromCluster) else api (Update k o)
  end.

Definition set_subjects (ns : string) (o : RoleBindingR) : RoleBindingR :=
  mkRoleBinding (rb_meta o) ((λ s, mkSubject ns (sub_other s)) <$> Subjects o) (RoleRef o).
Definition binding_current (o c : RoleBindingR) : bool :=
  negb (negb (DeepEqual (Subjects o) (Subjects c)) || negb (DeepEqual (RoleRef o) (RoleRef c))).

(** One round of the loop over the RBAC objects. *)
Definition ensure_rbac (ns : string) (driver : BeegfsDriver) (i : object) : api_io (result unit) :=
  let '(existT k object) := i in
  match k return kobject k → api_io (result unit) with
  | KServiceAccount => λ o,
      let! o := lift (setCommonObjectMetadata (k := KServiceAccount) ns driver o) in
      let! _ := ensure KServiceAccount ns o (λ _, true) in
      mret (Ok tt)
  | KClusterRole => λ o,
      let! _ := ensure KClusterRole EmptyString o (λ c, DeepEqual (Rules o) (Rules c)) in
      mret (Ok tt)
  | KClusterRoleBinding => λ o,
      let o := set_subjects ns o in
      let! _ := ensure KClusterRoleBinding EmptyString o (binding_current o) in
      mret (Ok tt)
  | KRole => λ o,
      let! o := lift (setCommonObjectMetadata (k := KRole) ns driver o) in
      let! _ := ensure KRole ns o (λ c, DeepEqual (Rules o) (Rules c)) in
      mret (Ok tt)
  | KRoleBinding => λ o,
      let! o := lift (setCommonObjectMetadata (k := KRoleBinding) ns driver o) in
      let o := set_subjects ns o in
      let! _ := ensure KRoleBinding ns o (binding_current o) in
      mret (Ok tt)
  | _ => λ _, mret (Ok tt)
  end object.
Fixpoint ensure_rbacs (ns : string) (driver : BeegfsDriver) (l : list object) : api_io (result unit) :=
  match l with
  | [] => mret (Ok tt)
  | i :: r => let! _ := ensure_rbac ns driver i in ensure_rbacs ns driver r
  end.

Definition nil_map := "assignment to entry in nil map".
Definition nil_pointer := "invalid memory address or nil pointer dereference".

(** The condition that says whether the workload was there when the status was made. *)
Definition create_or_update {k} (driver : BeegfsDriver) (condition : string) (o : kobject k) (current : bool)
    : api_io (result unit) :=
  match FindStatusCondition (Conditions driver) condition with
  | None => Panic nil_pointer
  | Some c =>
      if bool_decide (Reason c = ReasonServiceNotCreated) then let! _ := api (Create k o) in mret (Ok tt)
      else if negb current then let! _ := api (Update k o) in mret (Ok tt)
      else mret (Ok tt)
  end.

Definition deploy_controller (M : manifests) (ns : string) (driver : BeegfsDriver) (cm : ConfigMap) (s t : Secret)
    (stsFromCluster : StatefulSet) : api_io (result unit) :=
  let! sts := lift (setCommonObjectMetadata (k := KStatefulSet) ns driver (m_sts M)) in
  let spec := d_Spec driver in
  match fill_template cm s t spec (NodeAffinityControllerService spec) setControllerResources
          (Template (sts_Spec sts)) with
  | None => Panic nil_map
  | Some template =>
      let sts := mkStatefulSet (sts_meta sts) (mkWorkload template (w_other (sts_Spec sts)))
                   (Replicas sts) (ReadyReplicas sts) in
      create_or_update (k := KStatefulSet) driver ConditionControllerServiceReady sts
        (DeepDerivative (sts_Spec sts) (sts_Spec stsFromCluster))
  end.
Definition deploy_node (M : manifests) (ns : string) (driver : BeegfsDriver) (cm : ConfigMap) (s t : Secret)
    (dsFromCluster : DaemonSet) : api_io (result unit) :=
  let! ds := lift (setCommonObjectMetadata (k := KDaemonSet) ns driver (m_ds M)) in
  let spec := d_Spec driver in
  match fill_template cm s t spec (NodeAffinityNodeService spec) setNodeResources (Template (ds_Spec ds)) with
  | None => Panic nil_map
  | Some template =>
      let ds := mkDaemonSet (ds_meta ds) (mkWorkload template (w_other (ds_Spec ds)))
                  (DesiredNumberScheduled ds) (NumberReady ds) in
      create_or_update (k := KDaemonSet) driver ConditionNodeServiceReady ds
        (DeepDerivative (ds_Spec ds) (ds_Spec dsFromCluster))
  end.

(** ** The stages of [Reconcile] *)

Definition zero_workload : WorkloadSpec :=
  mkWorkload (mkTemplate None (mkPodSpec [] None EmptyString) EmptyString) EmptyString.
Definition zero_sts : StatefulSet := mkStatefulSet (named EmptyString) zero_workload 0 0.
Definition zero_ds : DaemonSet := mkDaemonSet (named EmptyString) zero_workload 0 0.

(** The answer as the code goes on with it: an unexpected error ends the round. *)
Definition get_optional (k : kind) (ns name : string) : api_io (result (option (kobject k))) :=
  a ← api (Get k ns name);
  mret (match a with Found o => Ok (Some o) | NotFound _ => Ok None | Failed err => Err err end).

(** Up to the end of the status update. *)
Definition refresh_status (M : manifests) (ns : string) (driver : BeegfsDriver)
    : api_io (result (BeegfsDriver * option StatefulSet * option DaemonSet)) :=
  let! sts := get_optional KStatefulSet ns (Name (sts_meta (m_sts M))) in
  let conditions := SetStatusCondition (Conditions driver) (controller_condition sts) in
  let! ds := get_optional KDaemonSet ns (Name (ds_meta (m_ds M))) in
  let conditions := SetStatusCondition conditions (node_condition ds) in
  let updated := set_conditions conditions driver in
  if negb (DeepEqual (Conditions updated) (Conditions driver)) then
    let! updated := api (UpdateStatus updated) in
    mret (Ok (updated, sts, ds))
  else mret (Ok (updated, sts, ds)).

Definition add_finalizer (driver : BeegfsDriver) : api_io (result BeegfsDriver) :=
  if negb (containsString (Finalizers (d_meta driver)) finalizerClusterResourceDeletion) then
    api (Update KBeegfsDriver
      (set_meta (k := KBeegfsDriver) (AddFinalizer (d_meta driver) finalizerClusterResourceDeletion) driver))
  else mret (Ok driver).

(** Delete an object that may be gone already. *)
Definition delete_object (k : kind) (o : kobject k) : api_io (result unit) :=
  a ← api (Delete k o);
  mret (match a with Failed err => Err err | _ => Ok tt end).
Fixpoint delete_cluster_roles (l : list object) : api_io (result unit) :=
  match l with
  | [] => mret (Ok tt)
  | existT k o :: r =>
      if bool_decide (k = KClusterRole ∨ k = KClusterRoleBinding)
      then let! _ := delete_object k o in delete_cluster_roles r
      else delete_cluster_roles r
  end.
Definition finalize (M : manifests) (driver : BeegfsDriver) : api_io (result unit) :=
  if containsString (Finalizers (d_meta driver)) finalizerClusterResourceDeletion then
    let! _ := delete_cluster_roles (m_rbac M) in
    let! _ := delete_object KCSIDriver (m_driver M) in
    let! _ := api (Update KBeegfsDriver
      (set_meta (k := KBeegfsDriver) (RemoveFinalizer (d_meta driver) finalizerClusterResourceDeletion) driver)) in
    mret (Ok tt)
  else mret (Ok tt).

(** The CSI driver object is created but never changed. *)
Definition ensure_csi_driver (M : manifests) : api_io (result CSIDriver) :=
  ensure KCSIDriver EmptyString (m_driver M) (λ _, true).

Definition deploy_objects (M : manifests) (ns : string) (driver : BeegfsDriver) (sts : option StatefulSet)
    (ds : option DaemonSet) : api_io (result unit) :=
  let! cm := lift (newConfigMap driver) in
  let! cm := lift (setCommonObjectMetadata (k := KConfigMap) ns driver cm) in
  let! cm := ensure KConfigMap ns cm (λ c, DeepEqual (cm_Data cm) (cm_Data c)) in
  let! s := lift (setCommonObjectMetadata (k := KSecret) ns driver newSecret) in
  let! s := ensure KSecret ns s (λ _, true) in
  let! t := lift (setCommonObjectMetadata (k := KSecret) ns driver newTLS) in
  let! t := ensure KSecret ns t (λ _, true) in
  let! _ := ensure_rbacs ns driver (m_rbac M) in
  let! _ := ensure_csi_driver M in
  let! _ := deploy_controller M ns driver cm s t (default zero_sts sts) in
  deploy_node M ns driver cm s t (default zero_ds ds).

Definition Reconcile (M : manifests) (ns name : string) : api_io (result unit) :=
  a ← api (Get KBeegfsDriver ns name);
  match a with
  | NotFound _ => mret (Ok tt)
  | Failed err => mret (Err err)
  | Found driver =>
      let! r := refresh_status M ns driver in
      let '(driver, sts, ds) := r in
      if bool_decide (DeletionTimestamp (d_meta driver) = None) then
        let! driver := add_finalizer driver in
        deploy_objects M ns driver sts ds
      else finalize M driver
  end.
End Reconcile.
