(* ===== verification/OperatorFacts.v ===== *)
(** * OperatorFacts: what a round of the operator does *)
From S2P Require Import Prelude GoStrings Config Prog Kube Operator.
Local Open Scope Z_scope.

(** ** Runs *)

Section Runs.
Context {A B : Type}.
Implicit Types tr : api_trace.

Lemma exec_let_ok (p : api_io (result A)) (k : A → api_io (result B)) tr b :
  exec (let! x := p in k x) tr (Returned (Ok b)) →
  ∃ tr1 tr2 a, tr = tr1 ++ tr2 ∧ exec p tr1 (Returned (Ok a)) ∧ exec (k a) tr2 (Returned (Ok b)).
Proof.
  intros (tr1 & tr2 & [a|err] & -> & H1 & H2)%exec_bind_returned; [eauto 10|]. by destruct H2.
Qed.

(** Any run of a [let!]: the first part ended it, or both ran. *)
Lemma exec_let_inv (p : api_io (result A)) (k : A → api_io (result B)) tr o :
  exec (let! x := p in k x) tr o →
  (∃ o', exec p tr o' ∧ (∀ a, o' ≠ Returned (Ok a)) ∧ (∀ b, o ≠ Returned (Ok b)) ∧
    ∀ m, o = Panicked m → o' = Panicked m)
  ∨ ∃ tr1 tr2 a, tr = tr1 ++ tr2 ∧ exec p tr1 (Returned (Ok a)) ∧ exec (k a) tr2 o.
Proof.
  intros [(tr1 & tr2 & [a|err] & -> & H1 & H2)|(o' & H1 & Hn & ->)]%exec_bind_inv.
  - right. eauto 10.
  - left. destruct H2 as [-> ->]. rewrite app_nil_r. by exists (Returned (Err err)).
  - left. exists o'. split_and!; [done|auto| |]; destruct o'; try done; [by destruct (Hn a)..|].
    by intros m' [= ->].
Qed.

Lemma exec_api e (k : api_response e → api_io A) tr o :
  exec (api e ≫= k) tr o → ∃ r tr', tr = existT e r :: tr' ∧ exec (k r) tr' o.
Proof. done. Qed.
Lemma exec_api_returned e tr r : exec (api e) tr (Returned r) → tr = [existT e r].
Proof. intros (r' & tr' & -> & Hx). by destruct Hx as [-> [= ->]]. Qed.
Lemma exec_lift (r : result A) tr o : exec (lift r) tr o → tr = [] ∧ o = Returned r.
Proof. done. Qed.
End Runs.

(** Follow a run that returned no error through the next [let!]. *)
Ltac xok H a Ha :=
  let tr := fresh "tr" in let tr' := fresh "tr" in
  apply exec_let_ok in H as (tr & tr' & a & -> & Ha & H); cbv beta in H.

(** ** The manifests *)

Definition rbac_kind (k : kind) : bool :=
  match k with KServiceAccount | KClusterRole | KClusterRoleBinding | KRole | KRoleBinding => true | _ => false end.

(** Whatever it reads, [GetRBAC] returns objects of the five kinds that
    [Reconcile] handles, each decoded from one document of the manifest. *)
Lemma GetRBAC_objects UnmarshalStrict bytes i :
  i ∈ (GetRBAC UnmarshalStrict bytes).1 →
  rbac_kind (projT1 i) = true
  ∧ ∃ doc, doc ∈ Split bytes "---" ∧ UnmarshalStrict (projT1 i) doc = (projT2 i, None).
Proof.
  unfold GetRBAC. generalize (Split bytes "---") as docs.
  assert (∀ docs objs, i ∈ (decode_documents UnmarshalStrict docs objs).1 → i ∈ objs ∨
    (rbac_kind (projT1 i) = true ∧ ∃ doc, doc ∈ docs ∧ UnmarshalStrict (projT1 i) doc = (projT2 i, None))) as H.
  2: { intros docs [Hin|Hd]%H; [by apply elem_of_nil in Hin|done]. }
  induction docs as [|doc docs IH]; intros objs Hin; [by left|]. cbn [decode_documents] in Hin.
  repeat case_match; cbn in Hin; try by left.
  all: apply IH in Hin as [[Hin|Hin%list_elem_of_singleton]%elem_of_app|(Hk & doc' & Hd & Hu)]; [by left| |set_solver].
  all: right; subst i; split; [done|]; exists doc; split; [by left|done].
Qed.

(** ** Which requests a round can make *)

Lemma always_api P e : P e → always P (api e).
Proof. done. Qed.
Ltac apistep :=
  match goal with
  | |- ∀ _, _ => intro
  | |- always _ (api _) => apply always_api
  | |- always _ (lift _) => exact I
  | |- always _ (mret _) => exact I
  | |- always _ (Panic _) => exact I
  | |- always _ (match ?x with _ => _ end) => destruct x eqn:?
  | |- always _ (mbind _ _) => apply always_bind
  end.
Ltac apisteps := repeat apistep.

Section Requests.
Context {KB : Kube} {KL : KubeLaws KB}.
Implicit Types (M : manifests) (ns : string).

(** [o] is the object [i] in the namespace, with the owner. *)
Definition owned ns (owner : ObjectMeta) {k} (i o : kobject k) : Prop :=
  ∃ m, SetControllerReference owner (set_namespace ns (meta_of i)) = Ok m ∧ o = set_meta m i
    ∧ Name m = Name (meta_of i) ∧ Namespace m = ns.

Lemma setCommon_owned {k} ns driver (i o : kobject k) :
  setCommonObjectMetadata ns driver i = Ok o → owned ns (d_meta driver) i o.
Proof.
  unfold setCommonObjectMetadata. intros (m & Hm & [= <-])%result_bind_ok. exists m.
  destruct (SetControllerReference_spec _ _ _ Hm) as (Hn & Hns & _). by rewrite Hn, Hns.
Qed.

Definition config_data (data : string) : gmap string string :=
  {[KeyNameConfigMap := config_warning +:+ String "010"%char data]}.

(** The objects of the deployment that a resource with this metadata and
    specification asks for, given the config map and the secrets ([config]) that
    the pods mount: those of the manifests, in the resource's namespace and owned
    by it unless they are the cluster's, with the subjects of the bindings in that
    namespace and the pod templates filled in; a config map of the resource's
    configuration; and two empty secrets. *)
Definition deployment M ns (owner : ObjectMeta) (spec : BeegfsDriverSpec) (config : ConfigMap → Secret → Secret → Prop)
    (k : kind) : kobject k → Prop :=
  match k return kobject k → Prop with
  | KConfigMap => λ o, ∃ data, yaml_Marshal (spec_PluginConfig spec) = Ok data
      ∧ owned (k := KConfigMap) ns owner (mkConfigMap (named ResourceNameConfigMap) (config_data data)) o
  | KSecret => λ o, owned (k := KSecret) ns owner newSecret o ∨ owned (k := KSecret) ns owner newTLS o
  | KServiceAccount => λ o, ∃ i, existT KServiceAccount i ∈ m_rbac M ∧ owned (k := KServiceAccount) ns owner i o
  | KRole => λ o, ∃ i, existT KRole i ∈ m_rbac M ∧ owned (k := KRole) ns owner i o
  | KRoleBinding => λ o, ∃ i o', existT KRoleBinding i ∈ m_rbac M ∧ owned (k := KRoleBinding) ns owner i o'
      ∧ o = set_subjects ns o'
  | KClusterRole => λ o, existT KClusterRole o ∈ m_rbac M
  | KClusterRoleBinding => λ o, ∃ i, existT KClusterRoleBinding i ∈ m_rbac M ∧ o = set_subjects ns i
  | KCSIDriver => λ o, o = m_driver M
  | KStatefulSet => λ o, ∃ cm s t tmpl o', config cm s t ∧ owned (k := KStatefulSet) ns owner (m_sts M) o'
      ∧ fill_template cm s t spec (NodeAffinityControllerService spec) setControllerResources
          (Template (sts_Spec (m_sts M))) = Some tmpl
      ∧ o = mkStatefulSet (sts_meta o') (mkWorkload tmpl (w_other (sts_Spec (m_sts M))))
              (Replicas (m_sts M)) (ReadyReplicas (m_sts M))
  | KDaemonSet => λ o, ∃ cm s t tmpl o', config cm s t ∧ owned (k := KDaemonSet) ns owner (m_ds M) o'
      ∧ fill_template cm s t spec (NodeAffinityNodeService spec) setNodeResources
          (Template (ds_Spec (m_ds M))) = Some tmpl
      ∧ o = mkDaemonSet (ds_meta o') (mkWorkload tmpl (w_other (ds_Spec (m_ds M))))
              (DesiredNumberScheduled (m_ds M)) (NumberReady (m_ds M))
  | KBeegfsDriver => λ _, False
  end.

(** The requests of the deployment. Secrets, service accounts and the CSI driver
    object are created but never changed. *)
Definition deploy_ok M ns owner spec config (e : api_event) : Prop :=
  match e with
  | Get k ns' _ => ns' = scope k ns
  | Create k o => deployment M ns owner spec config k o
  | Update k o => (k ∉ [KSecret; KServiceAccount; KCSIDriver]) ∧ deployment M ns owner spec config k o
  | UpdateStatus _ | Delete _ _ => False
  end.

Lemma deployment_mono M ns owner spec (P Q : ConfigMap → Secret → Secret → Prop) k o :
  (∀ cm s t, P cm s t → Q cm s t) → deployment M ns owner spec P k o → deployment M ns owner spec Q k o.
Proof.
  intros HPQ. destruct k; try done; intros (cm & s & t & tmpl & o' & Hc & H); exists cm, s, t, tmpl, o'; (split; [by apply HPQ|done]).
Qed.
Lemma deploy_ok_mono M ns owner spec (P Q : ConfigMap → Secret → Secret → Prop) e :
  (∀ cm s t, P cm s t → Q cm s t) → deploy_ok M ns owner spec P e → deploy_ok M ns owner spec Q e.
Proof. intros HPQ. destruct e; try done; [|intros [? ?]; split; [done|]]; by eapply deployment_mono. Qed.

(** The rest of a [let!] runs only if its first part succeeded. *)
Lemma always_lift {A B} P (r : result A) (k : A → api_io (result B)) :
  (∀ a, r = Ok a → always P (k a)) → always P (let! x := (lift r) in k x).
Proof. destruct r; [|done]. intros H. by apply H. Qed.
Lemma always_let {A B} P (p : api_io (result A)) (k : A → api_io (result B)) :
  always P p → (∀ a, always P (k a)) → always P (let! x := p in k x).
Proof. intros Hp Hk. apply always_bind; [done|]. intros []; [auto|exact I]. Qed.

Section Deployment.
Context (M : manifests) (ns : string) (driver : BeegfsDriver) (config : ConfigMap → Secret → Secret → Prop).
Abbreviation ok := (deploy_ok M ns (d_meta driver) (d_Spec driver) config).

Lemma ensure_requests k ns' (o : kobject k) current :
  deployment M ns (d_meta driver) (d_Spec driver) config k o →
  ns' = scope k ns →
  (k ∈ [KSecret; KServiceAccount; KCSIDriver] → ∀ c, current c = true) → always ok (ensure k ns' o current).
Proof.
  intros Ho Hns Hcur. unfold ensure. apply always_bind; [done|]. intros [c|e|e]; [|done..].
  destruct (current c) eqn:Hc; [done|]. apply always_api. split; [|done]. intros Hin. by rewrite Hcur in Hc.
Qed.

Lemma ensure_rbac_requests i : i ∈ m_rbac M → always ok (ensure_rbac ns driver i).
Proof.
  destruct i as [k o]. intros Hin. destruct k; cbn [ensure_rbac]; try exact I.
  1,4,5: apply always_lift; intros o' Ho; apply (setCommon_owned (k := _) ns driver o o') in Ho.
  all: apply always_let; [apply ensure_requests; [|done|set_solver]|done]; cbn [deployment]; eauto.
Qed.
Lemma ensure_rbacs_requests l : (∀ i, i ∈ l → i ∈ m_rbac M) → always ok (ensure_rbacs ns driver l).
Proof.
  induction l as [|i l IH]; intros Hl; [exact I|]. cbn [ensure_rbacs].
  apply always_let; [apply ensure_rbac_requests, Hl; by left|]. intros _. apply IH. intros j Hj. apply Hl. by right.
Qed.

Lemma create_or_update_requests c k (o : kobject k) cur :
  k ∈ [KStatefulSet; KDaemonSet] → deployment M ns (d_meta driver) (d_Spec driver) config k o →
  always ok (create_or_update driver c o cur).
Proof. intros Hk Ho. unfold create_or_update. apisteps; try exact I; [exact Ho|]. split; [set_solver|exact Ho]. Qed.

Lemma deploy_controller_requests cm s t c : config cm s t → always ok (deploy_controller M ns driver cm s t c).
Proof.
  intros Hc. unfold deploy_controller. apply always_lift. intros sts Ho%(setCommon_owned (k := KStatefulSet)).
  destruct (fill_template _ _ _ _ _ _ _) as [tmpl|] eqn:Ht; [|exact I]. apply create_or_update_requests; [set_solver|].
  destruct Ho as (m & Hm & -> & H). exists cm, s, t, tmpl, (set_meta (k := KStatefulSet) m (m_sts M)).
  split_and!; [done|by exists m|done..].
Qed.
Lemma deploy_node_requests cm s t c : config cm s t → always ok (deploy_node M ns driver cm s t c).
Proof.
  intros Hc. unfold deploy_node. apply always_lift. intros ds Ho%(setCommon_owned (k := KDaemonSet)).
  destruct (fill_template _ _ _ _ _ _ _) as [tmpl|] eqn:Ht; [|exact I]. apply create_or_update_requests; [set_solver|].
  destruct Ho as (m & Hm & -> & H). exists cm, s, t, tmpl, (set_meta (k := KDaemonSet) m (m_ds M)).
  split_and!; [done|by exists m|done..].
Qed.

Lemma deploy_rest_requests cm s t sts ds :
  config cm s t →
  always ok (let! _ := ensure_rbacs ns driver (m_rbac M) in
             let! _ := ensure_csi_driver M in
             let! _ := deploy_controller M ns driver cm s t sts in
             deploy_node M ns driver cm s t ds).
Proof.
  intros Hc. apply always_let; [by apply ensure_rbacs_requests|]. intros _.
  apply always_let; [by apply ensure_requests|]. intros _.
  apply always_let; [by apply deploy_controller_requests|]. intros _. by apply deploy_node_requests.
Qed.
End Deployment.

(** An object that the API server answered with. *)
Definition answered {k} (tr : api_trace) (c : kobject k) : Prop :=
  (∃ ns n, got (Get k ns n) (Found c) tr) ∨ (∃ o, got (Create k o) (Ok c) tr) ∨ ∃ o, got (Update k o) (Ok c) tr.
Definition answered_config (tr : api_trace) (cm : ConfigMap) (s t : Secret) : Prop :=
  answered (k := KConfigMap) tr cm ∧ answered (k := KSecret) tr s ∧ answered (k := KSecret) tr t.

Lemma answered_app {k} tr1 tr2 (c : kobject k) : answered tr1 c ∨ answered tr2 c → answered (tr1 ++ tr2) c.
Proof.
  unfold answered, got. setoid_rewrite elem_of_app.
  intros [[(ns & n & H)|[(o & H)|(o & H)]]|[(ns & n & H)|[(o & H)|(o & H)]]];
    [left|right; left|right; right|left|right; left|right; right]; eauto.
Qed.

Lemma ensure_answered k ns (o : kobject k) current tr c :
  exec (ensure k ns o current) tr (Returned (Ok c)) → answered tr c.
Proof.
  intros ([c0|e|e] & tr' & -> & Hx)%exec_api.
  - destruct (current c0).
    + destruct Hx as [-> [= ->]]. left. eexists _, _. by left.
    + apply exec_api_returned in Hx as ->. right. right. eexists. right. by left.
  - apply exec_api_returned in Hx as ->. right. left. eexists. right. by left.
  - by destruct Hx as [_ [=]].
Qed.

Lemma exec_let_lift {A B} (r : result A) (k : A → api_io (result B)) tr o :
  exec (let! x := (lift r) in k x) tr o → tr = [] ∨ ∃ a, r = Ok a ∧ exec (k a) tr o.
Proof. destruct r as [a|]; intros H; [right; by exists a|left; by destruct H]. Qed.

Abbreviation all P tr := (Forall (λ s, P (projT1 s)) tr).

(** One object that is ensured, and the rest of the deployment. *)
Lemma ensure_then M ns driver k ns' (o : kobject k) current (rest : kobject k → api_io (result unit)) tr out
    (P : api_event → Prop) :
  (∀ e, deploy_ok M ns (d_meta driver) (d_Spec driver) (λ _ _ _, False) e → P e) →
  deployment M ns (d_meta driver) (d_Spec driver) (λ _ _ _, False) k o →
  ns' = scope k ns → (k ∈ [KSecret; KServiceAccount; KCSIDriver] → ∀ c, current c = true) →
  exec (let! c := ensure k ns' o current in rest c) tr out →
  all P tr ∨ ∃ tr1 tr2 c, tr = tr1 ++ tr2 ∧ all P tr1 ∧ answered tr1 c ∧ exec (rest c) tr2 out.
Proof.
  intros HP Ho Hns Hcur Hx.
  assert (∀ tr' o', exec (ensure k ns' o current) tr' o' → all P tr') as Hall.
  { intros tr' o' Hx'. eapply always_exec, Hx'. eapply always_mono; [exact HP|]. by apply ensure_requests. }
  apply exec_let_inv in Hx as [(o' & Hx & _)|(tr1 & tr2 & c & -> & H1 & H2)]; [left; by eapply Hall|right].
  exists tr1, tr2, c. split_and!; [done|by eapply Hall|by eapply ensure_answered|done].
Qed.

Lemma deploy_objects_all M ns driver sts ds tr o (P : api_event → Prop) :
  (∀ e, deploy_ok M ns (d_meta driver) (d_Spec driver) (λ _ _ _, False) e → P e) →
  (∀ e, deploy_ok M ns (d_meta driver) (d_Spec driver) (answered_config tr) e → P e) →
  exec (deploy_objects M ns driver sts ds) tr o → all P tr.
Proof.
  intros HP HQ Hx. unfold deploy_objects in Hx.
  apply exec_let_lift in Hx as [->|(cm0 & Hcm0 & Hx)]; [constructor|].
  apply exec_let_lift in Hx as [->|(cm1 & Hcm1 & Hx)]; [constructor|].
  apply (setCommon_owned (k := KConfigMap)) in Hcm1.
  unfold newConfigMap in Hcm0. apply result_bind_ok in Hcm0 as (data & Hd & [= <-]).
  apply (ensure_then _ _ _ KConfigMap _ _ _ _ _ _ _ HP) in Hx as [|(tr1 & trx & cm & -> & A1 & C1 & Hx)];
    [done| |by exists data|done|set_solver].
  apply Forall_app. split; [done|].
  apply exec_let_lift in Hx as [->|(s0 & Hs0%(setCommon_owned (k := KSecret)) & Hx)]; [constructor|].
  apply (ensure_then _ _ _ KSecret _ _ _ _ _ _ _ HP) in Hx as [|(tr2 & try & s & -> & A2 & C2 & Hx)];
    [done| |by left|done|done].
  apply Forall_app. split; [done|].
  apply exec_let_lift in Hx as [->|(t0 & Ht0%(setCommon_owned (k := KSecret)) & Hx)]; [constructor|].
  apply (ensure_then _ _ _ KSecret _ _ _ _ _ _ _ HP) in Hx as [|(tr3 & trz & t & -> & A3 & C3 & Hx)];
    [done| |by right|done|done].
  apply Forall_app. split; [done|]. eapply always_exec, Hx. eapply always_mono; [exact HQ|]. apply deploy_rest_requests.
  split_and!; repeat (done || (apply answered_app; (by left) || right)).
Qed.
Lemma deploy_objects_requests M ns driver sts ds tr o :
  exec (deploy_objects M ns driver sts ds) tr o →
  all (deploy_ok M ns (d_meta driver) (d_Spec driver) (answered_config tr)) tr.
Proof. apply deploy_objects_all; [|done]. intros e. by apply deploy_ok_mono. Qed.

(** ** A whole round *)

(** The resource as the API server had it. *)
Definition known ns name (tr : api_trace) (d : BeegfsDriver) : Prop :=
  got (Get KBeegfsDriver ns name) (Found d) tr ∨ (∃ asked, got (UpdateStatus asked) (Ok d) tr)
  ∨ ∃ asked, got (Update KBeegfsDriver asked) (Ok d) tr.
(** [m] with other finalizers. *)
Definition refinalized (m : ObjectMeta) (fs : list string) : ObjectMeta :=
  mkMeta (Name m) (Namespace m) (ResourceVersion m) fs (DeletionTimestamp m) (OwnerReferences m).

(** The requests of a round: reads in the resource's namespace or of
    cluster-scoped objects; the status of the resource that was read,
    and its finalizers, but nothing else of it; deletions of cluster-scoped
    objects of the manifests; and the deployment that the resource asks for. *)
Definition request_ok M ns name (tr : api_trace) (e : api_event) : Prop :=
  match e with
  | Get k ns' _ => ns' = scope k ns
  | UpdateStatus d => ∃ d0, got (Get KBeegfsDriver ns name) (Found d0) tr ∧ d_meta d = d_meta d0 ∧ d_Spec d = d_Spec d0
  | Update KBeegfsDriver d => ∃ d0 fs, known ns name tr d0 ∧ d_meta d = refinalized (d_meta d0) fs ∧ d_Spec d = d_Spec d0
  | Delete k o => existT k o ∈ existT KCSIDriver (m_driver M) :: m_rbac M ∧ cluster_scoped k = true
  | _ => ∃ d0, known ns name tr d0 ∧ deploy_ok M ns (d_meta d0) (d_Spec d0) (answered_config tr) e
  end.

Lemma delete_cluster_roles_requests M ns name tr l :
  (∀ i, i ∈ l → i ∈ m_rbac M) → always (request_ok M ns name tr) (delete_cluster_roles l).
Proof.
  induction l as [|[k o] l IH]; intros Hl; [exact I|]. cbn [delete_cluster_roles]. case_bool_decide as Hk.
  - apply always_let; [|intros _; apply IH; set_solver]. apply always_bind; [|done]. apply always_api.
    split; [right; apply Hl; by left|by destruct Hk; subst].
  - apply IH. set_solver.
Qed.

Lemma refresh_status_requests M ns name d0 tr tr0 o :
  got (Get KBeegfsDriver ns name) (Found d0) tr → exec (refresh_status M ns d0) tr0 o →
  all (request_ok M ns name tr) tr0.
Proof.
  intros Hg. apply always_exec. unfold refresh_status, get_optional. apisteps; try done. by exists d0.
Qed.

Lemma refresh_status_same M ns d tr d' sts ds :
  exec (refresh_status M ns d) tr (Returned (Ok (d', sts, ds))) →
  (d_meta d' = d_meta d ∧ d_Spec d' = d_Spec d) ∨ ∃ asked, got (UpdateStatus asked) (Ok d') tr.
Proof.
  unfold refresh_status. intros H. xok H sts' Hs. xok H ds' Hd. case_match.
  - xok H u Hu. apply exec_api_returned in Hu as ->. destruct H as [-> [= -> -> ->]]. right. eauto 10 with trace.
  - destruct H as [-> [= -> -> ->]]. by left.
Qed.

Lemma finalize_requests M ns name tr d0 d tr0 o :
  known ns name tr d0 → d_meta d = d_meta d0 → d_Spec d = d_Spec d0 → exec (finalize M d) tr0 o →
  all (request_ok M ns name tr) tr0.
Proof.
  intros Hk Hm Hs. apply always_exec. unfold finalize. case_match; [|exact I].
  apply always_let; [by apply delete_cluster_roles_requests|]. intros _.
  apply always_let; [apply always_bind; [|done]; apply always_api; split; [by left|done]|]. intros _.
  apply always_let; [|done]. apply always_api. eexists d0, _. split_and!; [done| |done].
  cbn [d_meta set_meta]. rewrite (proj2 (RemoveFinalizer_spec _ _)), Hm. reflexivity.
Qed.

(** Adding the finalizer and deploying. *)
Lemma deploy_requests M ns name tr d0 d sts ds tr0 tr1 o :
  tr = tr0 ++ tr1 → known ns name tr d0 → d_meta d = d_meta d0 → d_Spec d = d_Spec d0 →
  exec (let! driver := add_finalizer d in deploy_objects M ns driver sts ds) tr1 o →
  all (request_ok M ns name tr) tr1.
Proof.
  intros -> Hk Hm Hs Hx.
  assert (∀ tr2 o', exec (add_finalizer d) tr2 o' → all (request_ok M ns name (tr0 ++ tr1)) tr2) as Hadd.
  { intros tr2 o'. apply always_exec. unfold add_finalizer. case_match; [|exact I]. apply always_api.
    eexists d0, _. split_and!; [done| |done]. cbn [d_meta set_meta].
    rewrite (proj2 (AddFinalizer_spec _ _)), Hm. reflexivity. }
  apply exec_let_inv in Hx as [(o' & Hx & _)|(tr2 & tr3 & d1 & -> & H2 & H3)]; [by eapply Hadd|].
  apply Forall_app. split; [by eapply Hadd|].
  assert (∃ d1', known ns name (tr0 ++ tr2 ++ tr3) d1' ∧ d_meta d1 = d_meta d1' ∧ d_Spec d1 = d_Spec d1')
    as (d1' & Hk1 & Hm1 & Hs1).
  { unfold add_finalizer in H2. case_match.
    - apply exec_api_returned in H2 as ->. exists d1. split_and!; [|done..]. right. right. eauto 10 with trace.
    - destruct H2 as [-> [= ->]]. by exists d0. }
  apply deploy_objects_requests in H3. eapply Forall_impl; [exact H3|]. intros [e r]. cbn [projT1]. intros He.
  assert (deploy_ok M ns (d_meta d1') (d_Spec d1') (answered_config (tr0 ++ tr2 ++ tr3)) e) as He'.
  { rewrite <- Hm1, <- Hs1. eapply deploy_ok_mono, He. intros cm s t (? & ? & ?).
    split_and!; apply answered_app; right; apply answered_app; by right. }
  destruct e as [|k|[]| |]; try done; try (by exists d1'). by destruct He as [_ []].
Qed.

Lemma Reconcile_requests M ns name tr o :
  exec (Reconcile M ns name) tr o → all (request_ok M ns name tr) tr.
Proof.
  intros ([d0|e|e] & tr' & -> & Hx)%exec_api; [|by destruct Hx as [-> _]; repeat constructor..].
  set (g := existT (Get KBeegfsDriver ns name) (Found d0)). constructor; [done|].
  assert (got (Get KBeegfsDriver ns name) (Found d0) (g :: tr')) as Hg by (by left).
  apply exec_let_inv in Hx as [(o' & Hx & _)|(tr1 & tr2 & [[d sts] ds] & -> & Hr & Hx)];
    [by eapply refresh_status_requests|].
  apply Forall_app. split; [by eapply refresh_status_requests|].
  assert (∃ d', known ns name (g :: tr1 ++ tr2) d' ∧ d_meta d = d_meta d' ∧ d_Spec d = d_Spec d') as (d' & Hk & Hm & Hs).
  { apply refresh_status_same in Hr as [[Hm Hs]|(asked & Hu)]; [exists d0; by split; [left|]|].
    exists d. split_and!; [|done..]. right. left. exists asked. right. apply elem_of_app. by left. }
  case_bool_decide.
  - exact (deploy_requests M ns name _ d' d sts ds (g :: tr1) tr2 o eq_refl Hk Hm Hs Hx).
  - by eapply finalize_requests.
Qed.

(** C14: whatever the API server answers, a round writes only what is its own.
    Every object it creates or updates is one of the deployment that the
    BeegfsDriver resource it read asks for, with its name and content: an object
    of the manifests, in the resource's namespace and owned by the resource
    unless it is cluster-scoped, the config map or one of the two secrets.
    Secrets, service accounts and the CSI driver object are created but never
    changed, so an administrator's secrets are kept. Of the resource itself it
    writes nothing but the status and the finalizers, and it deletes nothing but
    the cluster-scoped objects of the manifests. *)
Theorem Reconcile_confined M ns name tr o :
  exec (Reconcile M ns name) tr o → Forall (λ s, request_ok M ns name tr (projT1 s)) tr.
Proof. apply Reconcile_requests. Qed.
End Requests.

(** ** The stages of a round *)

Section Stages.
Context {KB : Kube} {KL : KubeLaws KB}.
Implicit Types (M : manifests) (ns : string).

Definition reading (e : api_event) : Prop := match e with Get _ _ _ | UpdateStatus _ => True | _ => False end.
Abbreviation only P tr := (Forall (λ s, P (projT1 s)) tr).

Lemma only_did P e (tr : api_trace) : only P tr → did e tr → P e.
Proof. intros H (r & Hin). rewrite Forall_forall in H. apply (H _ Hin). Qed.

Lemma refresh_status_reading M ns d : always reading (refresh_status M ns d).
Proof. unfold refresh_status, get_optional. by apisteps. Qed.

(** A round ends while reading, or goes on to deploy or to finalize. *)
Lemma Reconcile_stages M ns name tr o :
  exec (Reconcile M ns name) tr o →
  only reading tr
  ∨ ∃ tr1 tr2 d0 d sts ds,
      tr = existT (Get KBeegfsDriver ns name) (Found d0) :: tr1 ++ tr2 ∧ only reading tr1
      ∧ exec (refresh_status M ns d0) tr1 (Returned (Ok (d, sts, ds)))
      ∧ exec (if bool_decide (DeletionTimestamp (d_meta d) = None)
              then let! driver := add_finalizer d in deploy_objects M ns driver sts ds
              else finalize M d) tr2 o.
Proof.
  intros ([d0|e|e] & tr' & -> & Hx)%exec_api; [|left; destruct Hx as [-> _]; by repeat constructor..].
  apply exec_let_inv in Hx as [(o' & Hx & _)|(tr1 & tr2 & [[d sts] ds] & -> & Hr & Hx)].
  - left. constructor; [done|]. eapply always_exec; [apply refresh_status_reading|exact Hx].
  - right. exists tr1, tr2, d0, d, sts, ds. split_and!; [done| |done..].
    eapply always_exec; [apply refresh_status_reading|exact Hr].
Qed.

(** The finalizer is on the resource as the API server has it, or as the
    operator just stored it. *)
Definition finalizer_held ns name (tr : api_trace) : Prop :=
  ∃ d, finalizerClusterResourceDeletion ∈ Finalizers (d_meta d)
  ∧ (got (Get KBeegfsDriver ns name) (Found d) tr
     ∨ (∃ asked, got (UpdateStatus asked) (Ok d) tr)
     ∨ ∃ d', got (Update KBeegfsDriver d) (Ok d') tr).

Lemma containsString_spec l s : containsString l s = true ↔ s ∈ l.
Proof.
  induction l as [|x l IH]; cbn; [split; [done|by intros ?%elem_of_nil]|].
  rewrite elem_of_cons. case_bool_decide; [naive_solver|]. rewrite IH. naive_solver.
Qed.

Lemma refresh_status_meta M ns d tr d' sts ds :
  exec (refresh_status M ns d) tr (Returned (Ok (d', sts, ds))) →
  d_meta d' = d_meta d ∨ ∃ asked, got (UpdateStatus asked) (Ok d') tr.
Proof.
  unfold refresh_status. intros H. xok H sts' Hs. xok H ds' Hd. case_match.
  - xok H u Hu. apply exec_api_returned in Hu as ->. destruct H as [-> [= -> -> ->]]. right. eauto 10 with trace.
  - destruct H as [-> [= -> -> ->]]. by left.
Qed.

Lemma add_finalizer_runs d tr o :
  exec (add_finalizer d) tr o →
  (tr = [] ∧ o = Returned (Ok d) ∧ finalizerClusterResourceDeletion ∈ Finalizers (d_meta d))
  ∨ ∃ d' r, tr = [existT (Update KBeegfsDriver d') r] ∧ o = Returned r
      ∧ finalizerClusterResourceDeletion ∈ Finalizers (d_meta d').
Proof.
  unfold add_finalizer. destruct (containsString _ _) eqn:Hc; cbn [negb].
  - intros [-> ->]. left. by apply containsString_spec in Hc.
  - intros (r & tr' & -> & Hx). destruct Hx as [-> ->]. right. eexists _, r. split_and!; [done..|].
    apply AddFinalizer_spec.
Qed.

Lemma delete_cluster_roles_only l : always (λ e, ∃ k o, e = Delete k o) (delete_cluster_roles l).
Proof.
  induction l as [|[k o] l IH]; [exact I|]. cbn [delete_cluster_roles]. case_bool_decide; [|done].
  apply always_let; [|done]. apply always_bind; [|done]. apply always_api. eauto.
Qed.
Lemma finalize_no_create M d k ob : always (λ e, e ≠ Create k ob) (finalize M d).
Proof.
  unfold finalize. case_match; [|exact I]. apply always_let.
  { eapply always_mono; [|apply delete_cluster_roles_only]. by intros e (k' & o' & ->). }
  intros _. apply always_let; [by apply always_bind|]. intros _. by apply always_let.
Qed.

(** C13: a round creates nothing before the finalizer that makes the operator
    delete the cluster-scoped objects again is stored on the resource, whatever
    the API server answers. *)
Theorem finalizer_before_create M ns name tr o k ob :
  exec (Reconcile M ns name) tr o → did (Create k ob) tr →
  ∃ tr1 tr2, tr = tr1 ++ tr2 ∧ finalizer_held ns name tr1 ∧ ∀ k ob, ¬ did (Create k ob) tr1.
Proof.
  intros [Hr|(tr1 & tr2 & d0 & d & sts & ds & -> & Hr & Hs & Hx)]%Reconcile_stages Hd.
  { destruct (only_did _ _ _ Hr Hd). }
  set (g := existT (Get KBeegfsDriver ns name) (Found d0)) in *.
  assert (∀ k ob, ¬ did (Create k ob) (g :: tr1)) as Hno.
  { intros k' ob' H. apply (only_did reading) in H; [done|by constructor]. }
  assert (did (Create k ob) tr2) as Hd2.
  { apply (did_app _ (g :: tr1)) in Hd as [Hd|Hd]; [by destruct (Hno k ob)|done]. }
  case_bool_decide as Hdel.
  2: { destruct (only_did (λ e, e ≠ Create k ob) (Create k ob) tr2); [|done..].
       exact (always_exec (λ e, e ≠ Create k ob) _ _ _ (finalize_no_create M d k ob) Hx). }
  apply exec_let_inv in Hx as [(o' & Hx & _)|(tra & trb & d1 & -> & Ha & Hx)].
  { apply add_finalizer_runs in Hx as [(-> & _)|(d' & r & -> & _)]; destruct Hd2 as (r' & Hin); set_solver. }
  exists (g :: tr1 ++ tra), trb. split; [cbn; by rewrite <- app_assoc|].
  apply add_finalizer_runs in Ha as [(-> & [= ->] & Hin)|(d' & r & -> & [= <-] & Hin)].
  - rewrite app_nil_r. split; [|done]. apply refresh_status_meta in Hs as [Hm|(asked & Hg)].
    + exists d0. rewrite <- Hm. split; [done|]. left. by left.
    + exists d. split; [done|]. right. left. exists asked. by right.
  - split.
    + exists d'. split; [done|]. right. right. exists d1. right. apply elem_of_app. right. by left.
    + intros k' ob' [H|H]%(did_app _ (g :: tr1)); [by destruct (Hno k' ob')|]. destruct H as (r' & Hin'). set_solver.
Qed.

(** ** Deletion *)

Lemma Update_inj k (o o' : kobject k) : Update k o = Update k o' → o = o'.
Proof. intros [= H]. apply Eqdep_dec.inj_pair2_eq_dec in H; [done|apply kind_eq_dec]. Qed.

(** The API server said that the object is deleted, or was not there. *)
Definition deleted k (o : kobject k) (tr : api_trace) : Prop :=
  ∃ a, got (Delete k o) a tr ∧ match a with Failed _ => False | _ => True end.

Lemma delete_object_returned k (o : kobject k) tr : exec (delete_object k o) tr (Returned (Ok tt)) → deleted k o tr.
Proof.
  intros (a & tr' & -> & Hx). exists a. split; [by left|]. destruct a; cbn in Hx; [done|done|by destruct Hx].
Qed.
Lemma deleted_app k (o : kobject k) tr1 tr2 : deleted k o tr1 ∨ deleted k o tr2 → deleted k o (tr1 ++ tr2).
Proof. intros [(a & Hg & Ha)|(a & Hg & Ha)]; exists a; auto with trace. Qed.

Lemma delete_cluster_roles_returned l : ∀ tr,
  exec (delete_cluster_roles l) tr (Returned (Ok tt)) →
  ∀ k o, existT k o ∈ l → k = KClusterRole ∨ k = KClusterRoleBinding → deleted k o tr.
Proof.
  induction l as [|[k0 o0] l IH]; intros tr Hx k o Hin Hk; [by apply elem_of_nil in Hin|].
  cbn [delete_cluster_roles] in Hx. apply elem_of_cons in Hin as [Heq|Hin].
  - injection Heq as -> Heq. apply Eqdep_dec.inj_pair2_eq_dec in Heq as ->; [|apply kind_eq_dec].
    rewrite bool_decide_true in Hx by done. xok Hx u Hd. destruct u. apply deleted_app. left.
    by apply delete_object_returned.
  - case_bool_decide; [xok Hx u Hd; apply deleted_app; right|]; eauto.
Qed.

Lemma add_finalizer_did d d' tr o :
  exec (add_finalizer d) tr o → did (Update KBeegfsDriver d') tr →
  finalizerClusterResourceDeletion ∈ Finalizers (d_meta d').
Proof.
  intros [(-> & _)|(d2 & r & -> & _ & Hin)]%add_finalizer_runs (r' & Hin'); [by apply elem_of_nil in Hin'|].
  apply list_elem_of_singleton in Hin'. apply (f_equal (@projT1 _ _)) in Hin'. by apply Update_inj in Hin' as ->.
Qed.

Lemma delete_object_no_update k (o : kobject k) d tr o' :
  exec (delete_object k o) tr o' → ¬ did (Update KBeegfsDriver d) tr.
Proof.
  intros Hx Hd. apply (only_did (λ e, e ≠ Update KBeegfsDriver d) (Update KBeegfsDriver d) tr); [|done..].
  by refine (always_exec (λ e, e ≠ Update KBeegfsDriver d) (delete_object k o) _ _ _ Hx).
Qed.
Lemma delete_cluster_roles_no_update l d tr o :
  exec (delete_cluster_roles l) tr o → ¬ did (Update KBeegfsDriver d) tr.
Proof.
  intros Hx Hd. apply (only_did (λ e, ∃ k o, e = Delete k o)) in Hd; [naive_solver|].
  refine (always_exec _ _ _ _ (delete_cluster_roles_only l) Hx).
Qed.

Lemma finalize_updates M d0 tr o d :
  exec (finalize M d0) tr o → did (Update KBeegfsDriver d) tr →
  ∃ tr1 r, tr = tr1 ++ [existT (Update KBeegfsDriver d) r]
    ∧ (∀ k ob, existT k ob ∈ m_rbac M → k = KClusterRole ∨ k = KClusterRoleBinding → deleted k ob tr1)
    ∧ deleted KCSIDriver (m_driver M) tr1.
Proof.
  unfold finalize. intros Hx Hd. destruct (containsString _ _); [|destruct Hx as [-> _]; by destruct Hd as (? & ?%elem_of_nil)].
  apply exec_let_inv in Hx as [(o' & Hx & _)|(tra & trb & [] & -> & Ha & Hx)];
    [by destruct (delete_cluster_roles_no_update _ _ _ _ Hx Hd)|].
  apply did_app in Hd as [Hd|Hd]; [by destruct (delete_cluster_roles_no_update _ _ _ _ Ha Hd)|].
  apply exec_let_inv in Hx as [(o' & Hx & _)|(trc & trd & [] & -> & Hc & Hx)];
    [by destruct (delete_object_no_update _ _ _ _ _ Hx Hd)|].
  apply did_app in Hd as [Hd|Hd]; [by destruct (delete_object_no_update _ _ _ _ _ Hc Hd)|].
  apply exec_api in Hx as (r & tre & -> & Hx). assert (tre = []) as -> by (by destruct r, Hx).
  destruct Hd as (r' & Hin%list_elem_of_singleton). apply (f_equal (@projT1 _ _)) in Hin. apply Update_inj in Hin as ->.
  exists (tra ++ trc), r. split; [by rewrite <- app_assoc|]. split.
  - intros k ob Hin Hk. apply deleted_app. left. by eapply delete_cluster_roles_returned.
  - apply deleted_app. right. by apply delete_object_returned.
Qed.

(** C12: the finalizer is taken off the resource by the last request of a round
    that created nothing, after the API server had confirmed for every cluster
    role, every cluster role binding and the CSI driver object of the manifests
    that it is gone; so deleting the resource leaves none of them behind. *)
Theorem finalizer_removed_last M ns name tr o d :
  exec (Reconcile M ns name) tr o → did (Update KBeegfsDriver d) tr →
  finalizerClusterResourceDeletion ∉ Finalizers (d_meta d) →
  ∃ tr1 r, tr = tr1 ++ [existT (Update KBeegfsDriver d) r]
    ∧ (∀ k ob, existT k ob ∈ m_rbac M → k = KClusterRole ∨ k = KClusterRoleBinding → deleted k ob tr1)
    ∧ deleted KCSIDriver (m_driver M) tr1
    ∧ ∀ k ob, ¬ did (Create k ob) tr.
Proof.
  intros [Hr|(tr1 & tr2 & d0 & d' & sts & ds & -> & Hr & Hs & Hx)]%Reconcile_stages Hd Hfin.
  { destruct (only_did _ _ _ Hr Hd). }
  set (g := existT (Get KBeegfsDriver ns name) (Found d0)) in *.
  assert (∀ e, did e (g :: tr1) → reading e) as Hno.
  { intros e. apply only_did. by constructor. }
  assert (did (Update KBeegfsDriver d) tr2) as Hd2.
  { apply (did_app _ (g :: tr1)) in Hd as [Hd|Hd]; [destruct (Hno _ Hd)|done]. }
  case_bool_decide as Hdel.
  { exfalso. apply exec_let_inv in Hx as [(o' & Hx & _)|(tra & trb & d1 & -> & Ha & Hx)].
    - by apply Hfin, (add_finalizer_did _ _ _ _ Hx).
    - apply did_app in Hd2 as [Hd2|Hd2]; [by apply Hfin, (add_finalizer_did _ _ _ _ Ha)|].
      apply deploy_objects_requests in Hx. by destruct (only_did _ _ _ Hx Hd2) as [_ []]. }
  destruct (finalize_updates _ _ _ _ _ Hx Hd2) as (tr3 & r & -> & Hroles & Hcsi).
  exists ((g :: tr1) ++ tr3), r. split; [cbn; by rewrite <- app_assoc|]. split_and!.
  - intros k ob Hin Hk. apply deleted_app. eauto.
  - apply deleted_app. by right.
  - intros k ob [H|H]%(did_app _ (g :: tr1)); [destruct (Hno _ H)|].
    apply (only_did (λ e, e ≠ Create k ob)) in H; [done|].
    exact (always_exec (λ e, e ≠ Create k ob) _ _ _ (finalize_no_create M d' k ob) Hx).
Qed.
End Stages.
