(* ===== verification/OperatorTemplate.v ===== *)
(** * OperatorTemplate: what the operator's overrides do to a pod template *)
From S2P Require Import Prelude GoStrings Config Prog Kube Operator.
Local Open Scope Z_scope.

(** ** Reference definitions *)

(** A string that replaces another unless it is empty. *)
Definition unless_empty (over s : string) : string := if bool_decide (over = EmptyString) then s else over.
(** Only cpu and memory can be overridden, each on its own. *)
Definition overridden (over m : gmap string Quantity) (key : string) : option Quantity :=
  if bool_decide (key = "cpu" ∨ key = "memory") then
    match over !! key with Some v => Some v | None => m !! key end
  else m !! key.
Definition no_override : ResourceRequirements := mkResources None None.
Definition node_override (o : ContainerResourceOverrides) (name : string) : ResourceRequirements :=
  if bool_decide (name = "beegfs") then NodeBeegfsResources o
  else if bool_decide (name = "node-driver-registrar") then NodeDriverRegistrarResources o
  else if bool_decide (name = "liveness-probe") then NodeLivenessProbeResources o
  else no_override.
Definition controller_override (o : ContainerResourceOverrides) (name : string) : ResourceRequirements :=
  if bool_decide (name = "beegfs") then ControllerBeegfsResources o
  else if bool_decide (name = "csi-provisioner") then ControllerCsiProvisionerResources o
  else no_override.
Definition image_override (o : ContainerImageOverrides) (name : string) : ContainerImageOverride :=
  default (mkImage EmptyString EmptyString) (containerNameToImageOverrideMap o !! name).
Definition no_colon (s : string) : bool := str_all (λ c, negb (bool_decide (c = ":"%char))) s.

(** A container of the manifests and its counterpart in what is deployed. *)
Record container_overridden (spec : BeegfsDriverSpec) (resources : string → ResourceRequirements)
    (c c' : Container) : Prop := {
  same_name : c_Name c' = c_Name c;
  same_other : c_other c' = c_other c;
  image_spec : ∀ image tag, no_colon image = true → c_Image c = image +:+ ":" +:+ tag →
    let o := image_override (spec_ImageOverrides spec) (c_Name c) in
    c_Image c' = unless_empty (Image o) image +:+ ":" +:+ unless_empty (Tag o) tag;
  env_spec : c_Env c' = (λ e, match LogLevel spec with
      | Some level => if bool_decide (env_Name e = "LOG_LEVEL")
                      then mkEnvVar (env_Name e) (Itoa level) (env_ValueFrom e) else e
      | None => e end) <$> c_Env c;
  limits_spec : ∀ m, Limits (c_Resources c) = Some m → ∃ m', Limits (c_Resources c') = Some m'
    ∧ ∀ key, m' !! key = overridden (default ∅ (Limits (resources (c_Name c)))) m key;
  requests_spec : ∀ m, Requests (c_Resources c) = Some m → ∃ m', Requests (c_Resources c') = Some m'
    ∧ ∀ key, m' !! key = overridden (default ∅ (Requests (resources (c_Name c)))) m key
}.
(** The manifests give every container limits and requests. *)
Definition has_resources (c : Container) : Prop :=
  is_Some (Limits (c_Resources c)) ∧ is_Some (Requests (c_Resources c)).

(** ** Images *)

Lemma Cut_colon image tag : no_colon image = true → Cut (image +:+ ":" +:+ tag) ":" = Some (image, tag).
Proof.
  induction image as [|c image IH]; intros Hc; [apply (Cut_here ":" tag)|].
  cbn in Hc. bools. rewrite append_cons, Cut_skip; [by rewrite IH|].
  unfold HasPrefix. cbn [String.prefix]. destruct (ascii_dec ":" c) as [<-|_]; done.
Qed.

Lemma getImageStringWithOverride_spec image tag o :
  no_colon image = true →
  getImageStringWithOverride (image +:+ ":" +:+ tag) o
  = unless_empty (Image o) image +:+ ":" +:+ unless_empty (Tag o) tag.
Proof.
  intros Hc. unfold getImageStringWithOverride, SplitN2, unless_empty. rewrite (Cut_colon _ _ Hc). cbn.
  by repeat case_bool_decide.
Qed.

(** ** Resources *)

Lemma override_one_spec over key m :
  ∃ m', override_one over key (Some m) = Some (Some m') ∧
    ∀ key', m' !! key' = (if bool_decide (key' = key) then
      match default ∅ over !! key with Some v => Some v | None => m !! key end else m !! key').
Proof.
  unfold override_one. destruct (default ∅ over !! key) as [v|] eqn:Hv; eexists; (split; [done|]); intros key';
    case_bool_decide; subst; try done; [apply lookup_insert_eq|by apply lookup_insert_ne].
Qed.

Lemma override_list_spec over m :
  ∃ m', override_list over (Some m) = Some (Some m') ∧ ∀ key, m' !! key = overridden (default ∅ over) m key.
Proof.
  unfold override_list. case_bool_decide as Hs.
  - destruct (override_one_spec over "cpu" m) as (m1 & H1 & Hm1). rewrite H1. cbn.
    destruct (override_one_spec over "memory" m1) as (m2 & H2 & Hm2). exists m2. split; [done|]. intros key.
    rewrite Hm2, !Hm1. unfold overridden. repeat case_bool_decide; subst; try done; naive_solver.
  - exists m. split; [done|]. intros key. unfold overridden.
    assert (default ∅ over = ∅) as -> by (apply map_size_empty_iff; lia). rewrite lookup_empty. by case_bool_decide.
Qed.

Lemma override_resources_spec over c :
  has_resources c → ∃ c', override_resources over c = Some c' ∧ c_Name c' = c_Name c ∧ c_Image c' = c_Image c
    ∧ c_Env c' = c_Env c ∧ c_other c' = c_other c
    ∧ (∀ m, Limits (c_Resources c) = Some m → ∃ m', Limits (c_Resources c') = Some m'
         ∧ ∀ key, m' !! key = overridden (default ∅ (Limits over)) m key)
    ∧ (∀ m, Requests (c_Resources c) = Some m → ∃ m', Requests (c_Resources c') = Some m'
         ∧ ∀ key, m' !! key = overridden (default ∅ (Requests over)) m key).
Proof.
  intros [[l Hl] [r Hr]]. unfold override_resources. rewrite Hl, Hr.
  destruct (override_list_spec (Limits over) l) as (l' & -> & Hl'). cbn.
  destruct (override_list_spec (Requests over) r) as (r' & -> & Hr'). cbn.
  eexists. split_and!; [done..| |]; intros m [= <-]; eauto.
Qed.

Lemma no_override_resources c : override_resources no_override c = Some c.
Proof. by destruct c as [? ? ? [] ?]. Qed.

(** Both functions override each container by its name. *)
Lemma setNodeResources_by_name o cs : setNodeResources o cs = mapM (λ c, override_resources (node_override o (c_Name c)) c) cs.
Proof.
  unfold setNodeResources, node_override. induction cs as [|c cs IH]; [done|]. cbn [mapM].
  repeat case_bool_decide; rewrite ?no_override_resources; cbn; by rewrite IH.
Qed.
Lemma setControllerResources_by_name o cs :
  setControllerResources o cs = mapM (λ c, override_resources (controller_override o (c_Name c)) c) cs.
Proof.
  unfold setControllerResources, controller_override. induction cs as [|c cs IH]; [done|]. cbn [mapM].
  repeat case_bool_decide; rewrite ?no_override_resources; cbn; by rewrite IH.
Qed.

(** ** Templates *)

Definition with_image (o : ContainerImageOverrides) (c : Container) : Container := default c (head (setImages [c] o)).
Definition with_level (level : option Z) (c : Container) : Container := default c (head (setLogLevel level [c])).
Lemma setImages_map o cs : setImages cs o = with_image o <$> cs.
Proof. done. Qed.
Lemma setLogLevel_map level cs : setLogLevel level cs = with_level level <$> cs.
Proof. destruct level; [done|]. symmetry. apply list_fmap_id. Qed.

Lemma with_image_spec o c image tag :
  no_colon image = true → c_Image c = image +:+ ":" +:+ tag →
  c_Image (with_image o c)
  = unless_empty (Image (image_override o (c_Name c))) image +:+ ":" +:+
    unless_empty (Tag (image_override o (c_Name c))) tag.
Proof.
  intros Hc Hi. unfold with_image, image_override. cbn -[containerNameToImageOverrideMap].
  destruct (containerNameToImageOverrideMap o !! c_Name c) as [v|]; [|done].
  case_match eqn:Hb; cbn [default head c_Image].
  - rewrite Hi. by apply getImageStringWithOverride_spec.
  - apply orb_false_iff in Hb as [H1 H2]. unfold unless_empty. cbn.
    rewrite bool_decide_eq_false in H1, H2. rewrite !bool_decide_true by (by apply dec_stable). done.
Qed.

Lemma one_container spec resources c :
  has_resources c →
  ∃ c', override_resources (resources (c_Name c))
          (with_level (LogLevel spec) (with_image (spec_ImageOverrides spec) c)) = Some c'
        ∧ container_overridden spec resources c c'.
Proof.
  intros Hc. set (c1 := with_level _ _).
  assert (c_Name c1 = c_Name c ∧ c_Resources c1 = c_Resources c ∧ c_other c1 = c_other c
    ∧ c_Image c1 = c_Image (with_image (spec_ImageOverrides spec) c)
    ∧ c_Env c1 = (λ e, match LogLevel spec with
      | Some level => if bool_decide (env_Name e = "LOG_LEVEL")
                      then mkEnvVar (env_Name e) (Itoa level) (env_ValueFrom e) else e
      | None => e end) <$> c_Env c) as (Hn & Hr & Ho & Hi & He).
  { subst c1. unfold with_level, with_image. cbn -[containerNameToImageOverrideMap].
    destruct (LogLevel spec); repeat case_match; cbn; rewrite ?list_fmap_id; done. }
  destruct (override_resources_spec (resources (c_Name c)) c1) as (c' & -> & H1 & H2 & H3 & H4 & H5 & H6).
  { unfold has_resources. by rewrite Hr. }
  exists c'. split; [done|]. rewrite Hr in H5, H6. constructor; [congruence..| |congruence|done|done].
  intros image tag Hcolon Himage o. rewrite H2, Hi. by apply with_image_spec.
Qed.

Lemma mapM_containers spec resources cs :
  Forall has_resources cs →
  ∃ cs', mapM (λ c, override_resources (resources (c_Name c)) c)
           (setLogLevel (LogLevel spec) (setImages cs (spec_ImageOverrides spec))) = Some cs'
         ∧ Forall2 (container_overridden spec resources) cs cs'.
Proof.
  rewrite setLogLevel_map, setImages_map. induction 1 as [|c cs Hc _ (cs' & IH & Hcs)]; [by exists []|].
  destruct (one_container spec resources c Hc) as (c' & Ho & Hc').
  assert (c_Name (with_level (LogLevel spec) (with_image (spec_ImageOverrides spec) c)) = c_Name c) as Hn.
  { unfold with_level, with_image. cbn -[containerNameToImageOverrideMap].
    destruct (LogLevel spec); repeat case_match; done. }
  exists (c' :: cs'). split; [|by constructor]. rewrite !fmap_cons. cbn [mapM]. rewrite Hn, Ho. cbn [mbind option_bind].
  by rewrite IH.
Qed.

Lemma set_resources_total (node : bool) spec cs :
  Forall has_resources cs →
  ∃ cs', (if node then setNodeResources else setControllerResources) (spec_ResourceOverrides spec)
           (setLogLevel (LogLevel spec) (setImages cs (spec_ImageOverrides spec))) = Some cs'
  ∧ Forall2 (container_overridden spec
      ((if node then node_override else controller_override) (spec_ResourceOverrides spec))) cs cs'.
Proof.
  intros Hall. destruct (mapM_containers spec
    ((if node then node_override else controller_override) (spec_ResourceOverrides spec)) _ Hall) as (cs' & Hm & Hcs).
  exists cs'. split; [|done]. rewrite <- Hm.
  destruct node; [apply setNodeResources_by_name|apply setControllerResources_by_name].
Qed.

Lemma fill_template_total (node : bool) cm s t spec affinity tmpl :
  Forall has_resources (Containers (t_Spec tmpl)) →
  is_Some (fill_template cm s t spec affinity (if node then setNodeResources else setControllerResources) tmpl).
Proof.
  intros (cs' & Hset & _)%(set_resources_total node spec). unfold fill_template.
  cbn -[setNodeResources setControllerResources setImages]. rewrite Hset. by eexists.
Qed.

(** C15: for containers that have limits and requests, filling in a pod template
    does not panic, and changes exactly what the resource overrides: each
    container's image and tag separately, its cpu and memory limits and
    requests one by one, the log level where the container has one, the node
    affinity, and the three annotations that record the versions of the
    configuration; everything else is as in the manifest. *)
Theorem overrides_applied (node : bool) cm s t spec affinity tmpl :
  Forall has_resources (Containers (t_Spec tmpl)) →
  ∃ tmpl', fill_template cm s t spec affinity
             (if node then setNodeResources else setControllerResources) tmpl = Some tmpl'
  ∧ Forall2 (container_overridden spec
      ((if node then node_override else controller_override) (spec_ResourceOverrides spec)))
      (Containers (t_Spec tmpl)) (Containers (t_Spec tmpl'))
  ∧ pod_Affinity (t_Spec tmpl')
    = Some (mkAffinity (Some affinity) (from_option aff_other EmptyString (pod_Affinity (t_Spec tmpl))))
  ∧ (∃ a, Annotations tmpl' = Some a ∧ ∀ key, a !! key =
       if bool_decide (key = annotationConfigMapVersion) then Some (name_and_version (cm_meta cm))
       else if bool_decide (key = annotationConnauthSecretVersion) then Some (name_and_version (s_meta s))
       else if bool_decide (key = annotationTLSCertsSecretVersion) then Some (name_and_version (s_meta t))
       else default ∅ (Annotations tmpl) !! key)
  ∧ t_other tmpl' = t_other tmpl ∧ pod_other (t_Spec tmpl') = pod_other (t_Spec tmpl).
Proof.
  intros (cs' & Hset & Hcs)%(set_resources_total node spec).
  unfold fill_template. cbn -[setNodeResources setControllerResources setImages]. rewrite Hset. cbn -[setImages].
  eexists. split; [done|]. split_and!; [done| | |done..].
  - by destruct (pod_Affinity (t_Spec tmpl)).
  - eexists. split; [done|]. intros key. rewrite !lookup_insert. repeat (case_decide || case_bool_decide); subst; done.
Qed.
