(* ===== verification/OperatorServer.v ===== *)
(** * OperatorServer: an API server for the operator

    What the operator's rounds need of the API server, as an interface: objects
    are stored under their kind, namespace and name; the server admits a write or
    refuses it, and an admitted write stores what was asked. *)
From S2P Require Import Prelude GoStrings Config Prog Kube Operator.
Local Open Scope Z_scope.

(** [admits] is what the server lets the operator write: the permissions of the
    operator's role, fields that cannot be changed once they are set, and the
    server's own validation. *)
Class ApiServer := {
  world : Type;
  admits : world → api_event → bool;
  handle : ∀ e, world → api_response e * world;
  stored : world → ∀ k, string → string → option (kobject k)
}.

(** What comes back of an object that was sent: the server may fill in fields
    that the request leaves open. *)
Definition accepts `{KB : Kube} (k : kind) : kobject k → kobject k → Prop :=
  match k return kobject k → kobject k → Prop with
  | KConfigMap => λ o c, cm_Data c = cm_Data o
  | KClusterRole | KRole => λ o c, DeepEqual (Rules o) (Rules c) = true
  | KClusterRoleBinding | KRoleBinding => λ o c, binding_current o c = true
  | KStatefulSet => λ o c, DeepDerivative (sts_Spec o) (sts_Spec c) = true
  | KDaemonSet => λ o c, DeepDerivative (ds_Spec o) (ds_Spec c) = true
  | _ => λ _ _, True
  end.

Section Server.
Context {S : ApiServer}.

Definition same_elsewhere (w w' : world) (k : kind) (ns n : string) : Prop :=
  ∀ k' ns' n', (k', ns', n') ≠ (k, ns, n) → stored w' k' ns' n' = stored w k' ns' n'.

(** A write that stores [c] under the key and touches nothing else. *)
Definition stores {k} (w w' : world) (ns n : string) (c : kobject k) : Prop :=
  stored w' k ns n = Some c ∧ same_elsewhere w w' k ns n.

(** Objects are created without a version and updated without one or with the
    current one. A write that is refused changes nothing. Updating a resource keeps its status, and updating its status
    keeps the rest. *)
Class ApiServerLaws (KB : Kube) : Prop := {
  stored_meta w k ns n (o : kobject k) : stored w k ns n = Some o →
    Name (meta_of o) = n ∧ (cluster_scoped k = false → Namespace (meta_of o) = ns);
  handle_get w k ns n : ∃ e,
    handle (Get k ns n) w = (match stored w k ns n with Some o => Found o | None => NotFound e end, w);
  handle_create w k (o : kobject k) :
    k ≠ KBeegfsDriver → ResourceVersion (meta_of o) = EmptyString →
    stored w k (scope k (Namespace (meta_of o))) (Name (meta_of o)) = None → admits w (Create k o) = true →
    ∃ c w', handle (Create k o) w = (Ok c, w') ∧ accepts k o c
      ∧ stores w w' (scope k (Namespace (meta_of o))) (Name (meta_of o)) c;
  handle_update w k (o : kobject k) :
    k ≠ KBeegfsDriver → ResourceVersion (meta_of o) = EmptyString →
    is_Some (stored w k (scope k (Namespace (meta_of o))) (Name (meta_of o))) → admits w (Update k o) = true →
    ∃ c w', handle (Update k o) w = (Ok c, w') ∧ accepts k o c
      ∧ stores w w' (scope k (Namespace (meta_of o))) (Name (meta_of o)) c;
  handle_create_refused w k (o : kobject k) :
    k ≠ KBeegfsDriver → admits w (Create k o) = false → ∃ err, handle (Create k o) w = (Err err, w);
  handle_update_refused w k (o : kobject k) :
    k ≠ KBeegfsDriver → admits w (Update k o) = false → ∃ err, handle (Update k o) w = (Err err, w);
  handle_update_driver w (d old : BeegfsDriver) :
    stored w KBeegfsDriver (Namespace (d_meta d)) (Name (d_meta d)) = Some old →
    ResourceVersion (d_meta d) = ResourceVersion (d_meta old) →
    DeletionTimestamp (d_meta old) = None →
    ∃ c w', handle (Update KBeegfsDriver d) w = (Ok c, w')
      ∧ d_Spec c = d_Spec d ∧ Conditions c = Conditions old ∧ Finalizers (d_meta c) = Finalizers (d_meta d)
      ∧ DeletionTimestamp (d_meta c) = None
      ∧ stores (k := KBeegfsDriver) w w' (Namespace (d_meta d)) (Name (d_meta d)) c;
  handle_update_status w (d old : BeegfsDriver) :
    stored w KBeegfsDriver (Namespace (d_meta d)) (Name (d_meta d)) = Some old →
    ResourceVersion (d_meta d) = ResourceVersion (d_meta old) →
    ∃ c w', handle (UpdateStatus d) w = (Ok c, w')
      ∧ d_Spec c = d_Spec old ∧ Conditions c = Conditions d ∧ Finalizers (d_meta c) = Finalizers (d_meta old)
      ∧ DeletionTimestamp (d_meta c) = DeletionTimestamp (d_meta old)
      ∧ stores (k := KBeegfsDriver) w w' (Namespace (d_meta d)) (Name (d_meta d)) c
}.

(** ** Runs against the server *)

Definition runs {A} (p : api_io A) (w : world) (tr : api_trace) (a : A) (w' : world) : Prop :=
  run handle p w = (tr, Returned a, w').

Lemma runs_ret {A} (a : A) w : runs (mret a) w [] a w.
Proof. done. Qed.
Lemma runs_bind {A B} (p : api_io A) (f : A → api_io B) w tr1 a w1 tr2 b w2 :
  runs p w tr1 a w1 → runs (f a) w1 tr2 b w2 → runs (p ≫= f) w (tr1 ++ tr2) b w2.
Proof. unfold runs. intros H1 H2. rewrite (run_bind _ _ _ _ _ _ _ H1). by rewrite H2. Qed.
Lemma runs_api e w r w' : handle e w = (r, w') → runs (api e) w [existT e r] r w'.
Proof. unfold runs, api, trigger. cbn. by intros ->. Qed.
Lemma runs_let {A B} (p : api_io (result A)) (k : A → api_io (result B)) w tr1 a w1 tr2 b w2 :
  runs p w tr1 (Ok a) w1 → runs (k a) w1 tr2 b w2 → runs (let! x := p in k x) w (tr1 ++ tr2) b w2.
Proof. intros H1 H2. by apply (runs_bind p _ w tr1 (Ok a) w1 tr2 b w2). Qed.
Lemma runs_let_err {A B} (p : api_io (result A)) (k : A → api_io (result B)) w tr err w' :
  runs p w tr (Err err) w' → runs (let! x := p in k x) w tr (Err err) w'.
Proof. intros H. rewrite <- (app_nil_r tr). by apply (runs_bind p _ w tr (Err err) w' [] (Err err) w'). Qed.
Lemma runs_lift {A B} (r : result A) a (k : A → api_io (result B)) w tr b w' :
  r = Ok a → runs (k a) w tr b w' → runs (let! x := (lift r) in k x) w tr b w'.
Proof. by intros ->. Qed.
Lemma runs_exec {A} (p : api_io A) w tr a w' : runs p w tr a w' → exec p tr (Returned a).
Proof. intros H. pose proof (run_exec handle p w) as Hx. rewrite H in Hx. done. Qed.

Lemma same_elsewhere_refl w k ns n : same_elsewhere w w k ns n.
Proof. by intros k' ns' n' _. Qed.

(** ** Runs that succeed unless a write is refused *)

(** The last request was to write an object of the deployment, and the server
    refused it. *)
Definition refused (w : world) (tr : api_trace) (err : goerr) : Prop :=
  ∃ k (o : kobject k), k ≠ KBeegfsDriver
    ∧ ((admits w (Create k o) = false ∧ last tr = Some (existT (Create k o) (Err err)))
       ∨ (admits w (Update k o) = false ∧ last tr = Some (existT (Update k o) (Err err)))).

(** The program returns a result for which [Q] holds; it fails only if the server
    refuses a write, and not if [N] holds: there was nothing to write. *)
Definition achieves {A} (p : api_io (result A)) (w : world) (Q : api_trace → A → world → Prop) (N : Prop) : Prop :=
  ∃ tr r w', runs p w tr r w' ∧ match r with Ok a => Q tr a w' | Err err => refused w' tr err ∧ ¬ N end.

Lemma achieves_ok {A} (p : api_io (result A)) w tr a w' (Q : api_trace → A → world → Prop) N :
  runs p w tr (Ok a) w' → Q tr a w' → achieves p w Q N.
Proof. intros Hr HQ. by exists tr, (Ok a), w'. Qed.
Lemma achieves_weaken {A} (p : api_io (result A)) w (Q Q' : api_trace → A → world → Prop) (N N' : Prop) :
  achieves p w Q N → (∀ tr a w', Q tr a w' → Q' tr a w') → (N' → N) → achieves p w Q' N'.
Proof.
  intros (tr & [a|err] & w' & Hr & H) HQ HN; exists tr; eexists _, w'; (split; [exact Hr|]); cbn; [auto|].
  destruct H as [H Hn]. auto.
Qed.

Lemma refused_app w tr1 tr2 err : refused w tr2 err → refused w (tr1 ++ tr2) err.
Proof.
  intros (k & o & Hk & H). exists k, o. split; [done|].
  destruct H as [[Ha Hl]|[Ha Hl]]; [left|right]; (split; [done|]); by rewrite last_app, Hl.
Qed.
Lemma achieves_let {A B} (p : api_io (result A)) (k : A → api_io (result B)) w Q1 (Q : api_trace → B → world → Prop) N :
  achieves p w Q1 N →
  (∀ tr1 a w1, Q1 tr1 a w1 → achieves (k a) w1 (λ tr2 b w2, Q (tr1 ++ tr2) b w2) N) →
  achieves (let! x := p in k x) w Q N.
Proof.
  intros (tr1 & [a|err] & w1 & Hr1 & H1) Hk; [|exists tr1, (Err err), w1; split; [by apply runs_let_err|done]].
  destruct (Hk tr1 a w1 H1) as (tr2 & r & w2 & Hr2 & H2). exists (tr1 ++ tr2), r, w2.
  split; [by eapply runs_let|]. destruct r as [b|err]; [done|]. destruct H2 as [H2 HN]. split; [by apply refused_app|done].
Qed.
Lemma achieves_lift {A B} (r : result A) a (k : A → api_io (result B)) w (Q : api_trace → B → world → Prop) N :
  r = Ok a → achieves (k a) w Q N → achieves (let! x := (lift r) in k x) w Q N.
Proof. by intros ->. Qed.
End Server.
