(* ===== verification/OperatorConverge.v ===== *)
(** * OperatorConverge: the rounds of the operator reach a fixed point

    Against any server that satisfies [ApiServerLaws], one round makes the
    cluster what the resource asks for ([settled]), and every later round only
    reads and reports the status; unless the server refuses a write of the
    round, which then fails with the server's error. *)
From S2P Require Import Prelude GoStrings Config Prog Kube Operator OperatorFacts OperatorTemplate OperatorServer.
Local Open Scope Z_scope.

Section Converge.
Context {KB : Kube} {KL : KubeLaws KB} {S : ApiServer} {SL : ApiServerLaws KB}.
Implicit Types (w : world) (M : manifests) (ns : string).

Definition is_get (e : api_event) : Prop := match e with Get _ _ _ => True | _ => False end.
Abbreviation only P tr := (Forall (λ s, P (projT1 s)) tr).

Lemma only_let {P} {tr1 tr2 : api_trace} : only P tr1 → only P tr2 → only P (tr1 ++ tr2).
Proof. intros. by apply Forall_app. Qed.

(** ** One object *)

Lemma ensure_runs k ns (o : kobject k) current w :
  k ≠ KBeegfsDriver → ns = scope k (Namespace (meta_of o)) → ResourceVersion (meta_of o) = EmptyString →
  (∀ c, accepts k o c → current c = true) →
  achieves (ensure k ns o current) w
    (λ tr c w', current c = true ∧ stores w w' ns (Name (meta_of o)) c
       ∧ (∀ c0, stored w k ns (Name (meta_of o)) = Some c0 → current c0 = true → w' = w ∧ c = c0 ∧ only is_get tr))
    (∃ c0, stored w k ns (Name (meta_of o)) = Some c0 ∧ current c0 = true).
Proof.
  intros Hk -> Hv Hcur. unfold ensure. set (ns := scope k _). set (n := Name _).
  destruct (handle_get w k ns n) as (e & Hget). destruct (stored w k ns n) as [c0|] eqn:Hs; [destruct (current c0) eqn:Hc|].
  - eapply achieves_ok; [eapply runs_bind; [exact (runs_api _ _ _ _ Hget)|]; cbv beta iota; rewrite Hc; apply runs_ret|].
    split_and!; [done|by split; [|intros ?]|]. intros ? [= <-] _. by repeat constructor.
  - destruct (admits w (Update k o)) eqn:Had.
    + destruct (handle_update w k o Hk Hv) as (c & w' & Hu & Ha & Hst); [by exists c0|done|].
      eapply achieves_ok; [eapply runs_bind; [exact (runs_api _ _ _ _ Hget)|]; cbv beta iota; rewrite Hc; exact (runs_api _ _ _ _ Hu)|].
      split_and!; [auto|done|]. intros ? [= <-] ?. congruence.
    + destruct (handle_update_refused w k o Hk Had) as (err & Hu). eexists _, (Err err), w.
      split; [eapply runs_bind; [exact (runs_api _ _ _ _ Hget)|]; cbv beta iota; rewrite Hc; exact (runs_api _ _ _ _ Hu)|].
      split; [exists k, o; split; [done|by right]|]. intros (? & [= <-] & ?). congruence.
  - destruct (admits w (Create k o)) eqn:Had.
    + destruct (handle_create w k o Hk Hv Hs Had) as (c & w' & Hu & Ha & Hst).
      eapply achieves_ok; [eapply runs_bind; [exact (runs_api _ _ _ _ Hget)|]; exact (runs_api _ _ _ _ Hu)|].
      split_and!; [auto|done|]. intros ? [=].
    + destruct (handle_create_refused w k o Hk Had) as (err & Hu). eexists _, (Err err), w.
      split; [eapply runs_bind; [exact (runs_api _ _ _ _ Hget)|]; exact (runs_api _ _ _ _ Hu)|].
      split; [exists k, o; split; [done|by left]|]. by intros (? & [=] & _).
Qed.

(** ** The RBAC objects *)

Definition rbac_key ns (i : object) : kind * string * string :=
  (projT1 i, scope (projT1 i) ns, Name (meta_of (projT2 i))).

(** The cluster has the object, with the rules or subjects of the manifest. *)
Definition rbac_current ns (k : kind) : kobject k → kobject k → bool :=
  match k return kobject k → kobject k → bool with
  | KClusterRole | KRole => λ o c, DeepEqual (Rules o) (Rules c)
  | KClusterRoleBinding | KRoleBinding => λ o c, binding_current (set_subjects ns o) c
  | _ => λ _ _, true
  end.
Definition rbac_settled ns w (i : object) : Prop :=
  ∃ c, stored w (projT1 i) (scope (projT1 i) ns) (Name (meta_of (projT2 i))) = Some c
       ∧ rbac_current ns (projT1 i) (projT2 i) c = true.

(** An object of the manifests: without version and without owner. *)
Definition fresh_meta (m : ObjectMeta) : Prop := ResourceVersion m = EmptyString ∧ OwnerReferences m = EmptyString.

Lemma setCommon_runs {k} ns driver (o : kobject k) :
  fresh_meta (meta_of o) → Namespace (d_meta driver) = ns →
  ∃ m, setCommonObjectMetadata ns driver o = Ok (set_meta m o)
    ∧ Name m = Name (meta_of o) ∧ Namespace m = ns ∧ ResourceVersion m = EmptyString.
Proof.
  intros [Hv Ho] Hns. unfold setCommonObjectMetadata.
  pose proof (SetControllerReference_owned (d_meta driver) (set_namespace ns (meta_of o)) Ho Hns) as Hok.
  destruct (SetControllerReference _ _) as [m|] eqn:Hm; [|done].
  apply SetControllerReference_spec in Hm as (Hn & Hns' & Hv'). exists m. by rewrite Hn, Hns', Hv'.
Qed.

Lemma ensure_rbac_runs ns driver (i : object) w :
  rbac_kind (projT1 i) = true → fresh_meta (meta_of (projT2 i)) → Namespace (d_meta driver) = ns →
  achieves (ensure_rbac ns driver i) w
    (λ tr _ w', ∃ c, rbac_current ns (projT1 i) (projT2 i) c = true
       ∧ stores w w' (scope (projT1 i) ns) (Name (meta_of (projT2 i))) c
       ∧ (rbac_settled ns w i → w' = w ∧ only is_get tr))
    (rbac_settled ns w i).
Proof.
  destruct i as [k o]. cbn [projT1 projT2]. intros Hk Hf Hns.
  set (Q := λ (tr : api_trace) (_ : unit) w', ∃ c, _). set (N := rbac_settled ns w (existT k o)).
  assert (∀ (o' : kobject k) current, (∀ c, accepts k o' c → current c = true) →
    (∀ c, current c = rbac_current ns k o c) → Name (meta_of o') = Name (meta_of o) →
    ResourceVersion (meta_of o') = EmptyString → scope k ns = scope k (Namespace (meta_of o')) →
    achieves (let! _ := ensure k (scope k ns) o' current in mret (Ok tt)) w Q N) as Hgen.
  { intros o' current Hacc Hcur Hn Hv Hsc. eapply achieves_let.
    - eapply achieves_weaken; [apply (ensure_runs k (scope k ns) o' current w); [by intros ->|done..]|done|].
      rewrite Hn. intros (c & Hc). exists c. by rewrite Hcur.
    - intros tr1 c w1 (Hc & Hst & Hq). eapply achieves_ok; [apply runs_ret|]. rewrite Hn in Hst, Hq. exists c.
      split_and!; [by rewrite <- Hcur|done|]. intros (c0 & Hs0 & Hc0). rewrite app_nil_r.
      destruct (Hq c0 Hs0) as (-> & _ & Hg); [by rewrite Hcur|]. done. }
  clearbody Q N. destruct k; try done; cbn [ensure_rbac].
  2: { apply (Hgen o); [done..|apply Hf|done]. }
  2: { apply (Hgen (set_subjects ns o)); [done..|apply Hf|done]. }
  all: destruct (setCommon_runs ns driver o Hf Hns) as (m & Hm & Hn & Hns' & Hv); eapply achieves_lift; [exact Hm|].
  - apply (Hgen (set_meta m o) (λ _, true)); done.
  - apply (Hgen (set_meta m o) (λ c, DeepEqual (Rules o) (Rules c))); done.
  - apply (Hgen (set_subjects ns (set_meta (k := KRoleBinding) m o)) (binding_current (set_subjects ns o))); done.
Qed.

Definition rbac_wf ns (l : list object) : Prop :=
  NoDup (rbac_key ns <$> l) ∧ Forall (λ i, rbac_kind (projT1 i) = true ∧ fresh_meta (meta_of (projT2 i))) l.

Lemma ensure_rbacs_runs ns driver l : ∀ w,
  rbac_wf ns l → Namespace (d_meta driver) = ns →
  achieves (ensure_rbacs ns driver l) w
    (λ tr _ w', Forall (rbac_settled ns w') l
       ∧ (∀ k ns' n, (k, ns', n) ∉ rbac_key ns <$> l → stored w' k ns' n = stored w k ns' n)
       ∧ (Forall (rbac_settled ns w) l → w' = w ∧ only is_get tr))
    (Forall (rbac_settled ns w) l).
Proof.
  induction l as [|i l IH]; intros w [Hnd Hall] Hns.
  { eapply achieves_ok; [apply runs_ret|]. split_and!; [constructor|done|]. intros _. by split; [|constructor]. }
  apply NoDup_cons in Hnd as [Hni Hnd]. apply Forall_cons in Hall as [[Hk Hf] Hall]. cbn [ensure_rbacs]. eapply achieves_let.
  { eapply achieves_weaken; [by apply (ensure_rbac_runs ns driver i w)|intros tr a w' H; exact H|]. by intros [Hi _]%Forall_cons. }
  intros tr1 [] w1 (c & Hc & [Hst Hse] & Hq1). eapply achieves_weaken; [by apply (IH w1)|..].
  - intros tr2 [] w2 (Hset & Hother & Hq2). split_and!.
    + constructor; [|done]. exists c. split; [|done]. by rewrite Hother.
    + intros k ns' n [Hne Hnin]%not_elem_of_cons. rewrite Hother, Hse; done.
    + intros [Hi Hl]%Forall_cons. destruct (Hq1 Hi) as [-> Hg1]. destruct (Hq2 Hl) as [-> Hg2].
      split; [done|by apply only_let].
  - intros [Hi Hl]%Forall_cons. by destruct (Hq1 Hi) as [-> _].
Qed.

(** ** The workloads *)

Lemma create_or_update_runs k ns driver condition (o zero : kobject k) (current : kobject k → bool) w c :
  k ≠ KBeegfsDriver → ns = scope k (Namespace (meta_of o)) → ResourceVersion (meta_of o) = EmptyString →
  (∀ c, accepts k o c → current c = true) →
  FindStatusCondition (Conditions driver) condition = Some c →
  (Reason c = ReasonServiceNotCreated ↔ stored w k ns (Name (meta_of o)) = None) →
  achieves (create_or_update driver condition o (current (default zero (stored w k ns (Name (meta_of o)))))) w
    (λ tr _ w', ∃ c', current c' = true ∧ stores w w' ns (Name (meta_of o)) c'
       ∧ (∀ c0, stored w k ns (Name (meta_of o)) = Some c0 → current c0 = true → w' = w ∧ c' = c0 ∧ only is_get tr))
    (∃ c0, stored w k ns (Name (meta_of o)) = Some c0 ∧ current c0 = true).
Proof.
  intros Hk -> Hv Hcur Hf Hreason. unfold create_or_update. rewrite Hf. set (ns := scope k _) in *. set (n := Name _) in *.
  destruct (stored w k ns n) as [c0|] eqn:Hs; [rewrite bool_decide_false by (by rewrite Hreason); cbn [default from_option id];
    destruct (current c0) eqn:Hc; cbn [negb]|rewrite bool_decide_true by (by apply Hreason)].
  - eapply achieves_ok; [apply runs_ret|]. exists c0. split_and!; [done|by split; [|intros ?]|]. by intros ? [= <-].
  - destruct (admits w (Update k o)) eqn:Had.
    + destruct (handle_update w k o Hk Hv) as (c' & w' & Hu & Ha & Hst); [by exists c0|done|].
      eapply achieves_ok; [eapply runs_let; [exact (runs_api _ _ _ _ Hu)|apply runs_ret]|]. exists c'.
      split_and!; [auto|done|]. intros ? [= <-] ?. congruence.
    + destruct (handle_update_refused w k o Hk Had) as (err & Hu). eexists _, (Err err), w.
      split; [eapply runs_let_err; exact (runs_api _ _ _ _ Hu)|].
      split; [exists k, o; split; [done|by right]|]. intros (? & [= <-] & ?). congruence.
  - destruct (admits w (Create k o)) eqn:Had.
    + destruct (handle_create w k o Hk Hv Hs Had) as (c' & w' & Hu & Ha & Hst).
      eapply achieves_ok; [eapply runs_let; [exact (runs_api _ _ _ _ Hu)|apply runs_ret]|]. exists c'.
      split_and!; [auto|done|]. by intros ? [=].
    + destruct (handle_create_refused w k o Hk Had) as (err & Hu). eexists _, (Err err), w.
      split; [eapply runs_let_err; exact (runs_api _ _ _ _ Hu)|].
      split; [exists k, o; split; [done|by left]|]. by intros (? & [=] & _).
Qed.

(** The specifications that the operator deploys. *)
Definition sts_wanted M cm s t spec : option WorkloadSpec :=
  tmpl ← fill_template cm s t spec (NodeAffinityControllerService spec) setControllerResources
           (Template (sts_Spec (m_sts M)));
  Some (mkWorkload tmpl (w_other (sts_Spec (m_sts M)))).
Definition ds_wanted M cm s t spec : option WorkloadSpec :=
  tmpl ← fill_template cm s t spec (NodeAffinityNodeService spec) setNodeResources (Template (ds_Spec (m_ds M)));
  Some (mkWorkload tmpl (w_other (ds_Spec (m_ds M)))).
Definition sts_settled M ns cm s t spec w : Prop :=
  ∃ c wanted, stored w KStatefulSet ns (Name (sts_meta (m_sts M))) = Some c
    ∧ sts_wanted M cm s t spec = Some wanted ∧ DeepDerivative wanted (sts_Spec c) = true.
Definition ds_settled M ns cm s t spec w : Prop :=
  ∃ c wanted, stored w KDaemonSet ns (Name (ds_meta (m_ds M))) = Some c
    ∧ ds_wanted M cm s t spec = Some wanted ∧ DeepDerivative wanted (ds_Spec c) = true.

Record manifests_wf M ns : Prop := {
  wf_rbac : rbac_wf ns (m_rbac M);
  wf_csi : ResourceVersion (csi_meta (m_driver M)) = EmptyString;
  wf_sts : fresh_meta (sts_meta (m_sts M));
  wf_ds : fresh_meta (ds_meta (m_ds M));
  wf_sts_resources : Forall has_resources (Containers (t_Spec (Template (sts_Spec (m_sts M)))));
  wf_ds_resources : Forall has_resources (Containers (t_Spec (Template (ds_Spec (m_ds M)))))
}.

(** The condition found for a service tells whether its workload is there. *)
Definition condition_tells (driver : BeegfsDriver) (condition : string) {A} (found : option A) : Prop :=
  ∃ c, FindStatusCondition (Conditions driver) condition = Some c ∧ (Reason c = ReasonServiceNotCreated ↔ found = None).

Lemma deploy_controller_runs M ns driver cm s t w :
  manifests_wf M ns → Namespace (d_meta driver) = ns →
  condition_tells driver ConditionControllerServiceReady (stored w KStatefulSet ns (Name (sts_meta (m_sts M)))) →
  achieves (deploy_controller M ns driver cm s t (default zero_sts (stored w KStatefulSet ns (Name (sts_meta (m_sts M)))))) w
    (λ tr _ w', sts_settled M ns cm s t (d_Spec driver) w'
       ∧ same_elsewhere w w' KStatefulSet ns (Name (sts_meta (m_sts M)))
       ∧ (sts_settled M ns cm s t (d_Spec driver) w → w' = w ∧ only is_get tr))
    (sts_settled M ns cm s t (d_Spec driver) w).
Proof.
  intros Hwf Hns (c & Hf & Hreason). unfold deploy_controller.
  destruct (setCommon_runs (k := KStatefulSet) ns driver (m_sts M) (wf_sts _ _ Hwf) Hns) as (m & Hm & Hn & Hns' & Hv).
  destruct (fill_template_total false cm s t (d_Spec driver) (NodeAffinityControllerService (d_Spec driver)) _
    (wf_sts_resources _ _ Hwf)) as (tmpl & Htmpl).
  set (wanted := mkWorkload tmpl (w_other (sts_Spec (m_sts M)))).
  assert (sts_wanted M cm s t (d_Spec driver) = Some wanted) as Hw.
  { unfold sts_wanted. cbn [negb] in Htmpl. by rewrite Htmpl. }
  set (o := mkStatefulSet m wanted (Replicas (m_sts M)) (ReadyReplicas (m_sts M))).
  eapply achieves_lift; [exact Hm|]. cbn -[create_or_update fill_template]. rewrite Htmpl.
  pose proof (create_or_update_runs KStatefulSet ns driver ConditionControllerServiceReady o zero_sts
    (λ c, DeepDerivative wanted (sts_Spec c)) w c) as H. cbn -[create_or_update] in Hn, H. rewrite Hn in H.
  eapply achieves_weaken; [by apply H| |].
  - intros tr [] w' (c' & Hc & [Hst Hse] & Hq). split_and!; [by exists c', wanted|done|].
    intros (c0 & wanted' & Hs0 & Hw' & Hd). assert (wanted' = wanted) as -> by congruence.
    by destruct (Hq c0 Hs0 Hd) as (-> & _ & Hg).
  - intros (c0 & wanted' & Hs0 & Hw' & Hd). exists c0. split; [done|]. by assert (wanted' = wanted) as -> by congruence.
Qed.

Lemma deploy_node_runs M ns driver cm s t w :
  manifests_wf M ns → Namespace (d_meta driver) = ns →
  condition_tells driver ConditionNodeServiceReady (stored w KDaemonSet ns (Name (ds_meta (m_ds M)))) →
  achieves (deploy_node M ns driver cm s t (default zero_ds (stored w KDaemonSet ns (Name (ds_meta (m_ds M)))))) w
    (λ tr _ w', ds_settled M ns cm s t (d_Spec driver) w'
       ∧ same_elsewhere w w' KDaemonSet ns (Name (ds_meta (m_ds M)))
       ∧ (ds_settled M ns cm s t (d_Spec driver) w → w' = w ∧ only is_get tr))
    (ds_settled M ns cm s t (d_Spec driver) w).
Proof.
  intros Hwf Hns (c & Hf & Hreason). unfold deploy_node.
  destruct (setCommon_runs (k := KDaemonSet) ns driver (m_ds M) (wf_ds _ _ Hwf) Hns) as (m & Hm & Hn & Hns' & Hv).
  destruct (fill_template_total true cm s t (d_Spec driver) (NodeAffinityNodeService (d_Spec driver)) _
    (wf_ds_resources _ _ Hwf)) as (tmpl & Htmpl).
  set (wanted := mkWorkload tmpl (w_other (ds_Spec (m_ds M)))).
  assert (ds_wanted M cm s t (d_Spec driver) = Some wanted) as Hw.
  { unfold ds_wanted. by rewrite Htmpl. }
  set (o := mkDaemonSet m wanted (DesiredNumberScheduled (m_ds M)) (NumberReady (m_ds M))).
  eapply achieves_lift; [exact Hm|]. cbn -[create_or_update fill_template]. rewrite Htmpl.
  pose proof (create_or_update_runs KDaemonSet ns driver ConditionNodeServiceReady o zero_ds
    (λ c, DeepDerivative wanted (ds_Spec c)) w c) as H. cbn -[create_or_update] in Hn, H. rewrite Hn in H.
  eapply achieves_weaken; [by apply H| |].
  - intros tr [] w' (c' & Hc & [Hst Hse] & Hq). split_and!; [by exists c', wanted|done|].
    intros (c0 & wanted' & Hs0 & Hw' & Hd). assert (wanted' = wanted) as -> by congruence.
    by destruct (Hq c0 Hs0 Hd) as (-> & _ & Hg).
  - intros (c0 & wanted' & Hs0 & Hw' & Hd). exists c0. split; [done|]. by assert (wanted' = wanted) as -> by congruence.
Qed.

(** ** All objects *)

(** The objects besides the config map and the secrets. *)
Definition rest_settled M ns cm s t spec w : Prop :=
  Forall (rbac_settled ns w) (m_rbac M)
  ∧ is_Some (stored w KCSIDriver EmptyString (Name (csi_meta (m_driver M))))
  ∧ sts_settled M ns cm s t spec w ∧ ds_settled M ns cm s t spec w.
Definition objects_settled M ns spec w : Prop :=
  ∃ data cm s t, yaml_Marshal (spec_PluginConfig spec) = Ok data
  ∧ stored w KConfigMap ns ResourceNameConfigMap = Some cm ∧ cm_Data cm = config_data data
  ∧ stored w KSecret ns ResourceNameSecret = Some s
  ∧ stored w KSecret ns ResourceNameTLS = Some t
  ∧ rest_settled M ns cm s t spec w.

Lemma not_rbac_key ns l k ns' n : rbac_wf ns l → rbac_kind k = false → (k, ns', n) ∉ rbac_key ns <$> l.
Proof.
  intros [_ Hall] Hk (i & Heq & Hin)%list_elem_of_fmap. rewrite Forall_forall in Hall.
  destruct (Hall i Hin) as [Hi _]. injection Heq as -> _ _. congruence.
Qed.
Lemma rbac_settled_frame ns w w' l :
  rbac_wf ns l → (∀ k ns' n, rbac_kind k = true → stored w' k ns' n = stored w k ns' n) →
  Forall (rbac_settled ns w) l → Forall (rbac_settled ns w') l.
Proof.
  intros [_ Hall] Hsame Hset. apply Forall_forall. intros i Hin. rewrite Forall_forall in Hall, Hset.
  destruct (Hset i Hin) as (c & Hc & Hcur). exists c. split; [|done]. rewrite Hsame; [done|]. by apply Hall.
Qed.

Definition own_kind (k : kind) : bool := match k with KConfigMap | KSecret => true | _ => false end.

Lemma deploy_rest_runs M ns driver cm s t w :
  manifests_wf M ns → Namespace (d_meta driver) = ns →
  let sts := stored w KStatefulSet ns (Name (sts_meta (m_sts M))) in
  let ds := stored w KDaemonSet ns (Name (ds_meta (m_ds M))) in
  condition_tells driver ConditionControllerServiceReady sts →
  condition_tells driver ConditionNodeServiceReady ds →
  achieves (let! _ := ensure_rbacs ns driver (m_rbac M) in
            let! _ := ensure_csi_driver M in
            let! _ := deploy_controller M ns driver cm s t (default zero_sts sts) in
            deploy_node M ns driver cm s t (default zero_ds ds)) w
    (λ tr _ w', rest_settled M ns cm s t (d_Spec driver) w'
       ∧ (∀ k ns' n, own_kind k = true ∨ k = KBeegfsDriver → stored w' k ns' n = stored w k ns' n)
       ∧ (rest_settled M ns cm s t (d_Spec driver) w → w' = w ∧ only is_get tr))
    (rest_settled M ns cm s t (d_Spec driver) w).
Proof.
  intros Hwf Hns sts ds Hsts Hds. pose proof (wf_rbac _ _ Hwf) as Hrw. eapply achieves_let.
  { eapply achieves_weaken; [by apply (ensure_rbacs_runs ns driver (m_rbac M) w)|intros tr a w' H; exact H|]. by intros [? _]. }
  intros tr1 [] w1 (Hset1 & Hse1 & Hq1). eapply achieves_let.
  { eapply achieves_weaken; [apply (ensure_runs KCSIDriver EmptyString (m_driver M) (λ _, true) w1); [done|done|apply (wf_csi _ _ Hwf)|done]
      |intros tr a w' H; exact H|]. intros (Hrb & [c Hc] & _). destruct (Hq1 Hrb) as [-> _]. by exists c. }
  intros tr2 c2 w2 (_ & [Hst2 Hse2] & Hq2).
  assert (∀ k ns' n, k ≠ KCSIDriver → rbac_kind k = false → stored w2 k ns' n = stored w k ns' n) as Hw2.
  { intros k ns' n Hk Hrk. rewrite Hse2 by congruence. apply Hse1. by apply not_rbac_key. }
  assert (rest_settled M ns cm s t (d_Spec driver) w → w2 = w ∧ only is_get tr1 ∧ only is_get tr2) as Hq12.
  { intros (Hrb & [c Hc] & _). destruct (Hq1 Hrb) as [-> ?]. by destruct (Hq2 c Hc eq_refl) as (-> & _ & ?). }
  eapply achieves_let.
  { subst sts. rewrite <- (Hw2 KStatefulSet) in * by done. eapply achieves_weaken;
      [by apply (deploy_controller_runs M ns driver cm s t w2)|intros tr a w' H; exact H|].
    intros Hr. destruct (Hq12 Hr) as [-> _]. apply Hr. }
  intros tr3 [] w3 (Hset3 & Hse3 & Hq3). assert (stored w3 KDaemonSet ns (Name (ds_meta (m_ds M))) = ds) as Hds3.
  { rewrite Hse3, Hw2; done. }
  rewrite <- Hds3 in *. eapply achieves_weaken; [by apply (deploy_node_runs M ns driver cm s t w3)|..].
  - intros tr4 [] w4 (Hset4 & Hse4 & Hq4). split_and!.
    + split_and!; [|rewrite Hse4, Hse3 by done; by exists c2| |done].
      * eapply rbac_settled_frame; [done| |exact Hset1]. intros k ns' n Hk. rewrite Hse4, Hse3, Hse2; [done|..]; by intros [= -> _ _].
      * destruct Hset3 as (c & wanted & Hc & H). exists c, wanted. by rewrite Hse4.
    + intros k ns' n Hk. rewrite Hse4, Hse3, Hw2; [done|..]; try (intros [= -> _ _]); destruct Hk; subst; try done; by destruct k.
    + intros Hr. destruct (Hq12 Hr) as (-> & Hg1 & Hg2). destruct Hr as (_ & _ & Hs & Hd).
      destruct (Hq3 Hs) as (-> & Hg3). destruct (Hq4 Hd) as (-> & Hg4). split; [done|]. by repeat apply only_let.
  - intros Hr. destruct (Hq12 Hr) as (-> & _). destruct Hr as (_ & _ & Hs & Hd). by destruct (Hq3 Hs) as (-> & _).
Qed.

(** The config map, and a secret that is created if it is not there. *)
Lemma ensure_config_runs ns driver data w :
  Namespace (d_meta driver) = ns →
  ∃ cm0, setCommonObjectMetadata (k := KConfigMap) ns driver (mkConfigMap (named ResourceNameConfigMap) (config_data data)) = Ok cm0
  ∧ achieves (ensure KConfigMap ns cm0 (λ c, DeepEqual (cm_Data cm0) (cm_Data c))) w
      (λ tr cm w', cm_Data cm = config_data data ∧ stores (k := KConfigMap) w w' ns ResourceNameConfigMap cm
         ∧ (∀ c0, stored w KConfigMap ns ResourceNameConfigMap = Some c0 → cm_Data c0 = config_data data →
              w' = w ∧ cm = c0 ∧ only is_get tr))
      (∃ c0, stored w KConfigMap ns ResourceNameConfigMap = Some c0 ∧ cm_Data c0 = config_data data).
Proof.
  intros Hns.
  destruct (setCommon_runs (k := KConfigMap) ns driver (mkConfigMap (named ResourceNameConfigMap) (config_data data))
    (conj eq_refl eq_refl) Hns) as (m & Hm & Hn & Hns' & Hv). eexists. split; [exact Hm|]. cbn in Hn.
  eapply achieves_weaken; [apply ensure_runs; [done..|]|..]; cbn -[ensure]; rewrite ?Hn.
  - intros c Hc. cbn in Hc. rewrite Hc. apply DeepEqual_refl.
  - intros tr cm w' (Hc & Hst & Hq). split_and!; [symmetry; by apply DeepEqual_data|done|].
    intros c0 Hs0 Hd. apply (Hq c0 Hs0). rewrite Hd. apply DeepEqual_refl.
  - intros (c0 & Hs0 & Hd). exists c0. split; [done|]. rewrite Hd. apply DeepEqual_refl.
Qed.
Lemma ensure_secret_runs ns driver (sec : Secret) w :
  fresh_meta (s_meta sec) → Namespace (d_meta driver) = ns →
  ∃ s0, setCommonObjectMetadata (k := KSecret) ns driver sec = Ok s0
  ∧ achieves (ensure KSecret ns s0 (λ _, true)) w
      (λ tr s w', stores (k := KSecret) w w' ns (Name (s_meta sec)) s
         ∧ (∀ c0, stored w KSecret ns (Name (s_meta sec)) = Some c0 → w' = w ∧ s = c0 ∧ only is_get tr))
      (is_Some (stored w KSecret ns (Name (s_meta sec)))).
Proof.
  intros Hf Hns. destruct (setCommon_runs (k := KSecret) ns driver sec Hf Hns) as (m & Hm & Hn & Hns' & Hv).
  eexists. split; [exact Hm|]. cbn in Hn. eapply achieves_weaken; [apply ensure_runs; done|..]; cbn -[ensure]; rewrite ?Hn.
  - intros tr s w' (_ & Hst & Hq). split; [done|]. intros c0 Hs0. by apply (Hq c0 Hs0).
  - intros [c0 Hc0]. by exists c0.
Qed.

Lemma deploy_objects_runs M ns driver w :
  manifests_wf M ns → Namespace (d_meta driver) = ns →
  is_ok (yaml_Marshal (spec_PluginConfig (d_Spec driver))) = true →
  let sts := stored w KStatefulSet ns (Name (sts_meta (m_sts M))) in
  let ds := stored w KDaemonSet ns (Name (ds_meta (m_ds M))) in
  condition_tells driver ConditionControllerServiceReady sts →
  condition_tells driver ConditionNodeServiceReady ds →
  achieves (deploy_objects M ns driver sts ds) w
    (λ tr _ w', objects_settled M ns (d_Spec driver) w'
       ∧ (∀ ns' n, stored w' KBeegfsDriver ns' n = stored w KBeegfsDriver ns' n)
       ∧ (objects_settled M ns (d_Spec driver) w → w' = w ∧ only is_get tr))
    (objects_settled M ns (d_Spec driver) w).
Proof.
  intros Hwf Hns Hy sts ds Hsts Hds. destruct (yaml_Marshal _) as [data|] eqn:Hdata; [|done].
  set (N := objects_settled M ns (d_Spec driver) w). unfold deploy_objects.
  eapply achieves_lift; [unfold newConfigMap; by rewrite Hdata|].
  destruct (ensure_config_runs ns driver data w Hns) as (cm0 & Hcm0 & H1). eapply achieves_lift; [exact Hcm0|].
  eapply achieves_let; [eapply achieves_weaken; [exact H1|intros tr a w' H; exact H|]|].
  { intros (data' & cm & s & t & Hd' & Hcm & Hcmd & _). exists cm. split; [done|]. congruence. }
  intros tr1 cm w1 (Hcmd & [Hst1 Hse1] & Hq1).
  destruct (ensure_secret_runs ns driver newSecret w1 (conj eq_refl eq_refl) Hns) as (s0 & Hs0 & H2).
  eapply achieves_lift; [exact Hs0|]. eapply achieves_let; [eapply achieves_weaken; [exact H2|intros tr a w' H; exact H|]|].
  { intros (data' & cm' & s & t & Hd' & Hcm & Hcmd' & Hs & _). exists s. by rewrite Hse1. }
  intros tr2 s w2 ([Hst2 Hse2] & Hq2).
  destruct (ensure_secret_runs ns driver newTLS w2 (conj eq_refl eq_refl) Hns) as (t0 & Ht0 & H3).
  eapply achieves_lift; [exact Ht0|]. eapply achieves_let; [eapply achieves_weaken; [exact H3|intros tr a w' H; exact H|]|].
  { intros (data' & cm' & s' & t & Hd' & Hcm & Hcmd' & Hs & Ht & _). exists t. by rewrite Hse2, Hse1. }
  intros tr3 t w3 ([Hst3 Hse3] & Hq3). clear H1 H2 H3.
  assert (∀ k ns' n, own_kind k = false → stored w3 k ns' n = stored w k ns' n) as Hse.
  { intros k ns' n Hk. rewrite Hse3, Hse2, Hse1; [done|..]; by intros [= -> _ _]. }
  assert (N → w3 = w ∧ only is_get tr1 ∧ only is_get tr2 ∧ only is_get tr3
              ∧ rest_settled M ns cm s t (d_Spec driver) w) as Hq.
  { intros (data' & cm' & s' & t' & Hd' & Hcm & Hcmd' & Hs & Ht & Hr). assert (data' = data) as -> by congruence.
    destruct (Hq1 cm' Hcm Hcmd') as (-> & -> & ?). destruct (Hq2 s' Hs) as (-> & -> & ?). by destruct (Hq3 t' Ht) as (-> & -> & ?). }
  subst sts ds. rewrite <- !Hse in * by done.
  eapply achieves_weaken; [by apply (deploy_rest_runs M ns driver cm s t w3)|..].
  - intros tr4 [] w4 (Hset4 & Hse4 & Hq4). split_and!.
    + exists data, cm, s, t. rewrite !Hse4 by auto. split_and!; try done; rewrite ?Hse3, ?Hse2 by done; done.
    + intros ns' n. rewrite Hse4, Hse; auto.
    + intros HN. destruct (Hq HN) as (-> & ? & ? & ? & Hr). destruct (Hq4 Hr) as [-> ?]. split; [done|]. by repeat apply only_let.
  - intros HN. by destruct (Hq HN) as (-> & _ & _ & _ & Hr).
Qed.

(** ** The resource itself *)

Definition tells M ns w (d : BeegfsDriver) : Prop :=
  condition_tells d ConditionControllerServiceReady (stored w KStatefulSet ns (Name (sts_meta (m_sts M))))
  ∧ condition_tells d ConditionNodeServiceReady (stored w KDaemonSet ns (Name (ds_meta (m_ds M)))).

Lemma condition_tells_reasons {A} (d d' : BeegfsDriver) condition (found : option A) :
  Reason <$> FindStatusCondition (Conditions d) condition = Reason <$> FindStatusCondition (Conditions d') condition →
  condition_tells d condition found → condition_tells d' condition found.
Proof.
  intros Heq (c & Hf & Hc). rewrite Hf in Heq. destruct (FindStatusCondition (Conditions d') condition) as [c'|] eqn:Hf';
    [|done]. injection Heq as Heq. exists c'. split; [done|]. by rewrite <- Heq.
Qed.

Lemma controller_condition_tells sts : Reason (controller_condition sts) = ReasonServiceNotCreated ↔ sts = None.
Proof. unfold controller_condition. repeat case_match; split; done. Qed.
Lemma node_condition_tells ds : Reason (node_condition ds) = ReasonServiceNotCreated ↔ ds = None.
Proof. unfold node_condition. repeat case_match; split; done. Qed.

Lemma set_conditions_tell M ns w d :
  tells M ns w (set_conditions (SetStatusCondition (SetStatusCondition (Conditions d)
    (controller_condition (stored w KStatefulSet ns (Name (sts_meta (m_sts M))))))
    (node_condition (stored w KDaemonSet ns (Name (ds_meta (m_ds M)))))) d).
Proof.
  unfold tells.
  generalize (stored w KStatefulSet ns (Name (sts_meta (m_sts M)))) as sts.
  generalize (stored w KDaemonSet ns (Name (ds_meta (m_ds M)))) as ds. cbn [kobject]. intros ds sts.
  assert (Type_ (controller_condition sts) = ConditionControllerServiceReady) as Ht1.
  { unfold controller_condition. by repeat case_match. }
  assert (Type_ (node_condition ds) = ConditionNodeServiceReady) as Ht2.
  { unfold node_condition. by repeat case_match. }
  split.
  - destruct (find_set (Conditions d) (controller_condition sts)) as (c & Hf & _ & Hr & _). exists c.
    unfold set_conditions. cbn [Conditions]. rewrite find_set_other by (by rewrite Ht2). rewrite <- Ht1. split; [done|].
    rewrite Hr. apply controller_condition_tells.
  - destruct (find_set (SetStatusCondition (Conditions d) (controller_condition sts)) (node_condition ds))
      as (c & Hf & _ & Hr & _). exists c. rewrite <- Ht2. split; [done|].
    rewrite Hr. apply node_condition_tells.
Qed.

Lemma get_optional_runs k ns n w :
  ∃ tr, runs (get_optional k ns n) w tr (Ok (stored w k ns n)) w ∧ only reading tr.
Proof.
  destruct (handle_get w k ns n) as (e & Hg). unfold get_optional. eexists. split.
  - eapply runs_bind; [exact (runs_api _ _ _ _ Hg)|]. by destruct (stored w k ns n).
  - by repeat constructor.
Qed.

Lemma refresh_status_runs M ns name d w :
  stored w KBeegfsDriver ns name = Some d →
  ∃ tr d' old w', runs (refresh_status M ns d) w tr (Ok (d',
      stored w KStatefulSet ns (Name (sts_meta (m_sts M))), stored w KDaemonSet ns (Name (ds_meta (m_ds M))))) w'
    ∧ only reading tr ∧ stores (k := KBeegfsDriver) w w' ns name old
    ∧ d_meta d' = d_meta old ∧ d_Spec d' = d_Spec d ∧ d_Spec old = d_Spec d
    ∧ Finalizers (d_meta old) = Finalizers (d_meta d) ∧ DeletionTimestamp (d_meta old) = DeletionTimestamp (d_meta d)
    ∧ tells M ns w d' ∧ tells M ns w old.
Proof.
  intros Hd. destruct (get_optional_runs KStatefulSet ns (Name (sts_meta (m_sts M))) w) as (tr1 & Hr1 & Ho1).
  destruct (get_optional_runs KDaemonSet ns (Name (ds_meta (m_ds M))) w) as (tr2 & Hr2 & Ho2).
  pose proof (set_conditions_tell M ns w d) as Ht. set (asked := set_conditions _ d) in Ht.
  destruct (DeepEqual (Conditions asked) (Conditions d)) eqn:Heq.
  - exists (tr1 ++ tr2 ++ []), asked, d, w. split.
    { unfold refresh_status. eapply runs_let; [exact Hr1|]. eapply runs_let; [exact Hr2|]. cbv beta iota.
      fold asked. rewrite Heq. apply runs_ret. }
    split_and!; [by repeat apply only_let|by split; [|intros ?]|done..|].
    destruct Ht as [H1 H2]. split; (eapply condition_tells_reasons; [|done]; by apply DeepEqual_conditions).
  - destruct (stored_meta _ _ _ _ _ Hd) as [Hname Hns].
    destruct (handle_update_status w asked d) as (c & w' & Hu & Hspec & Hc & Hfin & Hdel & Hst); [|done|].
    { cbn in *. by rewrite Hname, Hns. }
    eexists _, c, c, w'. split.
    { unfold refresh_status. eapply runs_let; [exact Hr1|]. eapply runs_let; [exact Hr2|]. cbv beta iota.
      fold asked. rewrite Heq.
      eapply runs_let; [exact (runs_api _ _ _ _ Hu)|apply runs_ret]. }
    cbn in Hst, Hname, Hns. rewrite Hname, Hns in Hst by done.
    assert (tells M ns w c) by (unfold tells, condition_tells in *; by rewrite Hc).
    split_and!; [by repeat (apply only_let || constructor)|done..].
Qed.

Lemma add_finalizer_runs_server M ns name w d' old :
  stored w KBeegfsDriver ns name = Some old → d_meta d' = d_meta old → d_Spec d' = d_Spec old →
  DeletionTimestamp (d_meta old) = None → tells M ns w d' → tells M ns w old →
  ∃ tr d2 old2 w', runs (add_finalizer d') w tr (Ok d2) w' ∧ stores (k := KBeegfsDriver) w w' ns name old2
    ∧ d_Spec d2 = d_Spec old ∧ d_Spec old2 = d_Spec old ∧ Namespace (d_meta d2) = ns
    ∧ finalizerClusterResourceDeletion ∈ Finalizers (d_meta old2) ∧ DeletionTimestamp (d_meta old2) = None
    ∧ tells M ns w d2
    ∧ (finalizerClusterResourceDeletion ∈ Finalizers (d_meta old) → tr = []).
Proof.
  intros Hs Hmeta Hspec Hdel Ht Ht'. destruct (stored_meta _ _ _ _ _ Hs) as [Hname Hns]. cbn in Hname, Hns.
  unfold add_finalizer. destruct (containsString _ _) eqn:Hc; cbn [negb].
  - apply containsString_spec in Hc. rewrite Hmeta in Hc. exists [], d', old, w.
    split_and!; try done. rewrite Hmeta. auto.
  - destruct (AddFinalizer_spec (d_meta d') finalizerClusterResourceDeletion) as [Hin Heq].
    set (m := AddFinalizer _ _) in *. set (asked := set_meta (k := KBeegfsDriver) m d').
    destruct (handle_update_driver w asked old) as (c & w' & Hu & Hsp & Hcond & Hfin & Hdel' & Hst).
    { cbn. rewrite Heq. cbn. by rewrite Hmeta, Hname, Hns. }
    { cbn. rewrite Heq. cbn. by rewrite Hmeta. }
    { done. }
    assert (Namespace (d_meta asked) = ns ∧ Name (d_meta asked) = name) as [Hn1 Hn2].
    { cbn. rewrite Heq. cbn. by rewrite Hmeta, Hname, Hns. }
    rewrite Hn1, Hn2 in Hst. destruct (stored_meta _ _ _ _ _ (proj1 Hst)) as [_ Hns2].
    eexists _, c, c, w'. split; [exact (runs_api _ _ _ _ Hu)|].
    split_and!; [done|by rewrite Hsp|by rewrite Hsp|by apply Hns2|by rewrite Hfin|done| |].
    + unfold tells, condition_tells in *. by rewrite Hcond.
    + intros Hin'. rewrite <- Hmeta in Hin'. by rewrite (proj2 (containsString_spec _ _) Hin') in Hc.
Qed.

(** ** Rounds *)

Definition settled M ns name spec w : Prop :=
  ∃ d, stored w KBeegfsDriver ns name = Some d ∧ d_Spec d = spec ∧ DeletionTimestamp (d_meta d) = None
  ∧ finalizerClusterResourceDeletion ∈ Finalizers (d_meta d) ∧ objects_settled M ns spec w.

Lemma objects_settled_frame M ns spec w w' :
  rbac_wf ns (m_rbac M) → (∀ k ns' n, k ≠ KBeegfsDriver → stored w' k ns' n = stored w k ns' n) →
  objects_settled M ns spec w → objects_settled M ns spec w'.
Proof.
  intros Hwf Hs (data & cm & s & t & H). exists data, cm, s, t. unfold rest_settled, sts_settled, ds_settled in *.
  rewrite !Hs by done. destruct H as (? & ? & ? & ? & ? & ? & ? & ? & ?). split_and!; try done.
  eapply rbac_settled_frame; [done| |done]. intros k ns' n Hk. apply Hs. by intros ->.
Qed.

Lemma Reconcile_runs M ns name d w :
  manifests_wf M ns → is_ok (yaml_Marshal (spec_PluginConfig (d_Spec d))) = true →
  stored w KBeegfsDriver ns name = Some d → DeletionTimestamp (d_meta d) = None →
  achieves (Reconcile M ns name) w
    (λ tr _ w', settled M ns name (d_Spec d) w' ∧ (settled M ns name (d_Spec d) w → only reading tr))
    (settled M ns name (d_Spec d) w).
Proof.
  intros Hwf Hy Hd Hdel. destruct (handle_get w KBeegfsDriver ns name) as (e & Hget). rewrite Hd in Hget.
  destruct (refresh_status_runs M ns name d w Hd)
    as (tr1 & d1 & old1 & w1 & Hr1 & Ho1 & [Hst1 Hse1] & Hm1 & Hs1 & Hso1 & Hf1 & Hdel1 & Ht1 & Hto1).
  assert (∀ d', tells M ns w d' → tells M ns w1 d') as Htells.
  { intros d' Ht. unfold tells. by rewrite !Hse1. }
  destruct (add_finalizer_runs_server M ns name w1 d1 old1)
    as (tr2 & d2 & old2 & w2 & Hr2 & [Hst2 Hse2] & Hs2 & Hso2 & Hns2 & Hf2 & Hdel2 & Ht2 & Hq2);
    [done|done|congruence|congruence|auto|auto|].
  pose proof (deploy_objects_runs M ns d2 w2 Hwf Hns2) as H3. destruct Ht2 as [Ht2 Ht2'].
  rewrite Hs2, Hso1, !Hse2, !Hse1 in H3 by done. rewrite Hse1 in Ht2, Ht2' by done. specialize (H3 Hy Ht2 Ht2').
  assert (settled M ns name (d_Spec d) w → tr2 = [] ∧ objects_settled M ns (d_Spec d) w2) as Hq.
  { intros (d' & Hd' & _ & _ & Hfin & Hobj). assert (d' = d) as -> by congruence. split; [apply Hq2; congruence|].
    eapply objects_settled_frame; [apply (wf_rbac _ _ Hwf)| |exact Hobj]. intros k ns' n Hk. rewrite Hse2, Hse1; congruence. }
  destruct H3 as (tr3 & r & w3 & Hr3 & H3). eexists _, r, w3. split.
  { unfold Reconcile. eapply runs_bind; [exact (runs_api _ _ _ _ Hget)|]. cbv beta iota.
    eapply runs_let; [exact Hr1|]. cbv beta iota. rewrite bool_decide_true by congruence.
    eapply runs_let; [exact Hr2|exact Hr3]. }
  destruct r as [[]|err].
  - destruct H3 as (Hset & Hse3 & Hq3). split; [exists old2; rewrite Hse3; split_and!; [done|congruence|done..]|].
    intros Hs. destruct (Hq Hs) as [-> Ho]. destruct (Hq3 Ho) as [_ Hg3]. constructor; [done|].
    apply only_let; [done|]. cbn. eapply Forall_impl; [exact Hg3|]. by intros [[] ?].
  - destruct H3 as [Href HN]. split; [by repeat apply refused_app|]. intros Hs. by apply HN, Hq.
Qed.

Lemma settled_round M ns name spec w :
  manifests_wf M ns → settled M ns name spec w →
  ∃ tr w', runs (Reconcile M ns name) w tr (Ok tt) w' ∧ settled M ns name spec w' ∧ only reading tr.
Proof.
  intros Hwf Hset. pose proof Hset as (d & Hd & <- & Hdel & Hfin & data & cm & s & t & Hy & _).
  destruct (Reconcile_runs M ns name d w Hwf) as (tr & [[]|err] & w' & Hr & H); [by rewrite Hy|done..| |].
  - destruct H as [Hs Hq]. exists tr, w'. auto.
  - by destruct H as [_ []].
Qed.

(** What happens between rounds: pods are scheduled and become ready. *)
Definition drift w w' : Prop :=
  (∀ k ns n, k ≠ KStatefulSet → k ≠ KDaemonSet → stored w' k ns n = stored w k ns n)
  ∧ (∀ ns n, sts_Spec <$> (stored w' KStatefulSet ns n : option StatefulSet) = sts_Spec <$> stored w KStatefulSet ns n)
  ∧ (∀ ns n, ds_Spec <$> (stored w' KDaemonSet ns n : option DaemonSet) = ds_Spec <$> stored w KDaemonSet ns n).
Definition step M ns name w w' : Prop := drift w w' ∨ ∃ tr r, runs (Reconcile M ns name) w tr r w'.

Lemma fmap_Some_eq {A B} (f : A → B) (x y : option A) a :
  f <$> y = f <$> x → x = Some a → ∃ b, y = Some b ∧ f b = f a.
Proof. intros H ->. destruct y as [b|]; [|done]. injection H as H. by exists b. Qed.

Lemma settled_drift M ns name spec w w' :
  rbac_wf ns (m_rbac M) → drift w w' → settled M ns name spec w → settled M ns name spec w'.
Proof.
  intros Hwf (Hs & Hsts & Hds) (d & Hd & Hsp & Hdel & Hfin & data & cm & s & t & Hy & Hcm & Hcmd & Hse & Ht & Hrb & Hcsi
    & (c1 & wt1 & Hc1 & Hw1 & Hd1) & (c2 & wt2 & Hc2 & Hw2 & Hd2)).
  exists d. rewrite Hs by done. split_and!; try done. exists data, cm, s, t. unfold rest_settled. rewrite !Hs by done.
  destruct (fmap_Some_eq _ _ _ _ (Hsts _ _) Hc1) as (c1' & Hc1' & He1).
  destruct (fmap_Some_eq _ _ _ _ (Hds _ _) Hc2) as (c2' & Hc2' & He2).
  split_and!; try done.
  - eapply rbac_settled_frame; [done| |done]. intros k ns' n Hk. apply Hs; by intros ->.
  - exists c1', wt1. by rewrite He1.
  - exists c2', wt2. by rewrite He2.
Qed.

Lemma settled_steps M ns name spec w w' :
  manifests_wf M ns → rtc (step M ns name) w w' → settled M ns name spec w → settled M ns name spec w'.
Proof.
  intros Hwf. induction 1 as [w|w w1 w2 [Hdr|(tr & r & Hr)] _ IH]; [done|..]; intros Hset; apply IH.
  { eapply settled_drift; [apply (wf_rbac _ _ Hwf)|done..]. }
  destruct (settled_round M ns name spec w Hwf Hset) as (tr' & w' & Hr' & Hset' & _).
  unfold runs in Hr, Hr'. rewrite Hr in Hr'. by injection Hr' as -> -> ->.
Qed.

(** C11: rounds converge. From any state of the cluster in which the resource is
    not being deleted, one round leaves every object that the driver needs in
    place, up to date with the resource and with each other, and succeeds; and
    then, as long as only pods come and go, every later round succeeds as well,
    writes nothing but the status, and keeps it so. The only other end of the
    round is that the API server refuses one of the deployment's writes, because
    of the operator's permissions, an immutable field or its own validation:
    then the round stops at that request and returns the server's error. *)
Theorem operator_converges M ns name d w :
  manifests_wf M ns → is_ok (yaml_Marshal (spec_PluginConfig (d_Spec d))) = true →
  stored w KBeegfsDriver ns name = Some d → DeletionTimestamp (d_meta d) = None →
  ∃ tr r w1, runs (Reconcile M ns name) w tr r w1
  ∧ match r with
    | Ok _ => settled M ns name (d_Spec d) w1
        ∧ ∀ w', rtc (step M ns name) w1 w' →
            settled M ns name (d_Spec d) w'
            ∧ ∃ tr' w'', runs (Reconcile M ns name) w' tr' (Ok tt) w'' ∧ only reading tr'
    | Err err => refused w1 tr err
    end.
Proof.
  intros Hwf Hy Hd Hdel. destruct (Reconcile_runs M ns name d w Hwf Hy Hd Hdel) as (tr & [[]|err] & w1 & Hr & H);
    [|by exists tr, (Err err), w1; destruct H].
  destruct H as [Hset _]. exists tr, (Ok tt), w1. split_and!; [done..|]. intros w' Hsteps.
  pose proof (settled_steps M ns name (d_Spec d) w1 w' Hwf Hsteps Hset) as Hset'. split; [done|].
  destruct (settled_round M ns name _ w' Hwf Hset') as (tr' & w'' & Hr' & _ & Hq). by exists tr', w''.
Qed.
End Converge.
