(* ===== verification/OperatorExample.v ===== *)
(** * OperatorExample: a cluster for the operator

    An instance of the library interface, an API server that satisfies
    [ApiServerLaws] and refuses what the operator has no permission for and
    changes of immutable fields, a short form of the objects of deploy/k8s/bases,
    and the operator run on them. *)
From S2P Require Import Prelude GoStrings Config Prog Kube Operator OperatorFacts OperatorTemplate OperatorServer.
From S2P Require Import OperatorConverge.
Local Open Scope Z_scope.

(** ** The libraries *)

Definition find_condition (cs : list Condition) (t : string) : option Condition :=
  snd <$> list_find (λ c, Type_ c = t) cs.
Fixpoint set_condition (cs : list Condition) (c : Condition) : list Condition :=
  match cs with
  | [] => [c]
  | c' :: r => if bool_decide (Type_ c' = Type_ c) then c :: r else c' :: set_condition r c
  end.
Definition set_finalizers (fs : list string) (m : ObjectMeta) : ObjectMeta :=
  mkMeta (Name m) (Namespace m) (ResourceVersion m) fs (DeletionTimestamp m) (OwnerReferences m).
Definition own (owner m : ObjectMeta) : result ObjectMeta :=
  if bool_decide (OwnerReferences m = EmptyString) then
    Ok (mkMeta (Name m) (Namespace m) (ResourceVersion m) (Finalizers m) (DeletionTimestamp m) (Name owner))
  else Err (ErrMsg "already owned").

#[export] Instance kube : Kube := {|
  SetStatusCondition := set_condition;
  FindStatusCondition := find_condition;
  DeepEqual A _ x y := bool_decide (x = y);
  DeepDerivative A _ x y := bool_decide (x = y);
  SetControllerReference := own;
  AddFinalizer m f := set_finalizers (Finalizers m ++ [f]) m;
  RemoveFinalizer m f := set_finalizers (filter (λ g, g ≠ f) (Finalizers m)) m;
  yaml_Marshal c := Ok (GrpcPort (DefaultConfig (RawPluginConfig c)))
|}.

Lemma find_condition_cons c cs t :
  find_condition (c :: cs) t = if bool_decide (Type_ c = t) then Some c else find_condition cs t.
Proof.
  unfold find_condition. cbn. case_bool_decide; [by rewrite decide_True|]. rewrite decide_False by done.
  by destruct (list_find (λ c, Type_ c = t) cs) as [[]|].
Qed.

#[export] Instance kube_laws : KubeLaws kube.
Proof.
  split; cbv beta iota delta [kube SetStatusCondition FindStatusCondition DeepEqual DeepDerivative
    SetControllerReference AddFinalizer RemoveFinalizer].
  - intros cs c. exists c. split; [|done]. induction cs as [|c' cs IH]; cbn [set_condition]; [by rewrite find_condition_cons, bool_decide_true|].
    destruct (bool_decide (Type_ c' = Type_ c)) eqn:Ht; rewrite find_condition_cons; [by rewrite bool_decide_true|].
    by rewrite Ht.
  - intros cs c t Ht. induction cs as [|c' cs IH]; cbn [set_condition]; [by rewrite find_condition_cons, bool_decide_false|].
    destruct (bool_decide (Type_ c' = Type_ c)) eqn:Hc; rewrite !find_condition_cons; [|by rewrite IH].
    apply bool_decide_eq_true in Hc. by rewrite !bool_decide_false by congruence.
  - intros. by apply bool_decide_true.
  - intros. by apply bool_decide_eq_true in H.
  - intros cs1 cs2 t Heq%bool_decide_eq_true. by rewrite Heq.
  - intros. by apply bool_decide_true.
  - intros m f. split; [|done]. set_solver.
  - intros m f. split; [|done]. cbn. by intros [H _]%list_elem_of_filter.
  - unfold own. intros owner m m'. case_bool_decide; [|done]. by intros [= <-].
  - unfold own. intros owner m Ho _. by rewrite bool_decide_true.
Qed.

(** ** The API server *)

Record cluster := mkCluster {
  objects : ∀ k, gmap (string * string) (kobject k);
  next_version : Z
}.
Definition put {k} (w : cluster) (ns n : string) (o : option (kobject k)) : cluster :=
  mkCluster (λ k', match decide (k = k') with
                   | left E => partial_alter (λ _, eq_rect k (λ k, option (kobject k)) o k' E) (ns, n) (objects w k')
                   | right _ => objects w k'
                   end) (next_version w + 1).
Definition well_named {k} (ns n : string) (o : kobject k) : bool :=
  bool_decide (Name (meta_of o) = n) && (cluster_scoped k || bool_decide (Namespace (meta_of o) = ns)).
Definition lookup_object (w : cluster) (k : kind) (ns n : string) : option (kobject k) :=
  o ← objects w k !! (ns, n); if well_named ns n o then Some o else None.

Definition set_version (w : cluster) (m : ObjectMeta) : ObjectMeta :=
  mkMeta (Name m) (Namespace m) (Itoa (next_version w)) (Finalizers m) (DeletionTimestamp m) (OwnerReferences m).
(** An update of the resource keeps its status, one of its status the rest. *)
Definition merge {k} (w : cluster) : kobject k → kobject k → kobject k :=
  match k return kobject k → kobject k → kobject k with
  | KBeegfsDriver => λ o old,
      mkDriver (set_version w (mkMeta (Name (d_meta o)) (Namespace (d_meta o)) EmptyString (Finalizers (d_meta o))
                                 (DeletionTimestamp (d_meta old)) (OwnerReferences (d_meta o))))
        (d_Spec o) (Conditions old)
  | _ => λ o _, set_meta (set_version w (meta_of o)) o
  end.
Definition version_ok (m old : ObjectMeta) : bool :=
  bool_decide (ResourceVersion m = EmptyString) || bool_decide (ResourceVersion m = ResourceVersion old).

(** Fields that cannot be changed: what a binding refers to, and what a workload
    says besides its pods. *)
Definition immutable_kept {k} : kobject k → kobject k → bool :=
  match k return kobject k → kobject k → bool with
  | KClusterRoleBinding | KRoleBinding => λ old o, bool_decide (RoleRef old = RoleRef o)
  | KStatefulSet => λ old o, bool_decide (w_other (sts_Spec old) = w_other (sts_Spec o))
  | KDaemonSet => λ old o, bool_decide (w_other (ds_Spec old) = w_other (ds_Spec o))
  | _ => λ _ _, true
  end.
(** The operator may do what its markers ask for, and changes no immutable field. *)
Definition admitted (w : cluster) (e : api_event) : bool :=
  granted e && match e with
               | Update k o =>
                   match lookup_object w k (scope k (Namespace (meta_of o))) (Name (meta_of o)) with
                   | Some old => immutable_kept old o
                   | None => true
                   end
               | _ => true
               end.

Definition serve_api (e : api_event) (w : cluster) : api_response e * cluster :=
  match e return api_response e * cluster with
  | Get k ns n => (match lookup_object w k ns n with Some o => Found o | None => NotFound (ErrMsg "not found") end, w)
  | Create k o =>
      let ns := scope k (Namespace (meta_of o)) in
      match lookup_object w k ns (Name (meta_of o)) with
      | Some _ => (Err (ErrMsg "already exists"), w)
      | None => let c := set_meta (set_version w (meta_of o)) o in (Ok c, put w ns (Name (meta_of o)) (Some c))
      end
  | Update k o =>
      let ns := scope k (Namespace (meta_of o)) in
      match lookup_object w k ns (Name (meta_of o)) with
      | None => (Err (ErrMsg "not found"), w)
      | Some old =>
          if negb (admitted w (Update k o)) then (Err (ErrMsg "forbidden"), w)
          else if version_ok (meta_of o) (meta_of old)
          then let c := merge w o old in (Ok c, put w ns (Name (meta_of o)) (Some c))
          else (Err (ErrMsg "conflict"), w)
      end
  | UpdateStatus d =>
      match lookup_object w KBeegfsDriver (Namespace (d_meta d)) (Name (d_meta d)) with
      | None => (Err (ErrMsg "not found"), w)
      | Some old =>
          if version_ok (d_meta d) (d_meta old)
          then let c := mkDriver (set_version w (d_meta old)) (d_Spec old) (Conditions d) in
               (Ok c, put (k := KBeegfsDriver) w (Namespace (d_meta d)) (Name (d_meta d)) (Some c))
          else (Err (ErrMsg "conflict"), w)
      end
  | Delete k o =>
      let ns := scope k (Namespace (meta_of o)) in
      match lookup_object w k ns (Name (meta_of o)) with
      | None => (NotFound (ErrMsg "not found"), w)
      | Some _ => (Found tt, put (k := k) w ns (Name (meta_of o)) None)
      end
  end.

#[export] Instance server : ApiServer := {| world := cluster; admits := admitted; handle := serve_api; stored := lookup_object |}.

Lemma put_same k w ns n (o : kobject k) : well_named ns n o = true → lookup_object (put w ns n (Some o)) k ns n = Some o.
Proof.
  intros Hn. unfold lookup_object, put. cbn. destruct (decide (k = k)) as [E|]; [|done].
  rewrite (Eqdep_dec.UIP_dec kind_eq_dec E eq_refl). cbn. rewrite lookup_partial_alter_eq. cbn. by rewrite Hn.
Qed.
Lemma put_other k w ns n (o : option (kobject k)) : same_elsewhere w (put w ns n o) k ns n.
Proof.
  intros k' ns' n' Hne. unfold stored, server, lookup_object, put. cbn.
  destruct (decide (k = k')) as [<-|]; [|done]. rewrite lookup_partial_alter_ne; [done|]. intros [= -> ->]. done.
Qed.
Lemma put_stores k w ns n (o : kobject k) : well_named ns n o = true → stores w (put w ns n (Some o)) ns n o.
Proof. intros. split; [by apply put_same|apply put_other]. Qed.

Lemma lookup_named w k ns n (o : kobject k) :
  lookup_object w k ns n = Some o →
  Name (meta_of o) = n ∧ (cluster_scoped k = false → Namespace (meta_of o) = ns).
Proof.
  unfold lookup_object. intros (o' & Ho & Hw)%bind_Some. destruct (well_named ns n o') eqn:Hn; [|done].
  injection Hw as <-. unfold well_named in Hn. bools. split; [done|]. intros Hc. rewrite Hc in *. cbn in *. by bools.
Qed.
Lemma accepts_version k w (o : kobject k) : accepts k o (set_meta (set_version w (meta_of o)) o).
Proof. destruct k; cbn; unfold binding_current; cbn; rewrite ?bool_decide_true; done. Qed.
Lemma well_named_meta {k} (o c : kobject k) :
  Name (meta_of c) = Name (meta_of o) → Namespace (meta_of c) = Namespace (meta_of o) →
  well_named (scope k (Namespace (meta_of o))) (Name (meta_of o)) c = true.
Proof.
  intros Hn Hns. unfold well_named, scope. rewrite bool_decide_true by done. destruct (cluster_scoped k); [done|].
  by rewrite bool_decide_true.
Qed.
Lemma stores_version k w (o : kobject k) :
  let c := set_meta (set_version w (meta_of o)) o in
  stores w (put w (scope k (Namespace (meta_of o))) (Name (meta_of o)) (Some c))
    (scope k (Namespace (meta_of o))) (Name (meta_of o)) c.
Proof. apply put_stores, well_named_meta; by rewrite meta_set_meta. Qed.
Lemma merge_meta k w (o old : kobject k) : k ≠ KBeegfsDriver → merge w o old = set_meta (set_version w (meta_of o)) o.
Proof. by destruct k. Qed.

#[export] Instance server_laws : ApiServerLaws kube.
Proof.
  split.
  - apply lookup_named.
  - intros w k ns n. by exists (ErrMsg "not found").
  - intros w k o Hk Hv Hs _. cbn [handle server serve_api]. cbn in Hs. rewrite Hs. eexists _, _.
    split; [done|]. split; [apply accepts_version|apply stores_version].
  - intros w k o Hk Hv [old Hs] Ha. cbn [handle server serve_api]. cbn in Hs, Ha. rewrite Hs, Ha. cbn [negb]. unfold version_ok. rewrite Hv. cbn [orb].
    rewrite bool_decide_true by done. rewrite merge_meta by done. eexists _, _.
    split; [done|]. split; [apply accepts_version|apply stores_version].
  - done.
  - intros w k o Hk Ha. cbn [handle server serve_api]. cbn in Ha. rewrite Ha.
    destruct (lookup_object w k _ _); by eexists.
  - intros w d old Hs Hv Hdel. cbn [handle server serve_api scope cluster_scoped meta_of]. cbn in Hs. rewrite Hs.
    unfold admitted. cbn [scope cluster_scoped meta_of]. rewrite Hs. cbn [granted immutable_kept andb negb].
    unfold version_ok. rewrite (bool_decide_true (_ = ResourceVersion _)), orb_true_r by done. eexists _, _.
    split; [done|]. split_and!; try done. apply put_stores.
    apply (well_named_meta (k := KBeegfsDriver) d (merge (k := KBeegfsDriver) w d old)); done.
  - intros w d old Hs Hv. destruct (lookup_named w KBeegfsDriver _ _ _ Hs) as [Hn Hns].
    cbn [handle server serve_api]. cbn in Hs. rewrite Hs.
    unfold version_ok. rewrite (bool_decide_true (_ = ResourceVersion _)), orb_true_r by done. eexists _, _.
    split; [done|]. split_and!; try done. apply put_stores.
    apply (well_named_meta (k := KBeegfsDriver) d (mkDriver (set_version w (d_meta old)) (d_Spec old) (Conditions d)));
      [exact Hn|by apply Hns].
Qed.

(** ** The manifests *)

Definition resources (cpu memory limit : Quantity) : ResourceRequirements :=
  mkResources (Some {["memory" := limit]}) (Some (<["cpu" := cpu]> {["memory" := memory]})).
Definition log_level : EnvVar := mkEnvVar "LOG_LEVEL" "3" EmptyString.
Definition node_name : EnvVar := mkEnvVar "KUBE_NODE_NAME" EmptyString "fieldRef: spec.nodeName".
Definition template (cs : list Container) : PodTemplateSpec :=
  mkTemplate (Some {["kubectl.kubernetes.io/default-container" := "beegfs"]}) (mkPodSpec cs None "hostNetwork: true") EmptyString.
Definition controller_template : PodTemplateSpec := template
  [mkContainer "csi-provisioner" "registry.k8s.io/sig-storage/csi-provisioner:v3.5.0" [log_level]
     (resources "80m" "24Mi" "256Mi") EmptyString;
   mkContainer "csi-resizer" "registry.k8s.io/sig-storage/csi-resizer:v1.11.1" [log_level]
     (resources "10m" "20Mi" "500Mi") EmptyString;
   mkContainer "beegfs" "ghcr.io/thinkparq/beegfs-csi-driver:v1.8.0" [node_name; log_level]
     (resources "100m" "16Mi" "256Mi") EmptyString].
Definition node_template : PodTemplateSpec := template
  [mkContainer "node-driver-registrar" "registry.k8s.io/sig-storage/csi-node-driver-registrar:v2.8.0" [log_level]
     (resources "80m" "10Mi" "128Mi") EmptyString;
   mkContainer "beegfs" "ghcr.io/thinkparq/beegfs-csi-driver:v1.8.0" [node_name; log_level]
     (resources "100m" "20Mi" "128Mi") EmptyString;
   mkContainer "liveness-probe" "registry.k8s.io/sig-storage/livenessprobe:v2.10.0" []
     (resources "60m" "20Mi" "128Mi") EmptyString].

Definition account (n : string) : Subject := mkSubject EmptyString n.
Definition scc_role : RoleR := mkRole (named "csi-beegfs-privileged-scc-role") "use privileged".
Definition rbac : list object :=
  [existT KServiceAccount (mkServiceAccount (named "csi-beegfs-controller-sa") EmptyString);
   existT KServiceAccount (mkServiceAccount (named "csi-beegfs-node-sa") EmptyString);
   existT KClusterRole (mkRole (named "csi-beegfs-provisioner-role") "persistentvolumes, persistentvolumeclaims");
   existT KClusterRoleBinding
     (mkRoleBinding (named "csi-beegfs-provisioner-binding") [account "csi-beegfs-controller-sa"] "csi-beegfs-provisioner-role");
   existT KRole scc_role;
   existT KRoleBinding
     (mkRoleBinding (named "csi-beegfs-privileged-scc-binding")
        [account "csi-beegfs-controller-sa"; account "csi-beegfs-node-sa"] "csi-beegfs-privileged-scc-role")].
Definition bases : manifests :=
  mkManifests (mkStatefulSet (named "csi-beegfs-controller") (mkWorkload controller_template "replicas: 1") 0 0)
    (mkDaemonSet (named "csi-beegfs-node") (mkWorkload node_template EmptyString) 0 0)
    rbac (mkCSIDriver (named "beegfs.csi.netapp.com") "attachRequired: false").

(** ** Resources and clusters *)

Definition no_image : ContainerImageOverride := mkImage EmptyString EmptyString.
Definition spec : BeegfsDriverSpec :=
  mkDriverSpec (mkImages (mkImage EmptyString "v1.7.0") no_image no_image no_image no_image)
    (mkResourceOverrides no_override no_override (mkResources (Some {["cpu" := "2"]}) None) no_override no_override)
    (Some 5) "required: linux" "required: linux"
    (mkFromFile (mkPluginConfig (mkBeegfsConfig "8010" [] [] [] [] EmptyString EmptyString None) []) []).
Definition driver (finalizers : list string) (deleted : option Z) : BeegfsDriver :=
  mkDriver (mkMeta "csi-beegfs-cr" "beegfs-csi" "7" finalizers deleted EmptyString) spec [].
Definition empty_cluster : cluster := mkCluster (λ _, ∅) 100.
Definition cluster_with (finalizers : list string) (deleted : option Z) : cluster :=
  put (k := KBeegfsDriver) empty_cluster "beegfs-csi" "csi-beegfs-cr" (Some (driver finalizers deleted)).
Definition round (w : cluster) : api_trace * ending (result unit) * cluster :=
  run serve_api (Reconcile bases "beegfs-csi" "csi-beegfs-cr") w.
Definition new_cluster : cluster := cluster_with [] None.
Definition deleting_cluster : cluster := cluster_with [finalizerClusterResourceDeletion] (Some 1700000000).

Lemma bases_wf : manifests_wf bases "beegfs-csi".
Proof.
  split; try (split; reflexivity); try reflexivity.
  - split; [apply (bool_decide_unpack _); vm_compute; reflexivity|]. repeat constructor.
  - repeat constructor; eexists; reflexivity.
  - repeat constructor; eexists; reflexivity.
Qed.

Lemma operator_converges_witness :
  ∃ tr w1, runs (Reconcile bases "beegfs-csi" "csi-beegfs-cr") new_cluster tr (Ok tt) w1
    ∧ settled bases "beegfs-csi" "csi-beegfs-cr" spec w1.
Proof.
  destruct (operator_converges (S := server) bases "beegfs-csi" "csi-beegfs-cr" (driver [] None) new_cluster) as (tr & r & w1 & H1 & H2);
    [exact bases_wf|vm_compute; reflexivity..|].
  assert ((round new_cluster).1.2 = Returned (Ok tt)) as H3 by (vm_compute; reflexivity).
  assert ((round new_cluster).1.2 = Returned r) as H4 by exact (f_equal (λ x, x.1.2) H1).
  rewrite H3 in H4. injection H4 as <-.
  exists tr, w1. exact (conj H1 (proj1 H2)).
Defined.

(** ** Runs of the other theorems *)

Lemma round_exec w : exec (Reconcile bases "beegfs-csi" "csi-beegfs-cr") (round w).1.1 (round w).1.2.
Proof. apply run_exec. Qed.

Lemma Reconcile_confined_witness :
  length (round new_cluster).1.1 = 27%nat ∧
  Forall (λ s, request_ok bases "beegfs-csi" "csi-beegfs-cr" (round new_cluster).1.1 (projT1 s)) (round new_cluster).1.1.
Proof.
  split; [vm_compute; reflexivity|]. apply (Reconcile_confined bases "beegfs-csi" "csi-beegfs-cr" _ _ (round_exec new_cluster)).
Defined.

Lemma did_lookup e (tr : api_trace) i : projT1 <$> tr !! i = Some e → did e tr.
Proof.
  intros (s & Hs & ->)%fmap_Some. exists (projT2 s). destruct s as [e r]. by apply list_elem_of_lookup_2 in Hs.
Qed.

Lemma finalizer_before_create_witness :
  ∃ tr1 tr2, (round new_cluster).1.1 = tr1 ++ tr2 ∧ finalizer_held "beegfs-csi" "csi-beegfs-cr" tr1
    ∧ ∀ k ob, ¬ did (Create k ob) tr1.
Proof.
  apply (finalizer_before_create bases _ _ _ _ KCSIDriver (m_driver bases) (round_exec new_cluster)).
  apply (did_lookup _ _ 24). vm_compute. reflexivity.
Defined.

(** The resource as the operator gives it up. *)
Definition released : BeegfsDriver :=
  match last (round deleting_cluster).1.1 with
  | Some (existT (Update KBeegfsDriver d) _) => d
  | _ => driver [] None
  end.
Lemma finalizer_removed_last_witness : deleted KCSIDriver (m_driver bases) (round deleting_cluster).1.1.
Proof.
  destruct (finalizer_removed_last bases _ _ _ _ released (round_exec deleting_cluster)) as (tr1 & r & Htr & _ & Hd & _).
  - apply (did_lookup _ _ 7). vm_compute. reflexivity.
  - apply (bool_decide_unpack _). vm_compute. exact I.
  - rewrite Htr. apply deleted_app. left. exact Hd.
Defined.

Lemma overrides_applied_witness :
  ∃ tmpl', fill_template (mkConfigMap (named "csi-beegfs-config") ∅) newSecret newTLS spec "required: linux"
             setNodeResources node_template = Some tmpl'
  ∧ pod_Affinity (t_Spec tmpl') = Some (mkAffinity (Some "required: linux") EmptyString).
Proof.
  destruct (overrides_applied true (mkConfigMap (named "csi-beegfs-config") ∅) newSecret newTLS spec "required: linux"
    node_template) as (tmpl' & H1 & _ & H2 & _); [exact (wf_ds_resources _ _ bases_wf)|].
  exists tmpl'. exact (conj H1 H2).
Defined.

(** ** Permissions *)

(** A cluster whose security context role is not that of the manifests. *)
Definition old_role_cluster : cluster :=
  put (k := KRole) new_cluster "beegfs-csi" "csi-beegfs-privileged-scc-role"
    (Some (mkRole (mkMeta "csi-beegfs-privileged-scc-role" "beegfs-csi" "12" [] None "csi-beegfs-cr") "use restricted")).

(** A round can ask for updates of config maps, roles, role bindings and
    cluster role bindings, which the operator's permission markers do not
    grant, and for nothing else that they do not grant; a role that differs
    from the manifest's leads to such an update, which the server refuses and
    with which the round ends. *)
Theorem updates_without_permission :
  (∀ (KB : Kube) (KL : KubeLaws KB) M ns name tr o e, exec (Reconcile (KB := KB) M ns name) tr o → did e tr → granted e = false →
     ∃ k ob, e = Update k ob ∧ k ∈ [KConfigMap; KClusterRoleBinding; KRole; KRoleBinding])
  ∧ ∃ ob err, last (round old_role_cluster).1.1 = Some (existT (Update KRole ob) (Err err))
      ∧ (round old_role_cluster).1.2 = Returned (Err err) ∧ granted (Update KRole ob) = false.
Proof.
  split.
  - intros KB KL M ns name tr o e Hx Hd Hg. apply (only_did _ _ _ (Reconcile_requests M ns name tr o Hx)) in Hd.
    destruct e as [k ns' n|k ob|k ob|d|k ob]; try done.
    + exists k, ob. split; [done|]. destruct k; try done; try set_solver; destruct Hd as (d0 & _ & Hn & _); set_solver.
    + by destruct Hd as [_ Hd], k.
  - eexists _, _. split_and!; vm_compute; reflexivity.
Qed.
