(* ===== verification/OperatorMain.v ===== *)
(** * OperatorMain: starting the operator (operator/main.go, SetupWithManager)

    The operator's process: its flags, the options of its manager, the kinds it
    watches, and the calls into controller-runtime, which are events. The flags
    of the zap logger are a parameter. *)
From S2P Require Import Prelude GoStrings GoFlag Prog Config Kube.
Local Open Scope Z_scope.

(** ** The API group (groupversion_info.go, beegfsdriver_types.go) *)

Record GroupVersion_ := mkGroupVersion { Group : string; Version : string }.
Definition GroupVersion : GroupVersion_ := mkGroupVersion "beegfs.csi.netapp.com" "v1".
(** A builder of schemes: the types that are registered for a group. *)
Record Builder := mkBuilder { b_GroupVersion : GroupVersion_; b_types : list string }.
Definition Builder_Register (types : list string) (b : Builder) : Builder := mkBuilder (b_GroupVersion b) (b_types b ++ types).
Definition SchemeBuilder : Builder := Builder_Register ["BeegfsDriver"; "BeegfsDriverList"] (mkBuilder GroupVersion []).

(** What was added to a scheme: the kinds of client-go, and those of a builder. *)
Inductive registration := ClientGoKinds | BuilderKinds (b : Builder).
Abbreviation Scheme_ := (list registration).

(** ** The manager *)

Record tls_Config := mkTLS { NextProtos : list string; tls_other : string }.
Inductive FilterProvider := WithAuthenticationAndAuthorization.
Record Options := mkOptions {
  opt_Scheme : Scheme_;
  DefaultNamespaces : list string;
  MetricsBindAddress : string;
  SecureServing : bool;
  TLSOpts : list (tls_Config → tls_Config);
  MetricsFilter : FilterProvider;
  WebhookPort : Z;
  HealthProbeBindAddress : string;
  LeaderElection : bool;
  LeaderElectionID : string
}.
(** What a controller is built from: the kind it reconciles, and the kinds whose
    objects lead back to their owner when they change. *)
Record controller := mkController { For : kind; Owns : list kind }.

Inductive mgr_event :=
  | AddClientGoToScheme
  | AddToScheme (b : Builder)
  | GetConfigOrDie
  | NewManager (o : Options)
  | Complete (c : controller)
  | AddHealthzCheck (name : string)
  | AddReadyzCheck (name : string)
  | StartManager.
Definition mgr_response (_ : mgr_event) : Type := result unit.
Abbreviation mgr_io := (prog mgr_event mgr_response).

Definition SetupWithManager : mgr_io (result unit) :=
  trigger (Complete (mkController KBeegfsDriver [KStatefulSet; KDaemonSet; KConfigMap; KSecret])).

(** ** main *)

Definition operator_flags : FlagSet := list_to_map
  [("metrics-bind-address", FString ":8080");
   ("health-probe-bind-address", FString ":8081");
   ("leader-elect", FBool false);
   ("enable-http2", FBool false)].

(** Without a namespace the manager's cache watches all of them. *)
Definition defaultNamespaces (driverNamespace : string) : list string :=
  if bool_decide (driverNamespace = EmptyString) then [] else [driverNamespace].
Definition disable_http2 (c : tls_Config) : tls_Config := mkTLS ["http/1.1"] (tls_other c).
Definition tlsOpts (enableHTTP2 : bool) : list (tls_Config → tls_Config) := if enableHTTP2 then [] else [disable_http2].
Definition manager_options (scheme : Scheme_) (fs : FlagSet) (driverNamespace : string) : Options :=
  mkOptions scheme (defaultNamespaces driverNamespace) (get_string fs "metrics-bind-address") true
    (tlsOpts (get_bool fs "enable-http2")) WithAuthenticationAndAuthorization 9443
    (get_string fs "health-probe-bind-address") (get_bool fs "leader-elect") "0d697945.csi.netapp.com".

(** A call whose failure is logged and ends the process with status 1. *)
Definition or_exit (p : mgr_io (result unit)) (k : mgr_io Z) : mgr_io Z :=
  r ← p; match r with Err _ => mret 1 | Ok _ => k end.
(** [utilruntime.Must] *)
Definition Must (p : mgr_io (result unit)) (k : mgr_io Z) : mgr_io Z :=
  r ← p; match r with Err err => Panic (error_text err) | Ok _ => k end.

(** [init] and [main]: the status the process exits with. The scheme is a
    variable of the package, to which [init] adds. *)
Definition main (zap_flags : FlagSet) (Getenv : string → string) (Args : list string) : mgr_io Z :=
  let scheme := [] in
  Must (trigger AddClientGoToScheme) (
  let scheme := scheme ++ [ClientGoKinds] in
  Must (trigger (AddToScheme SchemeBuilder)) (
  let scheme := scheme ++ [BuilderKinds SchemeBuilder] in
  match Parse (zap_flags ∪ operator_flags) (tail Args) with
  | ErrHelp => mret 0
  | ParseError => mret 2
  | Parsed fs _ =>
      or_exit (trigger GetConfigOrDie) (
      or_exit (trigger (NewManager (manager_options scheme fs (Getenv "BEEGFS_CSI_DRIVER_NAMESPACE")))) (
      or_exit SetupWithManager (
      or_exit (trigger (AddHealthzCheck "healthz")) (
      or_exit (trigger (AddReadyzCheck "readyz")) (
      or_exit (trigger StartManager) (
      mret 0))))))
  end)).

(** ** Facts *)

(** The scheme with both API groups. *)
Definition full_scheme : Scheme_ := [ClientGoKinds; BuilderKinds (mkBuilder GroupVersion ["BeegfsDriver"; "BeegfsDriverList"])].

(** The calls of a process that starts its manager, in their order. *)
Definition startup (fs : FlagSet) (driverNamespace : string) : list mgr_event :=
  [AddClientGoToScheme; AddToScheme SchemeBuilder; GetConfigOrDie; NewManager (manager_options full_scheme fs driverNamespace);
   Complete (mkController KBeegfsDriver [KStatefulSet; KDaemonSet; KConfigMap; KSecret]);
   AddHealthzCheck "healthz"; AddReadyzCheck "readyz"; StartManager].

(** A run that made the calls [es], all but perhaps the last successfully. *)
Definition succeeded (tr : trace mgr_response) (es : list mgr_event) : Prop :=
  tr = (λ e, existT (P := mgr_response) e (Ok tt)) <$> es.
Definition failed_last (tr : trace mgr_response) (es : list mgr_event) : Prop :=
  ∃ es0 e err, es = es0 ++ [e] ∧ tr = ((λ e, existT (P := mgr_response) e (Ok tt)) <$> es0) ++ [existT e (Err err)].

Fixpoint all_or_exit (es : list mgr_event) : mgr_io Z :=
  match es with [] => mret 0 | e :: r => or_exit (trigger e) (all_or_exit r) end.

Lemma all_or_exit_spec es : ∀ tr o, exec (all_or_exit es) tr o →
  (succeeded tr es ∧ o = Returned 0) ∨ ∃ es0 es1, es = es0 ++ es1 ∧ failed_last tr es0 ∧ o = Returned 1.
Proof.
  induction es as [|e es IH]; intros tr o Hx; [left; by destruct Hx as [-> ->]|].
  destruct Hx as (r & tr' & -> & Hx). cbn in Hx. destruct r as [[]|err].
  - apply IH in Hx as [[-> ->]|(es0 & es1 & -> & (es2 & e' & err & -> & ->) & ->)]; [by left|right].
    exists (e :: es2 ++ [e']), es1. split_and!; [done| |done]. by exists (e :: es2), e', err.
  - destruct Hx as [-> ->]. right. exists [e], es. split_and!; [done| |done]. by exists [], e, err.
Qed.

Lemma Must_spec e k tr o : exec (Must (trigger e) k) tr o →
  (∃ tr', tr = existT e (Ok tt) :: tr' ∧ exec k tr' o) ∨ ∃ err, tr = [existT e (Err err)] ∧ o = Panicked (error_text err).
Proof.
  intros (r & tr' & -> & Hx). cbn in Hx. destruct r as [[]|err]; [left; eauto|].
  right. destruct Hx as [-> ->]. eauto.
Qed.

(** C18: the operator starts its manager only after both API groups are in the scheme,
    the manager is made with that scheme, the controller watches the custom resource and the
    workloads, Config Maps and Secrets it owns, and both health checks are in
    place; the first call that fails is the last, and then the process does not
    exit with 0. The manager watches the one namespace it is told, or all; it
    serves metrics over TLS to authorized clients only, and without HTTP/2
    unless the flag asks for it. *)
Theorem operator_startup zap_flags Getenv Args fs rest tr o :
  Parse (zap_flags ∪ operator_flags) (tail Args) = Parsed fs rest →
  exec (main zap_flags Getenv Args) tr o →
  let ns := Getenv "BEEGFS_CSI_DRIVER_NAMESPACE" in
  let opts := manager_options full_scheme fs ns in
  ((succeeded tr (startup fs ns) ∧ o = Returned 0)
   ∨ ∃ es0 es1, startup fs ns = es0 ++ es1 ∧ failed_last tr es0 ∧ o ≠ Returned 0)
  ∧ (DefaultNamespaces opts = [] ↔ ns = EmptyString) ∧ (∀ n, n ∈ DefaultNamespaces opts → n = ns)
  ∧ SecureServing opts = true ∧ MetricsFilter opts = WithAuthenticationAndAuthorization
  ∧ (∀ c, NextProtos (foldl (λ c f, f c) c (TLSOpts opts))
          = if get_bool fs "enable-http2" then NextProtos c else ["http/1.1"]).
Proof.
  intros Hp Hx ns opts. split_and!.
  - unfold main in Hx. rewrite Hp in Hx. fold ns in Hx.
    apply Must_spec in Hx as [(tr1 & -> & Hx)|(err & -> & ->)].
    2: { right. exists [AddClientGoToScheme]. eexists. split_and!; [done| |done]. by exists [], AddClientGoToScheme, err. }
    apply Must_spec in Hx as [(tr2 & -> & Hx)|(err & -> & ->)].
    2: { right. exists [AddClientGoToScheme; AddToScheme SchemeBuilder]. eexists. split_and!; [done| |done].
         by exists [AddClientGoToScheme], (AddToScheme SchemeBuilder), err. }
    apply (all_or_exit_spec (drop 2 (startup fs ns))) in Hx as [[-> ->]|(es0 & es1 & Hes & (es2 & e & err & -> & ->) & ->)].
    + by left.
    + right. exists (AddClientGoToScheme :: AddToScheme SchemeBuilder :: es2 ++ [e]), es1. split_and!; [|by exists (AddClientGoToScheme :: AddToScheme SchemeBuilder :: es2), e, err|done].
      change (startup fs ns) with (AddClientGoToScheme :: AddToScheme SchemeBuilder :: drop 2 (startup fs ns)). by rewrite Hes.
  - cbn. unfold defaultNamespaces. by case_bool_decide.
  - cbn. unfold defaultNamespaces. case_bool_decide; set_solver.
  - done.
  - done.
  - intros c. cbn. by destruct (get_bool fs "enable-http2").
Qed.

(** An operator that watches its own namespace; every call succeeds. *)
Definition cluster (e : mgr_event) (w : unit) : mgr_response e * unit := (Ok tt, w).
Definition example_env (name : string) : string :=
  if bool_decide (name = "BEEGFS_CSI_DRIVER_NAMESPACE") then "beegfs-csi" else EmptyString.
Definition example_main : mgr_io Z := main ∅ example_env ["/manager"; "--leader-elect"].

Lemma operator_startup_witness :
  (∃ c, NextProtos (foldl (λ c f, f c) (mkTLS ["h2"] EmptyString) c) = ["http/1.1"])
  ∧ (run cluster example_main tt).1.2 = Returned 0.
Proof.
  split; [|vm_compute; reflexivity].
  destruct (operator_startup ∅ example_env ["/manager"; "--leader-elect"]
    (<["leader-elect" := FBool true]> (∅ ∪ operator_flags)) [] (run cluster example_main tt).1.1 (run cluster example_main tt).1.2)
    as (_ & _ & _ & _ & _ & H).
  - reflexivity.
  - apply run_exec.
  - eexists. exact (H (mkTLS ["h2"] EmptyString)).
Defined.
